(* ===== verification/_CoqProject ===== *)
-Q . S2P
Prelude.v
GoStrings.v
Sha256.v
Errors.v
Key.v
Config.v
Ring.v
Protocol.v
Index.v
FileSystem.v
Store.v
StoreSpec.v
Heap.v
GoFloat.v
Strconv.v
Restart.v
Fmt.v
Json.v
Codec.v
Evict.v
Client.v
Coordinator.v
HttpApi.v
Metrics.v
Cluster.v
Repair.v
Reads.v
ClusterSpec.v
Chaos.v
Bench.v
LoadConfig.v
Node.v
Lifecycle.v
StatsPage.v
ChaosRun.v
Command.v
Report.v
Render.v
ChaosReport.v
