(* ===== verification/Prelude.v ===== *)
(** * KilnCache: a verification development

    KilnCache is a replicated cache for build artefacts written in Go.  A node
    stores objects in a sharded directory tree, keeps a metadata index beside it,
    places every key on a few nodes of a static cluster by rendezvous hashing,
    acknowledges a write only when every holder has it, evicts under a disk quota
    and repairs missing copies in the background.  Two more commands load a cluster
    and disturb it while checking what it serves.  This development models the
    node, from the bytes on its disk to a cluster of nodes over a faulty network,
    and the two commands, and proves what makes them correct.

    ** The parts of the program and the files that model them

    The Go language and its library:
    - [Prelude]: integers at their width ([u64], [i64]), [sort.Slice], which
      is stable on short lists as the one of Go is, and lemmas on lists;
    - [GoStrings]: the functions of [strings] and [filepath] in use;
    - [Sha256]: SHA-256 as an executable function, and hexadecimal encoding;
    - [Errors]: one type of error values with [errors.Is] and [errors.As]
      (internal/storage/errors.go and the errors of internal/cluster), and the state
      and error monad [M] with its tactic [mrun];
    - [Heap]: container/heap; [GoFloat]: binary64 arithmetic; [Strconv]: the parsers
      of numbers, booleans and durations; [Fmt]: the verbs of fmt in use, with an exact
      %.Nf; [Json]: the encoder and the decoder of encoding/json; [Codec]: a class of
      the types that are written and read as JSON, with instances for the types of Go
      and the law that a value is read back;
    - [FileSystem]: a file tree with the system calls in use, each of which can fail.

    Storage (internal/storage):
    - [Key] (key.go): namespaces, [ValidateKey], [ObjectPath];
    - [Index] (index.go): the table of objects, the queue of access times and every
      operation; SQLite is the meaning of its statements, with a fault at each call,
      and [SqlScan] is the order in which it enumerates a table;
    - [Store] (store.go, fsutil.go): [Put], [Get], [Stat], [Delete], [Walk],
      [Reconcile], [Open] and the reader's methods; the state is the record [Store],
      an environment record per operation gives the error of each system call;
    - [StoreSpec]: the invariant [store_ok], the abstract view of a store as a map of
      objects and the refinement theorems;
    - [Restart]: the disks [used_disk] that starts, runs, failures and crashes leave
      behind from an empty data directory, and that a store opened on one is in order;
    - [Evict] (evict.go): policy, quota, [Sweep] and the evictor's loop.

    Cluster (internal/cluster, internal/protocol):
    - [Config], [Ring] (ring.go): membership and placement, at 64-bit width;
    - [Protocol] (protocol.go): hops, headers and exchanged values;
    - [Client] (client.go): the HTTP peer client over a [Transport];
    - [Coordinator] (coordinator.go): [Put], [Open] and [Stat] of one node, in the
      state of the whole world of which [Host] singles out the node; the peers are a
      record of operations [PeerClient], and the scheduler orders the fan-out.

    Front door, repair and assembly:
    - [HttpApi] (internal/httpapi): the cache handler over a [Backend], the router,
      the middleware and the health endpoints;
    - [Metrics] (metrics.go, cache.go): the collectors of the requests over classes for
      a vector of counters and a histogram, and the step relation [watch_step] in which
      requests in flight make the observations that [ServeHTTP] returns for them;
    - [Cluster]: all nodes together; [serve] is a node answering a request, and the
      requests it sends are served by the other nodes through a network that
      delivers, refuses, cuts or loses messages;
    - [Repair] (internal/repair): audit passes, repair of one object, and the pool as
      the step relations [rpass], the timer of [Run], and [rmove], everything else;
    - [Reads]: downloads from the whole cluster, with disks that fail in the middle
      of a file;
    - [ClusterSpec]: the cluster as the step relation [cluster_step], whose steps are
      requests, repairs and store operations on any member;
    - [LoadConfig] (internal/config): settings, validation, flags, environment;
    - [Node] (internal/node, server.go, metrics.go): [New], the server, the derived
      metrics and the serving phase;
    - [Lifecycle] (node.go): [Stats], and [Run] and [Close] as the state machine
      [life_step] with the evictor, the flusher and the repair worker;
    - [Command] (cmd/kilncache, internal/logging, internal/buildinfo): exit codes, the
      health probe, the version text and the logger's settings.

    The tools (cmd/chaos, cmd/bench):
    - [Chaos] (chaos.go, faults.go, main.go): the ledger, one iteration of a worker,
      fault injection over a [Compose] class, replica counts, convergence, the final
      verification and the verdict; [StatsPage] (stats.go, health.go,
      faults.go): the page of counters a node writes and the chaos command reads, and
      the answers of the probes; [ChaosRun]: the whole run; [ChaosReport] (main.go,
      chaos.go): the options, the report as JSON and the printed summary;
    - [Bench] (latency.go, corpus.go, runner.go, observe.go, scenarios.go, main.go):
      percentiles, objects, one run, preload, scenarios and the command line;
    - [Report] (scenarios.go, runner.go, observe.go, latency.go): the session
      [execute], which is [measure] and [writeReport], its setup, the report and its
      JSON, and the profiles;
    - [Render] (render.go): the document, section by section, from the result files,
      and [tables], which reads the rows of the tables back.  On the results under
      bench/results/ the model gives the committed BENCHMARKS.md byte for byte, the
      %v texts of the numbers being given.

    A method that changes state is a function from the state to the new state and a
    result; a failure is a value of [error]; a goroutine is a step or an element of an
    explicit order; a panic is [None].  Names are those of the source, with a prefix
    where Go reuses a name ([coord_Put], [http_Put], [Stat_] for the method [Stat]).

    ** What is shown

    - Storage: whatever fails, content-addressed objects hash to their names
      ([cas_integrity]); [Put] and [Delete] refine updates of a map and change nothing
      when they fail ([put_refines], [delete_refines]); what was stored is read back
      ([put_get_roundtrip]); a verified read reports corruption ([verified_read]);
      [Reconcile] and [Open] rebuild the index from the disk
      ([reconcile_rebuilds_index], [reconcile_all_or_nothing], [open_ready]).
    - Index and keys: no interleaving brings a removed row back, the queue is bounded
      ([touch_queue_bounded]),
      batches are atomic, and paths are confined and injective.
    - Eviction: a sweep ends at the low-water mark and not far below it, takes the
      lowest scores first; under faults it never leaves a file without a row, and it ends
      if the rows have sizes or their removal works from some round on
      ([sweep_never_undercounts]).
    - Placement: the ring does not depend on the order of its members or on the sort,
      [mix] is a bijection, and a new member moves only the keys it takes.
    - Replication: an acknowledged write is on every holder, for one coordinator
      ([acknowledged_put_is_replicated]) and for a client of the whole cluster
      ([acknowledged_write_is_on_every_holder]); requests are not forwarded in circles
      ([forwarding_is_bounded]); a partition does not look like a miss
      ([miss_needs_every_peer]); the front door's statuses are true.
    - Repair: auditing skips nothing and covers the index, and a repair restores copies
      and respects quotas; the pool is bounded, and once cancelled it has a bounded
      number of steps left besides those of its timer ([repair_pool_shuts_down]).
    - The cluster as one store: under every interleaving and every fault its objects
      hash to their keys ([cluster_integrity]); a complete download is intact
      ([read_is_intact]); a copy anywhere is found ([read_finds_any_copy]); what was
      acknowledged can be read from any node, where a node that is no holder but has an
      action result of its own serves that one ([acknowledged_write_is_readable]).
    - Life: a node is ready exactly while it serves and after serving ended by itself,
      closes its store last ([node_life_is_orderly]) and can always shut down
      ([node_shuts_down]); the
      container's probe tells its readiness ([health_check_tells_readiness]); its
      metrics count the requests, never panic and stay few
      ([metrics_account_for_requests]).
    - Tools: the chaos command has a balanced ledger, blames the cluster for
      corruption only if digests collide, counts the copies that are on the disks,
      learns what the nodes evicted ([stats_reach_the_runner]) and ends with a verdict
      that means what it says ([chaos_run_ends]); the benchmark's counts add up, its
      percentiles are nearest ranks, its preload puts every object on its holders and
      its scenarios report every run.  What was measured is what is published: the
      document made of the files has the figures of the session
      ([document_shows_the_session]) and of the chaos run
      ([chaos_figures_are_published]).
    - Assembly: flags win over the environment, peer lists round-trip, a loaded
      configuration makes a node unless this node's name has surrounding space
      ([loaded_node_starts]), and nodes configured alike, on new or used disks, form a
      cluster to which the replication theorems apply
      ([started_nodes_form_a_cluster]).

    ** Bounds and fuel

    The loops of [copyVerified], [peer_copy], [Sweep] and [parse_duration] have fuel;
    lemmas and theorems show that the length of what is copied, the number of rows or
    the sum of their sizes, and the length of the string are enough.  [serve] recurses on the length of the
    chain of nodes, and [forwarding_is_bounded] shows that three is enough.  The heap
    operations recurse on the length of the heap, an audit pass on what is left of
    its budget.  The waiting loops of the tools have fuel above the number of rounds
    before their deadline, their sampling loops the length of the list, and the JSON
    decoder two calls for each byte ([parse_fuel]); [chaos_run_ends],
    [runScenario_total] and [document_shows_the_session] show that a result is
    reached.

    ** What is not modelled, and why

    SQLite, the HTTP transport, docker compose, prometheus, [url.Parse] and name
    resolution are parameters or injected outcomes.  Contexts appear as the errors they
    cause; time is the value each operation reads, and math/rand the numbers it draws.
    Log lines, the pages of pprof and the index page, the text format of prometheus
    and the settings of connection pools have no definition: nothing in the program
    depends on them.  Host facts, the commit and what a profile endpoint answers are
    inputs.  The shortest text of a float64, which encoding/json and %v print, is a
    parameter, and the theorems that read it back ask that it is a number's text.  The
    decoder compares the keys of an object exactly, where Go falls back to comparing
    without case.  Strings are bytes with the ASCII meaning of case and space, and the conversion of a
    float64 that does not fit an int64 is the one of amd64.

    Abstractions to keep in mind: an operation on a store is one step, so that two
    operations never overlap in the middle, and a crash in the middle of an upload
    leaves its temporary file ([ud_killed]); the counters of the statistics
    are unbounded where Go's wrap at 64 bits; a symbolic link is
    [Other], and no path leads through it; in a node's life the end of a worker's loop is one step, its
    inside being the subject of [Evict] and [Repair], and no time passes; a schedule of
    the tools' workers is a finite list of turns; nothing outside the audit calls the
    repair worker's [Enqueue], which has no caller in the program. *)

From Stdlib Require Export ZArith Lia Sorting.Sorted Ascii.
From stdpp Require Export base tactics list gmap strings sorting fin_maps relations.
From stdpp Require Export pretty.

#[global] Set Default Goal Selector "!".

Declare Scope kiln_scope.
Delimit Scope kiln_scope with kiln.

(** ** Machine integers

    Go's [uint64] and [int64] are values of [Z] kept in range by the two
    wrap-around functions below. *)

Definition u64 (z : Z) : Z := (z mod 2 ^ 64)%Z.
Definition i64 (z : Z) : Z := ((z + 2 ^ 63) mod 2 ^ 64 - 2 ^ 63)%Z.

Definition in_u64 (z : Z) : Prop := (0 ≤ z < 2 ^ 64)%Z.
Definition in_i64 (z : Z) : Prop := (- 2 ^ 63 ≤ z < 2 ^ 63)%Z.

Lemma u64_range z : in_u64 (u64 z).
Proof. apply Z.mod_pos_bound. lia. Qed.

Lemma u64_id z : in_u64 z → u64 z = z.
Proof. apply Z.mod_small. Qed.

Lemma i64_range z : in_i64 (i64 z).
Proof.
  unfold i64, in_i64. pose proof (Z.mod_pos_bound (z + 2 ^ 63) (2 ^ 64)). lia.
Qed.

Lemma i64_id z : in_i64 z → i64 z = z.
Proof. unfold i64, in_i64. intros. rewrite Z.mod_small; lia. Qed.

(** ** Sums of a list of integers *)

Definition Zsum (l : list Z) : Z := foldr Z.add 0%Z l.

Lemma Zsum_app l1 l2 : Zsum (l1 ++ l2) = (Zsum l1 + Zsum l2)%Z.
Proof. induction l1 as [|x l1 IH]; simpl; [done|]. rewrite IH. lia. Qed.

Lemma Zsum_perm l1 l2 : l1 ≡ₚ l2 → Zsum l1 = Zsum l2.
Proof. induction 1; simpl; lia. Qed.

Lemma Zsum_nonneg l : Forall (Z.le 0) l → (0 ≤ Zsum l)%Z.
Proof. induction 1; simpl; lia. Qed.

(** ** Automation *)

Create HintDb kiln.
#[export] Hint Resolve u64_range i64_range : kiln.

(** Destruct every boolean test and every option scrutinised by a hypothesis or
    by the goal; used on the translated handlers, whose control flow is a
    sequence of guards and early returns. *)
Ltac step_case :=
  match goal with
  | |- context [match ?x with _ => _ end] => destruct x eqn:?
  | H : context [match ?x with _ => _ end] |- _ => destruct x eqn:?
  end.

(** Turn boolean facts into propositions. *)
Ltac boolify :=
  repeat match goal with
  | H : (_ && _)%bool = true |- _ => apply andb_true_iff in H; destruct H
  | H : (_ || _)%bool = false |- _ => apply orb_false_iff in H; destruct H
  | H : negb _ = true |- _ => apply negb_true_iff in H
  | H : negb _ = false |- _ => apply negb_false_iff in H
  | H : bool_decide _ = true |- _ => apply bool_decide_eq_true in H
  | H : bool_decide _ = false |- _ => apply bool_decide_eq_false in H
  | H : (_ =? _)%Z = true |- _ => apply Z.eqb_eq in H
  | H : (_ =? _)%Z = false |- _ => apply Z.eqb_neq in H
  | H : (_ <? _)%Z = true |- _ => apply Z.ltb_lt in H
  | H : (_ <? _)%Z = false |- _ => apply Z.ltb_ge in H
  | H : (_ <=? _)%Z = true |- _ => apply Z.leb_le in H
  | H : (_ <=? _)%Z = false |- _ => apply Z.leb_gt in H
  | H : (_ <? _)%nat = true |- _ => apply Nat.ltb_lt in H
  | H : (_ <? _)%nat = false |- _ => apply Nat.ltb_ge in H
  | H : (_ <=? _)%nat = true |- _ => apply Nat.leb_le in H
  | H : (_ <=? _)%nat = false |- _ => apply Nat.leb_gt in H
  | H : (_ =? _)%nat = true |- _ => apply Nat.eqb_eq in H
  | H : (_ =? _)%nat = false |- _ => apply Nat.eqb_neq in H
  | H : String.eqb _ _ = true |- _ => apply String.eqb_eq in H
  | H : String.eqb _ _ = false |- _ => apply String.eqb_neq in H
  end.

(** ** Generic list lemmas *)

Lemma take_elem_of {A} n (l : list A) x : x ∈ take n l → x ∈ l.
Proof. intros H. rewrite <-(take_drop n l). set_solver. Qed.

(** ** [sort.Slice]

    Go's [sort.Slice] returns some permutation of its argument in which no
    element is [less] than one before it.  [sort_Slice] is one such function: the
    insertion sort that Go uses for up to twelve elements, which keeps equal
    elements in their order, and a merge sort for more.  [sort_Slice_unique] says
    that where [less] separates the elements, every such permutation is the same
    list, so the choice of algorithm does not matter. *)

Section sort_slice.
Context {A : Type} (less : A → A → bool).

Definition not_after (x y : A) : Prop := less y x = false.

#[export] Instance not_after_dec : RelDecision not_after.
Proof. intros x y. unfold not_after. apply _. Defined.

(** An element moves down past those it is less than; the last one comes first. *)
Fixpoint sift (x : A) (l : list A) : list A :=
  match l with [] => [x] | y :: l' => if less x y then y :: sift x l' else x :: l end.

Definition insertion_sort (l : list A) : list A := reverse (foldl (λ acc x, sift x acc) [] l).

Definition sort_Slice (l : list A) : list A :=
  if (length l <=? 12)%nat then insertion_sort l else merge_sort not_after l.

Definition sorted_by_less (l : list A) : Prop := StronglySorted not_after l.

Lemma sift_perm x l : sift x l ≡ₚ x :: l.
Proof. induction l as [|y l IH]; cbn [sift]; [done|]. destruct (less x y); [|done]. rewrite IH. apply Permutation_swap. Qed.

Lemma insertion_perm acc l : foldl (λ acc x, sift x acc) acc l ≡ₚ l ++ acc.
Proof.
  revert acc. induction l as [|x l IH]; intros acc; cbn [foldl app]; [done|]. rewrite IH, sift_perm.
  symmetry. apply Permutation_middle.
Qed.

Lemma sort_Slice_perm l : sort_Slice l ≡ₚ l.
Proof.
  unfold sort_Slice. destruct (_ <=? _)%nat; [|apply merge_sort_Permutation].
  unfold insertion_sort. by rewrite reverse_Permutation, insertion_perm, app_nil_r.
Qed.

Lemma sift_sorted x l :
  Total not_after → Transitive not_after → StronglySorted (flip not_after) l → StronglySorted (flip not_after) (sift x l).
Proof.
  intros Htot Htr. induction 1 as [|y l Hl IH Hy]; cbn [sift]; [by repeat constructor|]. destruct (less x y) eqn:E.
  - constructor; [done|]. rewrite sift_perm. constructor; [|done]. destruct (Htot x y) as [H|H]; [exact H|].
    unfold not_after in H. congruence.
  - constructor; [by constructor|]. constructor; [exact E|]. eapply Forall_impl; [exact Hy|]. intros z Hz.
    unfold flip in *. by transitivity y.
Qed.

Lemma StronglySorted_reverse (R : relation A) l : StronglySorted (flip R) l → StronglySorted R (reverse l).
Proof.
  induction 1 as [|y l Hl IH Hy]; [constructor|]. rewrite reverse_cons. apply StronglySorted_app. split_and!; [|done|by repeat constructor].
  intros a b Ha ->%list_elem_of_singleton. rewrite Forall_forall in Hy. apply Hy. by apply elem_of_reverse.
Qed.

Lemma sort_Slice_sorted l :
  Total not_after → Transitive not_after → sorted_by_less (sort_Slice l).
Proof.
  intros ??. unfold sort_Slice. destruct (_ <=? _)%nat; [|by apply StronglySorted_merge_sort].
  apply StronglySorted_reverse. assert (StronglySorted (flip not_after) (@nil A)) as Hs by constructor. revert Hs.
  generalize (@nil A). induction l as [|x l IH]; intros acc Hs; cbn [foldl]; [done|]. by apply IH, sift_sorted.
Qed.

(** [less] tells the elements of [l] apart. *)
Definition separates (l : list A) : Prop :=
  ∀ x y, x ∈ l → y ∈ l → not_after x y → not_after y x → x = y.

Lemma sorted_by_less_unique l1 l2 :
  separates l1 → sorted_by_less l1 → sorted_by_less l2 → l1 ≡ₚ l2 → l1 = l2.
Proof.
  intros Hsep H1 H2 Hp. apply (StronglySorted_unique_strong not_after); [|done..].
  intros x y Hx Hy. apply Hsep; [done|]. by rewrite Hp.
Qed.

Lemma sort_Slice_unique l l' :
  Total not_after → Transitive not_after → separates l →
  l' ≡ₚ l → sorted_by_less l' → l' = sort_Slice l.
Proof.
  intros ?? Hsep Hp Hs. symmetry. apply sorted_by_less_unique.
  - intros x y Hx Hy. rewrite sort_Slice_perm in Hx. rewrite sort_Slice_perm in Hy. by apply Hsep.
  - by apply sort_Slice_sorted.
  - done.
  - by rewrite sort_Slice_perm, Hp.
Qed.
End sort_slice.

Lemma StronglySorted_filter {A} (R : relation A) (P : A → Prop) `{!∀ x, Decision (P x)} l :
  StronglySorted R l → StronglySorted R (filter P l).
Proof.
  induction 1 as [|x l Hs IH Hx]; [constructor|]. rewrite filter_cons.
  case_decide; [|done]. constructor; [done|].
  rewrite Forall_forall in Hx. apply Forall_forall. intros y [_ Hy]%list_elem_of_filter. auto.
Qed.

Lemma StronglySorted_fmap {A B} (R : relation B) (f : A → B) l :
  StronglySorted R (f <$> l) → StronglySorted (λ x y, R (f x) (f y)) l.
Proof.
  induction l as [|x l IH]; [constructor|]. csimpl. intros H. inv H. constructor; [auto|].
  by rewrite Forall_fmap in H3.
Qed.

(** [v << k | d] is [v * 2 ^ k + d] where [d] fits below the shift. *)
Lemma lor_shiftl_add v d k : (0 ≤ k → 0 ≤ d < 2 ^ k → Z.lor (Z.shiftl v k) d = v * 2 ^ k + d)%Z.
Proof.
  intros Hk Hd. assert (Z.land (Z.shiftl v k) d = 0)%Z as Hl.
  { apply Z.bits_inj'. intros i Hi. rewrite Z.land_spec, Z.bits_0.
    destruct (Z.lt_ge_cases i k) as [Hlt|Hge].
    - by rewrite Z.shiftl_spec_low.
    - destruct (Z.eq_dec d 0%Z) as [->|Hne]; [by rewrite Z.bits_0, andb_false_r|].
      rewrite (Z.bits_above_log2 d i); [apply andb_false_r|lia|].
      assert (Z.log2 d < k)%Z; [|lia]. apply Z.log2_lt_pow2; lia. }
  pose proof (Z.add_lor_land (Z.shiftl v k) d) as H. rewrite Hl in H.
  rewrite Z.shiftl_mul_pow2 in * by lia. lia.
Qed.

Lemma NoDup_fmap_inj_in {A B} (f : A → B) (l : list A) x y :
  NoDup (f <$> l) → x ∈ l → y ∈ l → f x = f y → x = y.
Proof.
  intros Hnd Hx Hy Hf. apply list_elem_of_lookup in Hx as [i Hi]. apply list_elem_of_lookup in Hy as [j Hj].
  assert (i = j) as ->; [|congruence].
  eapply (NoDup_lookup (f <$> l)); [done|by rewrite list_lookup_fmap, Hi|].
  by rewrite list_lookup_fmap, Hj, Hf.
Qed.

Lemma take_S_split {A} n (l : list A) :
  ∃ x, (length x ≤ 1)%nat ∧ take (S n) l = take n l ++ x.
Proof.
  exists (take 1 (drop n l)). split; [rewrite length_take; lia|].
  rewrite take_take_drop. f_equal. lia.
Qed.

Lemma take_prefix_mono {A} n m (l : list A) : (n ≤ m)%nat → take n l `prefix_of` take m l.
Proof. intros H. rewrite <-(Nat.min_l n m H), <-take_take. apply prefix_take. Qed.

Lemma NoDup_take {A} n (l : list A) : NoDup l → NoDup (take n l).
Proof. rewrite <-(take_drop n l) at 1. intros H. by apply NoDup_app in H as [? _]. Qed.

Lemma StronglySorted_take_drop {A} (R : relation A) n (l : list A) x y :
  StronglySorted R l → x ∈ take n l → y ∈ drop n l → R x y.
Proof.
  intros Hs. revert n. induction Hs as [|z l Hs IH Hz]; intros [|n]; simpl; rewrite ?elem_of_nil; [done..|].
  rewrite elem_of_cons. intros [->|Hx] Hy; [|by eapply IH].
  rewrite Forall_forall in Hz. apply Hz. rewrite <-(take_drop n l). apply elem_of_app. by right.
Qed.

Lemma NoDup_take_drop {A} n (l : list A) x : NoDup l → x ∈ take n l → x ∈ drop n l → False.
Proof. rewrite <-(take_drop n l) at 1. intros (_ & H & _)%NoDup_app ??. by eapply H. Qed.

Lemma NoDup_omap {A B} (f : A → option B) (l : list A) :
  (∀ x1 x2 y, x1 ∈ l → x2 ∈ l → f x1 = Some y → f x2 = Some y → x1 = x2) → NoDup l → NoDup (omap f l).
Proof.
  intros Hinj Hl. induction Hl as [|x l Hx Hl IH]; [constructor|]. csimpl.
  assert (NoDup (omap f l)) as IH' by (apply IH; intros; eapply Hinj; eauto; by apply elem_of_cons; right).
  destruct (f x) as [y|] eqn:E; [|done]. constructor; [|done].
  intros (x' & Hx' & Hy)%list_elem_of_omap. apply Hx.
  rewrite (Hinj x x' y); [done|by apply elem_of_cons; left|by apply elem_of_cons; right|done..].
Qed.

Lemma fmap_omap {A B C} (g : B → C) (f : A → option B) (l : list A) :
  g <$> omap f l = omap (λ x, g <$> f x) l.
Proof. induction l as [|x l IH]; [done|]. csimpl. destruct (f x); csimpl; by rewrite IH. Qed.

Lemma pair_snd {A B} (p : A * B) (b : B) : p.2 = b → p = (p.1, b).
Proof. destruct p. simpl. congruence. Qed.
