(* ===== verification/GoStrings.v ===== *)
(** * The operations of Go's [strings] and [filepath] packages that the
    repository calls, on byte strings.

    A Go string is a sequence of bytes and so is a [string] here.  Case mapping
    and white-space trimming act on the ASCII range only: [strings.ToLower],
    [strings.ToUpper] and [strings.TrimSpace] agree with these definitions on
    every string whose bytes are below 128. *)

From S2P Require Import Prelude.

Definition byte_val (c : ascii) : Z := Z.of_N (N_of_ascii c).

(** [s[n:]] and [s[:n]]. *)
Fixpoint sdrop (n : nat) (s : string) : string :=
  match n, s with
  | O, _ => s
  | S n, String _ s => sdrop n s
  | S _, EmptyString => EmptyString
  end.

Fixpoint stake (n : nat) (s : string) : string :=
  match n, s with
  | O, _ => EmptyString
  | S n, String c s => String c (stake n s)
  | S _, EmptyString => EmptyString
  end.

Definition HasPrefix (s p : string) : bool := String.prefix p s.

Definition TrimPrefix (s p : string) : string :=
  if HasPrefix s p then sdrop (String.length p) s else s.

Definition HasSuffix (s p : string) : bool :=
  (String.length p <=? String.length s)%nat
  && String.eqb (sdrop (String.length s - String.length p) s) p.

Definition TrimSuffix (s p : string) : string :=
  if HasSuffix s p then stake (String.length s - String.length p) s else s.

Fixpoint Contains (s sub : string) : bool :=
  String.prefix sub s ||
  match s with
  | EmptyString => false
  | String _ s' => Contains s' sub
  end.

(** [strings.Cut] at a one-byte separator. *)
Fixpoint Cut (s : string) (sep : ascii) : string * string * bool :=
  match s with
  | EmptyString => (EmptyString, EmptyString, false)
  | String c s' =>
      if Ascii.eqb c sep then (EmptyString, s', true)
      else let '(a, b, ok) := Cut s' sep in (String c a, b, ok)
  end.

(** [strings.Split] at a one-byte separator: never empty. *)
Fixpoint Split (s : string) (sep : ascii) : list string :=
  match s with
  | EmptyString => [EmptyString]
  | String c s' =>
      if Ascii.eqb c sep then EmptyString :: Split s' sep
      else match Split s' sep with
           | [] => [String c EmptyString]
           | w :: ws => String c w :: ws
           end
  end.

Definition is_space (c : ascii) : bool :=
  let v := byte_val c in
  ((9 <=? v) && (v <=? 13) || (v =? 32))%Z.

Fixpoint TrimLeftSpace (s : string) : string :=
  match s with
  | String c s' => if is_space c then TrimLeftSpace s' else s
  | EmptyString => EmptyString
  end.

(** Remove the longest suffix whose bytes satisfy [p]. *)
Fixpoint TrimRightFunc (p : ascii → bool) (s : string) : string :=
  match s with
  | EmptyString => EmptyString
  | String c s' =>
      match TrimRightFunc p s' with
      | EmptyString => if p c then EmptyString else String c EmptyString
      | t => String c t
      end
  end.

Definition TrimSpace (s : string) : string := TrimRightFunc is_space (TrimLeftSpace s).

Definition TrimRight (s : string) (c : ascii) : string := TrimRightFunc (Ascii.eqb c) s.

Definition shift_ascii (lo hi d : Z) (c : ascii) : ascii :=
  let v := byte_val c in
  if ((lo <=? v) && (v <=? hi))%Z then ascii_of_N (Z.to_N (v + d)%Z) else c.

Fixpoint smap (f : ascii → ascii) (s : string) : string :=
  match s with
  | EmptyString => EmptyString
  | String c s' => String (f c) (smap f s')
  end.

Definition ToLower (s : string) : string := smap (shift_ascii 65 90 32) s.
Definition ToUpper (s : string) : string := smap (shift_ascii 97 122 (-32)) s.

(** [strings.Join]. *)
Fixpoint SJoin (l : list string) (sep : string) : string :=
  match l with
  | [] => EmptyString
  | [x] => x
  | x :: l' => x +:+ sep +:+ SJoin l' sep
  end.

(** [x < y] on strings. *)
Definition str_lt (x y : string) : bool := String.leb x y && negb (String.eqb x y).

(** ** Paths

    An absolute, cleaned path is the list of its components, outermost first;
    the root directory is the empty list.  [filepath.Join] splits its arguments
    at the separator and applies [filepath.Clean]: empty and [.] components
    disappear and [..] removes the component before it. *)

Abbreviation path := (list string).

Definition clean_step (acc : list string) (c : string) : list string :=
  if String.eqb c EmptyString || String.eqb c "." then acc
  else if String.eqb c ".." then tail acc
  else c :: acc.

Definition filepath_Join (root : path) (parts : list string) : path :=
  reverse (fold_left clean_step (concat ((λ p, Split p "/"%char) <$> parts)) (reverse root)).

(** Is [p] strictly below directory [d]? *)
Definition under (d p : path) : bool :=
  bool_decide (d `prefix_of` p) && negb (bool_decide (d = p)).

(** ** Lemmas *)

Lemma append_cons c s t : String c s +:+ t = String c (s +:+ t).
Proof. done. Qed.

Lemma append_empty_l s : EmptyString +:+ s = s.
Proof. done. Qed.

Lemma append_empty_r s : s +:+ EmptyString = s.
Proof. induction s as [|c s IH]; [done|]. by rewrite append_cons, IH. Qed.

Lemma length_append s t : String.length (s +:+ t) = (String.length s + String.length t)%nat.
Proof.
  induction s as [|c s IH]; [done|]. rewrite append_cons. simpl. by rewrite IH.
Qed.

Lemma append_inj_l s t1 t2 : s +:+ t1 = s +:+ t2 → t1 = t2.
Proof.
  induction s as [|c s IH]; [done|]. rewrite !append_cons. intros [= ?]. auto.
Qed.

Lemma prefix_append p s : String.prefix p (p +:+ s) = true.
Proof.
  induction p as [|c p IH].
  - rewrite append_empty_l. by destruct s.
  - rewrite append_cons. simpl. by destruct (ascii_dec c c).
Qed.

Lemma prefix_spec p s : String.prefix p s = true ↔ ∃ t, s = p +:+ t.
Proof.
  split; [|intros [t ->]; apply prefix_append].
  revert s. induction p as [|c p IH]; intros s H; [by exists s|].
  destruct s as [|d s]; simpl in H; [done|].
  destruct (ascii_dec c d) as [->|]; [|done].
  destruct (IH _ H) as [t ->]. by exists t.
Qed.

Lemma sdrop_append p s : sdrop (String.length p) (p +:+ s) = s.
Proof. induction p as [|c p IH]; [by destruct s|]. rewrite append_cons. done. Qed.

Lemma TrimPrefix_append p s : TrimPrefix (p +:+ s) p = s.
Proof. unfold TrimPrefix, HasPrefix. by rewrite prefix_append, sdrop_append. Qed.

(** The bytes of a string, to state that a separator does not occur in it. *)
Definition sbytes (s : string) : list ascii := String.list_ascii_of_string s.

Definition free_of (c : ascii) (s : string) : Prop := c ∉ sbytes s.

Lemma free_of_cons c d s : free_of c (String d s) ↔ c ≠ d ∧ free_of c s.
Proof. unfold free_of, sbytes. simpl. set_solver. Qed.

Lemma Cut_free s sep : free_of sep s → Cut s sep = (s, EmptyString, false).
Proof.
  induction s as [|c s IH]; [done|]. rewrite free_of_cons. intros [Hc Hs].
  simpl. destruct (Ascii.eqb_spec c sep); [by subst|]. by rewrite (IH Hs).
Qed.

Lemma Cut_append a b sep : free_of sep a → Cut (a +:+ String sep b) sep = (a, b, true).
Proof.
  induction a as [|c a IH].
  - intros _. rewrite append_empty_l. simpl. by rewrite Ascii.eqb_refl.
  - rewrite free_of_cons. intros [Hc Ha]. rewrite append_cons. simpl.
    destruct (Ascii.eqb_spec c sep); [by subst|]. by rewrite (IH Ha).
Qed.

Lemma Split_free s sep : free_of sep s → Split s sep = [s].
Proof.
  induction s as [|c s IH]; [done|]. rewrite free_of_cons. intros [Hc Hs].
  simpl. destruct (Ascii.eqb_spec c sep); [by subst|]. by rewrite (IH Hs).
Qed.

(** Joining components that are plain names appends them. *)
Definition plain_name (c : string) : Prop :=
  c ≠ EmptyString ∧ c ≠ "." ∧ c ≠ ".." ∧ free_of "/"%char c.

Lemma filepath_Join_plain root parts :
  Forall plain_name parts → filepath_Join root parts = root ++ parts.
Proof.
  intros H. unfold filepath_Join.
  assert (concat ((λ p, Split p "/"%char) <$> parts) = parts) as ->.
  { induction H as [|p ps [? [? [? Hp]]] _ IH]; [done|]. csimpl. by rewrite (Split_free _ _ Hp), IH. }
  assert (∀ acc, fold_left clean_step parts acc = reverse parts ++ acc) as Hf.
  { clear root. induction H as [|p ps (H1 & H2 & H3 & _) _ IH]; intros acc; [done|].
    simpl. rewrite IH. unfold clean_step.
    rewrite (proj2 (String.eqb_neq _ _) H1), (proj2 (String.eqb_neq _ _) H2),
      (proj2 (String.eqb_neq _ _) H3). simpl. by rewrite reverse_cons, <-(assoc_L (++)). }
  by rewrite Hf, reverse_app, !reverse_involutive.
Qed.

Lemma str_lt_false a b : str_lt a b = false ↔ String.le b a.
Proof.
  unfold str_lt, String.le. destruct (String.eqb_spec a b) as [->|Hne].
  - rewrite andb_false_r. split; [|done]. intros _. apply (reflexivity (R:=String.le)).
  - rewrite andb_true_r. destruct (String.leb a b) eqn:E.
    + split; [done|]. intros Hle. destruct Hne. apply (anti_symm String.le); unfold String.le; by try rewrite E.
    + split; [|done]. intros _. destruct (String.leb_total a b) as [H|H]; [congruence|]. by rewrite H.
Qed.

Lemma str_lt_irrefl a : str_lt a a = false.
Proof. unfold str_lt. rewrite String.eqb_refl. apply andb_false_r. Qed.

Lemma str_lt_true a b : str_lt a b = true ↔ String.le a b ∧ a ≠ b.
Proof.
  unfold str_lt, String.le. rewrite andb_true_iff, negb_true_iff, String.eqb_neq.
  destruct (String.leb a b); naive_solver.
Qed.

Lemma str_lt_trans a b c : str_lt a b = true → str_lt b c = true → str_lt a c = true.
Proof.
  rewrite !str_lt_true. intros [H1 N1] [H2 N2]. split; [by etrans|]. intros ->.
  apply N1. by apply (anti_symm String.le).
Qed.

Lemma str_lt_total a b : str_lt a b = true ∨ a = b ∨ str_lt b a = true.
Proof.
  rewrite !str_lt_true. destruct (decide (a = b)) as [->|]; [tauto|].
  destruct (total String.le a b); naive_solver.
Qed.

(** ** Trimming and cutting *)

Lemma append_assoc a b c : (a +:+ b) +:+ c = a +:+ (b +:+ c).
Proof. induction a as [|x a IH]; [done|]. rewrite !append_cons. by rewrite IH. Qed.

Lemma TrimPrefix_cases s p : s = p +:+ TrimPrefix s p ∨ TrimPrefix s p = s.
Proof.
  unfold TrimPrefix, HasPrefix. destruct (String.prefix p s) eqn:E; [|by right].
  apply prefix_spec in E as [t ->]. left. by rewrite sdrop_append.
Qed.

Lemma stake_append a b : stake (String.length a) (a +:+ b) = a.
Proof. induction a as [|x a IH]; [by destruct b|]. rewrite append_cons. simpl. by rewrite IH. Qed.

Lemma stake_sdrop n s : stake n s +:+ sdrop n s = s.
Proof.
  revert s. induction n as [|n IH]; intros [|x s]; simpl; try done. rewrite append_cons. by rewrite IH.
Qed.

Lemma TrimSuffix_append s t : TrimSuffix (s +:+ t) t = s.
Proof.
  unfold TrimSuffix, HasSuffix. rewrite length_append.
  replace (String.length s + String.length t - String.length t)%nat with (String.length s) by lia.
  rewrite sdrop_append, String.eqb_refl, stake_append.
  by destruct (Nat.leb_spec (String.length t) (String.length s + String.length t)); [|lia].
Qed.

Lemma TrimSuffix_cases s p : s = TrimSuffix s p +:+ p ∨ TrimSuffix s p = s.
Proof.
  unfold TrimSuffix, HasSuffix. destruct (_ && _) eqn:E; [|by right]. boolify.
  left. pose proof (stake_sdrop (String.length s - String.length p) s) as E. by rewrite H0 in E.
Qed.

Lemma sdrop_S_last s c : sdrop (String.length (s +:+ String c EmptyString) - 1) (s +:+ String c EmptyString)
  = String c EmptyString.
Proof.
  rewrite length_append. simpl. replace (String.length s + 1 - 1)%nat with (String.length s) by lia.
  apply sdrop_append.
Qed.

Lemma string_snoc s : s ≠ EmptyString → ∃ s' c, s = s' +:+ String c EmptyString.
Proof.
  induction s as [|x s IH]; [done|]. intros _. destruct s as [|y s].
  - by exists EmptyString, x.
  - destruct IH as (s' & c & E); [done|]. exists (String x s'), c. by rewrite E.
Qed.

(** A string that does not end in [c]. *)
Lemma TrimSuffix_free s c : s ≠ EmptyString → free_of c s → ∀ a, TrimSuffix (a +:+ s) (String c EmptyString) = a +:+ s.
Proof.
  intros Hne Hf a. destruct (string_snoc s Hne) as (s' & d & ->).
  assert (d ≠ c) as Hd.
  { intros ->. apply Hf. unfold sbytes.
    clear. induction s' as [|x s' IH]; simpl; [left|by right]. }
  rewrite <-append_assoc. unfold TrimSuffix, HasSuffix. simpl String.length at 2 3.
  rewrite sdrop_S_last. rewrite (proj2 (String.eqb_neq _ _)) by congruence. by rewrite andb_false_r.
Qed.

Lemma Cut_true s sep a b : Cut s sep = (a, b, true) → s = a +:+ String sep b.
Proof.
  revert a. induction s as [|x s IH]; intros a; simpl; [done|].
  destruct (Ascii.eqb_spec x sep) as [->|]; [by intros [= <- <-]|].
  destruct (Cut s sep) as [[a' b'] ok]. intros [= <- <- ->]. by rewrite (IH a').
Qed.

Lemma Contains_free c s : free_of c s → Contains s (String c EmptyString) = false.
Proof.
  induction s as [|x s IH]; [done|]. rewrite free_of_cons. intros [Hne Hf]. simpl.
  rewrite (IH Hf). destruct (ascii_dec c x); [done|]. done.
Qed.

(** ** Trimming *)

Lemma TrimRightFunc_idem p s : TrimRightFunc p (TrimRightFunc p s) = TrimRightFunc p s.
Proof.
  induction s as [|c s IH]; [done|]. cbn [TrimRightFunc]. destruct (TrimRightFunc p s) as [|d t] eqn:E.
  - destruct (p c) eqn:Hc; [done|]. simpl. by rewrite Hc.
  - cbn [TrimRightFunc] in *. by rewrite IH.
Qed.

(** A last part that is not trimmed keeps what is before it. *)
Lemma TrimRightFunc_append p a b :
  b ≠ EmptyString → TrimRightFunc p b = b → TrimRightFunc p (a +:+ b) = a +:+ b.
Proof.
  intros Hb Ht. induction a as [|c a IH]; [done|]. rewrite append_cons. cbn [TrimRightFunc]. rewrite IH.
  by destruct a, b.
Qed.

Lemma TrimLeftSpace_append a b :
  a ≠ EmptyString → TrimLeftSpace a = a → TrimLeftSpace (a +:+ b) = a +:+ b.
Proof.
  destruct a as [|c a]; [done|]. intros _. rewrite append_cons. simpl. destruct (is_space c) eqn:Hc; [|done].
  intros H. exfalso. assert (String.length (TrimLeftSpace a) ≤ String.length a)%nat as Hl.
  { clear. induction a as [|d a IH]; [done|]. simpl. destruct (is_space d); simpl; lia. }
  rewrite H in Hl. simpl in Hl. lia.
Qed.

(** Nothing to trim. *)
Definition trimmed (s : string) : Prop := TrimSpace s = s.

Lemma TrimLeftSpace_head s :
  TrimLeftSpace s = EmptyString ∨ ∃ c t, TrimLeftSpace s = String c t ∧ is_space c = false.
Proof.
  induction s as [|c s IH]; [by left|]. simpl. destruct (is_space c) eqn:Hc; [done|]. right. eauto.
Qed.

Lemma TrimSpace_left s : TrimLeftSpace (TrimSpace s) = TrimSpace s.
Proof.
  unfold TrimSpace. destruct (TrimLeftSpace_head s) as [->|(c & t & -> & Hc)]; [done|]. simpl.
  destruct (TrimRightFunc is_space t); rewrite ?Hc; simpl; by rewrite Hc.
Qed.

Lemma TrimSpace_trimmed s : trimmed (TrimSpace s).
Proof. unfold trimmed at 1. unfold TrimSpace at 1. rewrite TrimSpace_left. apply TrimRightFunc_idem. Qed.

Lemma trimmed_left s : trimmed s → TrimLeftSpace s = s.
Proof. intros H. rewrite <-H. apply TrimSpace_left. Qed.

Lemma trimmed_right s : trimmed s → TrimRightFunc is_space s = s.
Proof. intros H. rewrite <-H. apply TrimRightFunc_idem. Qed.

Lemma trimmed_append a m b :
  a ≠ EmptyString → b ≠ EmptyString → trimmed a → trimmed b → trimmed (a +:+ m +:+ b).
Proof.
  intros Ha Hb Hta Htb. unfold trimmed, TrimSpace.
  rewrite TrimLeftSpace_append by (done || by apply trimmed_left).
  rewrite <-append_assoc. apply TrimRightFunc_append; [done|by apply trimmed_right].
Qed.

(** ** Splitting what was joined *)

Lemma Split_append a b sep : free_of sep a → Split (a +:+ String sep b) sep = a :: Split b sep.
Proof.
  induction a as [|c a IH]; intros Hf.
  - rewrite append_empty_l. simpl. by rewrite Ascii.eqb_refl.
  - apply free_of_cons in Hf as [Hne Hf]. rewrite append_cons. simpl.
    destruct (Ascii.eqb_spec c sep); [congruence|]. by rewrite IH.
Qed.

Lemma Split_SJoin sep l :
  l ≠ [] → Forall (free_of sep) l → Split (SJoin l (String sep EmptyString)) sep = l.
Proof.
  induction l as [|x l IH]; [done|]. intros _ Hall. apply Forall_cons in Hall as [Hx Hall].
  destruct l as [|y l]; [by apply Split_free|].
  change (SJoin (x :: y :: l) (String sep EmptyString)) with
    (x +:+ String sep EmptyString +:+ SJoin (y :: l) (String sep EmptyString)).
  rewrite append_cons, append_empty_l, Split_append by done. by rewrite IH.
Qed.

Lemma free_of_append c a b : free_of c a → free_of c b → free_of c (a +:+ b).
Proof.
  intros Ha Hb. induction a as [|d a IH]; [done|]. rewrite append_cons.
  apply free_of_cons in Ha as [? ?]. apply free_of_cons. auto.
Qed.

Lemma SJoin_cons_cases x l sep : ∃ m, SJoin (x :: l) sep = x +:+ m.
Proof.
  destruct l as [|y l]; [exists EmptyString; by rewrite append_empty_r|].
  by exists (sep +:+ SJoin (y :: l) sep).
Qed.
