(* ===== verification/Sha256.v ===== *)
(** * SHA-256 and hexadecimal encoding

    [crypto/sha256] and [encoding/hex] of the Go standard library, as FIPS 180-4
    defines them, so that digests in the model are the digests the program
    computes.  Words are 32-bit values of [Z]. *)

From S2P Require Import Prelude GoStrings.

Abbreviation bytes := (list Byte.byte).

#[local] Open Scope Z_scope.

Module Sha.

Definition w32 (x : Z) : Z := x mod 2 ^ 32.
Definition add32 (x y : Z) : Z := w32 (x + y).
Definition rotr (n x : Z) : Z := Z.lor (Z.shiftr x n) (w32 (Z.shiftl x (32 - n))).
Definition not32 (x : Z) : Z := Z.lxor x (2 ^ 32 - 1).

Definition Ch (x y z : Z) : Z := Z.lxor (Z.land x y) (Z.land (not32 x) z).
Definition Maj (x y z : Z) : Z := Z.lxor (Z.lxor (Z.land x y) (Z.land x z)) (Z.land y z).
Definition Sigma0 (x : Z) : Z := Z.lxor (Z.lxor (rotr 2 x) (rotr 13 x)) (rotr 22 x).
Definition Sigma1 (x : Z) : Z := Z.lxor (Z.lxor (rotr 6 x) (rotr 11 x)) (rotr 25 x).
Definition sigma0 (x : Z) : Z := Z.lxor (Z.lxor (rotr 7 x) (rotr 18 x)) (Z.shiftr x 3).
Definition sigma1 (x : Z) : Z := Z.lxor (Z.lxor (rotr 17 x) (rotr 19 x)) (Z.shiftr x 10).

(** The round constants are the first 32 bits of the fractional parts of the
    cube roots of the first 64 primes, and the initial state those of the square
    roots of the first eight: both tables are computed from that definition. *)
Definition is_prime (n : nat) : bool :=
  forallb (λ d, negb (n mod d =? 0)%nat) (seq 2 (n - 2)).

Definition primes : list Z := Z.of_nat <$> List.filter is_prime (seq 2 310).

(** The integer cube root of [n] below [lo + 2 ^ b], by bisection. *)
Fixpoint cbrt (b : nat) (lo n : Z) : Z :=
  match b with
  | O => lo
  | S b => let c := lo + 2 ^ Z.of_nat b in cbrt b (if c * c * c <=? n then c else lo) n
  end.

Definition K : list Z := Eval vm_compute in (λ p, w32 (cbrt 40 0 (p * 2 ^ 96))) <$> primes.

Record hstate := HS { ha : Z; hb : Z; hc : Z; hd : Z; he : Z; hf : Z; hg : Z; hh : Z }.

Definition H0 : hstate := Eval vm_compute in
  match (λ p, w32 (Z.sqrt (p * 2 ^ 64))) <$> primes with
  | a :: b :: c :: d :: e :: f :: g :: h :: _ => HS a b c d e f g h
  | _ => HS 0 0 0 0 0 0 0 0
  end.

(** The message schedule, most recent word first. *)
Fixpoint schedule (n : nat) (ws : list Z) : list Z :=
  match n with
  | O => ws
  | S n =>
      let w := add32 (add32 (sigma1 (nth 1 ws 0)) (nth 6 ws 0))
                     (add32 (sigma0 (nth 14 ws 0)) (nth 15 ws 0)) in
      schedule n (w :: ws)
  end.

Definition round (s : hstate) (kw : Z * Z) : hstate :=
  let '(k, w) := kw in
  let t1 := add32 (hh s) (add32 (Sigma1 (he s)) (add32 (Ch (he s) (hf s) (hg s)) (add32 k w))) in
  let t2 := add32 (Sigma0 (ha s)) (Maj (ha s) (hb s) (hc s)) in
  HS (add32 t1 t2) (ha s) (hb s) (hc s) (add32 (hd s) t1) (he s) (hf s) (hg s).

Definition compress (s : hstate) (block : list Z) : hstate :=
  let s' := fold_left round (combine K (reverse (schedule 48 (reverse block)))) s in
  HS (add32 (ha s) (ha s')) (add32 (hb s) (hb s')) (add32 (hc s) (hc s')) (add32 (hd s) (hd s'))
     (add32 (he s) (he s')) (add32 (hf s) (hf s')) (add32 (hg s) (hg s')) (add32 (hh s) (hh s')).

Definition byteZ (b : Byte.byte) : Z := Z.of_N (Byte.to_N b).

Definition Zbyte (z : Z) : Byte.byte :=
  match Byte.of_N (Z.to_N (z mod 256)) with Some b => b | None => Byte.x00 end.

(** The low [n] bytes of [z], most significant first. *)
Fixpoint be_bytes (n : nat) (z : Z) : list Byte.byte :=
  match n with
  | O => []
  | S n => be_bytes n (Z.shiftr z 8) ++ [Zbyte z]
  end.

Definition pad (m : bytes) : bytes :=
  let l := Z.of_nat (length m) in
  m ++ [Byte.x80] ++ replicate (Z.to_nat ((55 - l) mod 64)) Byte.x00 ++ be_bytes 8 (l * 8).

Definition be_word (b : bytes) : Z := fold_left (λ acc x, Z.lor (Z.shiftl acc 8) (byteZ x)) b 0.

Fixpoint chunks {A} (fuel n : nat) (l : list A) : list (list A) :=
  match fuel, l with
  | _, [] => []
  | O, _ => []
  | S fuel, _ => take n l :: chunks fuel n (drop n l)
  end.

Definition words (b : bytes) : list Z := be_word <$> chunks (length b) 4 b.

(** [sha256.Sum256]. *)
Definition Sum256 (m : bytes) : bytes :=
  let p := pad m in
  let s := fold_left compress (words <$> chunks (length p) 64 p) H0 in
  concat (be_bytes 4 <$> [ha s; hb s; hc s; hd s; he s; hf s; hg s; hh s]).

(** [hex.EncodeToString]. *)
Definition hex_digit (n : Z) : ascii :=
  ascii_of_N (Z.to_N (if n <? 10 then 48 + n else 87 + n)).

Fixpoint EncodeToString (b : bytes) : string :=
  match b with
  | [] => EmptyString
  | x :: b' =>
      String (hex_digit (byteZ x / 16)) (String (hex_digit (byteZ x mod 16)) (EncodeToString b'))
  end.

(** The lower-case hexadecimal digest of a byte sequence. *)
Definition digest (b : bytes) : string := EncodeToString (Sum256 b).

(** [binary.BigEndian.Uint64(sum[:8])]. *)
Definition BigEndianUint64 (b : bytes) : Z := be_word (take 8 b).

(** ** Lemmas *)

Lemma be_bytes_length n z : length (be_bytes n z) = n.
Proof.
  revert z. induction n as [|n IH]; intros z; [done|]. simpl. rewrite length_app, IH. simpl. lia.
Qed.

Lemma Sum256_length m : length (Sum256 m) = 32%nat.
Proof.
  unfold Sum256. set (s := fold_left _ _ _). clearbody s.
  cbn [fmap list_fmap concat]. rewrite !length_app, !be_bytes_length. done.
Qed.

Lemma EncodeToString_length b : String.length (EncodeToString b) = (2 * length b)%nat.
Proof. induction b as [|x b IH]; simpl; lia. Qed.

Lemma digest_length b : String.length (digest b) = 64%nat.
Proof. unfold digest. by rewrite EncodeToString_length, Sum256_length. Qed.

Lemma byteZ_range x : 0 ≤ byteZ x < 256.
Proof. unfold byteZ. pose proof (Byte.to_N_bounded x). lia. Qed.

Lemma be_word_range_aux b acc n :
  0 ≤ acc < 2 ^ (8 * n) → 0 ≤ n →
  0 ≤ fold_left (λ acc x, Z.lor (Z.shiftl acc 8) (byteZ x)) b acc < 2 ^ (8 * (n + Z.of_nat (length b))).
Proof.
  revert acc n. induction b as [|x b IH]; intros acc n Hacc Hn.
  - cbn [fold_left length]. by rewrite Z.add_0_r.
  - cbn [fold_left length]. pose proof (byteZ_range x) as Hx.
    assert (0 ≤ Z.lor (Z.shiftl acc 8) (byteZ x) < 2 ^ (8 * (n + 1))) as Hr.
    { assert (0 ≤ Z.shiftl acc 8) by (apply Z.shiftl_nonneg; lia).
      split; [apply Z.lor_nonneg; lia|].
      destruct (Z.eq_dec (Z.lor (Z.shiftl acc 8) (byteZ x)) 0) as [->|Hne].
      { apply Z.pow_pos_nonneg; lia. }
      assert (0 ≤ Z.lor (Z.shiftl acc 8) (byteZ x)) by (apply Z.lor_nonneg; lia).
      apply Z.log2_lt_pow2; [lia|].
      rewrite Z.log2_lor by lia. apply Z.max_lub_lt.
      - destruct (Z.eq_dec acc 0) as [->|]; [rewrite Z.shiftl_0_l; change (Z.log2 0) with 0; lia|].
        rewrite Z.log2_shiftl by lia. assert (Z.log2 acc < 8 * n); [|lia].
        apply Z.log2_lt_pow2; lia.
      - destruct (Z.eq_dec (byteZ x) 0) as [->|]; [change (Z.log2 0) with 0; lia|].
        assert (Z.log2 (byteZ x) < 8); [|lia]. apply Z.log2_lt_pow2; lia. }
    specialize (IH _ (n + 1) Hr ltac:(lia)).
    replace (8 * (n + Z.of_nat (S (length b)))) with (8 * (n + 1 + Z.of_nat (length b))) by lia.
    exact IH.
Qed.

Lemma BigEndianUint64_range b : in_u64 (BigEndianUint64 b).
Proof.
  unfold BigEndianUint64, be_word, in_u64.
  pose proof (be_word_range_aux (take 8 b) 0 0 ltac:(lia) ltac:(lia)) as H.
  pose proof (length_take_le b 8) as Hl.
  assert (Z.of_nat (length (take 8 b)) ≤ 8) by (rewrite length_take; lia).
  split; [lia|]. eapply Z.lt_le_trans; [apply H|]. apply Z.pow_le_mono_r; lia.
Qed.

End Sha.

#[global] Opaque Sha.Sum256.

(** Published test vectors, evaluated by the kernel. *)
Example sha256_empty :
  Sha.digest [] = "e3b0c44298fc1c149afbf4c8996fb92427ae41e4649b934ca495991b7852b855".
Proof. vm_compute. reflexivity. Qed.

Example sha256_abc :
  Sha.digest (String.list_byte_of_string "abc")
  = "ba7816bf8f01cfea414140de5dae2223b00361a396177a9cb410ff61f20015ad".
Proof. vm_compute. reflexivity. Qed.

Example sha256_two_blocks :
  Sha.digest (String.list_byte_of_string "abcdbcdecdefdefgefghfghighijhijkijkljklmklmnlmnomnopnopq")
  = "248d6a61d20638b8e5c026930c3e6039a33ce45964ff2167f6ecedd419db06c1".
Proof. vm_compute. reflexivity. Qed.
