(* ===== verification/Errors.v ===== *)
(** * Error values

    One inductive type for the errors the modelled packages build: the sentinel
    values of [storage], [protocol] and [cluster], their structured error types,
    errors of the operating system, the database and the network, and
    [fmt.Errorf] wrapping.  [errors_Is] and [errors_AsPeerError] walk the
    [Unwrap] chain the way [errors.Is] and [errors.As] do. *)

From S2P Require Import Prelude GoStrings.

Inductive error :=
  (* internal/storage *)
  | ErrNotFound
  | ErrClosed
  | ErrBadKeyLength (got : nat)
  | ErrBadKeyByte (index : nat) (c : ascii)
  | ErrBadNamespace (ns : string)
  | DigestMismatchError (Want Got : string) (Size : Z)
  | TooLargeError (Size Limit : Z)
  | ErrShortWrite (declared received : Z)
  | ErrDirSyncUnsupported
  (* internal/protocol and internal/cluster *)
  | ErrOverQuota
  | InsufficientReplicasError (Key : string) (Wanted Got : Z) (Holders : list string)
      (Causes : list error)
  | ErrPeerNotFound
  | PeerError (Peer Op : string) (Status : Z) (Body : string) (cause : option error)
  (* the context package *)
  | Canceled
  | DeadlineExceeded
  (* a failed system call, database statement or network operation *)
  | OSError (notExist : bool) (msg : string)
  (* errors.New and fmt.Errorf *)
  | Errorf (msg : string)
  | Wrap (msg : string) (inner : error).

(** The values the repository passes to [errors.Is]. *)
Inductive sentinel :=
  | IsNotFound | IsClosed | IsBadKey | IsBadNamespace | IsDigestMismatch | IsTooLarge
  | IsShortWrite | IsDirSyncUnsupported | IsOverQuota | IsInsufficientReplicas
  | IsPeerNotFound | IsCanceled | IsDeadlineExceeded.

#[export] Instance sentinel_eq_dec : EqDecision sentinel.
Proof. solve_decision. Defined.

(** The sentinel an error value unwraps to by itself, without following a
    wrapped error. *)
Definition sentinel_of (e : error) : option sentinel :=
  match e with
  | ErrNotFound => Some IsNotFound
  | ErrClosed => Some IsClosed
  | ErrBadKeyLength _ | ErrBadKeyByte _ _ => Some IsBadKey
  | ErrBadNamespace _ => Some IsBadNamespace
  | DigestMismatchError _ _ _ => Some IsDigestMismatch
  | TooLargeError _ _ => Some IsTooLarge
  | ErrShortWrite _ _ => Some IsShortWrite
  | ErrDirSyncUnsupported => Some IsDirSyncUnsupported
  | ErrOverQuota => Some IsOverQuota
  | InsufficientReplicasError _ _ _ _ _ => Some IsInsufficientReplicas
  | ErrPeerNotFound => Some IsPeerNotFound
  | Canceled => Some IsCanceled
  | DeadlineExceeded => Some IsDeadlineExceeded
  | _ => None
  end.

Fixpoint errors_Is (e : error) (t : sentinel) : bool :=
  match e with
  | Wrap _ e' => errors_Is e' t
  | PeerError _ _ _ _ (Some e') => errors_Is e' t
  | _ => bool_decide (sentinel_of e = Some t)
  end.

(** [errors.As] for a [*cluster.PeerError]: its status. *)
Fixpoint errors_AsPeerError (e : error) : option Z :=
  match e with
  | Wrap _ e' => errors_AsPeerError e'
  | PeerError _ _ st _ _ => Some st
  | _ => None
  end.

Definition os_IsNotExist (e : error) : bool :=
  match e with OSError b _ => b | _ => false end.

Definition quoted (s : string) : string :=
  let q := String (ascii_of_nat 34) EmptyString in q +:+ s +:+ q.

(** [Error]: the text of an error.  Quoting with [%q] is rendered for printable
    strings. *)
Fixpoint Error (e : error) : string :=
  match e with
  | ErrNotFound => "object not found"
  | ErrClosed => "store is closed"
  | ErrBadKeyLength got =>
      "invalid key: expected 64 hex characters, got " +:+ pretty got
  | ErrBadKeyByte i c =>
      "invalid key: byte " +:+ pretty i +:+ " is " +:+ quoted (String c EmptyString)
        +:+ ", expected lowercase hex"
  | ErrBadNamespace ns => "invalid namespace: " +:+ quoted ns
  | DigestMismatchError want got size =>
      "digest mismatch: key " +:+ want +:+ " but content hashes to " +:+ got
        +:+ " (" +:+ pretty size +:+ " bytes)"
  | TooLargeError size limit =>
      "object too large: " +:+ pretty size +:+ " bytes exceeds the per-object limit of "
        +:+ pretty limit
  | ErrShortWrite declared received =>
      "body shorter than declared content length: declared " +:+ pretty declared
        +:+ ", received " +:+ pretty received
  | ErrDirSyncUnsupported => "directory fsync is not supported by this filesystem"
  | ErrOverQuota => "node is over its storage high-water mark"
  | InsufficientReplicasError key wanted got holders causes =>
      "could not write the required number of copies: wrote " +:+ pretty got +:+ " of "
        +:+ pretty wanted +:+ " copies of " +:+ stake 12 key +:+ " (holders ["
        +:+ SJoin holders " " +:+ "]): "
        +:+ SJoin (map Error causes) (String (ascii_of_nat 10) EmptyString)
  | ErrPeerNotFound => "peer does not have the object"
  | PeerError peer op _ _ (Some e') => "peer " +:+ peer +:+ ": " +:+ op +:+ ": " +:+ Error e'
  | PeerError peer op st body None =>
      "peer " +:+ peer +:+ ": " +:+ op +:+ ": status " +:+ pretty st +:+ ": " +:+ TrimSpace body
  | Canceled => "context canceled"
  | DeadlineExceeded => "context deadline exceeded"
  | OSError _ msg => msg
  | Errorf msg => msg
  | Wrap msg e' => msg +:+ ": " +:+ Error e'
  end.

(** ** Results

    A Go function returning [(T, error)] returns a [result T] when its callers
    ignore the value on error, and a pair otherwise. *)

Inductive result (A : Type) := Ok (a : A) | Err (e : error).
Arguments Ok {A} a.
Arguments Err {A} e.

Definition is_ok {A} (r : result A) : bool := match r with Ok _ => true | Err _ => false end.

(** ** Stateful, fallible computations

    [M S A] is a computation over the state [S] that returns an [A] or an
    error; the state reached so far is kept when it fails, as the effects of a
    Go function that returns an error are. *)

Definition M (S A : Type) : Type := S → S * result A.

#[export] Instance M_ret S : MRet (M S) := λ A a s, (s, Ok a).
#[export] Instance M_bind S : MBind (M S) := λ A B f m s,
  match m s with
  | (s', Ok a) => f a s'
  | (s', Err e) => (s', Err e)
  end.

Definition fail {S A} (e : error) : M S A := λ s, (s, Err e).
Definition getS {S} : M S S := λ s, (s, Ok s).
Definition gets {S A} (f : S → A) : M S A := λ s, (s, Ok (f s)).
Definition modify {S} (f : S → S) : M S unit := λ s, (f s, Ok tt).

(** Run [m] and hand its error to the caller as a value. *)
Definition attempt {S A} (m : M S A) : M S (result A) := λ s,
  let '(s', r) := m s in (s', Ok r).

(** Fail with [e] when the guard holds: an [if cond { return err }]. *)
Definition fail_if {S} (b : bool) (e : error) : M S unit :=
  if b then fail e else mret tt.

(** Fail when a call returned an error. *)
Definition check {S} (o : option error) : M S unit :=
  match o with Some e => fail e | None => mret tt end.

(** Run the deferred computation [d] after [m], whatever [m] returned. *)
Definition deferred {S A} (m : M S A) (d : result A → S → S) : M S A := λ s,
  let '(s', r) := m s in (d r s', r).

(** [mbind] in the form the proofs use. *)
Lemma bind_eq {S A B} (m : M S A) (f : A → M S B) s :
  (m ≫= f) s = match m s with (s', Ok a) => f a s' | (s', Err e) => (s', Err e) end.
Proof. done. Qed.

Lemma bind_ok_inv {S A B} (m : M S A) (f : A → M S B) s s2 b :
  (m ≫= f) s = (s2, Ok b) → ∃ s1 a, m s = (s1, Ok a) ∧ f a s1 = (s2, Ok b).
Proof. rewrite bind_eq. destruct (m s) as [s1 [a|e]]; naive_solver. Qed.

(** Run the monadic steps whose outcome is known. *)
Ltac mrun :=
  repeat first
    [ rewrite bind_eq
    | progress cbv beta iota delta [getS gets modify fail_if check fail mret M_ret attempt deferred] ].

Ltac mrun_in H :=
  repeat first
    [ rewrite bind_eq in H
    | progress cbv beta iota delta
        [getS gets modify fail_if check fail mret M_ret attempt deferred] in H ].
