(* ===== verification/Key.v ===== *)
(** * Namespaces, keys and object paths: internal/storage/key.go *)

From S2P Require Import Prelude GoStrings Sha256 Errors.

(** ** Namespaces *)

Abbreviation Namespace := string.
Definition NamespaceCAS : Namespace := "cas".
Definition NamespaceAC : Namespace := "ac".

Definition ns_Valid (ns : Namespace) : bool :=
  String.eqb ns NamespaceCAS || String.eqb ns NamespaceAC.

Definition ContentAddressed (ns : Namespace) : bool := String.eqb ns NamespaceCAS.

Definition ParseNamespace (s : string) : result Namespace :=
  if String.eqb (ToLower s) NamespaceCAS then Ok NamespaceCAS
  else if String.eqb (ToLower s) NamespaceAC then Ok NamespaceAC
  else Err (ErrBadNamespace s).

(** ** Keys *)

Definition HashLen : nat := 64.

(** The byte test of [ValidateKey] and of [cluster.isHex]. *)
Definition is_lower_hex (c : ascii) : bool :=
  let v := byte_val c in
  ((48 <=? v) && (v <=? 57) || (97 <=? v) && (v <=? 102))%Z.

(** The loop of [ValidateKey], at byte [i]. *)
Fixpoint validate_bytes (i : nat) (s : string) : option error :=
  match s with
  | EmptyString => None
  | String c s' => if is_lower_hex c then validate_bytes (S i) s' else Some (ErrBadKeyByte i c)
  end.

Definition ValidateKey (s : string) : option error :=
  if negb (String.length s =? HashLen)%nat then Some (ErrBadKeyLength (String.length s))
  else validate_bytes 0 s.

Definition valid_key (s : string) : bool :=
  match ValidateKey s with None => true | Some _ => false end.

(** ** Paths *)

Definition ShardDepth : nat := 2.
Definition shardWidth : nat := 2.

(** [key[i*shardWidth:(i+1)*shardWidth]] for [i < ShardDepth]. *)
Definition shards (key : string) : list string :=
  (λ i, stake shardWidth (sdrop (i * shardWidth) key)) <$> seq 0 ShardDepth.

Definition shardDir (root : path) (ns : Namespace) (key : string) : path :=
  filepath_Join root (ns :: shards key).

Definition ObjectPath (root : path) (ns : Namespace) (key : string) : path * path :=
  let dir := shardDir root ns key in (dir, filepath_Join dir [key]).

(** The second component, the file itself. *)
Definition object_file (root : path) (ns : Namespace) (key : string) : path :=
  (ObjectPath root ns key).2.

(** ** What [ValidateKey] accepts *)

Lemma validate_bytes_None i s :
  validate_bytes i s = None ↔ Forall (λ c, is_lower_hex c = true) (sbytes s).
Proof.
  revert i. induction s as [|c s IH]; intros i; simpl; [done|].
  unfold sbytes in *. simpl. rewrite Forall_cons. destruct (is_lower_hex c); [|naive_solver].
  rewrite IH. naive_solver.
Qed.

Lemma valid_key_spec s :
  valid_key s = true ↔
  String.length s = HashLen ∧ Forall (λ c, is_lower_hex c = true) (sbytes s).
Proof.
  unfold valid_key, ValidateKey. rewrite <-(validate_bytes_None 0 s).
  destruct (Nat.eqb_spec (String.length s) HashLen) as [Hl|Hl]; simpl.
  - destruct (validate_bytes 0 s); naive_solver.
  - naive_solver.
Qed.

Lemma lower_hex_not c : is_lower_hex c = true → c ≠ "/"%char ∧ c ≠ "."%char ∧ c ≠ "-"%char.
Proof. intros Hc. repeat split; intros ->; by vm_compute in Hc. Qed.

(** A string of lower-case hexadecimal bytes that is not empty is a plain path
    component. *)
Lemma hex_plain s :
  s ≠ EmptyString → Forall (λ c, is_lower_hex c = true) (sbytes s) → plain_name s.
Proof.
  intros Hne Hall. unfold plain_name. split; [done|].
  destruct s as [|c s]; [done|]. unfold sbytes in Hall. simpl in Hall.
  inv Hall. destruct (lower_hex_not _ H1) as (Hs & Hd & _).
  split; [congruence|]. split; [congruence|].
  unfold free_of, sbytes. simpl. intros [Heq|Hin]%elem_of_cons; [by subst|].
  rewrite Forall_forall in H2. by destruct (lower_hex_not _ (H2 _ Hin)).
Qed.

Lemma stake_bytes n s : sbytes (stake n s) = take n (sbytes s).
Proof.
  revert s. induction n as [|n IH]; intros [|c s]; try done.
  unfold sbytes in *. simpl. by rewrite IH.
Qed.

Lemma sdrop_bytes n s : sbytes (sdrop n s) = drop n (sbytes s).
Proof. revert s. induction n as [|n IH]; intros [|c s]; try done. apply IH. Qed.

Lemma sbytes_length s : length (sbytes s) = String.length s.
Proof. induction s; unfold sbytes in *; simpl; congruence. Qed.

Lemma sbytes_inj s t : sbytes s = sbytes t → s = t.
Proof.
  intros H. rewrite <-(String.string_of_list_ascii_of_string s),
    <-(String.string_of_list_ascii_of_string t). unfold sbytes in H. by rewrite H.
Qed.

Lemma shards_plain key :
  valid_key key = true → Forall plain_name (shards key).
Proof.
  rewrite valid_key_spec. intros [Hl Hall].
  assert (∀ i, i < ShardDepth → plain_name (stake shardWidth (sdrop (i * shardWidth) key))) as Hi.
  { intros i Hi. apply hex_plain.
    - intros He. assert (length (sbytes (stake shardWidth (sdrop (i * shardWidth) key))) = 0)
        as H0 by (by rewrite He).
      rewrite stake_bytes, sdrop_bytes, length_take, length_drop, sbytes_length, Hl in H0.
      unfold ShardDepth, shardWidth, HashLen in *. lia.
    - rewrite stake_bytes, sdrop_bytes. by apply Forall_take, Forall_drop. }
  unfold shards. rewrite Forall_fmap. apply Forall_forall. intros i Hin.
  apply Hi. apply elem_of_seq in Hin. lia.
Qed.

Lemma key_plain key : valid_key key = true → plain_name key.
Proof.
  intros H. pose proof H as [Hl Hall]%valid_key_spec. apply hex_plain; [|done].
  intros ->. done.
Qed.

Lemma ns_plain ns : ns_Valid ns = true → plain_name ns.
Proof.
  intros H. unfold ns_Valid in H. apply orb_true_iff in H as [H|H];
    apply String.eqb_eq in H as ->; repeat split; try done;
    unfold free_of, sbytes; simpl; set_solver.
Qed.

(** The layout of a stored object: [<root>/<ns>/<ab>/<cd>/<key>]. *)
Lemma ObjectPath_valid root ns key :
  ns_Valid ns = true → valid_key key = true →
  ObjectPath root ns key = (root ++ ns :: shards key, root ++ ns :: shards key ++ [key]).
Proof.
  intros Hns Hk. unfold ObjectPath, shardDir.
  rewrite (filepath_Join_plain root) by (constructor; [by apply ns_plain|by apply shards_plain]).
  rewrite filepath_Join_plain by (constructor; [by apply key_plain|done]).
  by rewrite <-(assoc_L (++)).
Qed.

Lemma object_file_valid root ns key :
  ns_Valid ns = true → valid_key key = true →
  object_file root ns key = root ++ ns :: shards key ++ [key].
Proof. intros. unfold object_file. by rewrite ObjectPath_valid. Qed.

Lemma object_file_inj root ns key ns' key' :
  ns_Valid ns = true → valid_key key = true → ns_Valid ns' = true → valid_key key' = true →
  object_file root ns key = object_file root ns' key' → ns = ns' ∧ key = key'.
Proof.
  intros Hns Hk Hns' Hk' Heq. rewrite !object_file_valid in Heq by done.
  split.
  - apply (inj (root ++.)), (f_equal head) in Heq. by injection Heq.
  - apply (f_equal last) in Heq. rewrite !app_comm_cons, !(assoc_L (++)), !last_snoc in Heq.
    by injection Heq.
Qed.

(** ** Digests are keys *)

Lemma hex_digit_lower n : (0 ≤ n < 16)%Z → is_lower_hex (Sha.hex_digit n) = true.
Proof.
  intros Hn. assert (∃ k, k < 16 ∧ n = Z.of_nat k) as (k & Hk & ->).
  { exists (Z.to_nat n). lia. }
  do 16 (destruct k as [|k]; [by vm_compute|]). lia.
Qed.

Lemma EncodeToString_hex b : Forall (λ c, is_lower_hex c = true) (sbytes (Sha.EncodeToString b)).
Proof.
  induction b as [|x b IH]; [done|]. unfold sbytes in *. simpl.
  pose proof (Sha.byteZ_range x).
  repeat constructor; [apply hex_digit_lower..|done].
  - split; [apply Z.div_pos; lia|apply Z.div_lt_upper_bound; lia].
  - apply Z.mod_pos_bound. lia.
Qed.

(** Every SHA-256 digest is accepted by [ValidateKey]. *)
Lemma digest_valid_key b : valid_key (Sha.digest b) = true.
Proof.
  apply valid_key_spec. split; [apply Sha.digest_length|apply EncodeToString_hex].
Qed.

#[export] Hint Resolve digest_valid_key : kiln.

(** ** Claims *)

(** The first byte of a string that is not lower-case hexadecimal. *)
Lemma validate_bytes_Some i s j c :
  validate_bytes i s = Some (ErrBadKeyByte j c) ↔
  ∃ a b, sbytes s = a ++ c :: b ∧ j = i + length a ∧
    Forall (λ c, is_lower_hex c = true) a ∧ is_lower_hex c = false.
Proof.
  revert i. induction s as [|d s IH]; intros i; unfold sbytes in *; simpl.
  { split; [done|]. intros (a & b & H & _). by destruct a. }
  destruct (is_lower_hex d) eqn:Hd.
  - rewrite IH. split.
    + intros (a & b & -> & -> & Ha & Hc). exists (d :: a), b. simpl. repeat split; [lia|by constructor|done].
    + intros ([|x a] & b & H & -> & Ha & Hc); simpl in H; injection H as -> H; [congruence|].
      inv Ha. exists a, b. simpl. repeat split; [done|lia|done..].
  - split.
    + intros [= <- <-]. exists [], (String.list_ascii_of_string s). simpl. repeat split; [lia|constructor|done].
    + intros ([|x a] & b & H & -> & Ha & Hc); simpl in H; injection H as -> H.
      * simpl. by rewrite Nat.add_0_r.
      * inv Ha. congruence.
Qed.

(** [ValidateKey] accepts exactly the strings of 64 lower-case hexadecimal
    digits, which include every SHA-256 digest; a string of the wrong length is
    reported with its length, and any other with the position and value of its
    first offending byte. *)
Theorem validate_key_complete s :
  (ValidateKey s = None ↔ String.length s = 64 ∧ Forall (λ c, is_lower_hex c = true) (sbytes s)) ∧
  (String.length s ≠ 64 → ValidateKey s = Some (ErrBadKeyLength (String.length s))) ∧
  (∀ j c, String.length s = 64 →
     ValidateKey s = Some (ErrBadKeyByte j c) ↔
     ∃ a b, sbytes s = a ++ c :: b ∧ j = length a ∧
       Forall (λ c, is_lower_hex c = true) a ∧ is_lower_hex c = false) ∧
  (∀ content, ValidateKey (Sha.digest content) = None).
Proof.
  unfold ValidateKey at 1 2 3. fold HashLen.
  destruct (Nat.eqb_spec (String.length s) HashLen) as [Hl|Hl]; simpl.
  - rewrite validate_bytes_None. split; [naive_solver|]. split; [done|]. split.
    + intros j c _. apply validate_bytes_Some.
    + intros content. pose proof (digest_valid_key content) as H. unfold valid_key in H.
      by destruct (ValidateKey (Sha.digest content)).
  - split; [naive_solver|]. split; [done|]. split; [done|].
    intros content. pose proof (digest_valid_key content) as H. unfold valid_key in H.
    by destruct (ValidateKey (Sha.digest content)).
Qed.

(** A request cannot name a file outside its namespace.  The path of a valid
    reference is four levels below the store root, inside the directory of its
    namespace and nowhere above, never the path of a temporary upload or of the
    index, and two references have the same path only if they are equal. *)
Theorem object_paths_confined root ns key :
  ns_Valid ns = true → valid_key key = true →
  let p := object_file root ns key in
  under (root ++ [ns]) p = true ∧ length p = length root + 4 ∧ Forall plain_name (drop (length root) p) ∧
  (∀ suffix, p ≠ filepath_Join root ["tmp"] ++ ["incoming-" +:+ suffix]) ∧
  p ≠ filepath_Join root ["index.db"] ∧
  ∀ ns' key', ns_Valid ns' = true → valid_key key' = true → object_file root ns' key' = p → (ns', key') = (ns, key).
Proof.
  intros Hns Hk p. pose proof (object_file_valid root ns key Hns Hk) as Hp.
  assert (length p = length root + 4) as Hlen.
  { unfold p. rewrite Hp, length_app. simpl. unfold shards, ShardDepth. simpl. lia. }
  assert (∀ c, plain_name c → filepath_Join root [c] = root ++ [c]) as Hj.
  { intros c Hc. apply filepath_Join_plain. constructor; [done|constructor]. }
  assert (plain_name "tmp" ∧ plain_name "index.db") as [Ht Hi].
  { split; (repeat split; try done); unfold free_of, sbytes; simpl; set_solver. }
  split; [|split; [done|split; [|split; [|split]]]].
  - unfold under. apply andb_true_iff. split.
    + apply bool_decide_eq_true. unfold p. rewrite Hp. exists (shards key ++ [key]). by rewrite <-(assoc_L (++)).
    + apply negb_true_iff, bool_decide_eq_false. intros He. apply (f_equal length) in He.
      rewrite Hlen, length_app in He. simpl in He. lia.
  - unfold p. rewrite Hp, drop_app_length. constructor; [by apply ns_plain|].
    apply Forall_app. split; [by apply shards_plain|]. constructor; [by apply key_plain|constructor].
  - intros suffix He. apply (f_equal length) in He. rewrite Hj, Hlen, !length_app in He by done. simpl in He. lia.
  - intros He. apply (f_equal length) in He. rewrite Hj, Hlen, length_app in He by done. simpl in He. lia.
  - intros ns' key' Hns' Hk' He. apply object_file_inj in He as [-> ->]; done.
Qed.

Lemma object_paths_confined_witness :
  length (object_file ["data"] NamespaceCAS (Sha.digest [])) = 5.
Proof.
  apply (object_paths_confined ["data"] NamespaceCAS (Sha.digest []) eq_refl (digest_valid_key [])).
Defined.
