(* ===== verification/Config.v ===== *)
(** * Node configuration: internal/config *)

From S2P Require Import Prelude GoStrings Errors.

(** One member of the static cluster. *)
Record Peer := mkPeer { PName : string; PURL : string }.

#[export] Instance Peer_eq_dec : EqDecision Peer.
Proof. solve_decision. Defined.
