(* ===== verification/Ring.v ===== *)
(** * Rendezvous placement: internal/cluster/ring.go

    A [Ring] is the sorted list of cluster members.  [Owners] orders them by
    descending weight for a key; the first [n] are the holders of the key. *)

From S2P Require Import Prelude GoStrings Sha256 Errors Key Config.

#[local] Open Scope Z_scope.

(** ** Members and rings *)

Record Member := mkMember { Name : string; URL : string; seed : Z }.

#[export] Instance Member_eq_dec : EqDecision Member.
Proof. solve_decision. Defined.

Record Ring := mkRing { members : list Member; self : string }.

(** ** Seeds and weights *)

Definition memberSeed (name : string) : Z :=
  Sha.BigEndianUint64
    (Sha.Sum256 (String.list_byte_of_string ("kilncache/member/" +:+ name))).

Definition isHex (s : string) : bool := forallb is_lower_hex (sbytes s).

(** Byte arithmetic: [c - '0'], or [c - 'a' + 10]. *)
Definition hexVal (c : ascii) : Z :=
  let v := byte_val c in
  if (48 <=? v) && (v <=? 57) then v - 48 else (v - 97 + 10) mod 256.

(** One turn of the loop of [keySeed]: [v<<4 | uint64(hexVal(key[i]))]. *)
Definition seed_step (v : Z) (c : ascii) : Z := Z.lor (u64 (Z.shiftl v 4)) (hexVal c).

Definition keySeed (key : string) : Z :=
  if (16 <=? String.length key)%nat && isHex (stake 16 key)
  then fold_left seed_step (sbytes (stake 16 key)) 0
  else Sha.BigEndianUint64 (Sha.Sum256 (String.list_byte_of_string key)).

(** [x ^= x >> s]. *)
Definition xorshift (s x : Z) : Z := Z.lxor x (Z.shiftr x s).

(** The SplitMix64 finalizer. *)
Definition mix (x : Z) : Z :=
  let x := xorshift 30 x in
  let x := u64 (x * 0xbf58476d1ce4e5b9) in
  let x := xorshift 27 x in
  let x := u64 (x * 0x94d049bb133111eb) in
  xorshift 31 x.

Definition weight (keySeed memberSeed : Z) : Z := mix (Z.lxor keySeed memberSeed).

(** ** Construction *)

Definition mk_member (p : Peer) : Member :=
  let name := TrimSpace (PName p) in
  mkMember name (TrimRight (PURL p) "/"%char) (memberSeed name).

(** The loop of [New] over the peers. *)
Fixpoint New_loop (seen : gset string) (peers : list Peer) : result (gset string * list Member) :=
  match peers with
  | [] => Ok (seen, [])
  | p :: ps =>
      let name := TrimSpace (PName p) in
      if String.eqb name EmptyString then Err (Errorf "cluster: member name must not be empty")
      else if bool_decide (name ∈ seen) then Err (Errorf ("cluster: duplicate member " +:+ quoted name))
      else match New_loop ({[name]} ∪ seen) ps with
           | Ok (seen', ms) => Ok (seen', mk_member p :: ms)
           | Err e => Err e
           end
  end.

Definition less_Name (a b : Member) : bool := str_lt (Name a) (Name b).

Definition New (peers : list Peer) (self : string) : result Ring :=
  if bool_decide (peers = []) then Err (Errorf "cluster: membership must not be empty")
  else match New_loop ∅ peers with
       | Err e => Err e
       | Ok (seen, ms) =>
           let ms := sort_Slice less_Name ms in
           if negb (String.eqb self EmptyString) && negb (bool_decide (self ∈ seen))
           then Err (Errorf ("cluster: self " +:+ quoted self +:+ " is not a member"))
           else Ok (mkRing ms self)
       end.

Definition Size (r : Ring) : Z := Z.of_nat (length (members r)).

Definition Lookup (r : Ring) (name : string) : option Member :=
  find (λ m, String.eqb (Name m) name) (members r).

(** ** Placement *)

(** The comparison of [Owners]: descending weight, ties by ascending name. *)
Definition less_scored (a b : Member * Z) : bool :=
  if negb (snd a =? snd b) then snd b <? snd a
  else less_Name (fst a) (fst b).

Definition score (key : string) (m : Member) : Member * Z := (m, weight (keySeed key) (seed m)).

Definition Owners (r : Ring) (key : string) : list Member :=
  fst <$> sort_Slice less_scored (score key <$> members r).

Definition Holders (r : Ring) (key : string) (n : Z) : list Member :=
  let n := if n <? 1 then 1 else n in
  let owners := Owners r key in
  let n := if Z.of_nat (length owners) <? n then Z.of_nat (length owners) else n in
  take (Z.to_nat n) owners.

Definition HoldsKey (r : Ring) (name key : string) (n : Z) : bool :=
  existsb (λ m, String.eqb (Name m) name) (Holders r key n).

Definition SelfHolds (r : Ring) (key : string) (n : Z) : bool := HoldsKey r (self r) key n.

Definition Primary (r : Ring) (key : string) : option Member := head (Owners r key).

(** ** The orders are total preorders *)

Lemma less_Name_le a b : less_Name a b = false ↔ String.le (Name b) (Name a).
Proof. apply str_lt_false. Qed.

#[export] Instance less_Name_total : Total (not_after less_Name).
Proof. intros a b. unfold not_after. rewrite !less_Name_le. apply (total String.le). Qed.

#[export] Instance less_Name_trans : Transitive (not_after less_Name).
Proof. intros a b c. unfold not_after. rewrite !less_Name_le. apply (transitivity (R:=String.le)). Qed.

Lemma less_scored_spec a b :
  not_after less_scored a b ↔ b.2 < a.2 ∨ (a.2 = b.2 ∧ String.le (Name a.1) (Name b.1)).
Proof.
  unfold not_after, less_scored. destruct (Z.eqb_spec b.2 a.2) as [He|He]; simpl.
  - rewrite less_Name_le. naive_solver lia.
  - rewrite Z.ltb_ge. lia.
Qed.

#[export] Instance less_scored_total : Total (not_after less_scored).
Proof.
  intros a b. rewrite !less_scored_spec.
  destruct (Z.lt_trichotomy a.2 b.2) as [?|[?|?]]; [right; lia| |left; lia].
  destruct (total String.le (Name a.1) (Name b.1)); [left|right]; auto.
Qed.

#[export] Instance less_scored_trans : Transitive (not_after less_scored).
Proof.
  intros a b c. rewrite !less_scored_spec. intros [?|[? H1]] [?|[? H2]]; [left; lia..|].
  right. split; [congruence|]. by etrans.
Qed.

(** ** [mix] is a bijection on 64-bit words *)

(** The inverse of [xorshift s] where [3 * s >= 64]. *)
Definition unxorshift (s y : Z) : Z :=
  Z.lxor y (Z.lxor (Z.shiftr y s) (Z.shiftr y (2 * s))).

(** [0x96de1b173f119089] and [0x319642b2d24d8ec3] invert the two odd factors of
    [mix] modulo [2 ^ 64]. *)
Definition unmix (y : Z) : Z :=
  let y := unxorshift 31 y in
  let y := u64 (y * 0x319642b2d24d8ec3) in
  let y := unxorshift 27 y in
  let y := u64 (y * 0x96de1b173f119089) in
  unxorshift 30 y.

Lemma testbit_high x i : in_u64 x → 64 ≤ i → Z.testbit x i = false.
Proof.
  intros [H0 H1] Hi. destruct (Z.eq_dec x 0) as [->|]; [apply Z.bits_0|].
  apply Z.bits_above_log2; [done|]. assert (Z.log2 x < 64); [|lia]. apply Z.log2_lt_pow2; lia.
Qed.

Lemma unxorshift_l s x : in_u64 x → 0 ≤ s → 64 ≤ 3 * s → unxorshift s (xorshift s x) = x.
Proof.
  intros Hx Hs H3. unfold unxorshift, xorshift. apply Z.bits_inj'. intros i Hi.
  rewrite !Z.lxor_spec, !Z.shiftr_spec, !Z.lxor_spec, !Z.shiftr_spec by lia.
  rewrite (testbit_high x (i + 2 * s + s)) by (done || lia).
  replace (i + 2 * s) with (i + s + s) by lia.
  by destruct (Z.testbit x i), (Z.testbit x (i + s)), (Z.testbit x (i + s + s)).
Qed.

Lemma unxorshift_r s x : in_u64 x → 0 ≤ s → 64 ≤ 3 * s → xorshift s (unxorshift s x) = x.
Proof.
  intros Hx Hs H3. unfold unxorshift, xorshift. apply Z.bits_inj'. intros i Hi.
  repeat rewrite ?Z.lxor_spec, ?Z.shiftr_spec by lia.
  rewrite (testbit_high x (i + s + 2 * s)) by (done || lia).
  replace (i + 2 * s) with (i + s + s) by lia.
  by destruct (Z.testbit x i), (Z.testbit x (i + s)), (Z.testbit x (i + s + s)).
Qed.

Lemma lxor_range x y : in_u64 x → in_u64 y → in_u64 (Z.lxor x y).
Proof.
  unfold in_u64. intros Hx Hy.
  assert (0 ≤ Z.lxor x y) as H0 by (apply Z.lxor_nonneg; lia). split; [done|].
  destruct (Z.eq_dec (Z.lxor x y) 0) as [->|]; [lia|]. apply Z.log2_lt_pow2; [lia|].
  eapply Z.le_lt_trans; [apply Z.log2_lxor; lia|].
  assert (∀ z, 0 ≤ z < 2 ^ 64 → Z.log2 z < 64) as Hl.
  { intros z Hz. destruct (Z.eq_dec z 0) as [->|]; [done|]. apply Z.log2_lt_pow2; lia. }
  apply Z.max_lub_lt; auto.
Qed.

Lemma shiftr_range x s : in_u64 x → 0 ≤ s → in_u64 (Z.shiftr x s).
Proof.
  intros [H0 H1] Hs. split; [by apply Z.shiftr_nonneg|].
  rewrite Z.shiftr_div_pow2 by done. eapply Z.le_lt_trans; [|exact H1].
  apply Z.div_le_upper_bound; [lia|]. assert (1 ≤ 2 ^ s) by (pose proof (Z.pow_pos_nonneg 2 s); lia). nia.
Qed.

#[export] Hint Resolve lxor_range shiftr_range : kiln.

Lemma xorshift_range s x : in_u64 x → 0 ≤ s → in_u64 (xorshift s x).
Proof. unfold xorshift. auto with kiln. Qed.

Lemma unxorshift_range s x : in_u64 x → 0 ≤ s → in_u64 (unxorshift s x).
Proof. intros. unfold unxorshift. assert (0 ≤ 2 * s) by lia. auto with kiln. Qed.

Lemma mul_inverse c d x : (c * d) mod 2 ^ 64 = 1 → in_u64 x → u64 (u64 (x * c) * d) = x.
Proof.
  intros Hcd Hx. unfold u64. rewrite Z.mul_mod_idemp_l by lia.
  rewrite <-Z.mul_assoc, Z.mul_mod, Hcd by lia.
  rewrite Z.mul_1_r, Z.mod_mod by lia. by apply Z.mod_small.
Qed.

#[local] Ltac word := repeat first
  [ lia | done | apply u64_range | apply xorshift_range | apply unxorshift_range ].

Lemma mix_range x : in_u64 x → in_u64 (mix x).
Proof. intros. unfold mix. word. Qed.

Lemma unmix_mix x : in_u64 x → unmix (mix x) = x.
Proof.
  intros Hx. unfold unmix, mix. cbv zeta. rewrite unxorshift_l by word.
  rewrite mul_inverse by (word || reflexivity). rewrite unxorshift_l by word.
  rewrite mul_inverse by (word || reflexivity). rewrite unxorshift_l; word.
Qed.

Lemma mix_unmix y : in_u64 y → mix (unmix y) = y.
Proof.
  intros Hx. unfold unmix, mix. cbv zeta. rewrite unxorshift_r by word.
  rewrite mul_inverse by (word || reflexivity). rewrite unxorshift_r by word.
  rewrite mul_inverse by (word || reflexivity). rewrite unxorshift_r; word.
Qed.

Lemma mix_inj x y : in_u64 x → in_u64 y → mix x = mix y → x = y.
Proof. intros Hx Hy H. by rewrite <-(unmix_mix x), <-(unmix_mix y), H. Qed.

(** ** Seeds are 64-bit words *)

Lemma hexVal_range c : is_lower_hex c = true → 0 ≤ hexVal c < 16.
Proof.
  unfold is_lower_hex, hexVal. cbv zeta. intros H.
  destruct ((48 <=? byte_val c) && (byte_val c <=? 57)) eqn:E; simpl in H; boolify; [lia|].
  rewrite Z.mod_small; lia.
Qed.

(** The loop of [keySeed] computes the value of the digits; within 16 digits it
    does not wrap. *)
Lemma seed_fold_spec l v n :
  Forall (λ c, is_lower_hex c = true) l → 0 ≤ v < 16 ^ n → 0 ≤ n → n + Z.of_nat (length l) ≤ 16 →
  fold_left seed_step l v = fold_left (λ a c, a * 16 + hexVal c) l v ∧
  0 ≤ fold_left seed_step l v < 16 ^ (n + Z.of_nat (length l)).
Proof.
  intros Hl. revert v n. induction Hl as [|c l Hc Hl IH]; intros v n Hv Hn Hlen.
  - cbn [fold_left length]. rewrite Z.add_0_r. done.
  - cbn [fold_left length] in *. pose proof (hexVal_range c Hc) as Hd.
    assert (16 ^ (n + 1) = 16 ^ n * 16) as Hp by (rewrite Z.pow_add_r; lia).
    assert (16 ^ (n + 1) ≤ 2 ^ 64) as Hb.
    { change (2 ^ 64) with (16 ^ 16). apply Z.pow_le_mono_r; lia. }
    assert (seed_step v c = v * 16 + hexVal c) as Hs.
    { unfold seed_step. rewrite u64_id; [by apply (lor_shiftl_add v _ 4)|].
      rewrite Z.shiftl_mul_pow2 by lia. unfold in_u64. lia. }
    rewrite Hs. destruct (IH (v * 16 + hexVal c) (n + 1)) as [E R]; [lia..|].
    replace (n + Z.of_nat (S (length l))) with (n + 1 + Z.of_nat (length l)) by lia. done.
Qed.

Lemma forallb_hex l : forallb is_lower_hex l = true ↔ Forall (λ c, is_lower_hex c = true) l.
Proof. rewrite forallb_forall, Forall_forall. setoid_rewrite list_elem_of_In. done. Qed.

Lemma keySeed_range key : in_u64 (keySeed key).
Proof.
  unfold keySeed. destruct (_ && _) eqn:E; [|apply Sha.BigEndianUint64_range].
  boolify. unfold isHex in *.
  destruct (seed_fold_spec (sbytes (stake 16 key)) 0 0) as [_ R]; [|lia..| |].
  - by apply forallb_hex.
  - rewrite stake_bytes, length_take. lia.
  - unfold in_u64. split; [lia|]. eapply Z.lt_le_trans; [apply R|].
    change (2 ^ 64) with (16 ^ 16). apply Z.pow_le_mono_r; [lia|].
    rewrite stake_bytes, length_take. lia.
Qed.

(** The value of a hexadecimal string, a digit at a time. *)
Lemma hexVal_digit n : 0 ≤ n < 16 → hexVal (Sha.hex_digit n) = n.
Proof.
  intros Hn. assert (forallb (λ i, hexVal (Sha.hex_digit (Z.of_nat i)) =? Z.of_nat i) (seq 0 16) = true)
    as H by (vm_compute; reflexivity).
  rewrite forallb_forall in H. specialize (H (Z.to_nat n) ltac:(apply in_seq; lia)).
  rewrite Z2Nat.id in H by lia. by apply Z.eqb_eq.
Qed.

Lemma EncodeToString_take n b : stake (2 * n) (Sha.EncodeToString b) = Sha.EncodeToString (take n b).
Proof.
  revert b. induction n as [|n IH]; intros b; [done|].
  replace (2 * S n)%nat with (S (S (2 * n))) by lia. destruct b as [|x b]; [done|].
  cbn [Sha.EncodeToString take stake]. by rewrite IH.
Qed.

Lemma fold_hex_encode b v :
  fold_left (λ a c, a * 16 + hexVal c) (sbytes (Sha.EncodeToString b)) v =
  fold_left (λ acc x, Z.lor (Z.shiftl acc 8) (Sha.byteZ x)) b v.
Proof.
  revert v. induction b as [|x b IH]; intros v; [done|].
  unfold sbytes in *. cbn [Sha.EncodeToString String.list_ascii_of_string fold_left].
  pose proof (Sha.byteZ_range x). rewrite (lor_shiftl_add v (Sha.byteZ x) 8) by lia.
  assert (0 ≤ Sha.byteZ x / 16 < 16) as Hd.
  { split; [apply Z.div_pos|apply Z.div_lt_upper_bound]; lia. }
  assert (0 ≤ Sha.byteZ x mod 16 < 16) as Hm by (apply Z.mod_pos_bound; lia).
  rewrite !hexVal_digit by done.
  rewrite IH. f_equal. pose proof (Z.div_mod (Sha.byteZ x) 16). lia.
Qed.

(** ** What [New] builds *)

Definition peer_name (p : Peer) : string := TrimSpace (PName p).

Lemma New_loop_Ok seen peers seen' ms :
  New_loop seen peers = Ok (seen', ms) ↔
  seen' = list_to_set (peer_name <$> peers) ∪ seen ∧ ms = mk_member <$> peers ∧
  NoDup (peer_name <$> peers) ∧ Forall (λ n, n ≠ EmptyString ∧ n ∉ seen) (peer_name <$> peers).
Proof.
  revert seen seen' ms. induction peers as [|p ps IH]; intros seen seen' ms; csimpl.
  { rewrite union_empty_l_L. rewrite NoDup_nil, Forall_nil. naive_solver. }
  fold (peer_name p). rewrite NoDup_cons, Forall_cons.
  destruct (String.eqb_spec (peer_name p) EmptyString) as [|Hne]; [naive_solver|].
  case_bool_decide as Hin; [naive_solver|].
  destruct (New_loop _ ps) as [[seen1 ms1]|e] eqn:E.
  - destruct (proj1 (IH _ _ _) E) as (-> & -> & Hnd & Hall). rewrite Forall_forall in Hall.
    split.
    + intros [= <- <-]. split; [set_solver|]. split; [done|]. split; [set_solver|].
      split; [done|]. apply Forall_forall. set_solver.
    + intros (-> & -> & _). do 2 f_equal. set_solver.
  - split; [done|]. intros (_ & _ & [Hni Hnd] & Hh & Hall). exfalso.
    rewrite Forall_forall in Hall.
    assert (∃ x, New_loop ({[peer_name p]} ∪ seen) ps = Ok x) as [x Hx]; [|congruence].
    eexists (_, _). apply IH. split; [reflexivity|]. split; [reflexivity|].
    split; [done|]. apply Forall_forall. set_solver.
Qed.

(** [New] succeeds exactly on a non-empty list of distinct non-empty names that
    includes this node's own, and the ring is the members sorted by name. *)
Lemma New_Ok peers self r :
  New peers self = Ok r ↔
  peers ≠ [] ∧ NoDup (peer_name <$> peers) ∧ Forall (λ n, n ≠ EmptyString) (peer_name <$> peers) ∧
  (self = EmptyString ∨ self ∈ peer_name <$> peers) ∧
  r = mkRing (sort_Slice less_Name (mk_member <$> peers)) self.
Proof.
  unfold New. case_bool_decide as Hnil; [naive_solver|].
  destruct (New_loop ∅ peers) as [[seen ms]|e] eqn:E.
  - apply New_loop_Ok in E as (-> & -> & Hnd & Hall). rewrite union_empty_r_L.
    apply (Forall_impl _ (λ n, n ≠ EmptyString)) in Hall; [|naive_solver].
    destruct (String.eqb_spec self EmptyString) as [->|Hs]; simpl.
    + naive_solver.
    + case_bool_decide as Hin; simpl; rewrite elem_of_list_to_set in Hin; naive_solver.
  - split; [done|]. intros (_ & Hnd & Hall & _).
    assert (∃ x, New_loop ∅ peers = Ok x) as [x Hx]; [|congruence].
    eexists (_, _). apply New_loop_Ok. split; [reflexivity|]. split; [reflexivity|]. split; [done|].
    eapply Forall_impl; [done|]. set_solver.
Qed.

(** The invariant of a ring: no two members share a name. *)
Definition ring_ok (r : Ring) : Prop := NoDup (Name <$> members r).

Lemma names_mk_member (peers : list Peer) : Name <$> (mk_member <$> peers) = peer_name <$> peers.
Proof. by rewrite <-list_fmap_compose. Qed.

Lemma New_ring_ok peers self r : New peers self = Ok r → ring_ok r.
Proof.
  intros (_ & Hnd & _ & _ & ->)%New_Ok. unfold ring_ok. simpl.
  rewrite sort_Slice_perm, names_mk_member. done.
Qed.

Lemma New_members peers self r : New peers self = Ok r → members r ≡ₚ mk_member <$> peers.
Proof. intros (_ & _ & _ & _ & ->)%New_Ok. apply sort_Slice_perm. Qed.

Lemma separates_Name ms : NoDup (Name <$> ms) → separates less_Name ms.
Proof.
  intros Hnd x y Hx Hy. unfold not_after. rewrite !less_Name_le. intros H1 H2.
  apply (NoDup_fmap_inj_in Name ms); [done..|]. by apply (anti_symm String.le).
Qed.

(** ** Placement order *)

(** [a] comes no later than [b] in the preference list of [key]. *)
Definition before (key : string) (a b : Member) : Prop :=
  not_after less_scored (score key a) (score key b).

Lemma before_antisym key ms a b :
  NoDup (Name <$> ms) → a ∈ ms → b ∈ ms → before key a b → before key b a → a = b.
Proof.
  unfold before. rewrite !less_scored_spec. simpl. intros Hnd Ha Hb H1 H2.
  apply (NoDup_fmap_inj_in Name ms); [done..|]. apply (anti_symm String.le); naive_solver lia.
Qed.

Lemma Owners_perm r key : Owners r key ≡ₚ members r.
Proof.
  unfold Owners. rewrite sort_Slice_perm, <-list_fmap_compose. simpl. by rewrite list_fmap_id.
Qed.

Lemma Owners_sorted r key : StronglySorted (before key) (Owners r key).
Proof.
  unfold Owners. pose proof (sort_Slice_sorted less_scored (score key <$> members r) _ _) as Hs.
  pose proof (sort_Slice_perm less_scored (score key <$> members r)) as Hp.
  assert (∃ l, sort_Slice less_scored (score key <$> members r) = score key <$> l) as [l Hl].
  { apply Permutation_map_inv in Hp as (l & -> & _). eauto. }
  rewrite Hl in Hs |- *. rewrite <-list_fmap_compose. simpl. rewrite list_fmap_id.
  exact (StronglySorted_fmap _ _ _ Hs).
Qed.

Lemma Owners_unique r key l :
  ring_ok r → l ≡ₚ members r → StronglySorted (before key) l → l = Owners r key.
Proof.
  intros Hok Hp Hs. eapply (StronglySorted_unique_strong (before key)); [|done|apply Owners_sorted|].
  - intros a b Ha Hb. apply (before_antisym key (members r)); [done| |].
    + by rewrite <-Hp.
    + by rewrite <-(Owners_perm r key).
  - by rewrite Hp, Owners_perm.
Qed.

Lemma Holders_take r key n : Holders r key n = take (Z.to_nat (Z.max 1 n)) (Owners r key).
Proof.
  unfold Holders. cbv zeta.
  replace (if n <? 1 then 1 else n) with (Z.max 1 n) by (destruct (Z.ltb_spec n 1); lia).
  destruct (Z.ltb_spec (Z.of_nat (length (Owners r key))) (Z.max 1 n)); [|done].
  rewrite !take_ge; [done|lia..].
Qed.

Lemma Owners_NoDup r key : ring_ok r → NoDup (Owners r key).
Proof. intros H. rewrite Owners_perm. by eapply NoDup_fmap_1. Qed.

Lemma ring_ok_NoDup r : ring_ok r → NoDup (members r).
Proof. apply NoDup_fmap_1. Qed.

Lemma Owners_join r r' key m :
  ring_ok r' → members r' ≡ₚ m :: members r →
  ∃ l1 l2, Owners r' key = l1 ++ m :: l2 ∧ Owners r key = l1 ++ l2.
Proof.
  intros Hok Hp. pose proof (ring_ok_NoDup _ Hok) as Hnd. rewrite Hp in Hnd.
  apply NoDup_cons in Hnd as [Hm Hnd].
  assert (m ∈ Owners r' key) as (l1 & l2 & Hl)%list_elem_of_split by (rewrite Owners_perm, Hp; set_solver).
  exists l1, l2. split; [done|]. symmetry. apply Owners_unique.
  - unfold ring_ok in *. rewrite Hp in Hok. by apply NoDup_cons in Hok as [_ ?].
  - apply (Permutation_cons_inv (a:=m)). rewrite Permutation_middle, <-Hl, Owners_perm. done.
  - pose proof (Owners_sorted r' key) as Hs. rewrite Hl in Hs.
    clear -Hs. induction l1 as [|x l1 IH]; simpl in *; inv Hs; [done|].
    constructor; [auto|]. rewrite Forall_app, Forall_cons in H2. rewrite Forall_app. tauto.
Qed.

Lemma New_join peers peers' p self self' r r' :
  New peers self = Ok r → New peers' self' = Ok r' → peers' ≡ₚ p :: peers →
  members r' ≡ₚ mk_member p :: members r.
Proof.
  intros Hr Hr' Hp. rewrite (New_members _ _ _ Hr), (New_members _ _ _ Hr'), Hp. done.
Qed.

Lemma New_perm_sorted peers peers' self r :
  New peers self = Ok r → peers ≡ₚ peers' →
  sort_Slice less_Name (mk_member <$> peers') = sort_Slice less_Name (mk_member <$> peers).
Proof.
  intros (_ & Hnd & _)%New_Ok Hp. apply sort_Slice_unique; [apply _..| | |].
  - apply separates_Name. by rewrite names_mk_member.
  - by rewrite sort_Slice_perm, Hp.
  - apply sort_Slice_sorted; apply _.
Qed.

(** ** Claims *)

(** Placement does not depend on the order in which the peers are listed:
    two nodes given the same peers in a different order build the same ring. *)
Theorem ring_independent_of_peer_order peers peers' self r :
  New peers self = Ok r → peers ≡ₚ peers' → New peers' self = Ok r.
Proof.
  intros Hr Hp. pose proof (New_perm_sorted _ _ _ _ Hr Hp) as Hs.
  apply New_Ok in Hr as (Hne & Hnd & Hall & Hself & ->). apply New_Ok.
  split. { intros ->. apply Hne. by apply Permutation_nil_r. }
  rewrite Hs. pose proof (fmap_Permutation peer_name _ _ Hp) as Hn.
  repeat split; [by rewrite <-Hn..|]. destruct Hself; [by left|right]. by rewrite <-Hn.
Qed.

(** C32: [Owners] is independent of the sorting algorithm.  Any arrangement of
    the members of a ring in which no member is preceded by one that [less]
    puts after it is the list [Owners] returns. *)
Theorem owners_any_sort peers self r key l :
  New peers self = Ok r →
  l ≡ₚ score key <$> members r → sorted_by_less less_scored l →
  fst <$> l = Owners r key.
Proof.
  intros Hr Hp Hs. apply Permutation_map_inv in Hp as (ms & -> & Hms). fold (score key <$> ms) in *.
  rewrite <-list_fmap_compose. simpl. rewrite list_fmap_id. apply Owners_unique.
  - by eapply New_ring_ok.
  - by symmetry.
  - exact (StronglySorted_fmap _ _ _ Hs).
Qed.

(** C31: adding a member moves only the keys it takes.  Among the holders of a key
    after the join every member but the new one was a holder before, at most one
    old holder is displaced, and a key the new member does not hold keeps exactly
    its holders in the same order. *)
Theorem join_moves_only_to_new_member peers peers' p self self' r r' key n :
  New peers self = Ok r → New peers' self' = Ok r' → peers' ≡ₚ p :: peers →
  let m := mk_member p in
  (∀ x, x ∈ Holders r' key n → x = m ∨ x ∈ Holders r key n) ∧
  (∃ lost, (length lost ≤ 1)%nat ∧ Holders r key n ⊆ lost ++ Holders r' key n) ∧
  (m ∉ Holders r' key n → Holders r' key n = Holders r key n).
Proof.
  intros Hr Hr' Hp m. pose proof (New_join _ _ _ _ _ _ _ Hr Hr' Hp) as Hm.
  destruct (Owners_join r r' key m (New_ring_ok _ _ _ Hr') Hm) as (l1 & l2 & E' & E).
  rewrite !Holders_take, E, E'. set (k := Z.to_nat _). clearbody k m.
  destruct (decide (k ≤ length l1)%nat).
  - rewrite !take_app_le by done. split; [auto|]. split; [exists []; simpl; split; [lia|set_solver]|done].
  - rewrite !take_app_ge by lia. destruct (k - length l1)%nat as [|j] eqn:Ek; [lia|]. simpl.
    destruct (take_S_split j l2) as (lost & Hlost & ->).
    split; [|split; [exists lost; split; [done|]|]].
    + intros x. rewrite !elem_of_app, elem_of_cons. tauto.
    + intros x. rewrite !elem_of_app, elem_of_cons. tauto.
    + intros []. rewrite elem_of_app, elem_of_cons. auto.
Qed.

Definition peer3 (name : string) : Peer := mkPeer name ("http://" +:+ name).
Definition abc : list Peer := peer3 <$> ["node-a"; "node-b"; "node-c"].

Definition ring_of (l : list Peer) (self : string) : Ring :=
  match New l self with Ok r => r | Err _ => mkRing [] self end.

Lemma ring_independent_of_peer_order_witness :
  New (reverse abc) "node-b" = Ok (ring_of abc "node-b").
Proof.
  apply (ring_independent_of_peer_order abc).
  - vm_compute. reflexivity.
  - symmetry. apply reverse_Permutation.
Defined.

Lemma owners_any_sort_witness :
  fst <$> reverse (sort_Slice (λ a b, less_scored b a) (score "k" <$> members (ring_of abc "node-b")))
  = Owners (ring_of abc "node-b") "k".
Proof.
  apply (owners_any_sort abc "node-b").
  - vm_compute. reflexivity.
  - rewrite reverse_Permutation. apply sort_Slice_perm.
  - set (l := reverse _). vm_compute in l. subst l. repeat constructor.
Defined.

Lemma join_moves_only_to_new_member_witness :
  ∃ lost, (length lost ≤ 1)%nat ∧
    Holders (ring_of abc "node-a") "k" 2 ⊆ lost ++ Holders (ring_of (peer3 "node-d" :: abc) "node-a") "k" 2.
Proof.
  refine (proj1 (proj2 (join_moves_only_to_new_member abc (peer3 "node-d" :: abc) (peer3 "node-d")
    "node-a" "node-a" (ring_of abc "node-a") (ring_of (peer3 "node-d" :: abc) "node-a") "k" 2 _ _ _))).
  - vm_compute. reflexivity.
  - vm_compute. reflexivity.
  - reflexivity.
Defined.

(** [mix] is a bijection on 64-bit words, as its comment says: it has a
    two-sided inverse, so members with distinct seeds never tie on any key. *)
Theorem mix_bijection x :
  in_u64 x →
  in_u64 (mix x) ∧ unmix (mix x) = x ∧ mix (unmix x) = x ∧
  ∀ key m, in_u64 (seed m) → x ≠ seed m → weight (keySeed key) x ≠ weight (keySeed key) (seed m).
Proof.
  intros Hx. split; [by apply mix_range|]. split; [by apply unmix_mix|].
  split; [by apply mix_unmix|]. intros key m Hm Hne Heq. apply Hne. unfold weight in Heq.
  pose proof (keySeed_range key).
  apply mix_inj in Heq; [|by apply lxor_range..].
  apply (f_equal (Z.lxor (keySeed key))) in Heq.
  by rewrite <-!Z.lxor_assoc, !Z.lxor_nilpotent, !Z.lxor_0_l in Heq.
Qed.

Lemma mix_bijection_witness : unmix (mix 0x0123456789abcdef) = 0x0123456789abcdef.
Proof. apply (mix_bijection 0x0123456789abcdef). vm_compute. split; [discriminate|reflexivity]. Defined.

(** For the key of a content-addressed object the shortcut of [keySeed]
    is the first eight bytes of the digest, big-endian: reading sixteen
    hexadecimal digits never overflows and never falls back to hashing. *)
Theorem keySeed_of_digest (content : bytes) :
  keySeed (Sha.digest content) = Sha.BigEndianUint64 (Sha.Sum256 content).
Proof.
  pose proof (digest_valid_key content) as [Hl Hh]%valid_key_spec.
  unfold keySeed. rewrite Hl. unfold isHex.
  assert (forallb is_lower_hex (sbytes (stake 16 (Sha.digest content))) = true) as Hx.
  { apply forallb_hex. rewrite stake_bytes. by apply Forall_take. }
  rewrite Hx. cbn [andb Nat.leb HashLen]. unfold Sha.digest in *.
  rewrite forallb_hex in Hx.
  rewrite (proj1 (seed_fold_spec _ 0 0 Hx ltac:(lia) ltac:(lia) ltac:(rewrite stake_bytes, length_take; lia))).
  change 16%nat with (2 * 8)%nat. by rewrite EncodeToString_take, fold_hex_encode.
Qed.

(** [Holders] returns between one and [n] members, never more than the
    cluster has, each of them once; they are the first of the preference list,
    so raising the replication factor keeps every existing holder, and
    [HoldsKey] answers membership in it. *)
Theorem holders_shape peers self r key n name :
  New peers self = Ok r →
  let h := Holders r key n in
  Z.of_nat (length h) = Z.min (Z.max 1 n) (Size r) ∧
  (1 ≤ length h)%nat ∧ NoDup (Name <$> h) ∧ head h = Primary r key ∧
  (∀ n', n ≤ n' → h `prefix_of` Holders r key n') ∧
  (HoldsKey r name key n = true ↔ name ∈ Name <$> h).
Proof.
  intros Hr h. pose proof (New_ring_ok _ _ _ Hr) as Hok. pose proof (New_members _ _ _ Hr) as Hm.
  assert (Size r = Z.of_nat (length (Owners r key))) as Hsz.
  { unfold Size. by rewrite Owners_perm. }
  assert (1 ≤ length (Owners r key))%nat as H1.
  { apply New_Ok in Hr as (Hne & _). rewrite Owners_perm, Hm, length_fmap.
    destruct peers; [done|simpl; lia]. }
  assert (length h = Z.to_nat (Z.max 1 n) `min` length (Owners r key))%nat as Hl.
  { unfold h. by rewrite Holders_take, length_take. }
  split; [lia|]. split; [lia|]. split; [|split; [|split]].
  - unfold h. rewrite Holders_take, fmap_take. apply NoDup_take.
    rewrite Owners_perm. done.
  - unfold h, Primary. rewrite Holders_take. destruct (Z.to_nat (Z.max 1 n)) eqn:E; [lia|].
    by destruct (Owners r key).
  - intros n' Hn. unfold h. rewrite !Holders_take.
    eapply take_prefix_mono. lia.
  - unfold HoldsKey. rewrite existsb_exists, list_elem_of_fmap. fold h.
    setoid_rewrite <-list_elem_of_In. setoid_rewrite String.eqb_eq. naive_solver.
Qed.

Lemma holders_shape_witness :
  Z.of_nat (length (Holders (ring_of abc "node-a") "k" 2)) = Z.min (Z.max 1 2) (Size (ring_of abc "node-a")).
Proof.
  apply (holders_shape abc "node-a" (ring_of abc "node-a") "k" 2 "node-c"). vm_compute. reflexivity.
Defined.
