(* ===== verification/Protocol.v ===== *)
(** * The contract between nodes: internal/protocol/protocol.go

    Hop roles and the values the front door and the coordinator exchange. *)

From S2P Require Import Prelude GoStrings Sha256 Errors Key.

#[local] Open Scope Z_scope.

Abbreviation Hop := string.
Definition HopClient : Hop := EmptyString.
Definition HopCoordinator : Hop := "coordinator".
Definition HopReplica : Hop := "replica".
Definition HopRepair : Hop := "repair".
Definition HopRead : Hop := "read".

Definition Terminal (h : Hop) : bool :=
  String.eqb h HopReplica || String.eqb h HopRead || String.eqb h HopRepair.

Definition Forwarded (h : Hop) : bool := negb (String.eqb h HopClient).

Definition ParseHop (s : string) : Hop :=
  if String.eqb s HopCoordinator then HopCoordinator
  else if String.eqb s HopReplica then HopReplica
  else if String.eqb s HopRepair then HopRepair
  else if String.eqb s HopRead then HopRead
  else if String.eqb s HopClient then HopClient
  else HopReplica.

Definition HeaderNode : string := "X-Kilncache-Node".
Definition HeaderForwardedBy : string := "X-Kilncache-Forwarded-By".
Definition HeaderHop : string := "X-Kilncache-Hop".
Definition HeaderSource : string := "X-Kilncache-Source".
Definition HeaderHolders : string := "X-Kilncache-Holders".
Definition HeaderCopies : string := "X-Kilncache-Copies".
Definition HeaderCopiesWanted : string := "X-Kilncache-Copies-Wanted".
Definition HeaderAlreadyStored : string := "X-Kilncache-Already-Stored".

Record PutOutcome := mkPutOutcome {
  out_Size : Z; out_AlreadyStored : bool;
  out_Copies : Z; out_Wanted : Z; out_Holders : list string; out_Durable : bool }.

Record ObjectInfo := mkObjectInfo { info_Size : Z; info_Source : string }.

(** ** Lemmas *)

(** Every role [ParseHop] returns is one of the five. *)
Lemma ParseHop_cases s :
  ParseHop s ∈ [HopClient; HopCoordinator; HopReplica; HopRepair; HopRead].
Proof. unfold ParseHop. repeat case_match; set_solver. Qed.

Lemma ParseHop_known h :
  h ∈ [HopClient; HopCoordinator; HopReplica; HopRepair; HopRead] → ParseHop h = h.
Proof. rewrite !elem_of_cons. intros [->|[->|[->|[->|[->|[]%elem_of_nil]]]]]; reflexivity. Qed.

(** A header value no version of the protocol knows is terminal. *)
Lemma ParseHop_unknown s :
  s ∉ [HopClient; HopCoordinator; HopReplica; HopRepair; HopRead] →
  ParseHop s = HopReplica.
Proof.
  rewrite !not_elem_of_cons. intros (?&?&?&?&?&_). unfold ParseHop.
  repeat match goal with |- context [String.eqb ?a ?b] => destruct (String.eqb_spec a b); [done|] end.
  done.
Qed.
