(* ===== verification/Index.v ===== *)
(** * The metadata index: internal/storage/index.go

    The [objects] and [meta] tables of the SQLite database, the queue of
    pending access times, and the operations on them.  The database is code the
    repository only calls: every statement takes the error the driver may
    return, a transaction that does not commit leaves the tables unchanged, and
    [SqlScan] is the order in which a query without [ORDER BY] returns rows.
    Times are nanoseconds, as the columns store them. *)

From S2P Require Import Prelude GoStrings Sha256 Errors Key.

#[local] Open Scope Z_scope.

(** ** State *)

(** [objRef] and [Ref]: a namespace and a key. *)
Abbreviation Ref := (string * string)%type.

Record row := mkRow { row_size : Z; created_at : Z; last_access : Z; access_count : Z }.

#[export] Instance row_eq_dec : EqDecision row.
Proof. solve_decision. Defined.

(** The [objects] table, by its primary key. *)
Abbreviation Table := (gmap (string * string) row).

Record IndexStats := mkIndexStats {
  Inserts : Z; Deletes : Z; TouchesQueued : Z; TouchFlushes : Z; TouchesWritten : Z;
  TouchesDropped : Z }.

Record Index := mkIndex {
  objects : Table;
  meta : gmap string string;
  pendingTouch : gmap (string * string) Z;
  touchLimit : Z;
  closed : bool;
  r_open : bool;
  w_open : bool;
  stats : IndexStats }.

Record Entry := mkEntry { e_ref : string * string; e_row : row }.

#[export] Instance Entry_eq_dec : EqDecision Entry.
Proof. solve_decision. Defined.

Definition set_objects (t : Table) (i : Index) : Index :=
  mkIndex t (meta i) (pendingTouch i) (touchLimit i) (closed i) (r_open i) (w_open i) (stats i).
Definition set_meta (m : gmap string string) (i : Index) : Index :=
  mkIndex (objects i) m (pendingTouch i) (touchLimit i) (closed i) (r_open i) (w_open i) (stats i).
Definition set_pending (p : gmap (string * string) Z) (i : Index) : Index :=
  mkIndex (objects i) (meta i) p (touchLimit i) (closed i) (r_open i) (w_open i) (stats i).
Definition set_closed (b : bool) (i : Index) : Index :=
  mkIndex (objects i) (meta i) (pendingTouch i) (touchLimit i) b (r_open i) (w_open i) (stats i).
Definition set_pools (r w : bool) (i : Index) : Index :=
  mkIndex (objects i) (meta i) (pendingTouch i) (touchLimit i) (closed i) r w (stats i).
Definition set_stats (f : IndexStats → IndexStats) (i : Index) : Index :=
  mkIndex (objects i) (meta i) (pendingTouch i) (touchLimit i) (closed i) (r_open i) (w_open i)
    (f (stats i)).

Definition add_Inserts (s : IndexStats) : IndexStats :=
  mkIndexStats (Inserts s + 1) (Deletes s) (TouchesQueued s) (TouchFlushes s) (TouchesWritten s)
    (TouchesDropped s).
Definition add_Deletes (n : Z) (s : IndexStats) : IndexStats :=
  mkIndexStats (Inserts s) (Deletes s + n) (TouchesQueued s) (TouchFlushes s) (TouchesWritten s)
    (TouchesDropped s).
Definition add_Queued (s : IndexStats) : IndexStats :=
  mkIndexStats (Inserts s) (Deletes s) (TouchesQueued s + 1) (TouchFlushes s) (TouchesWritten s)
    (TouchesDropped s).
Definition add_Dropped (s : IndexStats) : IndexStats :=
  mkIndexStats (Inserts s) (Deletes s) (TouchesQueued s) (TouchFlushes s) (TouchesWritten s)
    (TouchesDropped s + 1).
Definition add_Flush (n : Z) (s : IndexStats) : IndexStats :=
  mkIndexStats (Inserts s) (Deletes s) (TouchesQueued s) (TouchFlushes s + 1)
    (TouchesWritten s + n) (TouchesDropped s).

(** ** The database *)

(** The error a use of a closed [sql.DB] returns. *)
Definition db_closed : error := OSError false "sql: database is closed".

(** The errors the driver returns in one transaction: on [BeginTx], on a
    statement executed before the prepared one, on [Prepare], on the [i]-th
    execution and on [Commit]. *)
Record TxEnv := mkTxEnv {
  tx_begin : option error; tx_clear : option error; tx_prepare : option error;
  tx_exec : nat → option error; tx_commit : option error }.

Definition tx_fine : TxEnv := mkTxEnv None None None (λ _, None) None.

(** Execute a prepared statement for each element of [l]. *)
Fixpoint stmt_loop {A} (fault : nat → option error) (msg : string)
    (stmt : A → Table → result Table) (i : nat) (l : list A) (t : Table) : result Table :=
  match l with
  | [] => Ok t
  | x :: l' =>
      match fault i with
      | Some e => Err (Wrap msg e)
      | None =>
          match stmt x t with
          | Err e => Err (Wrap msg e)
          | Ok t' => stmt_loop fault msg stmt (S i) l' t'
          end
      end
  end.

(** A transaction on the write pool with its deferred rollback: [body] runs on
    the tables of the transaction, which become the tables of the database
    only on commit. *)
Definition transaction (env : TxEnv) (begin_msg commit_msg : string)
    (body : Table → result Table) : M Index unit :=
  i ← getS;
  _ ← check ((if w_open i then tx_begin env else Some db_closed) ≫= λ e, Some (Wrap begin_msg e));
  match body (objects i) with
  | Err e => fail e
  | Ok t =>
      _ ← check (tx_commit env ≫= λ e, Some (Wrap commit_msg e));
      modify (set_objects t)
  end.

(** A single statement on the write pool. *)
Definition exec_w (fault : option error) (msg : string) (f : Index → Index) : M Index unit :=
  i ← getS;
  _ ← check ((if w_open i then fault else Some db_closed) ≫= λ e, Some (Wrap msg e));
  modify f.

(** A query on the read pool. *)
Definition query_r {A} (fault : option error) (msg : string) (f : Index → result A) : M Index A :=
  i ← getS;
  _ ← check ((if r_open i then fault else Some db_closed) ≫= λ e, Some (Wrap msg e));
  match f i with Ok a => mret a | Err e => fail e end.

(** The order in which the database enumerates a table. *)
Class SqlScan := {
  scan : Table → list (string * string * row);
  scan_perm : ∀ t, scan t ≡ₚ map_to_list t }.

#[export] Instance primary_key_scan : SqlScan := {| scan := map_to_list; scan_perm _ := Permutation_refl _ |}.

(** ** Opening *)

Definition defaultTouchLimit : Z := 4096.

Record IndexOptions := mkIndexOptions { Path : string; TouchLimit : Z }.

(** [OpenIndex] on a database file holding the two tables; [db] gives the error
    of each driver call it makes, in order. *)
Definition OpenIndex (opts : IndexOptions) (db : list (option error))
    (disk : Table * gmap string string) : result Index :=
  if String.eqb (Path opts) EmptyString then Err (Errorf "storage: index path must not be empty")
  else
    let limit := if TouchLimit opts <=? 0 then defaultTouchLimit else TouchLimit opts in
    let call n msg k :=
      match nth n db None with Some e => Err (Wrap msg e) | None => k end in
    call 0%nat "storage: open index for writing"
      (call 1%nat "storage: ping index"
        (call 2%nat "storage: create index schema"
          (call 3%nat "storage: open index for reading"
            (call 4%nat "storage: ping index readers"
              (Ok (mkIndex disk.1 disk.2 ∅ limit false true true (mkIndexStats 0 0 0 0 0 0))))))).

(** ** Writing *)

(** [INSERT ... ON CONFLICT(ns, key) DO UPDATE SET size, last_access]. *)
Definition upsert_row (now sz : Z) (old : option row) : row :=
  match old with
  | None => mkRow sz now now 1
  | Some r => mkRow sz (created_at r) now (access_count r)
  end.

Definition Upsert (fault : option error) (now : Z) (ns key : string) (sz : Z) : M Index unit :=
  i ← getS;
  _ ← fail_if (closed i) ErrClosed;
  _ ← exec_w fault "storage: index upsert"
        (λ i, set_objects (<[(ns, key) := upsert_row now sz (objects i !! (ns, key))]> (objects i)) i);
  modify (set_stats add_Inserts).

Definition Remove (fault : option error) (ns key : string) : M Index unit :=
  i ← getS;
  _ ← fail_if (closed i) ErrClosed;
  _ ← modify (λ i, set_pending (delete (ns, key) (pendingTouch i)) i);
  _ ← exec_w fault "storage: index remove" (λ i, set_objects (delete (ns, key) (objects i)) i);
  modify (set_stats (add_Deletes 1)).

Definition delete_refs {A} (refs : list (string * string)) (m : gmap (string * string) A)
    : gmap (string * string) A :=
  fold_left (λ m r, delete r m) refs m.

Definition RemoveBatch (env : TxEnv) (refs : list (string * string)) : M Index unit :=
  i ← getS;
  _ ← fail_if (closed i) ErrClosed;
  if bool_decide (refs = []) then mret tt
  else
    _ ← modify (λ i, set_pending (delete_refs refs (pendingTouch i)) i);
    _ ← transaction env "storage: begin batch remove" "storage: commit batch remove"
          (λ t, match tx_prepare env with
                | Some e => Err (Wrap "storage: prepare batch remove" e)
                | None => stmt_loop (tx_exec env) "storage: batch remove"
                            (λ r t, Ok (delete r t)) 0 refs t
                end);
    modify (set_stats (add_Deletes (Z.of_nat (length refs)))).

(** [Touch] returns nothing: it is a function on the state. *)
Definition Touch (now : Z) (ns key : string) (i : Index) : Index :=
  if closed i then i
  else if (touchLimit i <=? Z.of_nat (size (pendingTouch i))) &&
          bool_decide (pendingTouch i !! (ns, key) = None)
  then set_stats add_Dropped i
  else set_stats add_Queued (set_pending (<[(ns, key) := now]> (pendingTouch i)) i).

(** [UPDATE objects SET last_access = at, access_count = access_count + 1]. *)
Definition touch_row (at_ : Z) (r : row) : row :=
  mkRow (row_size r) (created_at r) at_ (access_count r + 1).

Definition touch_stmt (ra : string * string * Z) (t : Table) : Table := alter (touch_row ra.2) ra.1 t.

(** The transaction of [FlushTouches], after the batch was taken out under the
    lock; other operations run between the two. *)
Definition flush_write (env : TxEnv) (batch : list (string * string * Z)) : M Index unit :=
  _ ← transaction env "storage: begin touch flush" "storage: commit touch flush"
        (λ t, match tx_prepare env with
              | Some e => Err (Wrap "storage: prepare touch flush" e)
              | None => stmt_loop (tx_exec env) "storage: touch flush"
                          (λ ra t, Ok (touch_stmt ra t)) 0 batch t
              end);
  modify (set_stats (add_Flush (Z.of_nat (length batch)))).

(** The map is ranged over in an unspecified order; the updates concern
    distinct rows, so every order has the same effect. *)
Definition FlushTouches (env : TxEnv) : M Index unit :=
  i ← getS;
  if bool_decide (pendingTouch i = ∅) then mret tt
  else
    let batch := map_to_list (pendingTouch i) in
    _ ← modify (set_pending ∅);
    flush_write env batch.

(** The insert of [ReplaceAll]; the primary key refuses a second row for a
    reference. *)
Definition insert_entry (e : Entry) (t : Table) : result Table :=
  let r := e_row e in
  let count := if access_count r <? 1 then 1 else access_count r in
  match t !! e_ref e with
  | Some _ => Err (OSError false "UNIQUE constraint failed: objects.ns, objects.key")
  | None => Ok (<[e_ref e := mkRow (row_size r) (created_at r) (last_access r) count]> t)
  end.

Definition ReplaceAll (env : TxEnv) (entries : list Entry) : M Index unit :=
  transaction env "storage: begin reconcile" "storage: commit reconcile"
    (λ t, match tx_clear env with
          | Some e => Err (Wrap "storage: clear index" e)
          | None =>
              match tx_prepare env with
              | Some e => Err (Wrap "storage: prepare reconcile insert" e)
              | None => stmt_loop (tx_exec env) "storage: reconcile insert" insert_entry 0 entries ∅
              end
          end).

Definition SetMeta (fault : option error) (k v : string) : M Index unit :=
  exec_w fault "storage: set meta" (λ i, set_meta (<[k := v]> (meta i)) i).

(** ** Reading *)

Definition Zsizes (t : Table) : list Z := (λ kr, row_size kr.2) <$> map_to_list t.

(** [SELECT COUNT( * ), COALESCE(SUM(size), 0)]: [SUM] fails on overflow. *)
Definition Totals (fault : option error) : M Index (Z * Z) :=
  query_r fault "storage: index totals" (λ i,
    let bytes := Zsum (Zsizes (objects i)) in
    if bool_decide (bytes < - 2 ^ 63) || bool_decide (2 ^ 63 ≤ bytes)
    then Err (Wrap "storage: index totals" (OSError false "integer overflow"))
    else Ok (Z.of_nat (size (objects i)), bytes)).

Definition Get (fault : option error) (ns key : string) : M Index Entry :=
  query_r fault "storage: index get" (λ i,
    match objects i !! (ns, key) with
    | None => Err ErrNotFound
    | Some r => Ok (mkEntry (ns, key) r)
    end).

Definition GetMeta (fault : option error) (k : string) : M Index string :=
  query_r fault "storage: get meta" (λ i,
    match meta i !! k with None => Err ErrNotFound | Some v => Ok v end).

Definition entry_of (kr : string * string * row) : Entry := mkEntry kr.1 kr.2.

Definition colder (a b : Entry) : bool := last_access (e_row a) <? last_access (e_row b).

Definition ref_lt (a b : string * string) : bool :=
  str_lt a.1 b.1 || (String.eqb a.1 b.1 && str_lt a.2 b.2).

Definition ref_before (a b : Entry) : bool := ref_lt (e_ref a) (e_ref b).

Section queries.
Context {Scan : SqlScan}.

(** [ORDER BY last_access ASC LIMIT n]: rows with equal access times come in
    the order of the scan. *)
Definition coldest (n : Z) (t : Table) : list Entry :=
  take (Z.to_nat n) (sort_Slice colder (entry_of <$> scan t)).

Definition ColdestN (fault : option error) (n : Z) : M Index (list Entry) :=
  if n <=? 0 then mret []
  else query_r fault "storage: index coldest" (λ i, Ok (coldest n (objects i))).

(** [WHERE (ns > ?) OR (ns = ? AND key > ?) ORDER BY ns, key LIMIT ?]. *)
Definition page_after (after : string * string) (limit : Z) (t : Table) : list Entry :=
  take (Z.to_nat limit)
    (sort_Slice ref_before (filter (λ e, ref_lt after (e_ref e) = true) (entry_of <$> scan t))).

Definition PageAfter (fault : option error) (lastNS lastKey : string) (limit : Z)
    : M Index (list Entry) :=
  if limit <=? 0 then mret []
  else query_r fault "storage: index page" (λ i, Ok (page_after (lastNS, lastKey) limit (objects i))).

(** [All] hands each entry to [fn] until [fn] fails; [acc] is what the
    callback's closure has built. *)
Fixpoint all_loop {A} (fn : A → Entry → result A) (acc : A) (l : list Entry) : result A :=
  match l with
  | [] => Ok acc
  | e :: l' => match fn acc e with Ok acc' => all_loop fn acc' l' | Err er => Err er end
  end.

Definition All {A} (fault : option error) (fn : A → Entry → result A) (acc : A) : M Index A :=
  query_r fault "storage: index scan" (λ i, all_loop fn acc (entry_of <$> scan (objects i))).
End queries.

(** ** Closing *)

(** [Close]: [env] is the environment of the final flush, [rc] and [wc] the
    errors of closing the two pools. *)
Definition Close (env : TxEnv) (rc wc : option error) : M Index unit :=
  i ← getS;
  if closed i then mret tt
  else
    _ ← modify (set_closed true);
    _ ← (if bool_decide (pendingTouch i = ∅) then mret tt
         else
           _ ← modify (set_closed false);
           _ ← attempt (FlushTouches env);
           modify (set_closed true));
    _ ← modify (set_pools false false);
    check (match rc with Some e => Some e | None => wc end).

Definition indexPath (root : path) : path := filepath_Join root ["index.db"].

#[global] Arguments Upsert : simpl never.
#[global] Arguments Remove : simpl never.
#[global] Arguments RemoveBatch : simpl never.
#[global] Arguments Touch : simpl never.
#[global] Arguments FlushTouches : simpl never.
#[global] Arguments flush_write : simpl never.
#[global] Arguments ReplaceAll : simpl never.
#[global] Arguments SetMeta : simpl never.
#[global] Arguments Close : simpl never.

(** ** Transactions *)

Lemma transaction_cases env b c body i :
  (∃ e, transaction env b c body i = (i, Err e)) ∨
  (∃ t, body (objects i) = Ok t ∧ transaction env b c body i = (set_objects t i, Ok tt)).
Proof.
  unfold transaction, check, getS, fail. rewrite !bind_eq.
  destruct (if w_open i then _ else _); simpl; [eauto|]. unfold mret, M_ret.
  destruct (body (objects i)) as [t|e]; [|eauto]. rewrite bind_eq.
  destruct (tx_commit env); simpl; eauto.
Qed.

Lemma transaction_fine env b c body i t :
  w_open i = true → tx_begin env = None → tx_commit env = None → body (objects i) = Ok t →
  transaction env b c body i = (set_objects t i, Ok tt).
Proof.
  intros Hw Hb Hc Ht. unfold transaction, check, getS. rewrite !bind_eq, Hw, Hb. simpl.
  rewrite Ht. rewrite bind_eq, Hc. done.
Qed.

Lemma exec_w_cases f msg g i :
  (∃ e, exec_w f msg g i = (i, Err e)) ∨ exec_w f msg g i = (g i, Ok tt).
Proof.
  unfold exec_w, check, getS, fail. rewrite !bind_eq. destruct (if w_open i then _ else _); simpl; eauto.
Qed.

Lemma query_r_state {A} f msg (g : Index → result A) i : (query_r f msg g i).1 = i.
Proof.
  unfold query_r, check, getS, fail. rewrite !bind_eq.
  destruct (if r_open i then _ else _); simpl; [done|]. by destruct (g i).
Qed.

Lemma stmt_loop_Ok {A} (fault : nat → option error) (msg : string) (f : A → Table → Table) (n : nat) (l : list A) (t t' : Table) :
  stmt_loop fault msg (λ x t, Ok (f x t)) n l t = Ok t' → t' = fold_left (λ t x, f x t) l t.
Proof.
  revert n t. induction l as [|x l IH]; intros n t; simpl; [by intros [= ->]|].
  destruct (fault n); [done|]. apply IH.
Qed.

Lemma stmt_loop_fine {A} (msg : string) (f : A → Table → Table) (n : nat) (l : list A) (t : Table) :
  stmt_loop (λ _, None) msg (λ x t, Ok (f x t)) n l t = Ok (fold_left (λ t x, f x t) l t).
Proof. revert n t. induction l as [|x l IH]; intros n t; simpl; [done|]. apply IH. Qed.

Lemma delete_refs_lookup {A} (refs : list (string * string)) (m : gmap (string * string) A) (k : string * string) :
  delete_refs refs m !! k = if bool_decide (k ∈ refs) then None else m !! k.
Proof.
  unfold delete_refs. revert m. induction refs as [|r refs IH]; intros m.
  { rewrite bool_decide_eq_false_2; [done|]. apply not_elem_of_nil. }
  cbn [fold_left]. rewrite IH. destruct (decide (k = r)) as [->|Hne].
  - rewrite lookup_delete_eq. rewrite (bool_decide_eq_true_2 (r ∈ r :: refs)) by set_solver. by case_match.
  - rewrite lookup_delete_ne by done. repeat case_bool_decide; set_solver.
Qed.

Lemma delete_refs_size {A} (refs : list (string * string)) (m : gmap (string * string) A) : (size (delete_refs refs m) ≤ size m)%nat.
Proof.
  unfold delete_refs. revert m. induction refs as [|r refs IH]; intros m; simpl; [done|].
  etrans; [apply IH|]. rewrite map_size_delete. destruct (m !! r); simpl; lia.
Qed.

(** What a sequence of touches does to one row. *)
Lemma touch_fold_lookup l t k :
  fold_left (λ t x, touch_stmt x t) l t !! k =
  fold_left (λ r x, if bool_decide (x.1 = k) then touch_row x.2 r else r) l <$> (t !! k).
Proof.
  revert t. induction l as [|x l IH]; intros t; simpl; [by rewrite option_fmap_id|].
  rewrite IH. unfold touch_stmt. case_bool_decide as Hk.
  - subst k. rewrite lookup_alter_eq. by destruct (t !! x.1).
  - rewrite lookup_alter_ne by done. done.
Qed.

Lemma touch_fold_None l t k : fold_left (λ t x, touch_stmt x t) l t !! k = None ↔ t !! k = None.
Proof. rewrite touch_fold_lookup. apply fmap_None. Qed.


(** A flush leaves the set of rows and their sizes as they were. *)
Definition row_dims (t : Table) : gmap (string * string) Z := row_size <$> t.

Lemma touch_fold_dims l t : row_dims (fold_left (λ t x, touch_stmt x t) l t) = row_dims t.
Proof.
  revert t. induction l as [|x l IH]; intros t; simpl; [done|]. rewrite IH.
  unfold row_dims, touch_stmt. apply map_eq. intros k. rewrite !lookup_fmap.
  destruct (decide (k = x.1)) as [->|].
  - rewrite lookup_alter_eq. by destruct (t !! x.1).
  - by rewrite lookup_alter_ne.
Qed.

Lemma flush_write_cases env b i :
  (∃ e, flush_write env b i = (i, Err e)) ∨
  flush_write env b i =
    (set_stats (add_Flush (Z.of_nat (length b)))
       (set_objects (fold_left (λ t x, touch_stmt x t) b (objects i)) i), Ok tt).
Proof.
  unfold flush_write. rewrite bind_eq.
  destruct (transaction_cases env "storage: begin touch flush" "storage: commit touch flush"
    (λ t, match tx_prepare env with
          | Some e => Err (Wrap "storage: prepare touch flush" e)
          | None => stmt_loop (tx_exec env) "storage: touch flush" (λ ra t, Ok (touch_stmt ra t)) 0 b t
          end) i) as [[e ->]|(t & Ht & ->)]; [eauto|].
  right. destruct (tx_prepare env); [done|]. apply stmt_loop_Ok in Ht as ->. done.
Qed.

(** ** Interleavings of index operations

    Requests, the sweeper, the auditor and the flusher share the index.  Each
    lock-protected section and each database transaction is one step; a flush
    is two, and [flushing] allows one at a time, so the state carries at most
    one batch taken out of the queue and not yet written. *)

Abbreviation batch := (list (string * string * Z)).

Record shared := mkShared { idx : Index; in_flight : option batch }.

Inductive idx_op :=
  | OpUpsert (fault : option error) (now : Z) (ns key : string) (sz : Z)
  | OpRemove (fault : option error) (ns key : string)
  | OpRemoveBatch (env : TxEnv) (refs : list (string * string))
  | OpTouch (now : Z) (ns key : string)
  | OpFlushSwap
  | OpFlushWrite (env : TxEnv)
  | OpReplaceAll (env : TxEnv) (entries : list Entry)
  | OpSetMeta (fault : option error) (k v : string).

Inductive idx_step : idx_op → shared → shared → Prop :=
  | step_upsert f now ns key sz i b :
      idx_step (OpUpsert f now ns key sz) (mkShared i b) (mkShared (Upsert f now ns key sz i).1 b)
  | step_remove f ns key i b :
      idx_step (OpRemove f ns key) (mkShared i b) (mkShared (Remove f ns key i).1 b)
  | step_remove_batch env refs i b :
      idx_step (OpRemoveBatch env refs) (mkShared i b) (mkShared (RemoveBatch env refs i).1 b)
  | step_touch now ns key i b :
      idx_step (OpTouch now ns key) (mkShared i b) (mkShared (Touch now ns key i) b)
  | step_flush_swap i :
      idx_step OpFlushSwap (mkShared i None)
        (mkShared (set_pending ∅ i) (Some (map_to_list (pendingTouch i))))
  | step_flush_write env i b :
      idx_step (OpFlushWrite env) (mkShared i (Some b)) (mkShared (flush_write env b i).1 None)
  | step_replace env es i b :
      idx_step (OpReplaceAll env es) (mkShared i b) (mkShared (ReplaceAll env es i).1 b)
  | step_set_meta f k v i b :
      idx_step (OpSetMeta f k v) (mkShared i b) (mkShared (SetMeta f k v i).1 b).

(** Can the operation create a row for [r]? *)
Definition creates (r : string * string) (op : idx_op) : Prop :=
  match op with
  | OpUpsert _ _ ns key _ => r = (ns, key)
  | OpReplaceAll _ es => r ∈ e_ref <$> es
  | _ => False
  end.

(** The effect of each operation on the tables and the queue. *)
Lemma Upsert_cases f now ns key sz i :
  (∃ e, Upsert f now ns key sz i = (i, Err e)) ∨
  Upsert f now ns key sz i =
    (set_stats add_Inserts
       (set_objects (<[(ns, key) := upsert_row now sz (objects i !! (ns, key))]> (objects i)) i), Ok tt).
Proof.
  unfold Upsert. mrun. destruct (closed i); mrun; [eauto|].
  destruct (exec_w_cases f "storage: index upsert" (λ i, set_objects
    (<[(ns, key) := upsert_row now sz (objects i !! (ns, key))]> (objects i)) i) i) as [[e ->]| ->]; eauto.
Qed.

Lemma Remove_cases f ns key i :
  Remove f ns key i = (i, Err ErrClosed) ∨
  let i' := set_pending (delete (ns, key) (pendingTouch i)) i in
  (∃ e, Remove f ns key i = (i', Err e)) ∨
  Remove f ns key i =
    (set_stats (add_Deletes 1) (set_objects (delete (ns, key) (objects i)) i'), Ok tt).
Proof.
  unfold Remove. mrun. destruct (closed i); mrun; [by left|]. right.
  destruct (exec_w_cases f "storage: index remove" (λ i, set_objects (delete (ns, key) (objects i)) i)
    (set_pending (delete (ns, key) (pendingTouch i)) i)) as [[e ->]| ->]; eauto.
Qed.

Lemma RemoveBatch_cases env refs i :
  (∃ r, RemoveBatch env refs i = (i, r) ∧ (r = Err ErrClosed ∨ (r = Ok tt ∧ refs = []))) ∨
  let i' := set_pending (delete_refs refs (pendingTouch i)) i in
  (∃ e, RemoveBatch env refs i = (i', Err e)) ∨
  RemoveBatch env refs i =
    (set_stats (add_Deletes (Z.of_nat (length refs))) (set_objects (delete_refs refs (objects i)) i'), Ok tt).
Proof.
  unfold RemoveBatch. mrun. destruct (closed i); mrun; [left; eexists; eauto|].
  case_bool_decide; mrun; [left; eexists; eauto|]. right.
  set (i' := set_pending _ i).
  destruct (transaction_cases env "storage: begin batch remove" "storage: commit batch remove"
    (λ t, match tx_prepare env with
          | Some e => Err (Wrap "storage: prepare batch remove" e)
          | None => stmt_loop (tx_exec env) "storage: batch remove" (λ r t, Ok (delete r t)) 0 refs t
          end) i') as [[e ->]|(t & Ht & ->)]; [eauto|].
  right. destruct (tx_prepare env); [done|]. apply stmt_loop_Ok in Ht as ->. done.
Qed.

Lemma insert_loop_dom fault msg n es t t' r :
  stmt_loop fault msg insert_entry n es t = Ok t' → r ∉ e_ref <$> es → t' !! r = t !! r.
Proof.
  revert n t. induction es as [|e es IH]; intros n t; simpl; [by intros [= ->]|].
  destruct (fault n); [done|]. unfold insert_entry at 1. destruct (t !! e_ref e); [done|].
  intros Hl [Hne Hnin]%not_elem_of_cons. rewrite (IH _ _ Hl Hnin). by apply lookup_insert_ne.
Qed.

Lemma ReplaceAll_cases env es i :
  (∃ e, ReplaceAll env es i = (i, Err e)) ∨
  (∃ t, stmt_loop (tx_exec env) "storage: reconcile insert" insert_entry 0 es ∅ = Ok t ∧
        ReplaceAll env es i = (set_objects t i, Ok tt)).
Proof.
  unfold ReplaceAll. destruct (transaction_cases env "storage: begin reconcile" "storage: commit reconcile"
    (λ t, match tx_clear env with
          | Some e => Err (Wrap "storage: clear index" e)
          | None =>
              match tx_prepare env with
              | Some e => Err (Wrap "storage: prepare reconcile insert" e)
              | None => stmt_loop (tx_exec env) "storage: reconcile insert" insert_entry 0 es ∅
              end
          end) i) as [[e ->]|(t & Ht & ->)]; [eauto|].
  right. exists t. destruct (tx_clear env), (tx_prepare env); done.
Qed.

Lemma SetMeta_objects f k v i :
  objects (SetMeta f k v i).1 = objects i ∧ pendingTouch (SetMeta f k v i).1 = pendingTouch i ∧
  touchLimit (SetMeta f k v i).1 = touchLimit i.
Proof.
  unfold SetMeta.
  destruct (exec_w_cases f "storage: set meta" (λ i, set_meta (<[k := v]> (meta i)) i) i) as [[e ->]| ->]; done.
Qed.

Lemma Touch_objects now ns key i : objects (Touch now ns key i) = objects i.
Proof. unfold Touch. repeat case_match; done. Qed.

(** A step that cannot create [r] leaves it absent. *)
Lemma step_absent op s s' r :
  idx_step op s s' → ¬ creates r op → objects (idx s) !! r = None → objects (idx s') !! r = None.
Proof.
  intros Hs Hc Hn. destruct Hs; simpl in *.
  - destruct (Upsert_cases f now ns key sz i) as [[e ->]| ->]; simpl; [done|].
    by rewrite lookup_insert_ne by congruence.
  - destruct (Remove_cases f ns key i) as [->|[[e ->]| ->]]; simpl; [done..|].
    apply lookup_delete_None. auto.
  - destruct (RemoveBatch_cases env refs i) as [(x & -> & _)|[[e ->]| ->]]; simpl; [done..|].
    rewrite delete_refs_lookup. by case_match.
  - by rewrite Touch_objects.
  - done.
  - destruct (flush_write_cases env b i) as [[e ->]| ->]; simpl; [done|]. by rewrite touch_fold_None.
  - destruct (ReplaceAll_cases env es i) as [[e ->]|(t & Ht & ->)]; simpl; [done|].
    rewrite (insert_loop_dom _ _ _ _ _ _ _ Ht Hc). apply lookup_empty.
  - by destruct (SetMeta_objects f k v i) as [-> _].
Qed.

(** The queue invariant: neither the queue nor the batch in flight exceeds
    [touchLimit]. *)
Definition queue_ok (s : shared) : Prop :=
  0 < touchLimit (idx s) ∧ Z.of_nat (size (pendingTouch (idx s))) ≤ touchLimit (idx s) ∧
  (∀ b, in_flight s = Some b → Z.of_nat (length b) ≤ touchLimit (idx s)).

Lemma step_queue_ok op s s' : idx_step op s s' → queue_ok s → queue_ok s'.
Proof.
  unfold queue_ok. intros Hs (H0 & H1 & H2). destruct Hs; simpl in *.
  - destruct (Upsert_cases f now ns key sz i) as [[e ->]| ->]; done.
  - pose proof (delete_refs_size [(ns, key)] (pendingTouch i)) as Hd. unfold delete_refs in Hd; simpl in Hd.
    destruct (Remove_cases f ns key i) as [->|[[e ->]| ->]]; simpl; repeat split; auto; lia.
  - pose proof (delete_refs_size refs (pendingTouch i)) as Hd.
    destruct (RemoveBatch_cases env refs i) as [(x & -> & _)|[[e ->]| ->]]; simpl; repeat split; auto; lia.
  - unfold Touch. destruct (closed i); simpl; [done|].
    destruct (_ && _) eqn:E; simpl; [done|]. repeat split; auto.
    rewrite map_size_insert. destruct (pendingTouch i !! (ns, key)) eqn:Ep; simpl; [done|].
    apply andb_false_iff in E as [E|E]; boolify; [lia|done].
  - repeat split; [done|rewrite map_size_empty; lia|].
    intros b [= <-]. by rewrite length_map_to_list.
  - destruct (flush_write_cases env b i) as [[e ->]| ->]; simpl; naive_solver.
  - destruct (ReplaceAll_cases env es i) as [[e ->]|(t & Ht & ->)]; done.
  - destruct (SetMeta_objects f k v i) as (_ & -> & ->). done.
Qed.

(** ** Key order and pages *)

Lemma ref_lt_irrefl a : ref_lt a a = false.
Proof. unfold ref_lt. by rewrite !str_lt_irrefl, andb_false_r. Qed.

Lemma ref_lt_spec a b :
  ref_lt a b = true ↔ str_lt a.1 b.1 = true ∨ (a.1 = b.1 ∧ str_lt a.2 b.2 = true).
Proof. unfold ref_lt. by rewrite orb_true_iff, andb_true_iff, String.eqb_eq. Qed.

Lemma ref_lt_trans a b c : ref_lt a b = true → ref_lt b c = true → ref_lt a c = true.
Proof.
  rewrite !ref_lt_spec. destruct a as [a1 a2], b as [b1 b2], c as [c1 c2]; simpl.
  intros [H|[-> H]] [H'|[-> H']]; eauto using str_lt_trans.
Qed.

Lemma ref_lt_total a b : ref_lt a b = true ∨ a = b ∨ ref_lt b a = true.
Proof.
  rewrite !ref_lt_spec. destruct a as [a1 a2], b as [b1 b2]; simpl.
  destruct (str_lt_total a1 b1) as [?|[->|?]]; [auto| |auto].
  destruct (str_lt_total a2 b2) as [?|[->|?]]; auto.
Qed.

Lemma ref_lt_false a b : ref_lt a b = false ↔ a = b ∨ ref_lt b a = true.
Proof.
  split.
  - intros H. destruct (ref_lt_total a b) as [?|?]; [congruence|done].
  - intros [->|H]; [apply ref_lt_irrefl|]. destruct (ref_lt a b) eqn:E; [|done].
    pose proof (ref_lt_trans _ _ _ E H) as Hc. by rewrite ref_lt_irrefl in Hc.
Qed.

#[export] Instance ref_before_total : Total (not_after ref_before).
Proof.
  intros a b. unfold not_after, ref_before. rewrite !ref_lt_false.
  destruct (ref_lt_total (e_ref a) (e_ref b)) as [?|[?|?]]; auto.
Qed.

#[export] Instance ref_before_trans : Transitive (not_after ref_before).
Proof.
  intros a b c. unfold not_after, ref_before. rewrite !ref_lt_false.
  intros [H1|H1] [H2|H2]; rewrite ?H1, ?H2 in *; eauto using ref_lt_trans.
Qed.

#[export] Instance colder_total : Total (not_after colder).
Proof. intros a b. unfold not_after, colder. rewrite !Z.ltb_ge. lia. Qed.

#[export] Instance colder_trans : Transitive (not_after colder).
Proof. intros a b c. unfold not_after, colder. rewrite !Z.ltb_ge. lia. Qed.

(** The rows of a table as entries. *)
Lemma scan_elem {Scan : SqlScan} (t : Table) (e : Entry) :
  e ∈ entry_of <$> scan t ↔ t !! e_ref e = Some (e_row e).
Proof.
  rewrite list_elem_of_fmap. setoid_rewrite scan_perm. destruct e as [k r]; simpl.
  split.
  - intros ([k' r'] & [= -> ->] & Hin). by apply elem_of_map_to_list.
  - intros Hin. exists (k, r). split; [done|]. by apply elem_of_map_to_list.
Qed.

Lemma scan_refs_NoDup {Scan : SqlScan} (t : Table) : NoDup (e_ref <$> (entry_of <$> scan t)).
Proof. rewrite <-list_fmap_compose. rewrite scan_perm. apply NoDup_fst_map_to_list. Qed.

Lemma scan_NoDup {Scan : SqlScan} (t : Table) : NoDup (entry_of <$> scan t).
Proof. eapply NoDup_fmap_1, scan_refs_NoDup. Qed.

Lemma page_after_elem {Scan : SqlScan} (after : string * string) (limit : Z) (t : Table) (e : Entry) :
  e ∈ page_after after limit t → ref_lt after (e_ref e) = true ∧ t !! e_ref e = Some (e_row e).
Proof.
  unfold page_after. intros He%take_elem_of. rewrite sort_Slice_perm in He.
  apply list_elem_of_filter in He as [? He]. by apply scan_elem in He.
Qed.

Lemma page_after_length {Scan : SqlScan} (after : string * string) (limit : Z) (t : Table) :
  (length (page_after after limit t) ≤ Z.to_nat limit)%nat.
Proof. unfold page_after. rewrite length_take. lia. Qed.

(** A row above the cursor is on the page, or the page is full and the row is
    above the page's last entry: moving the cursor to the last entry skips
    nothing. *)
Lemma page_after_next {Scan : SqlScan} (after : string * string) (limit : Z) (t : Table)
    (r : string * string) (x : row) :
  0 < limit → t !! r = Some x → ref_lt after r = true →
  mkEntry r x ∈ page_after after limit t ∨
  (Z.of_nat (length (page_after after limit t)) = limit ∧
   ∃ e, last (page_after after limit t) = Some e ∧ ref_lt (e_ref e) r = true).
Proof.
  intros Hl Hr Ha. unfold page_after. set (l := filter _ _).
  assert (mkEntry r x ∈ sort_Slice ref_before l) as Hin.
  { rewrite sort_Slice_perm. apply list_elem_of_filter. split; [done|]. by apply scan_elem. }
  pose proof (sort_Slice_sorted ref_before l _ _) as Hs.
  assert (NoDup (e_ref <$> sort_Slice ref_before l)) as Hnd.
  { rewrite sort_Slice_perm. unfold l. eapply (sublist_NoDup _ (e_ref <$> (entry_of <$> scan t))).
    - apply scan_refs_NoDup.
    - apply fmap_sublist, sublist_filter. }
  clearbody l. revert Hin Hs Hnd. generalize (sort_Slice ref_before l). intros s Hin Hs Hnd.
  rewrite <-(take_drop (Z.to_nat limit) s) in Hin. apply elem_of_app in Hin as [Hin|Hin]; [by left|].
  right. assert (Z.to_nat limit < length s)%nat as Hlen.
  { destruct (decide (Z.to_nat limit < length s)%nat); [done|].
    rewrite drop_ge in Hin by lia. by apply elem_of_nil in Hin. }
  split; [rewrite length_take; lia|].
  destruct (last (take (Z.to_nat limit) s)) as [e|] eqn:El.
  2: { apply last_None, (f_equal length) in El. rewrite length_take in El. simpl in El. lia. }
  exists e. split; [done|]. apply last_Some_elem_of in El.
  pose proof (StronglySorted_take_drop _ _ _ _ _ Hs El Hin) as Hlt.
  unfold not_after, ref_before in Hlt. simpl in Hlt. apply ref_lt_false in Hlt as [He|]; [|done].
  destruct (NoDup_take_drop (Z.to_nat limit) (e_ref <$> s) (e_ref e) Hnd).
  - rewrite <-fmap_take. by apply list_elem_of_fmap_2.
  - rewrite <-fmap_drop. rewrite <-He. by apply (list_elem_of_fmap_2 e_ref _ (mkEntry r x)).
Qed.

(** ** Flushing and rebuilding *)

Lemma touch_row_once l (k : string * string) (r : row) :
  NoDup l.*1 →
  fold_left (λ r x, if bool_decide (x.1 = k) then touch_row x.2 r else r) l r =
  match list_to_map (M:=gmap (string * string) Z) l !! k with Some at_ => touch_row at_ r | None => r end.
Proof.
  revert r. induction l as [|[k' a] l IH]; intros r; [done|]. csimpl.
  intros [Hni Hnd]%NoDup_cons. rewrite IH by done. case_bool_decide as Hk.
  - subst k'. rewrite lookup_insert_eq, not_elem_of_list_to_map_1 by done. done.
  - rewrite lookup_insert_ne by done. done.
Qed.

(** The table after [p] has been flushed into it. *)
Definition flushed (p : gmap (string * string) Z) (t : Table) : Table :=
  fold_left (λ t x, touch_stmt x t) (map_to_list p) t.

Lemma flushed_lookup (p : gmap (string * string) Z) (t : Table) (k : string * string) :
  flushed p t !! k =
  (λ r, match p !! k with Some at_ => touch_row at_ r | None => r end) <$> (t !! k).
Proof.
  unfold flushed. rewrite touch_fold_lookup. destruct (t !! k) as [r|]; [|done]. simpl. f_equal.
  rewrite touch_row_once by apply NoDup_fst_map_to_list. by rewrite list_to_map_to_list.
Qed.

Lemma FlushTouches_fine i :
  w_open i = true → pendingTouch i ≠ ∅ →
  ∃ st, FlushTouches tx_fine i =
    (mkIndex (flushed (pendingTouch i) (objects i)) (meta i) ∅ (touchLimit i) (closed i)
       (r_open i) (w_open i) st, Ok tt).
Proof.
  intros Hw Hp. unfold FlushTouches. mrun. rewrite bool_decide_eq_false_2 by done. mrun.
  unfold flush_write. mrun. erewrite transaction_fine; [|done..|apply stmt_loop_fine].
  eexists. done.
Qed.

Lemma insert_loop_fine (msg : string) (n : nat) (es : list Entry) (t : Table) :
  NoDup (e_ref <$> es) → (∀ e, e ∈ es → t !! e_ref e = None) →
  ∃ t', stmt_loop (λ _, None) msg insert_entry n es t = Ok t' ∧
    ∀ e, e ∈ es → t' !! e_ref e =
      Some (mkRow (row_size (e_row e)) (created_at (e_row e)) (last_access (e_row e))
              (Z.max 1 (access_count (e_row e)))).
Proof.
  revert n t. induction es as [|e es IH]; intros n t; csimpl.
  { eexists. split; [done|]. intros e []%elem_of_nil. }
  intros [Hni Hnd]%NoDup_cons Hn. unfold insert_entry at 1. rewrite (Hn e) by set_solver.
  destruct (IH (S n) (<[e_ref e:=mkRow (row_size (e_row e)) (created_at (e_row e)) (last_access (e_row e))
     (if access_count (e_row e) <? 1 then 1 else access_count (e_row e))]> t)) as (t' & Ht' & Hall).
  - done.
  - intros e' He'. rewrite lookup_insert_ne; [apply Hn; set_solver|].
    intros Heq. apply Hni. rewrite Heq. by apply list_elem_of_fmap_2.
  - exists t'. split; [done|]. intros e' [->|He']%elem_of_cons; [|auto].
    rewrite (insert_loop_dom _ _ _ _ _ _ _ Ht' Hni), lookup_insert_eq.
    do 2 f_equal. destruct (Z.ltb_spec (access_count (e_row e)) 1); lia.
Qed.

Lemma insert_loop_dup (fault : nat → option error) (msg : string) (n : nat) (es : list Entry) (t t' : Table) :
  stmt_loop fault msg insert_entry n es t = Ok t' →
  NoDup (e_ref <$> es) ∧ ∀ e, e ∈ es → t !! e_ref e = None.
Proof.
  revert n t. induction es as [|e es IH]; intros n t; csimpl.
  { intros _. split; [constructor|]. intros e []%elem_of_nil. }
  destruct (fault n); [done|]. unfold insert_entry at 1. destruct (t !! e_ref e) eqn:Et; [done|].
  intros [Hnd Hn]%IH. assert (e_ref e ∉ e_ref <$> es) as Hni.
  { intros (e' & Heq & He')%list_elem_of_fmap. specialize (Hn e' He').
    by rewrite <-Heq, lookup_insert_eq in Hn. }
  split; [by constructor|]. intros e' [->|He']%elem_of_cons; [done|].
  specialize (Hn e' He'). apply lookup_insert_None in Hn. tauto.
Qed.

(** Scanning the table into a map gives the table back. *)
Lemma all_loop_insert (l : list Entry) (m : Table) :
  all_loop (λ m e, Ok (<[e_ref e := e_row e]> m)) m l =
  Ok (fold_left (λ m e, <[e_ref e := e_row e]> m) l m).
Proof. revert m. induction l as [|e l IH]; intros m; [done|]. simpl. apply IH. Qed.

Lemma fold_insert_lookup (l : list Entry) (m : Table) (e : Entry) :
  NoDup (e_ref <$> l) →
  (e ∈ l → fold_left (λ m e, <[e_ref e := e_row e]> m) l m !! e_ref e = Some (e_row e)) ∧
  (e_ref e ∉ e_ref <$> l → fold_left (λ m e, <[e_ref e := e_row e]> m) l m !! e_ref e = m !! e_ref e).
Proof.
  revert m. induction l as [|x l IH]; intros m; csimpl.
  { intros _. split; [intros []%elem_of_nil|done]. }
  intros [Hni Hnd]%NoDup_cons. destruct (IH (<[e_ref x := e_row x]> m) Hnd) as [IH1 IH2].
  destruct (IH (<[e_ref x := e_row x]> m) Hnd) as [_ IHx]. split.
  - intros [->|He]%elem_of_cons; [|auto]. rewrite IHx by done. apply lookup_insert_eq.
  - intros [Hne Hnin]%not_elem_of_cons. rewrite IH2 by done. by rewrite lookup_insert_ne.
Qed.

Lemma All_known {Scan : SqlScan} (i : Index) :
  r_open i = true →
  All None (λ (m : Table) e, Ok (<[e_ref e := e_row e]> m)) ∅ i = (i, Ok (objects i)).
Proof.
  intros Hr. unfold All, query_r. mrun. rewrite Hr. mrun. simpl. rewrite all_loop_insert. mrun. do 2 f_equal.
  apply map_eq. intros k.
  destruct (objects i !! k) as [r|] eqn:Hk.
  - destruct (fold_insert_lookup (entry_of <$> scan (objects i)) ∅ (mkEntry k r) (scan_refs_NoDup _)) as [H1 _].
    apply H1. by apply scan_elem.
  - destruct (fold_insert_lookup (entry_of <$> scan (objects i)) ∅ (mkEntry k (mkRow 0 0 0 0)) (scan_refs_NoDup _)) as [_ H2].
    simpl in H2. rewrite H2; [apply lookup_empty|]. intros (e & -> & He)%list_elem_of_fmap.
    apply scan_elem in He. congruence.
Qed.

(** ** Removing rows *)

(** The index accepts statements and queries. *)
Definition index_open (i : Index) : Prop := closed i = false ∧ r_open i = true ∧ w_open i = true.

Lemma RemoveBatch_fine refs i :
  index_open i → refs ≠ [] →
  ∃ i', RemoveBatch tx_fine refs i = (i', Ok tt) ∧ index_open i' ∧
    objects i' = delete_refs refs (objects i).
Proof.
  intros (Hc & Hr & Hw) Hne. unfold RemoveBatch. mrun. rewrite Hc. mrun.
  rewrite bool_decide_eq_false_2 by done. mrun.
  rewrite (transaction_fine _ _ _ _ _ (delete_refs refs (objects i))); [|done..|].
  - mrun. by eexists.
  - simpl. by rewrite stmt_loop_fine.
Qed.

Lemma FlushTouches_open i :
  index_open i →
  ∃ i', FlushTouches tx_fine i = (i', Ok tt) ∧ index_open i' ∧
    objects i' = flushed (pendingTouch i) (objects i).
Proof.
  intros (Hc & Hr & Hw). unfold FlushTouches. mrun. case_bool_decide as Hp.
  { exists i. rewrite Hp. by repeat split. }
  mrun. unfold flush_write. mrun.
  rewrite (transaction_fine _ _ _ _ _ (flushed (pendingTouch i) (objects i))); [|done..|].
  - mrun. by eexists.
  - simpl. by rewrite stmt_loop_fine.
Qed.

Lemma query_r_fine {A} msg (g : Index → result A) i :
  index_open i → query_r None msg g i = (i, g i).
Proof.
  intros (_ & Hr & _). unfold query_r. mrun. rewrite Hr. simpl. mrun. by destruct (g i).
Qed.

(** Taking the rows of distinct entries out of a table. *)
Lemma delete_entries (es : list Entry) (t : Table) :
  NoDup (e_ref <$> es) → (∀ e, e ∈ es → t !! e_ref e = Some (e_row e)) →
  let t' := delete_refs (e_ref <$> es) t in
  Zsum (Zsizes t) = Zsum ((λ e, row_size (e_row e)) <$> es) + Zsum (Zsizes t') ∧
  size t = (length es + size t')%nat.
Proof.
  unfold delete_refs. revert t. induction es as [|e es IH]; intros t Hnd Hin; csimpl; [done|].
  rewrite fmap_cons in Hnd. apply NoDup_cons in Hnd as [Hni Hnd].
  destruct (IH (delete (e_ref e) t)) as [IHs IHn]; [done| |].
  { intros e' He'. rewrite lookup_delete_ne; [apply Hin; by right|].
    intros Hr. apply Hni. rewrite Hr. by apply list_elem_of_fmap_2. }
  assert (t !! e_ref e = Some (e_row e)) as He by (apply Hin; left).
  rewrite <-Z.add_assoc, <-IHs, <-Nat.add_succ_l in *. split.
  - unfold Zsizes. rewrite <-(Zsum_perm _ _ (fmap_Permutation _ _ _ (map_to_list_delete _ _ _ He))). done.
  - rewrite map_size_delete_Some in IHn by eauto.
    assert (size t ≠ 0%nat) by (intros Hz; apply map_size_empty_inv in Hz; by rewrite Hz in He). lia.
Qed.

Lemma coldest_elem {Scan : SqlScan} (n : Z) (t : Table) (e : Entry) :
  e ∈ coldest n t → t !! e_ref e = Some (e_row e).
Proof.
  unfold coldest. intros He%take_elem_of. rewrite sort_Slice_perm in He. by apply scan_elem.
Qed.

Lemma coldest_NoDup {Scan : SqlScan} (n : Z) (t : Table) : NoDup (e_ref <$> coldest n t).
Proof.
  unfold coldest. rewrite fmap_take. apply NoDup_take.
  rewrite (fmap_Permutation e_ref _ _ (sort_Slice_perm _ _)). apply scan_refs_NoDup.
Qed.

Lemma coldest_nil {Scan : SqlScan} (n : Z) (t : Table) : 0 < n → coldest n t = [] → t = ∅.
Proof.
  intros Hn Hc. apply map_empty. intros k. destruct (t !! k) as [r|] eqn:Hk; [|done].
  apply (scan_elem t (mkEntry k r)) in Hk. rewrite <-(sort_Slice_perm colder) in Hk.
  unfold coldest in Hc. destruct (sort_Slice _ _); [by apply elem_of_nil in Hk|].
  destruct (Z.to_nat n) eqn:E; [lia|done].
Qed.

Lemma row_dims_sum (t u : Table) : row_dims t = row_dims u → Zsum (Zsizes t) = Zsum (Zsizes u).
Proof.
  assert (∀ v : Table, Zsizes v = snd <$> map_to_list (row_dims v)) as Hz.
  { intros v. unfold Zsizes, row_dims. rewrite map_to_list_fmap, <-list_fmap_compose. done. }
  intros Hd. by rewrite !Hz, Hd.
Qed.

Lemma flushed_sizes (p : gmap (string * string) Z) (t : Table) :
  Zsum (Zsizes (flushed p t)) = Zsum (Zsizes t) ∧ size (flushed p t) = size t.
Proof.
  assert (row_dims (flushed p t) = row_dims t) as Hd by apply touch_fold_dims.
  split; [by apply row_dims_sum|].
  rewrite <-(map_size_fmap row_size (flushed p t)), <-(map_size_fmap row_size t).
  unfold row_dims in Hd. by rewrite Hd.
Qed.

(** ** Claims *)

(** Recording an object keeps its access history.  A successful [Upsert]
    sets the size and the access time, keeps the creation time and the access
    count of a known row, starts a new row at count one, and changes no other
    row and no queued access; a failed one changes nothing at all. *)
Theorem upsert_keeps_history fault now ns key sz i :
  let i' := (Upsert fault now ns key sz i).1 in
  match (Upsert fault now ns key sz i).2 with
  | Err _ => i' = i
  | Ok _ =>
      closed i = false ∧ fault = None ∧
      objects i' !! (ns, key) =
        Some (match objects i !! (ns, key) with
              | Some r => mkRow sz (created_at r) now (access_count r)
              | None => mkRow sz now now 1
              end) ∧
      (∀ r, r ≠ (ns, key) → objects i' !! r = objects i !! r) ∧
      pendingTouch i' = pendingTouch i
  end.
Proof.
  assert ((Upsert fault now ns key sz i).2 = Ok tt → closed i = false ∧ fault = None) as Hok.
  { unfold Upsert. mrun. destruct (closed i); mrun; [done|]. unfold exec_w. mrun.
    destruct (w_open i), fault; mrun; done. }
  destruct (Upsert_cases fault now ns key sz i) as [[e E]|E]; rewrite E in *; simpl in *; [done|].
  destruct (Hok eq_refl) as [-> ->]. split; [done|]. split; [done|].
  split; [by rewrite lookup_insert_eq; destruct (objects i !! (ns, key))|].
  split; [|done]. intros r Hr. by apply lookup_insert_ne.
Qed.

(** C33: no flush resurrects a removed row.  Once a reference has no row,
    no interleaving of index operations, including a touch queued before the
    removal and a flush whose batch was taken out before it, brings the row
    back, until that reference is recorded again. *)
Theorem removed_stays_removed ns key f s s1 s2 :
  idx_step (OpRemove f ns key) s s1 → (Remove f ns key (idx s)).2 = Ok tt →
  rtc (λ a b, ∃ op, idx_step op a b ∧ ¬ creates (ns, key) op) s1 s2 →
  objects (idx s2) !! (ns, key) = None.
Proof.
  intros Hs Hok Hr. assert (objects (idx s1) !! (ns, key) = None) as H1.
  { inversion Hs; subst; simpl in *. destruct (Remove_cases f ns key i) as [E|[[e E]|E]];
      rewrite E in *; simpl in *; [done..|]. apply lookup_delete_eq. }
  clear Hs Hok. induction Hr as [|a b c (op & Hop & Hc) _ IH]; [done|].
  apply IH. by eapply step_absent.
Qed.

(** The queue of access times is bounded.  From a queue within
    [touchLimit], every interleaving of operations keeps the queue and the batch
    in flight within it, whatever the database does. *)
Theorem touch_queue_bounded s s' :
  queue_ok s → rtc (λ a b, ∃ op, idx_step op a b) s s' → queue_ok s'.
Proof.
  intros H Hr. induction Hr as [|a b c [op Hop] _ IH]; [done|]. apply IH. by eapply step_queue_ok.
Qed.

(** A batch removal is all or nothing, and when it happens it has the effect
    of removing the references one by one. *)
Theorem remove_batch_atomic env refs i :
  let res := RemoveBatch env refs i in
  match res.2 with
  | Err _ => objects res.1 = objects i
  | Ok _ =>
      let each := fold_left (λ i r, (Remove None r.1 r.2 i).1) refs i in
      (w_open i = true → objects res.1 = objects each ∧ pendingTouch res.1 = pendingTouch each) ∧
      ∀ r, objects res.1 !! r = if bool_decide (r ∈ refs) then None else objects i !! r
  end.
Proof.
  simpl. assert (closed i = false → w_open i = true → let each := fold_left (λ i r, (Remove None r.1 r.2 i).1) refs i in
    objects each = delete_refs refs (objects i) ∧ pendingTouch each = delete_refs refs (pendingTouch i)) as Heach.
  { simpl. revert i. induction refs as [|[ns key] refs IH]; intros i Hc Hw; [done|]. simpl.
    assert (Remove None ns key i = (set_stats (add_Deletes 1) (set_objects (delete (ns, key) (objects i))
      (set_pending (delete (ns, key) (pendingTouch i)) i)), Ok tt)) as ->.
    { unfold Remove, exec_w. mrun. rewrite Hc. mrun. simpl. rewrite Hw. done. }
    simpl. match goal with |- context [fold_left _ _ ?i'] => destruct (IH i' Hc Hw) as [-> ->] end. done. }
  assert (closed i = true → RemoveBatch env refs i = (i, Err ErrClosed)) as Hcl.
  { unfold RemoveBatch. mrun. intros ->. done. }
  destruct (closed i); [rewrite Hcl by done; done|]. clear Hcl.
  destruct (RemoveBatch_cases env refs i) as [(x & -> & [->|[-> ->]])|[[e ->]| ->]]; simpl; [done| |done|].
  - split; [done|]. intros r. apply (delete_refs_lookup [] (objects i) r).
  - split; [intros Hw; by destruct Heach as [-> ->]|]. intros r. apply delete_refs_lookup.
Qed.

(** A clean shutdown loses no access.  [Close] on an open index writes every
    queued access to its row, once, and leaves the queue empty and the index
    closed. *)
Theorem close_flushes_touches i r :
  closed i = false → w_open i = true →
  let i' := (Close tx_fine None None i).1 in
  closed i' = true ∧ pendingTouch i' = ∅ ∧
  objects i' !! r =
    (λ x, match pendingTouch i !! r with
          | Some at_ => mkRow (row_size x) (created_at x) at_ (access_count x + 1)
          | None => x
          end) <$> objects i !! r.
Proof.
  intros Hc Hw. unfold Close. mrun. rewrite Hc. mrun. case_bool_decide as Hp; mrun.
  - simpl. rewrite Hp. split; [done|]. split; [done|]. rewrite lookup_empty.
    by destruct (objects i !! r).
  - destruct (FlushTouches_fine (set_closed false (set_closed true i)) Hw Hp) as [st ->].
    mrun. simpl. split; [done|]. split; [done|]. rewrite flushed_lookup. done.
Qed.

(** An index with one row and one queued access to it, and its batch taken out. *)
Definition sample_index : Index :=
  mkIndex {[("cas", "k") := mkRow 5 1 1 1]} ∅ {[("cas", "k") := 9]} 4096 false true true
    (mkIndexStats 0 0 0 0 0 0).

Definition sample_removed : shared :=
  mkShared (Remove None "cas" "k" (set_pending ∅ sample_index)).1 (Some [("cas", "k", 9)]).

Lemma removed_stays_removed_witness :
  objects (idx (mkShared (flush_write tx_fine [("cas", "k", 9)] (idx sample_removed)).1 None))
    !! ("cas", "k") = None.
Proof.
  apply (removed_stays_removed "cas" "k" None
           (mkShared (set_pending ∅ sample_index) (Some [("cas", "k", 9)])) sample_removed).
  - apply step_remove.
  - vm_compute. reflexivity.
  - eapply rtc_l; [|apply rtc_refl]. exists (OpFlushWrite tx_fine). split; [constructor|].
    intros [].
Defined.

Lemma touch_queue_bounded_witness : queue_ok (mkShared (Touch 3 "ac" "j" sample_index) None).
Proof.
  apply (touch_queue_bounded (mkShared sample_index None)).
  - split; [vm_compute; reflexivity|]. split; [vm_compute; discriminate|]. intros b Hb. discriminate Hb.
  - eapply rtc_l; [|apply rtc_refl]. eexists. constructor.
Defined.

Lemma close_flushes_touches_witness :
  pendingTouch (Close tx_fine None None sample_index).1 = ∅ ∧
  objects (Close tx_fine None None sample_index).1 !! ("cas", "k") = Some (mkRow 5 1 9 2).
Proof.
  destruct (close_flushes_touches sample_index ("cas", "k") eq_refl eq_refl) as (_ & Hp & Ho).
  split; [exact Hp|]. etransitivity; [exact Ho|]. vm_compute. reflexivity.
Defined.
