(* ===== verification/FileSystem.v ===== *)
(** * The file system

    The calls of Go's [os] and [path/filepath] packages the store makes, on a
    map from absolute paths to nodes.  Every call that can fail for a reason
    outside the program takes the error it returns in that case. *)

From S2P Require Import Prelude GoStrings Sha256 Errors.

(** [Other] is anything that is neither a regular file nor a directory: a
    symbolic link, a device, a socket. *)
Inductive node := File (content : bytes) (mtime : Z) | Dir | Other.

#[export] Instance byte_eq_dec : EqDecision Byte.byte := Byte.byte_eq_dec.

#[export] Instance node_eq_dec : EqDecision node.
Proof. solve_decision. Defined.

Abbreviation files := (gmap (list string) node).

Definition ENOENT : error := OSError true "no such file or directory".
Definition ENOTDIR : error := OSError false "not a directory".
Definition EEXIST : error := OSError false "file exists".
Definition EISDIR : error := OSError false "is a directory".
Definition ENOTEMPTY : error := OSError false "directory not empty".

(** The root directory always exists. *)
Definition is_dir (f : files) (p : path) : bool :=
  match p with [] => true | _ => bool_decide (f !! p = Some Dir) end.

Definition parent (p : path) : path := take (pred (length p)) p.

(** Every node is in a directory. *)
Definition fs_wf (f : files) : Prop :=
  ∀ p x, f !! p = Some x → p ≠ [] ∧ is_dir f (parent p) = true.

(** Is some proper ancestor of [p] something other than a directory? *)
Definition through_file (f : files) (p : path) : bool :=
  existsb (λ n, match f !! take n p with Some Dir | None => false | Some _ => true end)
          (seq 1 (pred (length p))).

Definition missing (f : files) (p : path) : error := if through_file f p then ENOTDIR else ENOENT.

(** [os.Stat], [os.Open] followed by [Stat]: the node at [p]. *)
Definition lookup_node (fault : option error) (f : files) (p : path) : result node :=
  match fault with
  | Some e => Err e
  | None =>
      match p with
      | [] => Ok Dir
      | _ => match f !! p with Some x => Ok x | None => Err (missing f p) end
      end
  end.

Definition is_regular (x : node) : bool := match x with File _ _ => true | _ => false end.

Definition node_size (x : node) : Z :=
  match x with File c _ => Z.of_nat (length c) | _ => 0%Z end.

Definition node_mtime (x : node) : Z := match x with File _ t => t | _ => 0%Z end.

(** [os.MkdirAll]: the missing ancestors are created outermost first, so a
    failure leaves the ones before it. *)
Fixpoint mkdir_each (fault : path → option error) (f : files) (ps : list path)
    : files * option error :=
  match ps with
  | [] => (f, None)
  | p :: ps' =>
      match f !! p with
      | Some Dir => mkdir_each fault f ps'
      | Some _ => (f, Some ENOTDIR)
      | None =>
          match fault p with
          | Some e => (f, Some e)
          | None => mkdir_each fault (<[p := Dir]> f) ps'
          end
      end
  end.

Definition prefixes (p : path) : list path := (λ n, take n p) <$> seq 1 (length p).

Definition MkdirAll (fault : path → option error) (f : files) (p : path) : files * option error :=
  mkdir_each fault f (prefixes p).

(** [os.CreateTemp]: the suffix is the random number the call settled on, after
    retrying while the name was taken. *)
Definition CreateTemp (fault : option error) (suffix : N) (now : Z) (f : files) (dir : path)
    (prefix : string) : files * result path :=
  let p := dir ++ [prefix +:+ pretty suffix] in
  match fault with
  | Some e => (f, Err e)
  | None =>
      if negb (is_dir f dir) then (f, Err (missing f p))
      else if bool_decide (f !! p = None) then (<[p := File [] now]> f, Ok p)
      else (f, Err EEXIST)
  end.

(** [os.Rename] of a file. *)
Definition Rename (fault : option error) (f : files) (old new : path) : files * option error :=
  match fault with
  | Some e => (f, Some e)
  | None =>
      match f !! old with
      | None => (f, Some ENOENT)
      | Some x =>
          if negb (is_dir f (parent new)) then (f, Some ENOENT)
          else match f !! new with
               | Some Dir => (f, Some EISDIR)
               | _ => (<[new := x]> (delete old f), None)
               end
      end
  end.

(** Does directory [p] have an entry? *)
Definition has_entry (f : files) (p : path) : bool :=
  bool_decide (Exists (λ q, parent q = p ∧ q ≠ []) (map_to_list f).*1).

(** [os.Remove]: a file, or an empty directory. *)
Definition os_Remove (fault : option error) (f : files) (p : path) : files * option error :=
  match fault with
  | Some e => (f, Some e)
  | None =>
      match f !! p with
      | None => (f, Some (missing f p))
      | Some Dir => if has_entry f p then (f, Some ENOTEMPTY) else (delete p f, None)
      | Some _ => (delete p f, None)
      end
  end.

(** The names in directory [p], sorted, as [os.ReadDir] returns them. *)
Definition children (f : files) (p : path) : list string :=
  sort_Slice str_lt
    (omap (λ q, if bool_decide (q ≠ [] ∧ parent q = p) then last q else None) (map_to_list f).*1).

Definition ReadDir (fault : option error) (f : files) (p : path) : result (list string) :=
  match fault with
  | Some e => Err e
  | None =>
      if is_dir f p then Ok (children f p)
      else match f !! p with None => Err (missing f p) | Some _ => Err ENOTDIR end
  end.

(** [filepath.WalkDir]: what its callback is called with, in order.  A callback
    that returns an error ends the walk; the store's callback never skips.  The
    walk descends at most [fuel] levels. *)
Inductive walk_event := Visit (p : path) (x : node) | WalkErr (p : path) (e : error).

Fixpoint walk_from (readdir : path → option error) (f : files) (fuel : nat) (p : path)
    (x : node) : list walk_event :=
  Visit p x ::
  match x, fuel with
  | Dir, S fuel' =>
      match readdir p with
      | Some e => [WalkErr p e]
      | None =>
          n ← children f p;
          match f !! (p ++ [n]) with
          | Some y => walk_from readdir f fuel' (p ++ [n]) y
          | None => []
          end
      end
  | _, _ => []
  end.

(** The longest path, a bound on the depth of the tree. *)
Definition depth (f : files) : nat := foldr (λ q n, Nat.max (length q) n) 0 (map_to_list f).*1.

Definition walk_events (readdir : path → option error) (f : files) (root : path) : list walk_event :=
  match lookup_node None f root with
  | Err e => [WalkErr root e]
  | Ok x => walk_from readdir f (S (depth f)) root x
  end.

Fixpoint walk_fold {A} (fn : A → walk_event → result A) (acc : A) (evs : list walk_event) : result A :=
  match evs with
  | [] => Ok acc
  | ev :: evs' => match fn acc ev with Ok acc' => walk_fold fn acc' evs' | Err e => Err e end
  end.

(** ** Lemmas *)

Lemma parent_snoc (p : path) n : parent (p ++ [n]) = p.
Proof.
  unfold parent. rewrite length_app. simpl.
  replace (pred (length p + 1)) with (length p) by lia. by rewrite take_app_length.
Qed.

Lemma is_dir_nonroot f p : p ≠ [] → is_dir f p = true ↔ f !! p = Some Dir.
Proof. destruct p as [|c p]; [done|]. intros _. unfold is_dir. apply bool_decide_eq_true. Qed.

Lemma is_dir_insert f p q x : is_dir f q = true → q ≠ p → is_dir (<[p := x]> f) q = true.
Proof.
  destruct q as [|c q]; [done|]. unfold is_dir. rewrite !bool_decide_eq_true. intros H Hne.
  by rewrite lookup_insert_ne.
Qed.

Lemma is_dir_insert_Dir f p q : is_dir f q = true → is_dir (<[p := Dir]> f) q = true.
Proof.
  destruct q as [|c q]; [done|]. unfold is_dir. rewrite !bool_decide_eq_true. intros H.
  destruct (decide (p = c :: q)) as [->|]; [apply lookup_insert_eq|by rewrite lookup_insert_ne].
Qed.

Lemma is_dir_delete f p q : is_dir f q = true → q ≠ p → is_dir (delete p f) q = true.
Proof.
  destruct q as [|c q]; [done|]. unfold is_dir. rewrite !bool_decide_eq_true. intros H Hne.
  by rewrite lookup_delete_ne.
Qed.

(** Adding a node to a directory keeps the tree well formed, as long as it does
    not replace a directory. *)
Lemma fs_wf_insert f p x :
  fs_wf f → p ≠ [] → is_dir f (parent p) = true → f !! p ≠ Some Dir → fs_wf (<[p := x]> f).
Proof.
  intros Hwf Hp Hd Hnd q y Hq. assert (∀ d, is_dir f d = true → is_dir (<[p:=x]> f) d = true) as Hk.
  { intros d Hd'. destruct (decide (d = p)) as [->|]; [|by apply is_dir_insert].
    by apply is_dir_nonroot in Hd'. }
  apply lookup_insert_Some in Hq as [[<- _]|[_ Hq]]; [auto|].
  destruct (Hwf _ _ Hq). auto.
Qed.

Lemma fs_wf_insert_over f p x y :
  fs_wf f → f !! p = Some y → y ≠ Dir → fs_wf (<[p := x]> f).
Proof.
  intros Hwf Hp Hy. destruct (Hwf _ _ Hp). apply fs_wf_insert; [done..|]. congruence.
Qed.

Lemma fs_wf_mkdir f p : fs_wf f → p ≠ [] → is_dir f (parent p) = true → fs_wf (<[p := Dir]> f).
Proof.
  intros Hwf Hp Hd q y [[<- _]|[_ Hq]]%lookup_insert_Some.
  - split; [done|]. by apply is_dir_insert_Dir.
  - destruct (Hwf _ _ Hq). split; [done|]. by apply is_dir_insert_Dir.
Qed.

(** Removing a file, or a directory with no entry, keeps it well formed. *)
Lemma fs_wf_delete f p :
  fs_wf f → (∀ q x, f !! q = Some x → parent q ≠ p) → fs_wf (delete p f).
Proof.
  intros Hwf Hno q x [Hne Hq]%lookup_delete_Some. destruct (Hwf _ _ Hq) as [H1 H2].
  split; [done|]. apply is_dir_delete; eauto.
Qed.

Lemma wf_no_child f p x : fs_wf f → f !! p = Some x → x ≠ Dir → ∀ q y, f !! q = Some y → parent q ≠ p.
Proof.
  intros Hwf Hp Hx q y Hq Heq. destruct (Hwf _ _ Hq) as [_ Hd]. rewrite Heq in Hd.
  destruct (Hwf _ _ Hp) as [Hne _]. rewrite is_dir_nonroot in Hd by done. congruence.
Qed.

(** Every proper ancestor of a node is a directory. *)
Lemma wf_ancestor f p s x : fs_wf f → f !! (p ++ s) = Some x → s ≠ [] → is_dir f p = true.
Proof.
  intros Hwf. revert x. induction s as [|n s IH] using rev_ind; intros x Hx Hs; [done|].
  destruct (Hwf _ _ Hx) as [_ Hd]. rewrite (assoc_L (++)), parent_snoc in Hd.
  destruct s as [|m s]; [by rewrite app_nil_r in Hd|].
  apply is_dir_nonroot in Hd; [|by destruct p]. by eapply IH.
Qed.

(** *** [MkdirAll] only adds directories *)

Lemma mkdir_each_spec fault f ps f' r :
  mkdir_each fault f ps = (f', r) →
  (∀ q, f' !! q = f !! q ∨ (f !! q = None ∧ f' !! q = Some Dir ∧ q ∈ ps)) ∧
  (r = None → ∀ q, q ∈ ps → f' !! q = Some Dir).
Proof.
  revert f. induction ps as [|p ps IH]; intros f; simpl.
  { intros [= <- <-]. split; [auto|]. intros _ q []%elem_of_nil. }
  destruct (f !! p) as [[]|] eqn:Hp; [by intros [= <- <-]; split; [auto|] | |by intros [= <- <-]; split; [auto|]|].
  - intros H. destruct (IH _ H) as [H1 H2]. split.
    + intros q. destruct (H1 q) as [|(?&?&?)]; [auto|]. right. set_solver.
    + intros Hr q [->|Hq]%elem_of_cons; [|auto]. destruct (H1 p) as [->|(?&?&?)]; done.
  - destruct (fault p); [by intros [= <- <-]; split; [auto|]|]. intros H. destruct (IH _ H) as [H1 H2]. split.
    + intros q. destruct (decide (p = q)) as [->|Hne].
      * right. destruct (H1 q) as [Hq|(Hq&?&?)]; rewrite lookup_insert_eq in Hq; [|done].
        rewrite Hq. set_solver.
      * destruct (H1 q) as [Hq|(Hq&?&?)]; rewrite lookup_insert_ne in Hq by done; [auto|]. set_solver.
    + intros Hr q [->|Hq]%elem_of_cons; [|auto].
      destruct (H1 p) as [->|(?&?&?)]; [apply lookup_insert_eq|done].
Qed.

Lemma MkdirAll_spec fault f p f' r :
  MkdirAll fault f p = (f', r) →
  (∀ q, f' !! q = f !! q ∨ (f !! q = None ∧ f' !! q = Some Dir ∧ q `prefix_of` p ∧ q ≠ [])) ∧
  (r = None → is_dir f' p = true).
Proof.
  intros H. destruct (mkdir_each_spec _ _ _ _ _ H) as [H1 H2]. split.
  - intros q. destruct (H1 q) as [|(?&?&Hq)]; [auto|]. right.
    apply list_elem_of_fmap in Hq as (n & -> & Hn%elem_of_seq).
    split; [done|]. split; [done|]. split; [apply prefix_take|].
    intros He. apply (f_equal length) in He. rewrite length_take in He. simpl in He. lia.
  - intros Hr. destruct p as [|c p]; [done|]. apply is_dir_nonroot; [done|]. apply H2; [done|].
    apply list_elem_of_fmap. exists (length (c :: p)). split; [by rewrite firstn_all|].
    apply elem_of_seq. simpl. lia.
Qed.

Lemma mkdir_each_wf fault p n k f f' r :
  fs_wf f → is_dir f (take (pred n) p) = true → (1 ≤ n)%nat → (n + k ≤ S (length p))%nat →
  mkdir_each fault f ((λ n, take n p) <$> seq n k) = (f', r) → fs_wf f'.
Proof.
  revert n f. induction k as [|k IH]; intros n f Hwf Hd Hn Hk; simpl; [by intros [= <- <-]|].
  assert (take n p ≠ []) as Hne.
  { intros He. apply (f_equal length) in He. rewrite length_take in He. simpl in He. lia. }
  destruct (f !! take n p) as [[]|] eqn:Hp; [by intros [= <- <-]| |by intros [= <- <-]|].
  - apply IH; [done| |lia..]. by apply is_dir_nonroot.
  - destruct (fault _); [by intros [= <- <-]|].
    apply IH; [|apply is_dir_nonroot; [done|apply lookup_insert_eq]|lia..].
    apply fs_wf_mkdir; [done..|]. unfold parent. rewrite take_take, length_take.
    rewrite !Nat.min_l by lia. done.
Qed.

Lemma MkdirAll_wf fault f p f' r : fs_wf f → MkdirAll fault f p = (f', r) → fs_wf f'.
Proof. intros Hwf. apply mkdir_each_wf; [done|done|lia|lia]. Qed.

(** *** Walking the tree *)

Lemma path_split (q p : path) n : (q ≠ [] ∧ parent q = p) ∧ last q = Some n ↔ q = p ++ [n].
Proof.
  split.
  - intros [[Hq Hp] Hl]. destruct q as [|m q] using rev_ind; [done|].
    rewrite parent_snoc in Hp. rewrite last_snoc in Hl. by simplify_eq.
  - intros ->. rewrite parent_snoc, last_snoc. split; [split; [by destruct p|done]|done].
Qed.

Lemma elem_of_children f p n : n ∈ children f p ↔ is_Some (f !! (p ++ [n])).
Proof.
  unfold children. rewrite sort_Slice_perm, list_elem_of_omap. split.
  - intros (q & Hq & H). case_bool_decide as Hd; [|done].
    assert (q = p ++ [n]) as -> by (by apply path_split).
    apply list_elem_of_fmap in Hq as ([q' x] & -> & Hq). apply elem_of_map_to_list in Hq. eauto.
  - intros [x Hx]. exists (p ++ [n]). split.
    + apply list_elem_of_fmap. exists (p ++ [n], x). split; [done|]. by apply elem_of_map_to_list.
    + destruct (proj2 (path_split (p ++ [n]) p n) eq_refl) as [Hd Hl].
      by rewrite bool_decide_eq_true_2.
Qed.

Lemma NoDup_children f p : NoDup (children f p).
Proof.
  unfold children. rewrite sort_Slice_perm. apply NoDup_omap; [|apply NoDup_fst_map_to_list].
  intros q1 q2 n _ _. repeat case_bool_decide; [|done..]. intros H1 H2.
  transitivity (p ++ [n]); [|symmetry]; by apply path_split.
Qed.

Lemma depth_bound f q x : f !! q = Some x → (length q ≤ depth f)%nat.
Proof.
  intros Hq. apply elem_of_map_to_list in Hq. apply (list_elem_of_fmap_2 fst) in Hq. simpl in Hq.
  unfold depth. induction (map_to_list f).*1 as [|p l IH]; [by apply elem_of_nil in Hq|].
  simpl. apply elem_of_cons in Hq as [<-|Hq]; [lia|]. specialize (IH Hq). lia.
Qed.

Lemma walk_from_sound rd f fuel p x q y :
  Visit q y ∈ walk_from rd f fuel p x → (q = p ∧ y = x) ∨ (∃ s, s ≠ [] ∧ q = p ++ s ∧ f !! q = Some y).
Proof.
  revert p x. induction fuel as [|fuel IH]; intros p x; simpl; rewrite elem_of_cons.
  { intros [H|H]; [left; by simplify_eq|]. by destruct x; apply elem_of_nil in H. }
  intros [H|H]; [left; by simplify_eq|]. destruct x; [by apply elem_of_nil in H| |by apply elem_of_nil in H].
  destruct (rd p); [by apply list_elem_of_singleton in H|].
  apply list_elem_of_bind in H as (n & H & _).
  destruct (f !! (p ++ [n])) as [z|] eqn:Hz; [|by apply elem_of_nil in H].
  right. destruct (IH _ _ H) as [[-> ->]|(s & Hs & -> & Hq)].
  - exists [n]. done.
  - exists (n :: s). rewrite <-(assoc_L (++)) in *. done.
Qed.

Lemma walk_from_complete f fuel p x s y :
  fs_wf f → (p = [] ∧ x = Dir ∨ f !! p = Some x) → (depth f ≤ length p + fuel)%nat →
  (s = [] ∧ y = x) ∨ (s ≠ [] ∧ f !! (p ++ s) = Some y) →
  Visit (p ++ s) y ∈ walk_from (λ _, None) f fuel p x.
Proof.
  intros Hwf. revert p x s. induction fuel as [|fuel IH]; intros p x s Hp Hd Hs.
  - destruct Hs as [[-> ->]|[Hs Hq]]; simpl; rewrite ?app_nil_r; [by apply elem_of_cons; left|].
    pose proof (depth_bound _ _ _ Hq) as Hl. rewrite length_app in Hl. destruct s; [done|simpl in Hl; lia].
  - destruct Hs as [[-> ->]|[Hs Hq]]; cbn [walk_from]; rewrite ?app_nil_r; apply elem_of_cons; [by left|right].
    assert (x = Dir) as ->.
    { pose proof (wf_ancestor _ _ _ _ Hwf Hq Hs) as Hdir. destruct Hp as [[-> ->]|Hp]; [done|].
      destruct (Hwf _ _ Hp) as [Hne _]. apply is_dir_nonroot in Hdir; [|done]. congruence. }
    destruct s as [|n s]; [done|]. replace (p ++ n :: s) with ((p ++ [n]) ++ s) in * by (by rewrite <-(assoc_L (++))).
    assert (is_Some (f !! (p ++ [n]))) as [z Hz].
    { destruct s as [|m s]; [rewrite app_nil_r in Hq; eauto|].
      apply (wf_ancestor _ _ _ _ Hwf) in Hq; [|done]. apply is_dir_nonroot in Hq; [eauto|by destruct p]. }
    apply list_elem_of_bind. exists n. split; [|apply elem_of_children; eauto].
    rewrite Hz. apply IH; [by right|rewrite length_app; simpl; lia|].
    destruct s; [left|by right]. rewrite app_nil_r in Hq. split; congruence.
Qed.

Lemma walk_from_no_err f fuel p x q e : WalkErr q e ∉ walk_from (λ _, None) f fuel p x.
Proof.
  revert p x. induction fuel as [|fuel IH]; intros p x; simpl; rewrite elem_of_cons.
  - intros [|Hw]; [done|]. by destruct x; apply elem_of_nil in Hw.
  - intros [|Hw]; [done|]. destruct x; [by apply elem_of_nil in Hw| |by apply elem_of_nil in Hw].
    apply list_elem_of_bind in Hw as (m & Hw & _).
    destruct (f !! (p ++ [m])); [by eapply IH|by apply elem_of_nil in Hw].
Qed.

Lemma walk_from_NoDup f fuel p x : NoDup (walk_from (λ _, None) f fuel p x).
Proof.
  revert p x. induction fuel as [|fuel IH]; intros p x; simpl.
  { destruct x; repeat constructor; apply not_elem_of_nil. }
  destruct x; [repeat constructor; apply not_elem_of_nil| |repeat constructor; apply not_elem_of_nil].
  assert (∀ n z w, f !! (p ++ [n]) = Some z → w ∈ walk_from (λ _, None) f fuel (p ++ [n]) z →
    ∃ s y, w = Visit (p ++ n :: s) y) as Hsh.
  { intros n z w Hz Hw. destruct w as [q y|q e].
    - destruct (walk_from_sound _ _ _ _ _ _ _ Hw) as [[-> ->]|(s & _ & -> & _)]; [by exists [], z|].
      exists s, y. by rewrite <-(assoc_L (++)).
    - by apply walk_from_no_err in Hw. }
  constructor.
  - intros (n & Hn & _)%list_elem_of_bind. destruct (f !! (p ++ [n])) as [z|] eqn:Hz; [|by apply elem_of_nil in Hn].
    destruct (Hsh _ _ _ Hz Hn) as (s & y & [= He _]).
    apply (f_equal length) in He. rewrite length_app in He. simpl in He. lia.
  - apply NoDup_bind; [| |apply NoDup_children].
    + intros n1 n2 w _ _ H1 H2.
      destruct (f !! (p ++ [n1])) as [z1|] eqn:Hz1; [|by apply elem_of_nil in H1].
      destruct (f !! (p ++ [n2])) as [z2|] eqn:Hz2; [|by apply elem_of_nil in H2].
      destruct (Hsh _ _ _ Hz1 H1) as (s1 & y1 & ->). destruct (Hsh _ _ _ Hz2 H2) as (s2 & y2 & He).
      injection He as He _. apply (inj (p ++.)) in He. by injection He.
    + intros n _. destruct (f !! (p ++ [n])); [apply IH|constructor].
Qed.

(** Without errors the walk of a directory visits exactly the nodes at or below
    it, each once. *)
Lemma walk_events_spec f root :
  fs_wf f → is_dir f root = true →
  NoDup (walk_events (λ _, None) f root) ∧
  (∀ e q, WalkErr q e ∉ walk_events (λ _, None) f root) ∧
  ∀ q y, Visit q y ∈ walk_events (λ _, None) f root ↔
    (q = root ∧ y = Dir) ∨ (∃ s, s ≠ [] ∧ q = root ++ s ∧ f !! q = Some y).
Proof.
  intros Hwf Hd.
  assert (lookup_node None f root = Ok Dir ∧ (root = [] ∧ Dir = Dir ∨ f !! root = Some Dir)) as [Hl Hr].
  { unfold lookup_node. destruct root as [|c root]; [auto|]. apply is_dir_nonroot in Hd; [|done].
    rewrite Hd. auto. }
  unfold walk_events. rewrite Hl. split; [apply walk_from_NoDup|]. split.
  - intros e q. apply walk_from_no_err.
  - intros q y. split; [apply walk_from_sound|]. intros [[-> ->]|(s & Hs & -> & Hq)].
    + rewrite <-(app_nil_r root) at 1. apply walk_from_complete; [done..|lia|auto].
    + apply walk_from_complete; [done..|lia|auto].
Qed.
