(* ===== verification/Store.v ===== *)
(** * The object store of one node: internal/storage/store.go and fsutil.go

    The store is the file tree below [root] together with the metadata index.
    Each operation takes an environment record: the errors the operating system
    and the database return to it, and the values it obtains from them (a
    temporary name, the time).  The theorems quantify over every environment. *)

From S2P Require Import Prelude GoStrings Sha256 Errors Key Index FileSystem.

#[local] Open Scope Z_scope.

(** ** State *)

(** The always-on counters, and their names. *)
Record Stats := mkStats {
  nPutsOK : Z; nPutsRejected : Z; nPutsAlreadyStored : Z; nGets : Z; nGetMisses : Z;
  nDeletes : Z; nBytesIn : Z; nBytesOut : Z; nObjectsStored : Z;
  nBytesStored : Z; nVerifyFailures : Z }.

Inductive counter :=
  | PutsOK | PutsRejected | PutsAlreadyStored | Gets | GetMisses | Deletes | BytesIn | BytesOut
  | ObjectsStored | BytesStored | VerifyFailures.

Definition stat_of_counter (st : Stats) (c : counter) : Z :=
  match c with
  | PutsOK => nPutsOK st
  | PutsRejected => nPutsRejected st
  | PutsAlreadyStored => nPutsAlreadyStored st
  | Gets => nGets st
  | GetMisses => nGetMisses st
  | Deletes => nDeletes st
  | BytesIn => nBytesIn st
  | BytesOut => nBytesOut st
  | ObjectsStored => nObjectsStored st
  | BytesStored => nBytesStored st
  | VerifyFailures => nVerifyFailures st
  end.

Definition set_counter (c : counter) (f : Z → Z) (st : Stats) : Stats :=
  let '(mkStats a0 a1 a2 a3 a4 a5 a6 a7 a8 a9 a10) := st in
  match c with
  | PutsOK => mkStats (f a0) a1 a2 a3 a4 a5 a6 a7 a8 a9 a10
  | PutsRejected => mkStats a0 (f a1) a2 a3 a4 a5 a6 a7 a8 a9 a10
  | PutsAlreadyStored => mkStats a0 a1 (f a2) a3 a4 a5 a6 a7 a8 a9 a10
  | Gets => mkStats a0 a1 a2 (f a3) a4 a5 a6 a7 a8 a9 a10
  | GetMisses => mkStats a0 a1 a2 a3 (f a4) a5 a6 a7 a8 a9 a10
  | Deletes => mkStats a0 a1 a2 a3 a4 (f a5) a6 a7 a8 a9 a10
  | BytesIn => mkStats a0 a1 a2 a3 a4 a5 (f a6) a7 a8 a9 a10
  | BytesOut => mkStats a0 a1 a2 a3 a4 a5 a6 (f a7) a8 a9 a10
  | ObjectsStored => mkStats a0 a1 a2 a3 a4 a5 a6 a7 (f a8) a9 a10
  | BytesStored => mkStats a0 a1 a2 a3 a4 a5 a6 a7 a8 (f a9) a10
  | VerifyFailures => mkStats a0 a1 a2 a3 a4 a5 a6 a7 a8 a9 (f a10)
  end.

Definition zero_stats : Stats := mkStats 0 0 0 0 0 0 0 0 0 0 0.

(** The [index.db] file itself is the state of [Index], not a node of [tree].
    [evictor] is the pending wake-up of an attached evictor. *)
Record Store := mkStore {
  tree : files;
  root : path;
  tmpDir : path;
  maxObjectBytes : Z;
  verifyReads : bool;
  dirs : gset (list string);
  index : option Index;
  evictor : option bool;
  closed : bool;
  dirSyncUnsupported : bool;
  stats : Stats }.

Definition set_tree (f : files) (s : Store) : Store :=
  mkStore f (root s) (tmpDir s) (maxObjectBytes s) (verifyReads s) (dirs s) (index s) (evictor s)
    (closed s) (dirSyncUnsupported s) (stats s).
Definition set_dirs (d : gset (list string)) (s : Store) : Store :=
  mkStore (tree s) (root s) (tmpDir s) (maxObjectBytes s) (verifyReads s) d (index s) (evictor s)
    (closed s) (dirSyncUnsupported s) (stats s).
Definition set_index (i : option Index) (s : Store) : Store :=
  mkStore (tree s) (root s) (tmpDir s) (maxObjectBytes s) (verifyReads s) (dirs s) i (evictor s)
    (closed s) (dirSyncUnsupported s) (stats s).
Definition set_evictor (e : option bool) (s : Store) : Store :=
  mkStore (tree s) (root s) (tmpDir s) (maxObjectBytes s) (verifyReads s) (dirs s) (index s) e
    (closed s) (dirSyncUnsupported s) (stats s).
Definition set_closed (b : bool) (s : Store) : Store :=
  mkStore (tree s) (root s) (tmpDir s) (maxObjectBytes s) (verifyReads s) (dirs s) (index s)
    (evictor s) b (dirSyncUnsupported s) (stats s).
Definition set_dirSyncUnsupported (b : bool) (s : Store) : Store :=
  mkStore (tree s) (root s) (tmpDir s) (maxObjectBytes s) (verifyReads s) (dirs s) (index s)
    (evictor s) (closed s) b (stats s).
Definition set_stat (c : counter) (f : Z → Z) (s : Store) : Store :=
  mkStore (tree s) (root s) (tmpDir s) (maxObjectBytes s) (verifyReads s) (dirs s) (index s)
    (evictor s) (closed s) (dirSyncUnsupported s)
    (set_counter c f (stats s)).

(** [s.stats.C.Add(n)] and [s.stats.C.Store(n)]. *)
Definition add (c : counter) (n : Z) : Store → Store := set_stat c (λ x, x + n).
Definition store_stat (c : counter) (n : Z) : Store → Store := set_stat c (λ _, n).

(** Call the index when there is one; its error is only logged. *)
Definition on_index (f : Index → Index) (s : Store) : Store :=
  match index s with Some i => set_index (Some (f i)) s | None => s end.

Definition tmpPrefix : string := "incoming-".

(** ** Bodies

    An [io.Reader]: the bytes it yields, then end of file or an error. *)
Record Reader := mkReader { rdata : bytes; rerr : option error }.

Definition LimitReader (r : Reader) (n : Z) : Reader :=
  if n <=? Z.of_nat (length (rdata r)) then mkReader (take (Z.to_nat n) (rdata r)) None else r.

(** [io.Copy] of a reader into a file: the bytes the file received, and the
    count or the error.  [wf] is a write error after that many bytes. *)
Definition copy_file (wf : option (nat * error)) (r : Reader) : bytes * result Z :=
  let rest := match rerr r with Some e => Err e | None => Ok (Z.of_nat (length (rdata r))) end in
  match wf with
  | Some (n, e) => if (n <? length (rdata r))%nat then (take n (rdata r), Err e) else (rdata r, rest)
  | None => (rdata r, rest)
  end.

(** ** Directories *)

Definition ensure (fault : path → option error) (dir : path) : M Store unit :=
  s ← getS;
  if bool_decide (dir ∈ dirs s) then mret tt
  else
    let '(f, e) := MkdirAll fault (tree s) dir in
    _ ← modify (set_tree f);
    _ ← check (e ≫= λ e, Some (Wrap "create shard dir" e));
    modify (set_dirs ({[dir]} ∪ dirs s)).

(** [syncDir]: [opened] is the error of opening the directory, [synced] that of
    [Sync] with [isNotSupported] of it. *)
Definition syncDir (opened : option error) (synced : option (bool * error)) : option error :=
  match opened with
  | Some e => Some (Wrap "open dir for sync" e)
  | None =>
      match synced with
      | Some (true, _) => Some ErrDirSyncUnsupported
      | Some (false, e) => Some (Wrap "fsync dir" e)
      | None => None
      end
  end.

Definition noteDirSyncUnsupported : Store → Store := set_dirSyncUnsupported true.
Definition DirSyncSupported (s : Store) : bool := negb (dirSyncUnsupported s).

(** ** Put *)

Record PutResult := mkPutResult {
  pr_Key : string; pr_Namespace : string; pr_Size : Z; pr_Digest : string;
  pr_AlreadyStored : bool; pr_Durable : bool }.

Record PutEnv := mkPutEnv {
  pe_mkdir : path → option error;       (* MkdirAll of the shard directory *)
  pe_stat : option error;               (* Stat of the final path *)
  pe_temp : option error;               (* CreateTemp *)
  pe_suffix : N;                        (* the random part of the temporary name *)
  pe_write : option (nat * error);      (* a write error after so many bytes *)
  pe_ctx : option error;                (* ctx.Err() after the copy *)
  pe_sync : option error;               (* fsync of the file *)
  pe_close : option error;              (* close of the file *)
  pe_rename : option error;
  pe_remove : option error;             (* removal of an abandoned temporary file *)
  pe_opendir : option error;
  pe_dirsync : option (bool * error);
  pe_upsert : option error;
  pe_now : Z }.

Definition put_fine (suffix : N) (now : Z) : PutEnv :=
  mkPutEnv (λ _, None) None None suffix None None None None None None None None None now.

(** [PutsRejected++; return PutResult{}, err]. *)
Definition reject {A} (e : error) : M Store A :=
  _ ← modify (add PutsRejected 1); fail e.

Definition reject_if (b : bool) (e : error) : M Store unit := if b then reject e else mret tt.

Definition reject_err (msg : string) (o : option error) : M Store unit :=
  match o with Some e => reject (Wrap msg e) | None => mret tt end.

(** After the rename: the directory fsync, the counters, the index and the
    evictor.  Nothing here fails the write. *)
Definition put_published (env : PutEnv) (ns key : string) (written : Z) (digest : string)
    : M Store PutResult :=
  let durable := match syncDir (pe_opendir env) (pe_dirsync env) with None => true | Some _ => false end in
  _ ← (match syncDir (pe_opendir env) (pe_dirsync env) with
       | Some e => if errors_Is e IsDirSyncUnsupported then modify noteDirSyncUnsupported else mret tt
       | None => mret tt
       end);
  _ ← modify (add PutsOK 1);
  _ ← modify (add BytesIn written);
  _ ← modify (add ObjectsStored 1);
  _ ← modify (add BytesStored written);
  s ← getS;
  _ ← (match index s with
       | None => mret tt
       | Some _ =>
           _ ← modify (on_index (λ i, (Upsert (pe_upsert env) (pe_now env) ns key written i).1));
           modify (λ s, match evictor s with Some _ => set_evictor (Some true) s | None => s end)
       end);
  mret (mkPutResult key ns written digest false durable).

(** From the open temporary file to publication. *)
Definition put_stream (env : PutEnv) (ns key : string) (finalPath tmpPath : path) (r : Reader)
    (declaredSize : Z) : M Store PutResult :=
  s ← getS;
  let limited := if 0 <? maxObjectBytes s then LimitReader r (i64 (maxObjectBytes s + 1)) else r in
  let '(content, copied) := copy_file (pe_write env) limited in
  _ ← modify (λ s, set_tree (<[tmpPath := File content (pe_now env)]> (tree s)) s);
  written ← (match copied with Err e => reject (Wrap "stream body" e) | Ok n => mret n end);
  _ ← (match pe_ctx env with Some e => reject e | None => mret tt end);
  _ ← reject_if ((0 <? maxObjectBytes s) && (maxObjectBytes s <? written))
        (TooLargeError written (maxObjectBytes s));
  _ ← reject_if ((0 <=? declaredSize) && negb (written =? declaredSize))
        (ErrShortWrite declaredSize written);
  let digest := Sha.digest content in
  _ ← reject_if (ContentAddressed ns && negb (String.eqb digest key))
        (DigestMismatchError key digest written);
  _ ← reject_err "fsync object" (pe_sync env);
  _ ← reject_err "close object" (pe_close env);
  s ← getS;
  let '(f, e) := Rename (pe_rename env) (tree s) tmpPath finalPath in
  _ ← modify (set_tree f);
  _ ← reject_err "publish object" e;
  put_published env ns key written digest.

(** The deferred function: an upload that was not published removes its
    temporary file.  Every return before the rename is an error and every
    return after it is not. *)
Definition put_cleanup (env : PutEnv) (tmpPath : path) (res : result PutResult) (s : Store) : Store :=
  match res with
  | Ok _ => s
  | Err _ => set_tree (os_Remove (pe_remove env) (tree s) tmpPath).1 s
  end.

Definition put_new (env : PutEnv) (ns key : string) (finalPath : path) (r : Reader)
    (declaredSize : Z) : M Store PutResult :=
  s ← getS;
  let '(f, t) := CreateTemp (pe_temp env) (pe_suffix env) (pe_now env) (tree s) (tmpDir s) tmpPrefix in
  _ ← modify (set_tree f);
  match t with
  | Err e => fail (Wrap "create temp file" e)
  | Ok tmpPath =>
      deferred (put_stream env ns key finalPath tmpPath r declaredSize) (put_cleanup env tmpPath)
  end.

(** [drain]: how many bytes the body still had. *)
Definition drain (r : Reader) : Z := Z.of_nat (length (rdata r)).

(** The content-addressed object is already there: read the body to its end and
    record the use. *)
Definition put_existing (env : PutEnv) (ns key : string) (x : node) (r : Reader) : M Store PutResult :=
  _ ← modify (add PutsAlreadyStored 1);
  _ ← modify (add BytesIn (drain r));
  _ ← modify (on_index (Touch (pe_now env) ns key));
  mret (mkPutResult key ns (node_size x) key true true).

Definition Put (env : PutEnv) (ns key : string) (r : Reader) (declaredSize : Z) : M Store PutResult :=
  s ← getS;
  _ ← fail_if (closed s) ErrClosed;
  _ ← fail_if (negb (ns_Valid ns)) (ErrBadNamespace ns);
  _ ← check (ValidateKey key);
  _ ← fail_if ((0 <? maxObjectBytes s) && (maxObjectBytes s <? declaredSize))
        (TooLargeError declaredSize (maxObjectBytes s));
  let dir := (ObjectPath (root s) ns key).1 in
  let finalPath := (ObjectPath (root s) ns key).2 in
  _ ← ensure (pe_mkdir env) dir;
  s ← getS;
  match (if ContentAddressed ns then lookup_node (pe_stat env) (tree s) finalPath else Err ENOENT) with
  | Ok (File c t) => put_existing env ns key (File c t) r
  | _ => put_new env ns key finalPath r declaredSize
  end.

(** ** Stat and Get *)

Record Stat := mkStat { st_Key : string; st_Namespace : string; st_Size : Z; st_ModTime : Z }.

Definition check_ref (ns key : string) : M Store unit :=
  _ ← fail_if (negb (ns_Valid ns)) (ErrBadNamespace ns);
  check (ValidateKey key).

Definition Stat_ (fault : option error) (now : Z) (ns key : string) : M Store Stat :=
  _ ← check_ref ns key;
  s ← getS;
  match lookup_node fault (tree s) (object_file (root s) ns key) with
  | Err e => if os_IsNotExist e then fail ErrNotFound else fail (Wrap "stat object" e)
  | Ok x =>
      _ ← fail_if (negb (is_regular x)) ErrNotFound;
      _ ← modify (on_index (Touch now ns key));
      mret (mkStat key ns (node_size x) (node_mtime x))
  end.

(** An open handle.  [o_rest] is what the file has left to read, ending in
    [o_readerr] or end of file; [o_hashed] is what went through the hasher. *)
Record Object := mkObject {
  o_stat : Stat; o_rest : bytes; o_readerr : option error; o_verify : bool; o_hashed : bytes;
  o_bytesServed : Z; o_closed : bool }.

(** [ge_read]: the number of bytes after which reading the file fails. *)
Record GetEnv := mkGetEnv {
  ge_open : option error; ge_fstat : option error; ge_read : option (nat * error); ge_now : Z }.

(** What can be read of a file. *)
Definition readable (fault : option (nat * error)) (c : bytes) : bytes :=
  match fault with Some (n, _) => take n c | None => c end.

Definition get_fine (now : Z) : GetEnv := mkGetEnv None None None now.

Definition Get (env : GetEnv) (ns key : string) : M Store Object :=
  s ← getS;
  _ ← fail_if (closed s) ErrClosed;
  _ ← check_ref ns key;
  match lookup_node (ge_open env) (tree s) (object_file (root s) ns key) with
  | Err e =>
      _ ← modify (add Gets 1);
      _ ← modify (add GetMisses 1);
      if os_IsNotExist e then fail ErrNotFound else fail (Wrap "open object" e)
  | Ok x =>
      _ ← modify (add Gets 1);
      match ge_fstat env with
      | Some e => fail (Wrap "stat open object" e)
      | None =>
          match x with
          | File c t =>
              _ ← modify (on_index (Touch (ge_now env) ns key));
              mret (mkObject (mkStat key ns (node_size x) t) (readable (ge_read env) c) (snd <$> ge_read env)
                      (verifyReads s && ContentAddressed ns) [] 0 false)
          | _ => _ ← modify (add GetMisses 1); fail ErrNotFound
          end
      end
  end.

(** ** Reading an object *)

(** An [io.Writer]: what it received, and the point at which it stops accepting
    bytes, with the error it then returns (or a short count without one). *)
Record Writer := mkWriter { w_out : bytes; w_limit : option (nat * option error) }.

Definition Write (w : Writer) (b : bytes) : Writer * nat * option error :=
  match w_limit w with
  | None => (mkWriter (w_out w ++ b) None, length b, None)
  | Some (n, e) =>
      let room := (n - length (w_out w))%nat in
      if (length b <=? room)%nat then (mkWriter (w_out w ++ b) (w_limit w), length b, None)
      else (mkWriter (w_out w ++ take room b) (w_limit w), room, e)
  end.

Definition io_ErrShortWrite : error := Errorf "short write".

Definition bufSize : nat := 256 * 1024.

Definition with_rest (rest hashed : bytes) (served : Z) (o : Object) : Object :=
  mkObject (o_stat o) rest (o_readerr o) (o_verify o) hashed served (o_closed o).

(** [Object.Read] into a buffer of [n] bytes: the bytes, and whether the file
    has reported its end. *)
Definition Read (n : nat) (o : Object) : Object * bytes * option (option error) :=
  match o_rest o with
  | [] => (o, [], Some (o_readerr o))
  | rest =>
      let p := take n rest in
      (with_rest (drop n rest) (if o_verify o then o_hashed o ++ p else o_hashed o)
         (o_bytesServed o + Z.of_nat (length p)) o, p, None)
  end.

(** The loop of [copyVerified] with a buffer of [n] bytes; [None] is the loop
    running out of fuel. *)
Fixpoint copyVerified (fuel n : nat) (o : Object) (w : Writer) (written : Z)
    : option (Object * Writer * (Z * option error)) :=
  match fuel with
  | O => None
  | S fuel =>
      match o_rest o with
      | [] => Some (o, w, (written, o_readerr o))
      | rest =>
          let p := take n rest in
          let '(w', nw, werr) := Write w p in
          let o' := with_rest (drop n rest) (o_hashed o ++ p) (o_bytesServed o + Z.of_nat nw) o in
          let written' := written + Z.of_nat nw in
          match werr with
          | Some e => Some (o', w', (written', Some e))
          | None =>
              if negb (nw =? length p)%nat then Some (o', w', (written', Some io_ErrShortWrite))
              else copyVerified fuel n o' w' written'
          end
      end
  end.

(** [io.Copy(w, o.f)]. *)
Definition copy_plain (o : Object) (w : Writer) : Object * Writer * (Z * option error) :=
  let '(w', nw, werr) := Write w (o_rest o) in
  let o' := with_rest [] (o_hashed o) (o_bytesServed o + Z.of_nat nw) o in
  let err := match werr with
             | Some e => Some e
             | None => if negb (nw =? length (o_rest o))%nat then Some io_ErrShortWrite
                       else o_readerr o
             end in
  (o', w', (Z.of_nat nw, err)).

Definition WriteTo (o : Object) (w : Writer) : option (Object * Writer * (Z * option error)) :=
  if o_verify o then copyVerified (S (length (o_rest o))) bufSize o w 0 else Some (copy_plain o w).

Definition Verify (o : Object) : M Store unit :=
  if negb (o_verify o) then mret tt
  else
    let got := Sha.digest (o_hashed o) in
    if negb (String.eqb got (st_Key (o_stat o)))
    then _ ← modify (add VerifyFailures 1);
         fail (DigestMismatchError (st_Key (o_stat o)) got (o_bytesServed o))
    else mret tt.

(** [Object.Close]: once. *)
Definition Object_Close (fault : option error) (o : Object) : M Store Object :=
  if o_closed o then mret o
  else
    _ ← modify (add BytesOut (o_bytesServed o));
    _ ← check fault;
    mret (mkObject (o_stat o) (o_rest o) (o_readerr o) (o_verify o) (o_hashed o) (o_bytesServed o) true).

(** ** Deleting *)

(** The shared part of [Delete] and [DeleteFile]: [None] when the file was not
    there, otherwise its size if [Stat] succeeded. *)
Definition unlink (stat rm : option error) (ns key : string) : M Store (option (option Z)) :=
  s ← getS;
  let p := object_file (root s) ns key in
  let info := lookup_node stat (tree s) p in
  let '(f, e) := os_Remove rm (tree s) p in
  match e with
  | Some e => if os_IsNotExist e then mret None else fail (Wrap "delete object" e)
  | None =>
      _ ← modify (set_tree f);
      match info with
      | Ok x =>
          _ ← modify (add ObjectsStored (-1));
          _ ← modify (add BytesStored (- node_size x));
          _ ← modify (add Deletes 1);
          mret (Some (Some (node_size x)))
      | Err _ => _ ← modify (add Deletes 1); mret (Some None)
      end
  end.

Definition Delete (stat rm idx : option error) (ns key : string) : M Store unit :=
  _ ← check_ref ns key;
  r ← unlink stat rm ns key;
  match r with
  | None => mret tt
  | Some _ => modify (on_index (λ i, (Remove idx ns key i).1))
  end.

Definition DeleteFile (stat rm : option error) (ns key : string) : M Store Z :=
  _ ← check_ref ns key;
  r ← unlink stat rm ns key;
  mret (match r with Some (Some size) => size | _ => 0 end).

(** ** Walk *)

(** The callback of [WalkDir] in [Walk]. *)
Definition walk_fn {A} (info : path → option error) (ns : string) (fn : A → Stat → result A)
    (acc : A) (ev : walk_event) : result A :=
  match ev with
  | WalkErr _ e => if os_IsNotExist e then Ok acc else Err e
  | Visit _ Dir => Ok acc
  | Visit p x =>
      let name := match last p with Some n => n | None => EmptyString end in
      match ValidateKey name with
      | Some _ => Ok acc
      | None =>
          match info p with
          | Some e => if os_IsNotExist e then Ok acc else Err e
          | None => fn acc (mkStat name ns (node_size x) (node_mtime x))
          end
      end
  end.

Definition Walk {A} (readdir info : path → option error) (s : Store) (ns : string)
    (fn : A → Stat → result A) (acc : A) : result A :=
  if negb (ns_Valid ns) then Err (ErrBadNamespace ns)
  else walk_fold (walk_fn info ns fn) acc
         (walk_events readdir (tree s) (filepath_Join (root s) [ns])).

(** ** Reconciliation *)

Record ReconcileResult := mkReconcileResult {
  FilesOnDisk : Z; BytesOnDisk : Z; IndexedBefore : Z; AddedToIndex : Z; RemovedStale : Z;
  SizeCorrected : Z }.

Record ReconcileEnv := mkReconcileEnv {
  re_totals : option error; re_all : option error; re_readdir : path → option error;
  re_info : path → option error; re_ctx : nat → option error; re_tx : TxEnv;
  re_meta : option error; re_stamp : string }.

Definition reconcile_fine : ReconcileEnv :=
  mkReconcileEnv None None (λ _, None) (λ _, None) (λ _, None) tx_fine None EmptyString.

(** What the callback of [Reconcile] has built so far. *)
Record recon := mkRecon {
  rc_known : gmap (string * string) row; rc_entries : list Entry;
  rc_files : Z; rc_bytes : Z; rc_added : Z; rc_corrected : Z }.

Definition reconcile_fn (ctx : nat → option error) (a : recon) (st : Stat) : result recon :=
  match ctx (Z.to_nat (rc_files a)) with
  | Some e => Err e
  | None =>
      let ref := (st_Namespace st, st_Key st) in
      let files := rc_files a + 1 in
      let bytes := rc_bytes a + st_Size st in
      match rc_known a !! ref with
      | Some prev =>
          let fixed := mkRow (st_Size st) (created_at prev) (last_access prev) (access_count prev) in
          if negb (row_size prev =? st_Size st)
          then Ok (mkRecon (delete ref (rc_known a)) (rc_entries a ++ [mkEntry ref fixed])
                     files bytes (rc_added a) (rc_corrected a + 1))
          else Ok (mkRecon (delete ref (rc_known a)) (rc_entries a ++ [mkEntry ref prev])
                     files bytes (rc_added a) (rc_corrected a))
      | None =>
          Ok (mkRecon (rc_known a)
                (rc_entries a ++ [mkEntry ref (mkRow (st_Size st) (st_ModTime st) (st_ModTime st) 1)])
                files bytes (rc_added a + 1) (rc_corrected a))
      end
  end.

Fixpoint reconcile_walks (env : ReconcileEnv) (s : Store) (nss : list string) (a : recon)
    : result recon :=
  match nss with
  | [] => Ok a
  | ns :: nss' =>
      match Walk (re_readdir env) (re_info env) s ns (reconcile_fn (re_ctx env)) a with
      | Err e => Err (Wrap ("storage: reconcile walk " +:+ ns) e)
      | Ok a' => reconcile_walks env s nss' a'
      end
  end.

(** Run an index operation inside the store. *)
Definition lift_index {A} (i : Index) (m : M Index A) : M Store A := λ s,
  let '(i', r) := m i in (set_index (Some i') s, r).

Section reconcile.
Context {Scan : SqlScan}.

Definition Reconcile (env : ReconcileEnv) : M Store ReconcileResult :=
  s ← getS;
  match index s with
  | None => mret (mkReconcileResult 0 0 0 0 0 0)
  | Some i =>
      before ← lift_index i (Totals (re_totals env));
      known ← lift_index i (All (re_all env) (λ m e, Ok (<[e_ref e := e_row e]> m)) ∅);
      match reconcile_walks env s [NamespaceCAS; NamespaceAC] (mkRecon known [] 0 0 0 0) with
      | Err e => fail e
      | Ok a =>
          _ ← lift_index i (ReplaceAll (re_tx env) (rc_entries a));
          _ ← modify (store_stat ObjectsStored (rc_files a));
          _ ← modify (store_stat BytesStored (rc_bytes a));
          _ ← modify (on_index (λ i, (SetMeta (re_meta env) "reconciled_at" (re_stamp env) i).1));
          mret (mkReconcileResult (rc_files a) (rc_bytes a) before.1 (rc_added a)
                  (Z.of_nat (size (rc_known a))) (rc_corrected a))
      end
  end.
End reconcile.

(** ** Startup and shutdown *)

(** The loop of [sweepTemps]: [rm] is the error of removing each name. *)
Fixpoint sweep_names (rm : string → option error) (f : files) (dir : path) (names : list string)
    : files * option error :=
  match names with
  | [] => (f, None)
  | n :: names' =>
      if negb (HasPrefix n tmpPrefix) then sweep_names rm f dir names'
      else
        match os_Remove (rm n) f (filepath_Join dir [n]) with
        | (f', None) => sweep_names rm f' dir names'
        | (f', Some e) =>
            if os_IsNotExist e then sweep_names rm f' dir names'
            else (f', Some (Wrap ("storage: remove stale temp " +:+ n) e))
        end
  end.

Definition sweepTemps (readdir : option error) (rm : string → option error) : M Store unit :=
  s ← getS;
  match ReadDir readdir (tree s) (tmpDir s) with
  | Err e => if os_IsNotExist e then mret tt else fail (Wrap "storage: scan tmp dir" e)
  | Ok names =>
      let '(f, e) := sweep_names rm (tree s) (tmpDir s) names in
      _ ← modify (set_tree f);
      check e
  end.

Record Options := mkOptions {
  Root : string; MaxObjectBytes : Z; VerifyReads : bool; DisableIndex : bool }.

Record OpenEnv := mkOpenEnv {
  oe_cwd : result path; oe_mkdir : path → path → option error; oe_readdir : option error;
  oe_rm : string → option error; oe_db : list (option error); oe_reconcile : ReconcileEnv;
  oe_disk : Table * gmap string string }.

(** [filepath.Abs]. *)
Definition Abs (cwd : result path) (p : string) : result path :=
  if HasPrefix p "/" then Ok (filepath_Join [] [p])
  else match cwd with Ok d => Ok (filepath_Join d [p]) | Err e => Err e end.

Fixpoint make_dirs (fault : path → path → option error) (f : files) (ds : list path)
    : files * option error :=
  match ds with
  | [] => (f, None)
  | d :: ds' =>
      match MkdirAll (fault d) f d with
      | (f', Some e) => (f', Some (Wrap "storage: create" e))
      | (f', None) => make_dirs fault f' ds'
      end
  end.

(** [Open] on the file tree [f]: the store it returns, and the tree it leaves
    when it fails. *)
Definition Open {Scan : SqlScan} (env : OpenEnv) (opts : Options) (f : files) : files * result Store :=
  if String.eqb (TrimSpace (Root opts)) EmptyString
  then (f, Err (Errorf "storage: root must not be empty"))
  else
    match Abs (oe_cwd env) (Root opts) with
    | Err e => (f, Err (Wrap "storage: resolve root" e))
    | Ok rt =>
        let tmp := filepath_Join rt ["tmp"] in
        let '(f, e) := make_dirs (oe_mkdir env) f
                         [rt; tmp; filepath_Join rt [NamespaceCAS]; filepath_Join rt [NamespaceAC]] in
        match e with
        | Some e => (f, Err e)
        | None =>
            let s := mkStore f rt tmp (MaxObjectBytes opts) (VerifyReads opts) ∅ None None false
                       false zero_stats in
            match sweepTemps (oe_readdir env) (oe_rm env) s with
            | (s, Err e) => (tree s, Err e)
            | (s, Ok _) =>
                if DisableIndex opts then (tree s, Ok s)
                else
                  match OpenIndex (mkIndexOptions (SJoin (indexPath rt) "/") 0) (oe_db env)
                          (oe_disk env) with
                  | Err e => (tree s, Err e)
                  | Ok i =>
                      match Reconcile (oe_reconcile env) (set_index (Some i) s) with
                      | (s, Err e) => (tree s, Err e)
                      | (s, Ok _) => (tree s, Ok s)
                      end
                  end
            end
        end
    end.

Definition AttachEvictor : Store → Store := set_evictor (Some false).

(** [Close]; the index is closed with [Index.Close]. *)
Definition Close (env : TxEnv) (rc wc : option error) : M Store unit :=
  s ← getS;
  if closed s then mret tt
  else
    _ ← modify (set_closed true);
    match index s with
    | None => mret tt
    | Some i => lift_index i (Index.Close env rc wc)
    end.

#[global] Arguments Put : simpl never.
#[global] Arguments put_stream : simpl never.
#[global] Arguments put_published : simpl never.
#[global] Arguments Rename : simpl never.
#[global] Arguments os_Remove : simpl never.

(** ** Invariants *)

(** The content the store holds for a reference. *)
Definition view (s : Store) (ns key : string) : option bytes :=
  match tree s !! object_file (root s) ns key with Some (File c _) => Some c | _ => None end.

Record store_wf (s : Store) : Prop := mkStoreWf {
  wf_tree : fs_wf (tree s);
  wf_tmp : tmpDir s = root s ++ ["tmp"];
  wf_tmp_dir : is_dir (tree s) (tmpDir s) = true;
  wf_ns_dir : ∀ ns, ns_Valid ns = true → is_dir (tree s) (root s ++ [ns]) = true;
  wf_dirs : ∀ d, d ∈ dirs s → is_dir (tree s) d = true;
  wf_dirs_depth : ∀ d, d ∈ dirs s → length d = (length (root s) + 3)%nat }.

(** Every content-addressed object has the content its key names. *)
Definition cas_ok (s : Store) : Prop :=
  ∀ key c, valid_key key = true → view s NamespaceCAS key = Some c → Sha.digest c = key.

(** The fields no operation changes after [Open]. *)
Definition same_config (s s' : Store) : Prop :=
  root s' = root s ∧ tmpDir s' = tmpDir s ∧ maxObjectBytes s' = maxObjectBytes s ∧
  verifyReads s' = verifyReads s.

(** [s'] differs from [s] at most by new directories. *)
Definition grows (f f' : files) : Prop :=
  ∀ q, f' !! q = f !! q ∨ (f !! q = None ∧ f' !! q = Some Dir).

Lemma grows_refl f : grows f f.
Proof. intros q. by left. Qed.

Lemma grows_is_dir f f' p : grows f f' → is_dir f p = true → is_dir f' p = true.
Proof.
  intros Hg. destruct p as [|c p]; [done|]. rewrite !is_dir_nonroot by done. intros Hp.
  destruct (Hg (c :: p)) as [->|[? ?]]; done.
Qed.

Lemma grows_file f f' p c t : grows f f' → f' !! p = Some (File c t) ↔ f !! p = Some (File c t).
Proof. intros Hg. destruct (Hg p) as [->|[-> ->]]; naive_solver. Qed.

Lemma grows_view s s' ns key : root s' = root s → grows (tree s) (tree s') → view s' ns key = view s ns key.
Proof.
  intros Hr Hg. unfold view. rewrite Hr. set (p := object_file _ _ _).
  destruct (Hg p) as [->|[-> ->]]; done.
Qed.

Lemma view_frame s s' ns key p :
  root s' = root s → (∀ q, q ≠ p → tree s' !! q = tree s !! q) →
  p ≠ object_file (root s) ns key → view s' ns key = view s ns key.
Proof. intros Hr Hf Hne. unfold view. rewrite Hr, Hf by done. done. Qed.

(** *** Paths of the store never meet *)

Definition temp_path (s : Store) (suffix : N) : path := tmpDir s ++ [tmpPrefix +:+ pretty suffix].

Lemma object_file_length rt ns key :
  ns_Valid ns = true → valid_key key = true → length (object_file rt ns key) = (length rt + 4)%nat.
Proof.
  intros Hns Hk. rewrite object_file_valid by done.
  rewrite length_app. simpl. unfold shards, ShardDepth. simpl. lia.
Qed.

Lemma object_file_parent rt ns key :
  ns_Valid ns = true → valid_key key = true →
  parent (object_file rt ns key) = (ObjectPath rt ns key).1.
Proof.
  intros Hns Hk. rewrite object_file_valid, ObjectPath_valid by done. simpl fst.
  rewrite app_comm_cons, (assoc_L (++)). apply parent_snoc.
Qed.

Lemma shardDir_length rt ns key :
  ns_Valid ns = true → valid_key key = true → length (ObjectPath rt ns key).1 = (length rt + 3)%nat.
Proof.
  intros Hns Hk. rewrite ObjectPath_valid by done. simpl fst. rewrite length_app.
  simpl. unfold shards, ShardDepth. simpl. lia.
Qed.

Lemma object_file_nonempty rt ns key :
  ns_Valid ns = true → valid_key key = true → object_file rt ns key ≠ [].
Proof.
  intros Hns Hk He. apply (f_equal length) in He. rewrite object_file_length in He by done. simpl in He. lia.
Qed.

Lemma temp_not_object s suffix ns key :
  store_wf s → ns_Valid ns = true → valid_key key = true →
  temp_path s suffix ≠ object_file (root s) ns key.
Proof.
  intros Hwf Hns Hk He. apply (f_equal length) in He. rewrite object_file_length in He by done.
  unfold temp_path in He. rewrite (wf_tmp _ Hwf), !length_app in He. simpl in He. lia.
Qed.

Lemma tmpDir_not_temp s suffix : tmpDir s ≠ temp_path s suffix.
Proof.
  intros He. apply (f_equal length) in He. unfold temp_path in He. rewrite length_app in He. simpl in He. lia.
Qed.

(** *** [ensure] *)

Lemma ensure_spec fault dir s s' r :
  store_wf s → length dir = (length (root s) + 3)%nat → ensure fault dir s = (s', r) →
  store_wf s' ∧ same_config s s' ∧ closed s' = closed s ∧ index s' = index s ∧
  grows (tree s) (tree s') ∧ (r = Ok tt → is_dir (tree s') dir = true).
Proof.
  intros Hwf Hlen. unfold ensure. mrun. case_bool_decide as Hin.
  { mrun. intros [= <- <-]. split; [done|]. repeat split; [apply grows_refl|]. intros _. by apply wf_dirs. }
  destruct (MkdirAll fault (tree s) dir) as [f e] eqn:Hm. mrun.
  pose proof (MkdirAll_wf _ _ _ _ _ (wf_tree _ Hwf) Hm) as Hfw.
  destruct (MkdirAll_spec _ _ _ _ _ Hm) as [Hg Hd].
  assert (grows (tree s) f) as Hg' by (intros q; destruct (Hg q) as [|(?&?&?)]; auto).
  assert (∀ d, (∀ x, x ∈ d → is_dir f x = true ∧ length x = (length (root s) + 3)%nat) →
    store_wf (set_dirs d (set_tree f s))) as Hw.
  { intros d Hd'. split; simpl; [done|apply Hwf|..].
    - eapply grows_is_dir; [done|apply Hwf].
    - intros ns Hns. eapply grows_is_dir; [done|by apply Hwf].
    - apply Hd'.
    - apply Hd'. }
  assert (∀ x, x ∈ dirs s → is_dir f x = true ∧ length x = (length (root s) + 3)%nat) as Hds.
  { intros x Hx. split; [eapply grows_is_dir; [done|by apply Hwf]|by apply Hwf]. }
  destruct e as [e|]; mrun; intros [= <- <-]; simpl.
  - split; [by apply (Hw (dirs s))|]. by repeat split.
  - split; [|repeat split; [done|]; auto]. apply Hw. intros x [->%elem_of_singleton|Hx]%elem_of_union; auto.
Qed.

(** *** The stages of [Put] *)

(** What a successful upload wrote: the whole body, within the limits. *)
Definition accepted (s : Store) (ns key : string) (r : Reader) (dsz : Z) (content : bytes) : Prop :=
  content = rdata (if 0 <? maxObjectBytes s then LimitReader r (i64 (maxObjectBytes s + 1)) else r) ∧
  rerr (if 0 <? maxObjectBytes s then LimitReader r (i64 (maxObjectBytes s + 1)) else r) = None ∧
  (0 < maxObjectBytes s → Z.of_nat (length content) ≤ maxObjectBytes s) ∧
  (0 ≤ dsz → Z.of_nat (length content) = dsz) ∧
  (ContentAddressed ns = true → Sha.digest content = key).

Definition durable_of (env : PutEnv) : bool :=
  match syncDir (pe_opendir env) (pe_dirsync env) with None => true | Some _ => false end.

(** The fields [put_published] and the rejections leave alone. *)
Definition same_disk (s s' : Store) : Prop :=
  same_config s s' ∧ closed s' = closed s ∧ dirs s' = dirs s ∧ tree s' = tree s.

Lemma same_disk_wf s s' : same_disk s s' → store_wf s → store_wf s'.
Proof.
  intros ((Hr & Ht & _) & _ & Hd & Hf) Hwf. split; rewrite ?Hf, ?Ht, ?Hr, ?Hd; apply Hwf.
Qed.

Lemma put_published_spec env ns key n d s s' r :
  put_published env ns key n d s = (s', r) →
  same_disk s s' ∧ r = Ok (mkPutResult key ns n d false (durable_of env)) ∧
  index s' = (λ i, (Upsert (pe_upsert env) (pe_now env) ns key n i).1) <$> index s.
Proof.
  unfold put_published. fold (durable_of env). rewrite bind_eq.
  assert (∃ b, match syncDir (pe_opendir env) (pe_dirsync env) with
    | Some e => if errors_Is e IsDirSyncUnsupported then modify noteDirSyncUnsupported else mret ()
    | None => mret ()
    end s = (set_dirSyncUnsupported b s, Ok tt)) as [b ->].
  { destruct (syncDir _ _) as [e|]; [destruct (errors_Is _ _); [by exists true|]|];
      exists (dirSyncUnsupported s); by destruct s. }
  destruct s as [f rt tmp mx vr ds [ix|] [ev|] cl du st]; mrun; simpl; mrun; simpl;
    intros [= <- <-]; by repeat split.
Qed.

Lemma copy_file_Ok wf r c n :
  copy_file wf r = (c, Ok n) → c = rdata r ∧ rerr r = None ∧ n = Z.of_nat (length c).
Proof.
  unfold copy_file. destruct wf as [[k e]|]; [destruct (k <? _)%nat|]; destruct (rerr r); naive_solver.
Qed.

(** An exit through [reject]. *)
#[local] Ltac rejected H := unfold reject in H; mrun_in H; injection H as <- <-; by repeat split.

Lemma put_stream_spec env ns key final tmp r dsz s s' res :
  put_stream env ns key final tmp r dsz s = (s', res) →
  ∃ content, same_config s s' ∧ closed s' = closed s ∧ dirs s' = dirs s ∧
  let f1 := <[tmp := File content (pe_now env)]> (tree s) in
  match res with
  | Err _ => tree s' = f1 ∧ index s' = index s
  | Ok pr =>
      (tree s', None) = Rename None f1 tmp final ∧ accepted s ns key r dsz content ∧
      pr = mkPutResult key ns (Z.of_nat (length content)) (Sha.digest content) false (durable_of env) ∧
      index s' =
        (λ i, (Upsert (pe_upsert env) (pe_now env) ns key (Z.of_nat (length content)) i).1) <$> index s
  end.
Proof.
  unfold put_stream. mrun.
  destruct (copy_file (pe_write env) _) as [c copied] eqn:Hc. mrun. intros H. exists c.
  destruct copied as [n|e]; [|rejected H].
  mrun_in H. destruct (pe_ctx env); [rejected H|].
  mrun_in H. unfold reject_if at 1 in H.
  destruct ((0 <? maxObjectBytes s) && (maxObjectBytes s <? n)) eqn:H1;
    [rejected H|].
  mrun_in H. unfold reject_if at 1 in H.
  destruct ((0 <=? dsz) && negb (n =? dsz)) eqn:H2;
    [rejected H|].
  mrun_in H. unfold reject_if at 1 in H.
  destruct (ContentAddressed ns && negb (String.eqb (Sha.digest c) key)) eqn:H3;
    [rejected H|].
  mrun_in H. unfold reject_err at 1 in H.
  destruct (pe_sync env); [rejected H|].
  mrun_in H. unfold reject_err at 1 in H.
  destruct (pe_close env); [rejected H|].
  mrun_in H. simpl in H.
  destruct (Rename (pe_rename env) _ tmp final) as [f e] eqn:Hr. mrun_in H. unfold reject_err in H.
  destruct e as [e|].
  { unfold reject in H. mrun_in H. injection H as <- <-. split; [by repeat split|]. do 2 (split; [done|]).
    simpl. split; [|done]. unfold Rename in Hr. repeat (case_match; simplify_eq); done. }
  mrun_in H. destruct (put_published_spec _ _ _ _ _ _ _ _ H) as ((Hcfg & Hcl & Hd & Hf) & -> & Hi).
  apply copy_file_Ok in Hc as (Hc1 & Hc2 & ->).
  split; [by destruct Hcfg as (?&?&?&?)|]. split; [done|]. split; [done|].
  split; [rewrite Hf; simpl; unfold Rename in Hr |- *; destruct (pe_rename env); done|].
  split; [|done]. split; [done|]. split; [done|].
  apply andb_false_iff in H1. apply andb_false_iff in H2. apply andb_false_iff in H3.
  split; [intros; destruct H1; boolify; lia|]. split; [intros; destruct H2; boolify; lia|].
  intros Hca. destruct H3 as [|H3]; [congruence|]. by boolify.
Qed.

Lemma CreateTemp_spec fault suffix now f dir prefix f' p :
  CreateTemp fault suffix now f dir prefix = (f', Ok p) →
  p = dir ++ [prefix +:+ pretty suffix] ∧ is_dir f dir = true ∧ f !! p = None ∧ f' = <[p := File [] now]> f.
Proof.
  unfold CreateTemp. destruct fault; [done|]. destruct (is_dir f dir); [|done]. simpl.
  case_bool_decide; naive_solver.
Qed.

Lemma CreateTemp_Err fault suffix now f dir prefix f' e :
  CreateTemp fault suffix now f dir prefix = (f', Err e) → f' = f.
Proof.
  unfold CreateTemp. destruct fault; [naive_solver|]. destruct (is_dir f dir); simpl; [|naive_solver].
  case_bool_decide; naive_solver.
Qed.

(** Changing only files that are not directories keeps the store well formed. *)
Lemma store_wf_files s s' :
  store_wf s → same_config s s' → dirs s' = dirs s → fs_wf (tree s') →
  (∀ q, (length q ≤ length (root s) + 3)%nat → tree s !! q = Some Dir → tree s' !! q = Some Dir) →
  store_wf s'.
Proof.
  intros Hwf (Hr & Ht & _) Hd Hf Hk.
  assert (∀ p, (length p ≤ length (root s) + 3)%nat → is_dir (tree s) p = true → is_dir (tree s') p = true) as Hm.
  { intros [|c p]; [done|]. rewrite !is_dir_nonroot by done. auto. }
  split; [done|rewrite Hr, Ht; apply Hwf|rewrite Ht; apply Hm; [|apply Hwf]|..].
  - rewrite (wf_tmp _ Hwf), length_app. simpl. lia.
  - intros ns Hns. rewrite Hr. apply Hm; [rewrite length_app; simpl; lia|by apply Hwf].
  - intros d. rewrite Hd. intros Hin. apply Hm; [|by apply Hwf]. rewrite (wf_dirs_depth _ Hwf) by done. done.
  - intros d. rewrite Hd, Hr. apply Hwf.
Qed.

(** A successful rename of a new file. *)
Lemma rename_temp f tmp final c t f' :
  f !! tmp = None → tmp ≠ final →
  (f', None) = Rename None (<[tmp := File c t]> f) tmp final →
  f' = <[final := File c t]> f ∧ f !! final ≠ Some Dir ∧
  is_dir (<[tmp := File c t]> f) (parent final) = true.
Proof.
  intros Hn Hne. unfold Rename. rewrite lookup_insert_eq.
  destruct (is_dir _ (parent final)); [|done]. simpl. rewrite lookup_insert_ne by done.
  intros H. split; [|split; [by intros He; rewrite He in H|done]].
  rewrite delete_insert_id in H by done. destruct (f !! final) as [[]|]; by simplify_eq.
Qed.

Lemma put_new_spec env ns key r dsz s s' res :
  let final := object_file (root s) ns key in
  store_wf s → ns_Valid ns = true → valid_key key = true →
  put_new env ns key final r dsz s = (s', res) →
  store_wf s' ∧ same_config s s' ∧ closed s' = closed s ∧
  match res with
  | Err _ =>
      index s' = index s ∧ (∀ q, q ≠ temp_path s (pe_suffix env) → tree s' !! q = tree s !! q) ∧
      (pe_remove env = None → tree s' = tree s)
  | Ok pr =>
      ∃ content, accepted s ns key r dsz content ∧
      tree s' = <[final := File content (pe_now env)]> (tree s) ∧
      pr = mkPutResult key ns (Z.of_nat (length content)) (Sha.digest content) false (durable_of env) ∧
      index s' =
        (λ i, (Upsert (pe_upsert env) (pe_now env) ns key (Z.of_nat (length content)) i).1) <$> index s
  end.
Proof.
  intros final Hwf Hns Hk. unfold put_new. mrun.
  destruct (CreateTemp _ _ _ _ _ _) as [f t] eqn:Hct. mrun. destruct t as [tmp|e].
  2: { apply CreateTemp_Err in Hct as ->. intros [= <- <-]. split; [by apply (same_disk_wf s)|]. by repeat split. }
  apply CreateTemp_spec in Hct as (Htmp & Hd & Hn & ->). fold (temp_path s (pe_suffix env)) in Htmp.
  assert (tmp ≠ final) as Hne by (subst tmp; by apply temp_not_object).
  mrun. destruct (put_stream _ _ _ _ _ _ _ _) as [s1 r1] eqn:Hps. intros [= <- <-].
  destruct (put_stream_spec _ _ _ _ _ _ _ _ _ _ Hps) as (c & Hcfg & Hcl & Hds & Hres).
  assert (same_config s s1) as Hcfg' by (destruct Hcfg as (?&?&?&?); by repeat split).
  simpl in Hres, Hds, Hcl. rewrite insert_insert_eq in Hres.
  assert (∀ q, tree s !! q = Some Dir → q ≠ tmp) as Hdir by (intros q Hq ->; congruence).
  destruct r1 as [pr|e]; simpl.
  - destruct Hres as (Hren & Hacc & Hpr & Hi).
    destruct (rename_temp _ _ _ _ _ _ Hn Hne Hren) as (Htree & Hnd & Hpd).
    split; [|split; [done|split; [done|exists c; done]]].
    apply (store_wf_files s); [done..| |].
    + rewrite Htree. apply fs_wf_insert; [apply Hwf|by apply object_file_nonempty| |done].
      destruct (parent final) as [|x l] eqn:Hp; [done|]. rewrite is_dir_nonroot in Hpd |- * by done.
      apply lookup_insert_Some in Hpd as [[_ ?]|[_ ?]]; done.
    + intros q _ Hq. rewrite Htree. rewrite lookup_insert_ne; [done|]. intros <-. done.
  - destruct Hres as [Htree Hi].
    assert (fs_wf (<[tmp := File c (pe_now env)]> (tree s))) as Hfw.
    { apply fs_wf_insert; [apply Hwf| | |congruence].
      - subst tmp. unfold temp_path. by destruct (tmpDir s).
      - subst tmp. unfold temp_path. by rewrite parent_snoc. }
    assert ((os_Remove (pe_remove env) (tree s1) tmp).1 =
      match pe_remove env with Some _ => <[tmp := File c (pe_now env)]> (tree s) | None => tree s end) as Hrm.
    { unfold os_Remove. rewrite Htree. destruct (pe_remove env); [done|].
      rewrite lookup_insert_eq. simpl. by rewrite delete_insert_id. }
    split; [|split; [done|split; [done|split; [done|]]]].
    + apply (store_wf_files s); [done..| |]; simpl; rewrite Hrm; destruct (pe_remove env); try done.
      * apply Hwf.
      * intros q _ Hq. rewrite lookup_insert_ne; [done|]. by intros <-; apply Hdir in Hq.
    + simpl. rewrite Hrm. destruct (pe_remove env); [|done]. split; [|done].
      intros q Hq. rewrite lookup_insert_ne; [done|]. congruence.
Qed.

(** What [Put] does to the disk and the index on every branch. *)
Definition put_effect (env : PutEnv) (ns key : string) (r : Reader) (dsz : Z) (s s' : Store)
    (res : result PutResult) : Prop :=
  let final := object_file (root s) ns key in
  match res with
  | Err _ =>
      index s' = index s ∧
      ∃ f1, grows (tree s) f1 ∧ (∀ q, q ≠ temp_path s (pe_suffix env) → tree s' !! q = f1 !! q) ∧
        (pe_remove env = None → tree s' = f1)
  | Ok pr =>
      closed s = false ∧ ns_Valid ns = true ∧ valid_key key = true ∧
      ∃ f1, grows (tree s) f1 ∧
      ((∃ c t, ContentAddressed ns = true ∧ tree s !! final = Some (File c t) ∧ tree s' = f1 ∧
          pr = mkPutResult key ns (Z.of_nat (length c)) key true true ∧
          index s' = Touch (pe_now env) ns key <$> index s) ∨
       (∃ content, accepted s ns key r dsz content ∧
          (ContentAddressed ns = true → pe_stat env = None → view s ns key = None) ∧
          tree s' = <[final := File content (pe_now env)]> f1 ∧
          pr = mkPutResult key ns (Z.of_nat (length content)) (Sha.digest content) false (durable_of env) ∧
          index s' = (λ i, (Upsert (pe_upsert env) (pe_now env) ns key (Z.of_nat (length content)) i).1)
                       <$> index s))
  end.

Lemma put_unchanged env ns key r dsz s e :
  put_effect env ns key r dsz s s (Err e).
Proof. split; [done|]. exists (tree s). split; [apply grows_refl|]. done. Qed.

Lemma on_index_fmap f s : index (on_index f s) = f <$> index s.
Proof. unfold on_index. destruct (index s) eqn:E; [done|]. simpl. done. Qed.

Lemma on_index_same f s : same_disk s (on_index f s).
Proof. unfold on_index. destruct (index s); by repeat split. Qed.

(** The part of [Put] after the shard directory exists. *)
Definition put_rest (env : PutEnv) (ns key : string) (r : Reader) (dsz : Z) : M Store PutResult :=
  s ← getS;
  match (if ContentAddressed ns
         then lookup_node (pe_stat env) (tree s) (object_file (root s) ns key) else Err ENOENT) with
  | Ok (File c t) => put_existing env ns key (File c t) r
  | _ => put_new env ns key (object_file (root s) ns key) r dsz
  end.

Lemma Put_guards env ns key r dsz s :
  (∃ e, Put env ns key r dsz s = (s, Err e)) ∨
  (closed s = false ∧ ns_Valid ns = true ∧ valid_key key = true ∧
   ∃ s1 r1, ensure (pe_mkdir env) (ObjectPath (root s) ns key).1 s = (s1, r1) ∧
     (root s1 = root s →
      Put env ns key r dsz s =
        match r1 with Err e => (s1, Err e) | Ok _ => put_rest env ns key r dsz s1 end)).
Proof.
  unfold Put, put_rest, valid_key. mrun.
  destruct (closed s) eqn:Hcl; mrun; [eauto|].
  destruct (ns_Valid ns) eqn:Hns; simpl; mrun; [|eauto].
  destruct (ValidateKey key) eqn:Hk; mrun; [eauto|].
  destruct (_ && _); mrun; [eauto|]. right. do 3 (split; [done|]).
  destruct (ensure _ _ s) as [s1 r1] eqn:He. exists s1, r1. split; [done|]. intros Hr.
  destruct r1; mrun; [|done]. fold (object_file (root s) ns key). by rewrite Hr.
Qed.

Lemma put_existing_spec env ns key x r s s' res :
  put_existing env ns key x r s = (s', res) →
  same_disk s s' ∧ res = Ok (mkPutResult key ns (node_size x) key true true) ∧
  index s' = Touch (pe_now env) ns key <$> index s.
Proof.
  unfold put_existing. mrun. intros [= <- <-]. rewrite on_index_fmap. split; [|done].
  destruct (on_index_same (Touch (pe_now env) ns key)
    (add BytesIn (drain r) (add PutsAlreadyStored 1 s))) as ((?&?&?&?)&?&?&?). by repeat split.
Qed.

(** The branch taken by [put_rest]. *)
Lemma put_rest_cases env ns key r dsz s :
  ns_Valid ns = true → valid_key key = true →
  (∃ c t, ContentAddressed ns = true ∧ tree s !! object_file (root s) ns key = Some (File c t) ∧
     put_rest env ns key r dsz s = put_existing env ns key (File c t) r s) ∨
  ((ContentAddressed ns = true → pe_stat env = None → view s ns key = None) ∧
   put_rest env ns key r dsz s = put_new env ns key (object_file (root s) ns key) r dsz s).
Proof.
  intros Hns Hk. unfold put_rest, view. mrun.
  pose proof (object_file_nonempty (root s) ns key Hns Hk) as Hne.
  destruct (ContentAddressed ns); [|by right].
  unfold lookup_node. destruct (pe_stat env); [by right|].
  destruct (object_file (root s) ns key) as [|x l]; [done|].
  destruct (tree s !! (x :: l)) as [[]|]; [left; eauto|by right..].
Qed.

Lemma Put_spec env ns key r dsz s s' res :
  store_wf s → Put env ns key r dsz s = (s', res) →
  store_wf s' ∧ same_config s s' ∧ closed s' = closed s ∧ put_effect env ns key r dsz s s' res.
Proof.
  intros Hwf H. destruct (Put_guards env ns key r dsz s) as [[e E]|(Hcl & Hns & Hk & s1 & r1 & He & E)].
  { rewrite E in H. injection H as <- <-. split; [done|]. do 2 (split; [done|]). apply put_unchanged. }
  destruct (ensure_spec _ _ _ _ _ Hwf (shardDir_length _ _ _ Hns Hk) He) as (Hwf1 & Hcfg & Hc1 & Hi1 & Hg & _).
  pose proof Hcfg as (Hr & Ht & Hmx & Hvr). rewrite E in H by done. clear E.
  destruct r1 as [[]|e].
  2: { injection H as <- <-. do 4 (split; [done|]). exists (tree s1). done. }
  destruct (put_rest_cases env ns key r dsz s1 Hns Hk) as [(c & t & Hca & Hf & E)|[Hv E]]; rewrite E in H.
  - apply put_existing_spec in H as (Hsd & -> & Hi). split; [by eapply same_disk_wf|].
    destruct Hsd as ((?&?&?&?)&?&?&?). split; [repeat split; congruence|]. split; [congruence|].
    do 3 (split; [done|]). exists (tree s1). split; [done|]. left. exists c, t.
    rewrite Hr in Hf. apply (grows_file _ _ _ _ _ Hg) in Hf. rewrite <-Hi1. done.
  - destruct (put_new_spec _ _ _ _ _ _ _ _ Hwf1 Hns Hk H) as (Hwf2 & (?&?&?&?) & Hc2 & Hres).
    split; [done|]. split; [repeat split; congruence|]. split; [congruence|]. destruct res as [pr|e].
    + destruct Hres as (content & Hacc & Htree & Hpr & Hi). do 3 (split; [done|]).
      exists (tree s1). split; [done|]. right. exists content. rewrite <-Hi1, <-Hr.
      split; [unfold accepted in *; by rewrite <-Hmx|].
      split; [|done]. intros Hca Hst. rewrite <-(grows_view s s1); auto.
    + destruct Hres as (Hi & Hq & Hrm). split; [congruence|]. exists (tree s1). split; [done|].
      unfold temp_path in *. by rewrite <-Ht.
Qed.

(** *** The view after each operation *)

(** A store with an object limit below the largest integer reads bodies to
    their end. *)
Definition sane_limit (s : Store) : Prop := maxObjectBytes s < 2 ^ 63 - 1.

Lemma accepted_whole s ns key r dsz content :
  sane_limit s → accepted s ns key r dsz content → content = rdata r ∧ rerr r = None.
Proof.
  unfold sane_limit. intros Hl (Hc & He & Hmax & _). destruct (Z.ltb_spec 0 (maxObjectBytes s)); [|done].
  specialize (Hmax ltac:(done)). unfold LimitReader in *. rewrite i64_id in Hc, He by (unfold in_i64; lia).
  destruct (Z.leb_spec (maxObjectBytes s + 1) (Z.of_nat (length (rdata r)))); [|done].
  exfalso. simpl in Hc. rewrite Hc, length_take in Hmax. lia.
Qed.

Lemma view_insert s s' ns key c t f1 :
  root s' = root s → grows (tree s) f1 → tree s' = <[object_file (root s) ns key := File c t]> f1 →
  ns_Valid ns = true → valid_key key = true →
  view s' ns key = Some c ∧
  ∀ ns' key', ns_Valid ns' = true → valid_key key' = true → (ns', key') ≠ (ns, key) →
    view s' ns' key' = view s ns' key'.
Proof.
  intros Hr Hg Ht Hns Hk. unfold view. rewrite Hr, Ht. split; [by rewrite lookup_insert_eq|].
  intros ns' key' Hns' Hk' Hne. rewrite lookup_insert_ne.
  - destruct (Hg (object_file (root s) ns' key')) as [->|[-> ->]]; done.
  - intros He. apply object_file_inj in He as [-> ->]; done.
Qed.

Lemma put_failed_view env ns key r dsz s s' e ns' key' :
  store_wf s → same_config s s' → put_effect env ns key r dsz s s' (Err e) →
  ns_Valid ns' = true → valid_key key' = true → view s' ns' key' = view s ns' key'.
Proof.
  intros Hwf (Hr & _) (_ & f1 & Hg & Hq & _) Hns' Hk'. unfold view. rewrite Hr.
  rewrite Hq by (by apply not_eq_sym, temp_not_object).
  destruct (Hg (object_file (root s) ns' key')) as [->|[-> ->]]; done.
Qed.

Lemma put_ok_view env ns key r dsz s s' pr :
  same_config s s' → put_effect env ns key r dsz s s' (Ok pr) →
  (∃ c, view s' ns key = Some c ∧ pr_Size pr = Z.of_nat (length c) ∧
     if pr_AlreadyStored pr then ContentAddressed ns = true ∧ view s ns key = Some c
     else accepted s ns key r dsz c ∧ pr_Digest pr = Sha.digest c) ∧
  ∀ ns' key', ns_Valid ns' = true → valid_key key' = true → (ns', key') ≠ (ns, key) →
    view s' ns' key' = view s ns' key'.
Proof.
  intros (Hr & _) (Hcl & Hns & Hk & f1 & Hg & [(c & t & Hca & Hf & Ht & -> & _)|(c & Hacc & _ & Ht & -> & _)]); simpl.
  - assert (∀ ns' key', view s' ns' key' = view s ns' key') as Hv.
    { intros ns' key'. apply grows_view; [done|]. by rewrite Ht. }
    split; [|auto]. exists c. rewrite Hv. unfold view. by rewrite Hf.
  - destruct (view_insert s s' ns key c (pe_now env) f1 Hr Hg Ht Hns Hk) as [Hv Ho].
    split; [|done]. exists c. done.
Qed.

(** *** Deleting *)

Lemma os_Remove_Ok rm f p f' :
  fs_wf f → os_Remove rm f p = (f', None) →
  rm = None ∧ f' = delete p f ∧ is_Some (f !! p) ∧ fs_wf f'.
Proof.
  intros Hwf. unfold os_Remove. destruct rm; [done|]. destruct (f !! p) as [x|] eqn:Hp; [|done].
  assert (x = Dir → has_entry f p = false → fs_wf (delete p f)) as Hdir.
  { intros -> He. apply fs_wf_delete; [done|]. intros q y Hq Hpar.
    unfold has_entry in He. apply bool_decide_eq_false in He. apply He, Exists_exists.
    exists q. destruct (Hwf _ _ Hq). split; [|done]. apply list_elem_of_fmap. exists (q, y).
    split; [done|]. by apply elem_of_map_to_list. }
  destruct x; [| |].
  - intros [= <-]. split; [done|]. split; [done|]. split; [done|].
    apply fs_wf_delete; [done|]. by eapply wf_no_child.
  - destruct (has_entry f p); [done|]. intros [= <-]. auto.
  - intros [= <-]. split; [done|]. split; [done|]. split; [done|].
    apply fs_wf_delete; [done|]. by eapply wf_no_child.
Qed.

Lemma os_Remove_Err rm f p f' e : os_Remove rm f p = (f', Some e) → f' = f.
Proof.
  unfold os_Remove. destruct rm; [naive_solver|]. destruct (f !! p) as [[]|]; try naive_solver.
  destruct (has_entry f p); naive_solver.
Qed.

Definition unlink_effect (stat rm : option error) (ns key : string) (s s' : Store)
    (res : result (option (option Z))) : Prop :=
  let p := object_file (root s) ns key in
  match res with
  | Err _ => tree s' = tree s
  | Ok None => tree s' = tree s ∧ (rm = None → tree s !! p = None)
  | Ok (Some sz) =>
      ∃ x, tree s !! p = Some x ∧ tree s' = delete p (tree s) ∧
        sz = match stat with None => Some (node_size x) | Some _ => None end
  end.

Lemma unlink_spec stat rm ns key s s' res :
  store_wf s → ns_Valid ns = true → valid_key key = true → unlink stat rm ns key s = (s', res) →
  store_wf s' ∧ same_config s s' ∧ closed s' = closed s ∧ index s' = index s ∧
  unlink_effect stat rm ns key s s' res.
Proof.
  intros Hwf Hns Hk. unfold unlink. mrun.
  pose proof (object_file_nonempty (root s) ns key Hns Hk) as Hne.
  pose proof (object_file_length (root s) ns key Hns Hk) as Hlen.
  unfold unlink_effect. set (p := object_file (root s) ns key) in *.
  destruct (os_Remove rm (tree s) p) as [f [e|]] eqn:Hrm.
  - apply os_Remove_Err in Hrm as Hf.
    destruct (os_IsNotExist e) eqn:He; mrun; intros [= <- <-]; (split; [done|]); repeat split.
    intros ->. unfold os_Remove in Hrm. destruct (tree s !! p) as [[]|]; try done.
    destruct (has_entry _ _); [|done]. by injection Hrm as <- <-.
  - apply os_Remove_Ok in Hrm as (-> & -> & [x Hx] & Hfw); [|apply Hwf].
    assert (∀ s', same_config s s' → dirs s' = dirs s → tree s' = delete p (tree s) → store_wf s') as Hw.
    { intros s2 Hc Hd Ht. apply (store_wf_files s); [done..|by rewrite Ht|]. intros q Hq Hqd.
      rewrite Ht, lookup_delete_ne; [done|]. intros <-. lia. }
    assert (lookup_node stat (tree s) p = match stat with None => Ok x | Some e => Err e end) as ->.
    { unfold lookup_node. destruct stat; [done|]. destruct p; [done|]. by rewrite Hx. }
    destruct stat; mrun; intros [= <- <-]; (split; [by apply Hw|]); repeat split; by exists x.
Qed.

Lemma view_delete s s' ns key :
  root s' = root s → tree s' = delete (object_file (root s) ns key) (tree s) →
  ns_Valid ns = true → valid_key key = true →
  view s' ns key = None ∧
  ∀ ns' key', ns_Valid ns' = true → valid_key key' = true → (ns', key') ≠ (ns, key) →
    view s' ns' key' = view s ns' key'.
Proof.
  intros Hr Ht Hns Hk. unfold view. rewrite Hr, Ht. split; [by rewrite lookup_delete_eq|].
  intros ns' key' Hns' Hk' Hne. rewrite lookup_delete_ne; [done|].
  intros He. apply object_file_inj in He as [-> ->]; done.
Qed.

Lemma check_ref_cases ns key (s : Store) :
  (∃ e, check_ref ns key s = (s, Err e) ∧ (ns_Valid ns = true → valid_key key = true → False)) ∨
  (ns_Valid ns = true ∧ valid_key key = true ∧ check_ref ns key s = (s, Ok tt)).
Proof.
  unfold check_ref, valid_key. mrun. destruct (ns_Valid ns); simpl; mrun; [|left; eexists; split; [done|done]].
  destruct (ValidateKey key); mrun; [left; eexists; split; [done|done]|by right].
Qed.

(** [Delete] on every branch. *)
Lemma Delete_spec stat rm idx ns key s s' res :
  store_wf s → Delete stat rm idx ns key s = (s', res) →
  store_wf s' ∧ same_config s s' ∧ closed s' = closed s ∧
  match res with
  | Err _ => tree s' = tree s ∧ index s' = index s
  | Ok _ =>
      ns_Valid ns = true ∧ valid_key key = true ∧
      ((tree s' = tree s ∧ (rm = None → tree s !! object_file (root s) ns key = None) ∧ index s' = index s) ∨
       (is_Some (tree s !! object_file (root s) ns key) ∧
        tree s' = delete (object_file (root s) ns key) (tree s) ∧
        index s' = (λ i, (Remove idx ns key i).1) <$> index s))
  end.
Proof.
  intros Hwf. unfold Delete. mrun.
  destruct (check_ref_cases ns key s) as [(e & -> & _)|(Hns & Hk & ->)]; [by intros [= <- <-]|].
  mrun. destruct (unlink stat rm ns key s) as [s1 r1] eqn:Hu.
  destruct (unlink_spec _ _ _ _ _ _ _ Hwf Hns Hk Hu) as (Hwf1 & Hcfg & Hcl & Hi & Heff).
  destruct r1 as [[sz|]|e]; mrun; intros [= <- <-].
  - pose proof (on_index_same (λ i, (Remove idx ns key i).1) s1) as Hsd.
    split; [by eapply same_disk_wf|]. destruct Hsd as ((?&?&?&?)&?&?&?), Hcfg as (?&?&?&?).
    split; [repeat split; congruence|]. split; [congruence|]. split; [done|]. split; [done|]. right.
    destruct Heff as (x & Hx & Ht & _). rewrite on_index_fmap, Hi. split; [eauto|]. split; [congruence|done].
  - do 3 (split; [done|]). split; [done|]. split; [done|]. left. by destruct Heff.
  - done.
Qed.

Lemma DeleteFile_spec stat rm ns key s s' res :
  store_wf s → DeleteFile stat rm ns key s = (s', res) →
  store_wf s' ∧ same_config s s' ∧ closed s' = closed s ∧ index s' = index s ∧
  match res with
  | Err _ => tree s' = tree s
  | Ok sz =>
      ns_Valid ns = true ∧ valid_key key = true ∧
      ((tree s' = tree s ∧ (rm = None → tree s !! object_file (root s) ns key = None) ∧ sz = 0) ∨
       (∃ x, tree s !! object_file (root s) ns key = Some x ∧
        tree s' = delete (object_file (root s) ns key) (tree s) ∧
        sz = match stat with None => node_size x | Some _ => 0 end))
  end.
Proof.
  intros Hwf. unfold DeleteFile. mrun.
  destruct (check_ref_cases ns key s) as [(e & -> & _)|(Hns & Hk & ->)]; [by intros [= <- <-]|].
  mrun. destruct (unlink stat rm ns key s) as [s1 r1] eqn:Hu.
  destruct (unlink_spec _ _ _ _ _ _ _ Hwf Hns Hk Hu) as (Hwf1 & Hcfg & Hcl & Hi & Heff).
  destruct r1 as [[sz|]|e]; mrun; intros [= <- <-]; do 4 (split; [done|]); [| |done].
  - split; [done|]. split; [done|]. right. destruct Heff as (x & Hx & Ht & ->). exists x.
    by destruct stat.
  - split; [done|]. split; [done|]. left. by destruct Heff.
Qed.

(** *** Reading *)

Lemma Get_spec env ns key s s' res :
  Get env ns key s = (s', res) →
  same_disk s s' ∧
  match res with
  | Err _ => index s' = index s
  | Ok o =>
      closed s = false ∧ ns_Valid ns = true ∧ valid_key key = true ∧
      index s' = Touch (ge_now env) ns key <$> index s ∧
      ∃ c t, tree s !! object_file (root s) ns key = Some (File c t) ∧
        o = mkObject (mkStat key ns (Z.of_nat (length c)) t) (readable (ge_read env) c) (snd <$> ge_read env)
              (verifyReads s && ContentAddressed ns) [] 0 false
  end.
Proof.
  unfold Get. mrun. destruct (closed s) eqn:Hcl; mrun; [by intros [= <- <-]|].
  destruct (check_ref_cases ns key s) as [(e & -> & _)|(Hns & Hk & ->)]; [by intros [= <- <-]|]. mrun.
  destruct (lookup_node _ _ _) as [x|e] eqn:Hl; mrun.
  2: { destruct (os_IsNotExist e); mrun; intros [= <- <-]; by repeat split. }
  destruct (ge_fstat env); mrun; [intros [= <- <-]; by repeat split|].
  destruct x as [c t| |]; mrun; [|intros [= <- <-]; by repeat split..].
  intros [= <- <-]. rewrite on_index_fmap.
  destruct (on_index_same (Touch (ge_now env) ns key) (add Gets 1 s)) as ((?&?&?&?)&?&?&?).
  split; [by repeat split|]. do 4 (split; [done|]). exists c, t. split; [|done].
  unfold lookup_node in Hl. destruct (ge_open env); [done|].
  destruct (object_file (root s) ns key); [done|]. destruct (tree s !! _); by simplify_eq.
Qed.

Lemma Get_found env ns key s c t :
  closed s = false → ns_Valid ns = true → valid_key key = true →
  ge_open env = None → ge_fstat env = None →
  tree s !! object_file (root s) ns key = Some (File c t) →
  ∃ s', Get env ns key s = (s', Ok (mkObject (mkStat key ns (Z.of_nat (length c)) t) (readable (ge_read env) c) (snd <$> ge_read env)
              (verifyReads s && ContentAddressed ns) [] 0 false)).
Proof.
  intros Hcl Hns Hk Ho Hf Ht. unfold Get. mrun. rewrite Hcl. mrun.
  destruct (check_ref_cases ns key s) as [(e & _ & Hno)|(_ & _ & ->)]; [by destruct Hno|]. mrun.
  unfold lookup_node. rewrite Ho. pose proof (object_file_nonempty (root s) ns key Hns Hk).
  destruct (object_file (root s) ns key); [done|]. rewrite Ht. mrun. rewrite Hf. mrun. eauto.
Qed.

Lemma Write_spec w b w' n e :
  Write w b = (w', n, e) →
  w_out w' = w_out w ++ take n b ∧ (n ≤ length b)%nat ∧ w_limit w' = w_limit w.
Proof.
  unfold Write. destruct (w_limit w) as [[k err]|] eqn:Hl.
  - destruct (length b <=? k - length (w_out w))%nat eqn:Hb; boolify; intros [= <- <- <-]; simpl;
      rewrite ?firstn_all; split; try done; split; try done; lia.
  - intros [= <- <- <-]. by rewrite firstn_all.
Qed.

(** The loop ends within its fuel. *)
Lemma copyVerified_total n fuel o w k :
  (0 < n)%nat → (length (o_rest o) < fuel)%nat → is_Some (copyVerified fuel n o w k).
Proof.
  intros Hn. revert o w k. induction fuel as [|fuel IH]; intros o w k Hf; [lia|]. simpl.
  destruct (o_rest o) as [|x rest] eqn:Hr; [by eexists|].
  destruct (Write w (take n (x :: rest))) as [[w' nw] werr]. destruct werr; [by eexists|].
  destruct (negb _); [by eexists|]. apply IH. unfold with_rest. simpl o_rest.
  rewrite length_drop. simpl in *. lia.
Qed.

(** What the loop hashed, wrote and counted. *)
Lemma copyVerified_spec n fuel o w k o' w' k' err :
  copyVerified fuel n o w k = Some (o', w', (k', err)) →
  ∃ h q, o_rest o = h ++ o_rest o' ∧ o_hashed o' = o_hashed o ++ h ∧
    w_out w' = w_out w ++ q ∧ k' = k + Z.of_nat (length q) ∧ q `prefix_of` h ∧
    o_bytesServed o' = o_bytesServed o + Z.of_nat (length q) ∧
    o_stat o' = o_stat o ∧ o_verify o' = o_verify o ∧
    (err = None → q = h ∧ o_rest o' = [] ∧ o_readerr o = None).
Proof.
  revert o w k. induction fuel as [|fuel IH]; intros o w k; [done|]. simpl.
  destruct (o_rest o) as [|x rest] eqn:Hr.
  { intros [= <- <- <- <-]. exists [], []. rewrite Hr, !app_nil_r. repeat split; simpl; try done; lia. }
  destruct (Write w (take n (x :: rest))) as [[w1 nw] werr] eqn:Hw.
  destruct (Write_spec _ _ _ _ _ Hw) as (Hout & Hnw & Hlim).
  set (p := take n (x :: rest)) in *. set (o1 := with_rest _ _ _ o).
  assert (x :: rest = p ++ drop n (x :: rest)) as Hsplit by (unfold p; by rewrite take_drop).
  assert (length (take nw p) = nw) as Hlen by (rewrite length_take; lia).
  destruct werr as [e|]; [|destruct (negb _) eqn:Hne].
  - intros [= <- <- <- <-]. exists p, (take nw p). rewrite Hlen. repeat split; try done. apply prefix_take.
  - intros [= <- <- <- <-]. exists p, (take nw p). rewrite Hlen. repeat split; try done. apply prefix_take.
  - boolify. intros H. destruct (IH _ _ _ H) as (h & q & H1 & H2 & H3 & H4 & H5 & H6 & H7 & H8 & H9).
    subst nw. rewrite firstn_all in *. exists (p ++ h), (p ++ q).
    simpl in *. rewrite H2, H3, Hout, <-!(assoc_L (++)), length_app. repeat split; try done.
    + rewrite Hsplit at 1. by rewrite H1, (assoc_L (++)).
    + lia.
    + by apply prefix_app.
    + lia.
    + destruct (H9 ltac:(done)) as (-> & _). done.
    + apply H9. done.
    + apply H9. done.
Qed.

Lemma WriteTo_total o w : is_Some (WriteTo o w).
Proof.
  unfold WriteTo. destruct (o_verify o); [|by eexists]. apply copyVerified_total; [|lia].
  apply Nat.ltb_lt. vm_compute. reflexivity.
Qed.

(** A copy that reports no error wrote the whole file. *)
Lemma WriteTo_whole o w o' w' n :
  WriteTo o w = Some (o', w', (n, None)) →
  w_out w' = w_out w ++ o_rest o ∧ n = Z.of_nat (length (o_rest o)) ∧ o_verify o' = o_verify o ∧
  o_stat o' = o_stat o ∧ (o_verify o = true → o_hashed o' = o_hashed o ++ o_rest o) ∧ o_readerr o = None.
Proof.
  unfold WriteTo. destruct (o_verify o) eqn:Hv.
  - intros H. destruct (copyVerified_spec _ _ _ _ _ _ _ _ _ H) as (h & q & H1 & H2 & H3 & H4 & _ & _ & H5 & H6 & H7).
    destruct (H7 eq_refl) as (-> & Hr & Hre). rewrite Hr, app_nil_r in H1. subst h.
    repeat split; try done; congruence.
  - unfold copy_plain. destruct (Write w (o_rest o)) as [[w1 nw] werr] eqn:Hw.
    destruct (Write_spec _ _ _ _ _ Hw) as (Hout & Hnw & Hlim).
    destruct werr; [done|]. destruct (negb _) eqn:Hne; [done|]. boolify.
    intros [= <- <- <- Hre]. rewrite Hne, firstn_all in Hout. repeat split; try done. by rewrite Hne.
Qed.

Lemma copyVerified_fine n fuel o w k o' w' k' err :
  w_limit w = None → o_readerr o = None →
  copyVerified fuel n o w k = Some (o', w', (k', err)) → err = None.
Proof.
  revert o w k. induction fuel as [|fuel IH]; intros o w k Hw Hr; [done|]. cbn [copyVerified].
  destruct (o_rest o) as [|x rest]; [by intros [= <- <- <- <-]|].
  unfold Write. rewrite Hw. rewrite Nat.eqb_refl. simpl negb. cbv iota. by apply IH.
Qed.

Lemma WriteTo_fine o w o' w' n err :
  w_limit w = None → o_readerr o = None → WriteTo o w = Some (o', w', (n, err)) → err = None.
Proof.
  intros Hw Hr. unfold WriteTo. destruct (o_verify o); [by apply copyVerified_fine|].
  unfold copy_plain, Write. rewrite Hw, Nat.eqb_refl. simpl. naive_solver.
Qed.
