(* ===== verification/StoreSpec.v ===== *)
(** * What the object store guarantees

    The invariant of the store under every sequence of operations and every
    fault, the refinement of the abstract store (a map from references to
    contents), verified reads, and startup reconciliation. *)

From S2P Require Import Prelude GoStrings Sha256 Errors Key Index FileSystem Store.

#[local] Open Scope Z_scope.

(** ** The invariant *)

(** Every file with an object's name below a namespace directory is a regular
    file at that object's path. *)
Definition tidy_at (f : files) (rt : path) : Prop :=
  ∀ ns sfx x key, ns_Valid ns = true → f !! (rt ++ ns :: sfx) = Some x → x ≠ Dir →
    last (ns :: sfx) = Some key → valid_key key = true →
    is_regular x = true ∧ rt ++ ns :: sfx = object_file rt ns key.

Definition tidy (s : Store) : Prop := tidy_at (tree s) (root s).

Record store_ok (s : Store) : Prop := mkStoreOk {
  ok_wf : store_wf s; ok_cas : cas_ok s; ok_tidy : tidy s }.

(** One operation of the store, with any arguments and any faults. *)
Inductive store_step {Scan : SqlScan} : Store → Store → Prop :=
  | do_put env ns key r dsz s : store_step s (Put env ns key r dsz s).1
  | do_get env ns key s : store_step s (Get env ns key s).1
  | do_stat f now ns key s : store_step s (Stat_ f now ns key s).1
  | do_delete a b c ns key s : store_step s (Delete a b c ns key s).1
  | do_delete_file a b ns key s : store_step s (DeleteFile a b ns key s).1
  | do_verify o s : store_step s (Verify o s).1
  | do_object_close f o s : store_step s (Object_Close f o s).1
  | do_reconcile env s : store_step s (Reconcile env s).1
  | do_index f s : store_step s (on_index f s)
  | do_attach s : store_step s (AttachEvictor s)
  | do_close env rc wc s : store_step s (Close env rc wc s).1.

Lemma same_disk_ok s s' : same_disk s s' → store_ok s → store_ok s'.
Proof.
  intros Hsd [Hwf Hc Ht]. split; [by eapply same_disk_wf|..].
  - destruct Hsd as ((Hr & _) & _ & _ & Hf). intros key c Hk. unfold view. rewrite Hf, Hr. by apply Hc.
  - destruct Hsd as ((Hr & _) & _ & _ & Hf). intros ns sfx x key. rewrite Hf, Hr. apply Ht.
Qed.

Lemma same_disk_refl s : same_disk s s.
Proof. by repeat split. Qed.

Lemma same_disk_trans s1 s2 s3 : same_disk s1 s2 → same_disk s2 s3 → same_disk s1 s3.
Proof.
  intros ((?&?&?&?)&?&?&?) ((?&?&?&?)&?&?&?). repeat split; congruence.
Qed.

Lemma add_same c n s : same_disk s (add c n s).
Proof. by repeat split. Qed.

Lemma lift_index_same {A} i (m : M Index A) s : same_disk s (lift_index i m s).1.
Proof. unfold lift_index. destruct (m i). by repeat split. Qed.

Lemma Stat_same f now ns key s : same_disk s (Stat_ f now ns key s).1.
Proof.
  unfold Stat_. mrun. destruct (check_ref_cases ns key s) as [(e & -> & _)|(_ & _ & ->)]; [by repeat split|].
  mrun. destruct (lookup_node _ _ _) as [x|e]; mrun.
  - destruct (negb _); mrun; [by repeat split|apply on_index_same].
  - destruct (os_IsNotExist e); by repeat split.
Qed.

Lemma Verify_same o s : same_disk s (Verify o s).1.
Proof. unfold Verify. destruct (negb (o_verify o)); [by repeat split|]. destruct (negb _); mrun; by repeat split. Qed.

Lemma Object_Close_same f o s : same_disk s (Object_Close f o s).1.
Proof. unfold Object_Close. destruct (o_closed o); [by repeat split|]. mrun. destruct f; by repeat split. Qed.

(** Sequencing computations that leave the disk alone. *)
Lemma bind_same {A B} (m : M Store A) (k : A → M Store B) s :
  same_disk s (m s).1 → (∀ a s', same_disk s' (k a s').1) → same_disk s ((m ≫= k) s).1.
Proof.
  intros Hm Hk. rewrite bind_eq. destruct (m s) as [s1 [a|e]]; [|done].
  eapply same_disk_trans; [exact Hm|]. apply Hk.
Qed.

Lemma Reconcile_same {Scan : SqlScan} env s : same_disk s (Reconcile env s).1.
Proof.
  unfold Reconcile. mrun. destruct (index s) as [i|]; [|by repeat split].
  apply bind_same; [apply lift_index_same|]. intros before s1.
  apply bind_same; [apply lift_index_same|]. intros known s2.
  destruct (reconcile_walks _ _ _ _); [|by repeat split].
  apply bind_same; [apply lift_index_same|]. intros _ s3.
  do 2 (apply bind_same; [by repeat split|]; intros _ ?).
  apply bind_same; [apply on_index_same|]. intros _ ?. by repeat split.
Qed.

Lemma Reconcile_index {Scan : SqlScan} env s : is_Some (index s) → is_Some (index (Reconcile env s).1).
Proof.
  intros [i Hi]. unfold Reconcile. mrun. rewrite Hi. unfold lift_index. mrun.
  destruct (Totals _ i) as [i1 [before|e]]; mrun; [|by eexists].
  destruct (All _ _ _ i) as [i2 [known|e]]; mrun; [|by eexists].
  destruct (reconcile_walks _ _ _ _); mrun; [|by eexists].
  destruct (ReplaceAll _ _ i) as [i3 [[]|e]]; mrun; by eexists.
Qed.

Lemma store_ok_files s s' :
  store_ok s → store_wf s' → root s' = root s →
  (∀ ns key, ns_Valid ns = true → valid_key key = true → ∀ c, view s' ns key = Some c →
     view s ns key = Some c ∨ (ContentAddressed ns = true → Sha.digest c = key)) →
  (∀ ns sfx x, ns_Valid ns = true → tree s' !! (root s ++ ns :: sfx) = Some x → x ≠ Dir →
     tree s !! (root s ++ ns :: sfx) = Some x ∨
     (is_regular x = true ∧ ∃ key, valid_key key = true ∧ root s ++ ns :: sfx = object_file (root s) ns key)) →
  store_ok s'.
Proof.
  intros [Hwf Hc Ht] Hwf' Hr Hv Hn. split; [done|..].
  - intros key c Hk Hcv. destruct (Hv NamespaceCAS key eq_refl Hk c Hcv) as [H|H]; [by apply Hc|by apply H].
  - intros ns sfx x key Hns Hx Hnd Hl Hk. rewrite Hr in Hx |- *.
    destruct (Hn ns sfx x Hns Hx Hnd) as [H|(Hreg & key' & Hk' & He)]; [by eapply Ht|].
    split; [done|]. assert (key' = key) as ->; [|done].
    rewrite object_file_valid in He by done. apply (f_equal last) in He.
    rewrite !last_app_cons, Hl in He. rewrite app_comm_cons, last_snoc in He. by injection He.
Qed.

Lemma object_under_ns rt ns ns' sfx key :
  ns_Valid ns' = true → valid_key key = true → rt ++ ns :: sfx = object_file rt ns' key → ns = ns'.
Proof.
  intros Hns Hk He. rewrite object_file_valid in He by done. apply (inj (rt ++.)) in He. by injection He.
Qed.

Lemma temp_under_ns s suffix ns sfx :
  store_wf s → ns_Valid ns = true → root s ++ ns :: sfx ≠ temp_path s suffix.
Proof.
  intros Hwf Hns He. unfold temp_path in He. rewrite (wf_tmp _ Hwf), <-(assoc_L (++)) in He.
  apply (inj (root s ++.)) in He. injection He as -> _. done.
Qed.

Lemma Put_ok env ns key r dsz s : store_ok s → store_ok (Put env ns key r dsz s).1.
Proof.
  intros Hok. destruct (Put env ns key r dsz s) as [s' res] eqn:H.
  destruct (Put_spec _ _ _ _ _ _ _ _ (ok_wf _ Hok) H) as (Hwf' & Hcfg & _ & Heff). simpl.
  pose proof Hcfg as (Hr & _). apply (store_ok_files s); [done..| |].
  - intros ns' key' Hns' Hk' c Hc. destruct res as [pr|e].
    + destruct (put_ok_view _ _ _ _ _ _ _ _ Hcfg Heff) as [(c' & Hc' & _ & Hst) Ho].
      destruct (decide ((ns', key') = (ns, key))) as [[= -> ->]|Hne]; [|left; by rewrite <-Ho].
      rewrite Hc' in Hc. injection Hc as ->. destruct (pr_AlreadyStored pr); [left; apply Hst|].
      right. apply Hst.
    + left. by rewrite <-(put_failed_view _ _ _ _ _ _ _ _ ns' key' (ok_wf _ Hok) Hcfg Heff Hns' Hk').
  - intros ns' sfx x Hns' Hx Hnd.
    assert (∀ f1, grows (tree s) f1 → f1 !! (root s ++ ns' :: sfx) = Some x →
      tree s !! (root s ++ ns' :: sfx) = Some x) as Hg.
    { intros f1 Hg Hf. destruct (Hg (root s ++ ns' :: sfx)) as [E|[_ E]]; congruence. }
    destruct res as [pr|e].
    + destruct Heff as (_ & Hns & Hk & f1 & Hg1 & [(c & t & _ & _ & Ht & _)|(c & _ & _ & Ht & _)]); rewrite Ht in Hx.
      * left. by eapply Hg.
      * apply lookup_insert_Some in Hx as [[He <-]|[_ Hx]]; [|left; by eapply Hg].
        right. split; [done|]. exists key. split; [done|]. pose proof (eq_sym He) as He'.
        apply object_under_ns in He' as ->; [|done..]. done.
    + destruct Heff as (_ & f1 & Hg1 & Hq & _). left.
      rewrite Hq in Hx by (apply temp_under_ns; [apply Hok|done]). by eapply Hg.
Qed.

Lemma unlinked_ok s s' ns key :
  store_ok s → store_wf s' → root s' = root s → ns_Valid ns = true → valid_key key = true →
  tree s' = tree s ∨ tree s' = delete (object_file (root s) ns key) (tree s) → store_ok s'.
Proof.
  intros Hok Hwf' Hr Hns Hk Ht. apply (store_ok_files s); [done..| |].
  - intros ns' key' Hns' Hk' c. unfold view. rewrite Hr. intros Hc. left.
    destruct Ht as [Ht|Ht]; rewrite Ht in Hc; [done|].
    destruct (delete _ _ !! _) eqn:E; [|done]. apply lookup_delete_Some in E as [_ ->]. done.
  - intros ns' sfx x Hns' Hx Hnd. left. destruct Ht as [Ht|Ht]; rewrite Ht in Hx; [done|].
    by apply lookup_delete_Some in Hx as [_ ?].
Qed.

Lemma tree_same_ok s s' :
  store_ok s → store_wf s' → root s' = root s → tree s' = tree s → store_ok s'.
Proof. intros Hok Hwf' Hr Ht. apply (store_ok_files s); [done..| |]; unfold view; rewrite ?Hr, ?Ht; auto. Qed.

Lemma Close_ok env rc wc s : store_ok s → store_ok (Close env rc wc s).1.
Proof.
  intros Hok. assert (∀ s', same_config s s' → dirs s' = dirs s → tree s' = tree s → store_ok s') as H.
  { intros s' Hc Hd Ht. apply (tree_same_ok s); [done| |apply Hc|done].
    apply (store_wf_files s); [apply Hok|done..|rewrite Ht; apply Hok|]. by rewrite Ht. }
  unfold Close. mrun. destruct (closed s); mrun; [done|]. destruct (index s) as [i|]; [|by apply H].
  unfold lift_index. destruct (Index.Close env rc wc i). by apply H.
Qed.

Lemma Delete_ok a b c ns key s : store_ok s → store_ok (Delete a b c ns key s).1.
Proof.
  intros Hok. destruct (Delete a b c ns key s) as [s' res] eqn:H.
  destruct (Delete_spec _ _ _ _ _ _ _ _ (ok_wf _ Hok) H) as (Hwf' & (Hr & _) & _ & Hres). simpl.
  destruct res; [|by eapply tree_same_ok; [..|apply Hres]].
  destruct Hres as (Hns & Hk & Hres). eapply unlinked_ok; [done..|]. tauto.
Qed.

Lemma DeleteFile_ok a b ns key s : store_ok s → store_ok (DeleteFile a b ns key s).1.
Proof.
  intros Hok. destruct (DeleteFile a b ns key s) as [s' res] eqn:H.
  destruct (DeleteFile_spec _ _ _ _ _ _ _ (ok_wf _ Hok) H) as (Hwf' & (Hr & _) & _ & _ & Hres). simpl.
  destruct res; [|by eapply tree_same_ok].
  destruct Hres as (Hns & Hk & Hres). eapply unlinked_ok; [done..|]. naive_solver.
Qed.

Lemma step_ok {Scan : SqlScan} s s' : store_step s s' → store_ok s → store_ok s'.
Proof.
  intros Hs Hok. destruct Hs; auto using Put_ok, Delete_ok, DeleteFile_ok, Close_ok;
    (eapply same_disk_ok; [|done]);
    auto using Stat_same, Verify_same, Object_Close_same, Reconcile_same, on_index_same.
  - destruct (Get env ns key s) eqn:HG. by apply Get_spec in HG as [? _].
  - by repeat split.
Qed.

(** ** Claims: writing *)

(** C6: whatever fails, the store never holds wrong content.  From a store
    whose content-addressed objects all hash to their keys, every sequence of
    operations under every combination of I/O, database and cancellation errors
    reaches a store in which they still do, the directory tree is intact and no
    object file is out of place. *)
Theorem cas_integrity {Scan : SqlScan} s s' :
  store_ok s → rtc store_step s s' →
  (∀ key c, valid_key key = true → view s' NamespaceCAS key = Some c → Sha.digest c = key) ∧ store_ok s'.
Proof.
  intros Hok Hr. assert (store_ok s') as Hok'; [|split; [apply Hok'|done]].
  induction Hr as [|a b c Hs _ IH]; eauto using step_ok.
Qed.

(** C4: [Put] refines an update of the abstract store.  A successful [Put] leaves
    exactly the body under its reference and every other object as it was; the
    only exception is a content-addressed object already present, which is kept.
    A failed [Put], at whatever step it failed, publishes nothing and changes no
    object, and once its temporary file is removed every file is as before. *)
Theorem put_refines env ns key r dsz s :
  store_wf s → sane_limit s →
  let s' := (Put env ns key r dsz s).1 in
  match (Put env ns key r dsz s).2 with
  | Ok pr =>
      view s' ns key = (if pr_AlreadyStored pr then view s ns key else Some (rdata r)) ∧
      (pr_AlreadyStored pr = true → ContentAddressed ns = true ∧ is_Some (view s ns key)) ∧
      (pr_AlreadyStored pr = false → rerr r = None ∧
         (ContentAddressed ns = true → Sha.digest (rdata r) = key) ∧
         (0 < maxObjectBytes s → Z.of_nat (length (rdata r)) ≤ maxObjectBytes s) ∧
         (0 ≤ dsz → Z.of_nat (length (rdata r)) = dsz)) ∧
      ∀ ns' key', ns_Valid ns' = true → valid_key key' = true → (ns', key') ≠ (ns, key) →
        view s' ns' key' = view s ns' key'
  | Err _ =>
      (∀ ns' key', ns_Valid ns' = true → valid_key key' = true → view s' ns' key' = view s ns' key') ∧
      (pe_remove env = None → ∀ q c t, tree s' !! q = Some (File c t) ↔ tree s !! q = Some (File c t)) ∧
      index s' = index s
  end.
Proof.
  intros Hwf Hl. destruct (Put env ns key r dsz s) as [s' [pr|e]] eqn:H; simpl;
    destruct (Put_spec _ _ _ _ _ _ _ _ Hwf H) as (Hwf' & Hcfg & _ & Heff).
  - destruct (put_ok_view _ _ _ _ _ _ _ _ Hcfg Heff) as [(c & Hc & _ & Hst) Ho].
    destruct (pr_AlreadyStored pr).
    + destruct Hst as [Hca Hv]. rewrite Hc, Hv. split; [done|]. split; [by eauto|]. split; [done|]. done.
    + destruct Hst as [Hacc _]. destruct (accepted_whole _ _ _ _ _ _ Hl Hacc) as [-> He].
      destruct Hacc as (_ & _ & ? & ? & ?). split; [done|]. split; [done|]. split; [auto|]. done.
  - split; [intros; by eapply put_failed_view|]. destruct Heff as (Hi & f1 & Hg & _ & Hrm).
    split; [|done]. intros Hr q c t. rewrite Hrm by done. by apply grows_file.
Qed.

(** C11: what is put can be read back.  After any successful [Put] (a faulty disk
    may have degraded its durability, not its content) of a store without
    corruption, [Get] finds the object, the copy of it to a client that accepts
    everything delivers all of it, the digest check passes, and the bytes of a
    content-addressed object hash to its key.  They are exactly the bytes of the
    upload, unless [Put] reported that the content-addressed object was already
    stored: then the body was not looked at, and they are the bytes stored before. *)
Theorem put_get_roundtrip env ns key r dsz s s' pr now :
  store_ok s → sane_limit s → Put env ns key r dsz s = (s', Ok pr) →
  ∃ c s1 o o' w n, Get (get_fine now) ns key s' = (s1, Ok o) ∧
    st_Size (o_stat o) = Z.of_nat (length c) ∧
    WriteTo o (mkWriter [] None) = Some (o', w, (n, None)) ∧ w_out w = c ∧
    (Verify o' s1).2 = Ok tt ∧ (ContentAddressed ns = true → Sha.digest c = key) ∧
    (if pr_AlreadyStored pr then ContentAddressed ns = true ∧ view s ns key = Some c else c = rdata r).
Proof.
  intros Hok Hl H. destruct (Put_spec _ _ _ _ _ _ _ _ (ok_wf _ Hok) H) as (Hwf' & Hcfg & Hcl & Heff).
  destruct (put_ok_view _ _ _ _ _ _ _ _ Hcfg Heff) as [(c & Hc & _ & Hst) _].
  assert ((ContentAddressed ns = true → Sha.digest c = key) ∧
    (if pr_AlreadyStored pr then ContentAddressed ns = true ∧ view s ns key = Some c else c = rdata r)) as [Hd Hwhat].
  { destruct (pr_AlreadyStored pr).
    - destruct Hst as [Hca Hv]. split; [|done]. intros _. destruct Heff as (_ & _ & Hk & _).
      unfold ContentAddressed in Hca. apply String.eqb_eq in Hca as ->. by eapply ok_cas.
    - destruct Hst as [Hacc _]. destruct (accepted_whole _ _ _ _ _ _ Hl Hacc) as [<- _].
      split; [apply Hacc|done]. }
  destruct Heff as (Hcs & Hns & Hk & _).
  unfold view in Hc. destruct (tree s' !! _) as [[c' t| |]|] eqn:Ht; simplify_eq.
  destruct (Get_found (get_fine now) ns key s' c t) as [s1 Hg]; [congruence|done..|].
  set (o := mkObject _ _ _ _ _ _ _) in Hg. exists c, s1, o.
  destruct (WriteTo_total o (mkWriter [] None)) as [[[o' w] [n err]] Hw].
  assert (err = None) as -> by (by apply (WriteTo_fine o (mkWriter [] None) o' w n)).
  destruct (WriteTo_whole _ _ _ _ _ Hw) as (Hout & Hn & Hv & Hs & Hh & _).
  exists o', w, n. split; [done|]. split; [done|]. split; [done|]. split; [done|]. split; [|done].
  unfold Verify. rewrite Hv, Hs. destruct (o_verify o) eqn:Hov; [|done]. simpl.
  rewrite (Hh eq_refl). simpl. rewrite Hd, String.eqb_refl; [done|].
  unfold o in Hov. simpl in Hov. by apply andb_true_iff in Hov as [_ ?].
Qed.

(** C12: a verified read never delivers wrong bytes unnoticed.  Whatever is on the
    disk, if serving a content-addressed object with verification on reports no
    error and [Verify] passes, then the client received bytes that hash to the
    key it asked for, as many as were declared; and the copy loop always ends. *)
Theorem verified_read env ns key s s1 o w :
  Get env ns key s = (s1, Ok o) → verifyReads s = true → ContentAddressed ns = true →
  ∃ o' w' n err, WriteTo o w = Some (o', w', (n, err)) ∧
    (err = None → (Verify o' s1).2 = Ok tt →
     ∃ body, w_out w' = w_out w ++ body ∧ Sha.digest body = key ∧
       n = Z.of_nat (length body) ∧ n = st_Size (o_stat o)).
Proof.
  intros HG Hv Hca. apply Get_spec in HG as (_ & _ & _ & _ & _ & c & t & _ & Ho).
  rewrite Hv, Hca in Ho. destruct (WriteTo_total o w) as [[[o' w'] [n err]] Hw].
  exists o', w', n, err. split; [done|]. intros -> HV.
  destruct (WriteTo_whole _ _ _ _ _ Hw) as (Hout & Hn & Hov & Hs & Hh & Hre). subst o. simpl in *.
  assert (readable (ge_read env) c = c) as Hc by (by destruct (ge_read env)). rewrite Hc in *. exists c. split; [done|]. rewrite Hn. repeat split; try done.
  unfold Verify in HV. rewrite Hov, (Hh eq_refl), Hs in HV. simpl in HV.
  destruct (String.eqb_spec (Sha.digest c) key); [done|]. by mrun_in HV.
Qed.

(** An unlink that fails for another reason than a missing file is reported. *)
Lemma Delete_fails stat e idx ns key s :
  os_IsNotExist e = false →
  (∃ e', Delete stat (Some e) idx ns key s = (s, Err e')) ∧ ∃ e', DeleteFile stat (Some e) ns key s = (s, Err e').
Proof.
  intros He. assert (unlink stat (Some e) ns key s = (s, Err (Wrap "delete object" e))) as Hu.
  { unfold unlink, os_Remove. mrun. by rewrite He. }
  unfold Delete, DeleteFile. mrun. destruct (check_ref_cases ns key s) as [(e' & -> & _)|(_ & _ & ->)]; mrun; [by split; eexists|].
  rewrite Hu. mrun. by split; eexists.
Qed.

(** C39: deleting removes exactly the object.  A [Delete] that reports success leaves no
    object under the reference and every other object as it was; one that fails
    changes nothing, index included.  The same holds of [DeleteFile], which reports
    the bytes it freed and never touches the index.  The file's size may be
    unreadable, the unlink may fail, for any reason but that there is no such file,
    and the row's removal may fail. *)
Theorem delete_refines stat rm idx ns key s ns' key' :
  store_wf s → (∀ e, rm = Some e → os_IsNotExist e = false) → ns_Valid ns' = true → valid_key key' = true →
  let d := Delete stat rm idx ns key s in
  let f := DeleteFile stat rm ns key s in
  (match d.2 with
   | Ok _ => view d.1 ns' key' = if bool_decide ((ns', key') = (ns, key)) then None else view s ns' key'
   | Err _ => view d.1 ns' key' = view s ns' key' ∧ index d.1 = index s
   end) ∧
  index f.1 = index s ∧
  match f.2 with
  | Ok n =>
      view f.1 ns' key' = (if bool_decide ((ns', key') = (ns, key)) then None else view s ns' key') ∧
      (∀ c, view s ns key = Some c → stat = None → n = Z.of_nat (length c))
  | Err _ => view f.1 ns' key' = view s ns' key'
  end.
Proof.
  intros Hwf Hrm Hns' Hk' d f. destruct rm as [e|].
  { destruct (Delete_fails stat e idx ns key s (Hrm e eq_refl)) as [[e1 H1] [e2 H2]]. unfold d, f. by rewrite H1, H2. }
  assert (∀ s', root s' = root s → ns_Valid ns = true → valid_key key = true →
    (tree s' = tree s ∧ tree s !! object_file (root s) ns key = None ∨
     tree s' = delete (object_file (root s) ns key) (tree s)) →
    view s' ns' key' = if bool_decide ((ns', key') = (ns, key)) then None else view s ns' key') as Hv.
  { intros s' Hr Hns Hk [[Ht Hno]|Ht].
    - case_bool_decide as He; unfold view; rewrite Hr, Ht; [|done]. injection He as -> ->. by rewrite Hno.
    - destruct (view_delete s s' ns key Hr Ht Hns Hk) as [H1 H2].
      case_bool_decide as He; [by injection He as -> ->|by apply H2]. }
  split; [|split].
  - destruct d as [s' res] eqn:Hd. destruct (Delete_spec _ _ _ _ _ _ _ _ Hwf Hd) as (_ & (Hr & _) & _ & Hres).
    simpl. destruct res; [apply Hv; naive_solver|]. destruct Hres as [Ht Hi]. unfold view. by rewrite Hr, Ht.
  - destruct f as [s' res] eqn:Hf. by destruct (DeleteFile_spec _ _ _ _ _ _ _ Hwf Hf) as (_ & _ & _ & Hi & _).
  - destruct f as [s' res] eqn:Hf. destruct (DeleteFile_spec _ _ _ _ _ _ _ Hwf Hf) as (_ & (Hr & _) & _ & _ & Hres).
    simpl. destruct res as [n|]; [|unfold view; by rewrite Hr, Hres].
    split; [apply Hv; naive_solver|]. intros c Hc ->. unfold view in Hc.
    destruct Hres as (_ & _ & [(_ & Hno & _)|(x & Hx & _ & ->)]); [by rewrite Hno in Hc|].
    rewrite Hx in Hc. destruct x; by simplify_eq.
Qed.

(** ** Reconciliation *)

(** The objects a walk reports: what its callback is called with. *)
Definition stat_of (ns : string) (ev : walk_event) : option Stat :=
  match ev with
  | Visit _ Dir | WalkErr _ _ => None
  | Visit p x =>
      match last p with
      | Some name => if valid_key name then Some (mkStat name ns (node_size x) (node_mtime x)) else None
      | None => None
      end
  end.

(** A callback that does not fail, as a fold. *)
Lemma walk_fold_stats {A} ns (fn : A → Stat → result A) (g : A → Stat → A) acc evs :
  (∀ a st, fn a st = Ok (g a st)) → (∀ e q, WalkErr q e ∉ evs) →
  walk_fold (walk_fn (λ _, None) ns fn) acc evs = Ok (fold_left g (omap (stat_of ns) evs) acc).
Proof.
  intros Hfn. revert acc. induction evs as [|ev evs IH]; intros acc Hno; [done|]. csimpl.
  assert (∀ e q, WalkErr q e ∉ evs) as Hno' by (intros e q ?; eapply Hno; by apply elem_of_cons; right).
  assert (walk_fn (λ _, None) ns fn acc ev = Ok (match stat_of ns ev with Some st => g acc st | None => acc end)) as ->.
  { destruct ev as [p x|p e]; [|destruct (Hno e p); by apply elem_of_cons; left].
    unfold walk_fn, stat_of, valid_key. destruct x; [|done|].
    - destruct (last p); [|done]. destruct (ValidateKey _); [done|]. apply Hfn.
    - destruct (last p); [|done]. destruct (ValidateKey _); [done|]. apply Hfn. }
  rewrite IH by done. by destruct (stat_of ns ev).
Qed.

(** [reconcile_fn] without cancellation. *)
Definition new_row (st : Stat) : row := mkRow (st_Size st) (st_ModTime st) (st_ModTime st) 1.

Definition kept_row (st : Stat) (prev : row) : row :=
  mkRow (st_Size st) (created_at prev) (last_access prev) (access_count prev).

Definition entry_for (known : Table) (st : Stat) : Entry :=
  let ref := (st_Namespace st, st_Key st) in
  mkEntry ref (match known !! ref with Some prev => kept_row st prev | None => new_row st end).

Definition recon_step (a : recon) (st : Stat) : recon :=
  match reconcile_fn (λ _, None) a st with Ok a' => a' | Err _ => a end.

Lemma reconcile_fn_step a st : reconcile_fn (λ _, None) a st = Ok (recon_step a st).
Proof. unfold recon_step, reconcile_fn. destruct (rc_known a !! _); [destruct (negb _)|]; done. Qed.

Definition stat_ref (st : Stat) : string * string := (st_Namespace st, st_Key st).

Lemma recon_step_spec a st :
  rc_known (recon_step a st) = delete (stat_ref st) (rc_known a) ∧
  rc_entries (recon_step a st) = rc_entries a ++ [entry_for (rc_known a) st] ∧
  rc_files (recon_step a st) = rc_files a + 1 ∧ rc_bytes (recon_step a st) = rc_bytes a + st_Size st.
Proof.
  unfold recon_step, reconcile_fn, entry_for, stat_ref, kept_row, new_row.
  destruct (rc_known a !! (st_Namespace st, st_Key st)) as [prev|] eqn:E; simpl.
  - destruct (Z.eqb_spec (row_size prev) (st_Size st)) as [Hs|Hs]; simpl; [|done].
    rewrite <-Hs. by destruct prev.
  - by rewrite delete_id.
Qed.

Lemma recon_fold_spec a sts :
  NoDup (stat_ref <$> sts) →
  let a' := fold_left recon_step sts a in
  rc_entries a' = rc_entries a ++ (entry_for (rc_known a) <$> sts) ∧
  rc_known a' = delete_refs (stat_ref <$> sts) (rc_known a) ∧
  rc_files a' = rc_files a + Z.of_nat (length sts) ∧
  rc_bytes a' = rc_bytes a + Zsum (st_Size <$> sts).
Proof.
  revert a. induction sts as [|st sts IH]; intros a; csimpl.
  { intros _. rewrite app_nil_r. repeat split; lia. }
  intros [Hni Hnd]%NoDup_cons. destruct (recon_step_spec a st) as (Hk & He & Hf & Hb).
  destruct (IH (recon_step a st) Hnd) as (IHe & IHk & IHf & IHb).
  rewrite IHe, IHk, IHf, IHb, He, Hf, Hb, Hk. repeat split; [|lia..].
  rewrite <-(assoc_L (++)). f_equal. simpl. f_equal. apply list_fmap_ext. intros n st' Hst'.
  unfold entry_for. fold (stat_ref st'). rewrite lookup_delete_ne; [done|].
  intros He'. apply Hni. rewrite He'. apply list_elem_of_fmap_2. by eapply list_elem_of_lookup_2.
Qed.

(** The objects of one namespace. *)
Definition ns_stats (s : Store) (ns : string) : list Stat :=
  omap (stat_of ns) (walk_events (λ _, None) (tree s) (root s ++ [ns])).

(** A reported object is a regular file at its own path. *)
Lemma visit_object s ns p x st :
  store_wf s → tidy s → ns_Valid ns = true →
  Visit p x ∈ walk_events (λ _, None) (tree s) (root s ++ [ns]) → stat_of ns (Visit p x) = Some st →
  ∃ key c t, valid_key key = true ∧ p = object_file (root s) ns key ∧ x = File c t ∧
    tree s !! p = Some x ∧ st = mkStat key ns (Z.of_nat (length c)) t.
Proof.
  intros Hwf Htidy Hns Hin Hst.
  destruct (walk_events_spec (tree s) (root s ++ [ns]) (wf_tree _ Hwf) (wf_ns_dir _ Hwf _ Hns)) as (_ & _ & Hv).
  apply Hv in Hin as [[-> ->]|(sfx & Hs & -> & Hx)]; [done|].
  unfold stat_of in Hst. rewrite <-(assoc_L (++)) in *. simpl in Hx, Hst.
  assert (x ≠ Dir) as Hnd by (by intros ->).
  destruct (last (root s ++ ns :: sfx)) as [name|] eqn:Hl; [|by destruct x].
  destruct (valid_key name) eqn:Hk; [|by destruct x].
  assert (last (ns :: sfx) = Some name) as Hl' by (by rewrite <-Hl, last_app_cons).
  destruct (Htidy ns sfx x name Hns Hx Hnd Hl' Hk) as [Hreg He].
  destruct x as [c t| |]; [|done..]. exists name, c, t. repeat split; try done. by simplify_eq.
Qed.

Lemma ns_stats_elem s ns st :
  store_wf s → tidy s → ns_Valid ns = true →
  st ∈ ns_stats s ns ↔
  ∃ key c t, valid_key key = true ∧ tree s !! object_file (root s) ns key = Some (File c t) ∧
    st = mkStat key ns (Z.of_nat (length c)) t.
Proof.
  intros Hwf Htidy Hns. unfold ns_stats. rewrite list_elem_of_omap. split.
  - intros ([p x|p e] & Hin & Hst); [|done].
    destruct (visit_object _ _ _ _ _ Hwf Htidy Hns Hin Hst) as (key & c & t & Hk & -> & -> & Hx & ->). eauto 10.
  - intros (key & c & t & Hk & Hf & ->). exists (Visit (object_file (root s) ns key) (File c t)).
    destruct (walk_events_spec (tree s) (root s ++ [ns]) (wf_tree _ Hwf) (wf_ns_dir _ Hwf _ Hns)) as (_ & _ & Hv).
    rewrite object_file_valid in * by done. split.
    + apply Hv. right. exists (shards key ++ [key]). rewrite <-(assoc_L (++)). simpl.
      split; [|done]. by destruct (shards key).
    + unfold stat_of. rewrite app_comm_cons, (assoc_L (++)), last_snoc, Hk. done.
Qed.

Lemma ns_stats_refs_NoDup s ns :
  store_wf s → tidy s → ns_Valid ns = true → NoDup (stat_ref <$> ns_stats s ns).
Proof.
  intros Hwf Htidy Hns. unfold ns_stats. rewrite fmap_omap. apply NoDup_omap.
  - intros [p1 x1|] [p2 x2|] y H1 H2 E1 E2; try done.
    apply fmap_Some in E1 as (st1 & E1 & ->), E2 as (st2 & E2 & Hy).
    destruct (visit_object _ _ _ _ _ Hwf Htidy Hns H1 E1) as (key1 & c1 & t1 & _ & -> & -> & Hx1 & ->).
    destruct (visit_object _ _ _ _ _ Hwf Htidy Hns H2 E2) as (key2 & c2 & t2 & _ & -> & -> & Hx2 & ->).
    unfold stat_ref in Hy. simpl in Hy. injection Hy as ->. congruence.
  - by destruct (walk_events_spec (tree s) (root s ++ [ns]) (wf_tree _ Hwf) (wf_ns_dir _ Hwf _ Hns)) as (? & _).
Qed.

(** Both namespaces, in the order of the walks. *)
Definition all_stats (s : Store) : list Stat := ns_stats s NamespaceCAS ++ ns_stats s NamespaceAC.

Lemma all_stats_elem s st :
  store_wf s → tidy s →
  st ∈ all_stats s ↔
  ∃ ns key c t, ns_Valid ns = true ∧ valid_key key = true ∧
    tree s !! object_file (root s) ns key = Some (File c t) ∧ st = mkStat key ns (Z.of_nat (length c)) t.
Proof.
  intros Hwf Htidy. unfold all_stats. rewrite elem_of_app, !ns_stats_elem by done. split.
  - intros [(key & c & t & ?)|(key & c & t & ?)]; [exists NamespaceCAS|exists NamespaceAC]; eauto 10.
  - intros (ns & key & c & t & Hns & Hk & Hf & ->). unfold ns_Valid in Hns.
    apply orb_true_iff in Hns as [->%String.eqb_eq| ->%String.eqb_eq]; [left|right]; eauto 10.
Qed.

Lemma all_stats_refs_NoDup s : store_wf s → tidy s → NoDup (stat_ref <$> all_stats s).
Proof.
  intros Hwf Htidy. unfold all_stats. rewrite fmap_app. apply NoDup_app.
  split; [by apply ns_stats_refs_NoDup|]. split; [|by apply ns_stats_refs_NoDup].
  intros r (st1 & -> & H1)%list_elem_of_fmap (st2 & He & H2)%list_elem_of_fmap.
  apply ns_stats_elem in H1 as (k1 & c1 & t1 & _ & _ & ->); [|done..].
  apply ns_stats_elem in H2 as (k2 & c2 & t2 & _ & _ & ->); [|done..]. done.
Qed.

Lemma reconcile_walks_fine s a :
  store_wf s → tidy s →
  reconcile_walks reconcile_fine s [NamespaceCAS; NamespaceAC] a =
    Ok (fold_left recon_step (all_stats s) a).
Proof.
  intros Hwf Htidy. unfold all_stats. rewrite fold_left_app.
  assert (∀ ns a, ns_Valid ns = true →
    Walk (λ _, None) (λ _, None) s ns (reconcile_fn (λ _, None)) a =
      Ok (fold_left recon_step (ns_stats s ns) a)) as Hw.
  { intros ns b Hns. unfold Walk. rewrite Hns. simpl negb. cbv iota.
    rewrite filepath_Join_plain by (constructor; [by apply ns_plain|constructor]).
    apply walk_fold_stats; [apply reconcile_fn_step|].
    by destruct (walk_events_spec (tree s) (root s ++ [ns]) (wf_tree _ Hwf) (wf_ns_dir _ Hwf _ Hns)) as (_ & ? & _). }
  unfold reconcile_walks, reconcile_fine. simpl. rewrite !Hw by done. done.
Qed.

(** ** Claims: reconciliation *)

(** The row the index should have for a reference: size and presence from the
    disk, access history from the old row. *)
Definition row_from_disk (s : Store) (old : Table) (ns key : string) : option row :=
  if ns_Valid ns && valid_key key then
    match tree s !! object_file (root s) ns key with
    | Some (File c t) =>
        Some (match old !! (ns, key) with
              | Some r => mkRow (Z.of_nat (length c)) (created_at r) (last_access r) (Z.max 1 (access_count r))
              | None => mkRow (Z.of_nat (length c)) t t 1
              end)
    | _ => None
    end
  else None.

Lemma rebuilt_rows (s : Store) (old t : Table) :
  store_wf s → tidy s →
  stmt_loop (λ _, None) "storage: reconcile insert" insert_entry 0 (entry_for old <$> all_stats s) ∅ = Ok t →
  (∀ e, e ∈ entry_for old <$> all_stats s → t !! e_ref e =
     Some (mkRow (row_size (e_row e)) (created_at (e_row e)) (last_access (e_row e))
             (Z.max 1 (access_count (e_row e))))) →
  ∀ ns key, t !! (ns, key) = row_from_disk s old ns key.
Proof.
  intros Hwf Htidy Ht Hrows ns key.
  assert ((∀ c m, ns_Valid ns && valid_key key = true →
    tree s !! object_file (root s) ns key ≠ Some (File c m)) → t !! (ns, key) = None) as Hno.
  { intros Hno. rewrite (insert_loop_dom _ _ _ _ _ _ (ns, key) Ht), lookup_empty; [done|].
    intros He. rewrite <-list_fmap_compose in He. apply list_elem_of_fmap in He as (st & [= -> ->] & Hst).
    apply all_stats_elem in Hst as (ns' & key' & c & m & Hns & Hk & Hf' & ->); [|done..].
    apply (Hno c m); [simpl; by rewrite Hns, Hk|done]. }
  unfold row_from_disk. destruct (ns_Valid ns && valid_key key) eqn:Hv; [|by apply Hno].
  apply andb_true_iff in Hv as [Hns Hk].
  destruct (tree s !! object_file (root s) ns key) as [[c m| |]|] eqn:Hf; [|by apply Hno..].
  set (st := mkStat key ns (Z.of_nat (length c)) m).
  assert (st ∈ all_stats s) as Hst by (apply all_stats_elem; eauto 10).
  specialize (Hrows (entry_for old st) ltac:(by apply list_elem_of_fmap_2)).
  unfold entry_for, st in Hrows. simpl in Hrows. rewrite Hrows. by destruct (old !! (ns, key)).
Qed.

Lemma fine_query {A} (i : Index) msg (g : Index → result A) :
  r_open i = true → query_r None msg g i = (i, g i).
Proof. intros Hr. unfold query_r. mrun. rewrite Hr. mrun. simpl. by destruct (g i). Qed.

Lemma Reconcile_fine_spec {Scan : SqlScan} s i before :
  store_wf s → tidy s → index s = Some i → r_open i = true → w_open i = true →
  (Totals None i).2 = Ok before →
  ∃ s' rr i', Reconcile reconcile_fine s = (s', Ok rr) ∧ index s' = Some i' ∧ tree s' = tree s ∧
    (∀ ns key, objects i' !! (ns, key) = row_from_disk s (objects i) ns key) ∧
    FilesOnDisk rr = Z.of_nat (length (all_stats s)) ∧
    BytesOnDisk rr = Zsum (st_Size <$> all_stats s) ∧
    nObjectsStored (stats s') = FilesOnDisk rr ∧ nBytesStored (stats s') = BytesOnDisk rr ∧
    RemovedStale rr = Z.of_nat (size (delete_refs (stat_ref <$> all_stats s) (objects i))).
Proof.
  intros Hwf Htidy Hi Hr Hw Hb.
  destruct (recon_fold_spec (mkRecon (objects i) [] 0 0 0 0) (all_stats s)
    (all_stats_refs_NoDup s Hwf Htidy)) as (He & Hk & Hf & Hby).
  destruct (insert_loop_fine "storage: reconcile insert" 0 (entry_for (objects i) <$> all_stats s) ∅)
    as (t & Ht & Hrows).
  { rewrite <-list_fmap_compose. by apply all_stats_refs_NoDup. }
  { intros e _. apply lookup_empty. }
  pose proof (rebuilt_rows s (objects i) t Hwf Htidy Ht Hrows) as Hrow.
  assert (Totals None i = (i, Ok before)) as HT.
  { unfold Totals in *. rewrite fine_query in * by done. simpl in Hb. by rewrite Hb. }
  unfold Reconcile. mrun. rewrite Hi. change (re_totals reconcile_fine) with (@None error).
  change (re_all reconcile_fine) with (@None error). change (re_tx reconcile_fine) with tx_fine.
  mrun. unfold lift_index at 1. rewrite HT. mrun.
  unfold lift_index at 1. rewrite All_known by done. mrun.
  rewrite reconcile_walks_fine by done. unfold lift_index.
  set (a := fold_left recon_step (all_stats s) _) in *. simpl in He, Hk, Hf, Hby.
  assert (ReplaceAll tx_fine (rc_entries a) i = (set_objects t i, Ok tt)) as HR.
  { unfold ReplaceAll. apply transaction_fine; [done..|]. simpl. by rewrite He. }
  mrun. rewrite HR. mrun. eexists _, _, _. split; [reflexivity|]. simpl.
  split; [reflexivity|].
  split; [done|]. split; [|rewrite ?Hk; destruct (stats s); repeat split; done].
  intros ns key. destruct (SetMeta_objects None "reconciled_at" EmptyString (set_objects t i)) as [-> _]. done.
Qed.

(** *** Reconciliation under faults *)

(** The disk does not change while it is walked, so no read of a directory or of a
    file's data says that it is not there; any other error may occur anywhere. *)
Definition honest_walk (env : ReconcileEnv) : Prop :=
  ∀ p e, re_readdir env p = Some e ∨ re_info env p = Some e → os_IsNotExist e = false.

Lemma walk_fold_app {A} (fn : A → walk_event → result A) acc l1 l2 :
  walk_fold fn acc (l1 ++ l2) = match walk_fold fn acc l1 with Ok a => walk_fold fn a l2 | Err e => Err e end.
Proof. revert acc. induction l1 as [|ev l1 IH]; intros acc; [done|]. cbn [app walk_fold]. by destruct (fn acc ev). Qed.

(** A walk that returned met no fault. *)
Lemma walk_from_honest {A} env ns (fn fn0 : A → Stat → result A) f fuel p x acc a :
  honest_walk env → (∀ a st a', fn a st = Ok a' → fn0 a st = Ok a') →
  walk_fold (walk_fn (re_info env) ns fn) acc (walk_from (re_readdir env) f fuel p x) = Ok a →
  walk_fold (walk_fn (λ _, None) ns fn0) acc (walk_from (λ _, None) f fuel p x) = Ok a.
Proof.
  intros Hh Hfn. revert p x acc a.
  assert (∀ p x acc a, walk_fn (re_info env) ns fn acc (Visit p x) = Ok a → walk_fn (λ _, None) ns fn0 acc (Visit p x) = Ok a) as Hv.
  { intros p x acc a. unfold walk_fn. destruct x; [|done|]; (destruct (ValidateKey _); [done|]);
      (destruct (re_info env p) eqn:Hi; [rewrite (Hh p _ (or_intror Hi)); done|apply Hfn]). }
  induction fuel as [|fuel IH]; intros p x acc a.
  { destruct x; cbn [walk_from walk_fold]; (destruct (walk_fn (re_info env) _ _ _ _) as [a'|] eqn:E; [|done]);
      by rewrite (Hv _ _ _ _ E). }
  cbn [walk_from walk_fold]. destruct (walk_fn (re_info env) ns fn acc (Visit p x)) as [a1|] eqn:E; [|done].
  rewrite (Hv _ _ _ _ E). destruct x; [done| |done]. destruct (re_readdir env p) as [e|] eqn:Hr.
  { cbn [walk_fold walk_fn]. by rewrite (Hh p e (or_introl Hr)). }
  clear E. revert a1. induction (children f p) as [|n ns' IHn]; intros a1; [done|].
  cbn [mbind list_bind]. rewrite !walk_fold_app. destruct (f !! (p ++ [n])) as [y|]; [|apply IHn].
  destruct (walk_fold _ a1 _) as [a2|] eqn:E2; [|done]. rewrite (IH _ _ _ _ E2). apply IHn.
Qed.

Lemma reconcile_walks_honest env s a a' :
  store_wf s → tidy s → honest_walk env →
  reconcile_walks env s [NamespaceCAS; NamespaceAC] a = Ok a' → a' = fold_left recon_step (all_stats s) a.
Proof.
  intros Hwf Ht Hh H. enough (reconcile_walks reconcile_fine s [NamespaceCAS; NamespaceAC] a = Ok a') as E.
  { rewrite reconcile_walks_fine in E by done. by injection E. }
  assert (∀ ns b b', ns_Valid ns = true →
    Walk (re_readdir env) (re_info env) s ns (reconcile_fn (re_ctx env)) b = Ok b' →
    Walk (λ _, None) (λ _, None) s ns (reconcile_fn (λ _, None)) b = Ok b') as Hw.
  { intros ns b b' Hns. unfold Walk, walk_events. rewrite Hns. cbn [negb].
    rewrite filepath_Join_plain by (constructor; [by apply ns_plain|constructor]).
    destruct (lookup_node None _ _) as [x|e]; [|done]. apply walk_from_honest; [done|].
    intros c st c'. unfold reconcile_fn at 1. destruct (re_ctx env _); [done|]. done. }
  revert H. cbn [reconcile_walks reconcile_fine re_readdir re_info re_ctx].
  destruct (Walk (re_readdir env) _ s NamespaceCAS _ a) as [b|] eqn:E1; [|done]. rewrite (Hw NamespaceCAS _ _ eq_refl E1).
  destruct (Walk (re_readdir env) _ s NamespaceAC _ b) as [b2|] eqn:E2; [|done]. by rewrite (Hw NamespaceAC _ _ eq_refl E2).
Qed.

Lemma stmt_loop_honest {A} (fault : nat → option error) (msg : string) (stmt : A → Table → result Table) (n : nat)
    (l : list A) (t t' : Table) :
  stmt_loop fault msg stmt n l t = Ok t' → stmt_loop (λ _, None) msg stmt n l t = Ok t'.
Proof.
  revert n t. induction l as [|x l IH]; intros n t; [done|]. cbn [stmt_loop]. destruct (fault n); [done|].
  destruct (stmt x t); [|done]. apply IH.
Qed.

(** Whatever failed on the way, a reconciliation that succeeds has made the index
    describe the disk. *)
Lemma Reconcile_honest {Scan : SqlScan} env s i s' rr :
  store_wf s → tidy s → index s = Some i → honest_walk env → Reconcile env s = (s', Ok rr) →
  tree s' = tree s ∧ ∃ i', index s' = Some i' ∧ ∀ ns key, objects i' !! (ns, key) = row_from_disk s (objects i) ns key.
Proof.
  intros Hwf Ht Hi Hh H. pose proof (Reconcile_same env s) as Hsd. rewrite H in Hsd. split; [apply Hsd|].
  unfold Reconcile in H. mrun_in H. rewrite Hi in H. mrun_in H. unfold lift_index at 1 in H.
  destruct (Totals (re_totals env) i) as [i1 [b|e]]; mrun_in H; [|done]. unfold lift_index at 1 in H.
  assert (Hk : (∃ e, (All (re_all env) (λ (m : Table) e, Ok (<[e_ref e := e_row e]> m)) ∅ i).2 = Err e) ∨
    All (re_all env) (λ (m : Table) e, Ok (<[e_ref e := e_row e]> m)) ∅ i = (i, Ok (objects i))).
  { destruct (r_open i) eqn:Hr, (re_all env) eqn:Ha; try (right; by apply All_known);
      left; unfold All, query_r; mrun; rewrite Hr; mrun; by eexists. }
  destruct Hk as [[e He]|HA].
  { destruct (All _ _ _ i) as [i2 [known|e2]]; [done|]. mrun_in H. done. }
  rewrite HA in H. mrun_in H. destruct (reconcile_walks _ _ _ _) as [a|e] eqn:Hw; [|done].
  apply reconcile_walks_honest in Hw as ->; [|done..]. set (a := fold_left _ _ _) in H.
  destruct (recon_fold_spec (mkRecon (objects i) [] 0 0 0 0) (all_stats s) (all_stats_refs_NoDup s Hwf Ht)) as (He & _).
  fold a in He. cbn [rc_entries rc_known app] in He. mrun_in H. unfold lift_index at 1 in H.
  destruct (ReplaceAll_cases (re_tx env) (rc_entries a) i) as [[e E]|(t & Hs & E)]; rewrite E in H; mrun_in H; [done|].
  apply stmt_loop_honest in Hs. rewrite He in Hs.
  destruct (insert_loop_fine "storage: reconcile insert" 0 (entry_for (objects i) <$> all_stats s) ∅) as (t' & Ht' & Hrows).
  { rewrite <-list_fmap_compose. by apply all_stats_refs_NoDup. }
  { intros e _. apply lookup_empty. }
  rewrite Hs in Ht'. injection Ht' as <-. injection H as <- _. eexists. split; [reflexivity|]. intros ns key.
  destruct (SetMeta_objects (re_meta env) "reconciled_at" (re_stamp env) (set_objects t i)) as [-> _].
  by apply rebuilt_rows.
Qed.

(** ** Startup *)

(** The names a sweep removes are plain path components: a directory entry never
    contains a separator, and the prefix excludes the special names. *)
Definition names_ok (f : files) (rt : path) : Prop :=
  ∀ n x, f !! (rt ++ ["tmp"; n]) = Some x → free_of "/"%char n.

Lemma prefixed_plain n : HasPrefix n tmpPrefix = true → free_of "/"%char n → plain_name n.
Proof.
  intros Hp Hf. unfold HasPrefix in Hp. apply prefix_spec in Hp as [t ->].
  unfold tmpPrefix in *. rewrite !append_cons in *. done.
Qed.

(** [sweep_names] removes prefixed names of the directory and nothing else. *)
Lemma sweep_names_spec rm f dir names f' r :
  fs_wf f → (∀ n, n ∈ names → free_of "/"%char n) → sweep_names rm f dir names = (f', r) →
  fs_wf f' ∧
  (∀ q, (∀ n, n ∈ names → HasPrefix n tmpPrefix = true → q ≠ dir ++ [n]) → f' !! q = f !! q) ∧
  (∀ q x, f' !! q = Some x → f !! q = Some x) ∧
  (r = None → ∀ n, n ∈ names → HasPrefix n tmpPrefix = true → rm n = None → f' !! (dir ++ [n]) = None).
Proof.
  revert f. induction names as [|n names IH]; intros f Hwf Hfree; simpl.
  { intros [= <- <-]. do 3 (split; [done|]). intros _ n []%elem_of_nil. }
  assert (∀ m, m ∈ names → free_of "/"%char m) as Hfree' by (intros; apply Hfree; by apply elem_of_cons; right).
  destruct (HasPrefix n tmpPrefix) eqn:Hp; simpl.
  2: { intros H. destruct (IH _ Hwf Hfree' H) as (H1 & H3 & H4 & H5). split; [done|].
    split; [intros q Hq; apply H3; intros; apply Hq; [by apply elem_of_cons; right|done]|].
    split; [done|]. intros Hr m [->|Hm]%elem_of_cons Hpm; [congruence|by apply H5]. }
  rewrite filepath_Join_plain by (constructor; [apply prefixed_plain; [done|apply Hfree; by apply elem_of_cons; left]|constructor]).
  destruct (os_Remove (rm n) f (dir ++ [n])) as [f1 [e|]] eqn:Hrm.
  - apply os_Remove_Err in Hrm as Hf1. subst f1.
    assert (rm n = None → os_IsNotExist e = true → f !! (dir ++ [n]) = None) as Hmiss.
    { intros Hn He. unfold os_Remove in Hrm. rewrite Hn in Hrm.
      destruct (f !! (dir ++ [n])) as [[]|]; try done. destruct (has_entry _ _); [|done]. by injection Hrm as <-. }
    destruct (os_IsNotExist e) eqn:He.
    + intros H. destruct (IH _ Hwf Hfree' H) as (H1 & H3 & H4 & H5). split; [done|].
      split; [intros q Hq; apply H3; intros; apply Hq; [by apply elem_of_cons; right|done]|].
      split; [done|]. intros Hr m [->|Hm]%elem_of_cons Hpm Hrm'; [|by apply H5].
      destruct (f' !! (dir ++ [n])) eqn:E; [|done]. apply H4 in E. rewrite Hmiss in E by done. done.
    + intros [= <- <-]. done.
  - apply os_Remove_Ok in Hrm as (Hn & -> & _ & Hwf1); [|done].
    intros H. destruct (IH _ Hwf1 Hfree' H) as (H1 & H3 & H4 & H5). split; [done|]. split; [|split].
    + intros q Hq. rewrite H3 by (intros; apply Hq; [by apply elem_of_cons; right|done]).
      rewrite lookup_delete_ne; [done|]. intros <-. apply (Hq n); [by apply elem_of_cons; left|done..].
    + intros q x Hx. apply H4 in Hx. by apply lookup_delete_Some in Hx as [_ ?].
    + intros Hr m [->|Hm]%elem_of_cons Hpm Hrm'; [|by apply H5].
      destruct (f' !! (dir ++ [n])) eqn:E; [|done]. apply H4 in E. by rewrite lookup_delete_eq in E.
Qed.

Lemma make_dirs_spec fault f ds f' :
  fs_wf f → make_dirs fault f ds = (f', None) →
  fs_wf f' ∧
  (∀ q, f' !! q = f !! q ∨ (f !! q = None ∧ f' !! q = Some Dir ∧ ∃ d, d ∈ ds ∧ q `prefix_of` d)) ∧
  ∀ d, d ∈ ds → is_dir f' d = true.
Proof.
  revert f. induction ds as [|d ds IH]; intros f Hwf; simpl.
  { intros [= <-]. split; [done|]. split; [auto|]. intros d []%elem_of_nil. }
  destruct (MkdirAll (fault d) f d) as [f1 [e|]] eqn:Hm; [done|]. intros H.
  pose proof (MkdirAll_wf _ _ _ _ _ Hwf Hm) as Hwf1. destruct (MkdirAll_spec _ _ _ _ _ Hm) as [Hg1 Hd1].
  destruct (IH _ Hwf1 H) as (Hwf' & Hg & Hd). split; [done|]. split.
  - intros q. destruct (Hg q) as [E3|(E3 & E4 & x & Hx & Hp)], (Hg1 q) as [E1|(E1 & E2 & Hp1 & _)].
    + left. congruence.
    + right. rewrite E3. split; [done|]. split; [done|]. exists d. split; [by apply elem_of_cons; left|done].
    + right. split; [congruence|]. split; [done|]. exists x. split; [by apply elem_of_cons; right|done].
    + congruence.
  - intros x [->|Hx]%elem_of_cons; [|auto]. eapply (grows_is_dir f1); [|by apply Hd1].
    intros q. destruct (Hg q) as [|(?&?&_)]; auto.
Qed.
(** C20: reconciliation makes the index describe the disk.  On an intact tree it
    succeeds, and afterwards a reference has a row exactly when its file exists,
    with the size of that file, keeping the access history of rows that were
    known; nothing on the disk changes, and the totals reported are those of
    the files. *)
Theorem reconcile_rebuilds_index {Scan : SqlScan} s i before :
  store_wf s → tidy s → index s = Some i → r_open i = true → w_open i = true →
  (Totals None i).2 = Ok before →
  ∃ s' rr i', Reconcile reconcile_fine s = (s', Ok rr) ∧ index s' = Some i' ∧ tree s' = tree s ∧
    (∀ ns key, objects i' !! (ns, key) = row_from_disk s (objects i) ns key) ∧
    FilesOnDisk rr = Z.of_nat (length (all_stats s)) ∧
    BytesOnDisk rr = Zsum (st_Size <$> all_stats s) ∧
    nObjectsStored (stats s') = FilesOnDisk rr ∧ nBytesStored (stats s') = BytesOnDisk rr ∧
    RemovedStale rr = Z.of_nat (size (delete_refs (stat_ref <$> all_stats s) (objects i))).
Proof. intros. by apply (Reconcile_fine_spec s i before). Qed.

(** A failed reconciliation leaves the index as it was: there is no
    half-rebuilt index, whichever read, walk, cancellation or database step
    failed. *)
Theorem reconcile_all_or_nothing {Scan : SqlScan} env s s' e i :
  index s = Some i → Reconcile env s = (s', Err e) →
  tree s' = tree s ∧ ∃ i', index s' = Some i' ∧ objects i' = objects i.
Proof.
  intros Hi H. pose proof (Reconcile_same env s) as Hsd. rewrite H in Hsd.
  split; [apply Hsd|]. unfold Reconcile in H. mrun_in H. rewrite Hi in H.
  assert (∀ {A} f msg (g : Index → result A) j, (query_r f msg g j).1 = j) as Hq by (intros; apply query_r_state).
  mrun_in H. unfold lift_index at 1 in H. destruct (Totals (re_totals env) i) as [i1 [b|e1]] eqn:E1; cycle 1.
  { injection H as <- _. unfold Totals in E1. apply (f_equal fst) in E1. rewrite Hq in E1. simpl in *. subst i1. eauto. }
  mrun_in H. unfold lift_index at 1 in H. destruct (All _ _ _ i) as [i2 [known|e2]] eqn:E2; cycle 1.
  { injection H as <- _. unfold All in E2. apply (f_equal fst) in E2. rewrite Hq in E2. simpl in *. subst i2. eauto. }
  mrun_in H. unfold All in E2. apply (f_equal fst) in E2. rewrite Hq in E2. simpl in E2. subst i2.
  destruct (reconcile_walks _ _ _ _) as [a|e3]; [|mrun_in H; injection H as <- _; simpl; eauto].
  mrun_in H. unfold lift_index at 1 in H.
  destruct (ReplaceAll_cases (re_tx env) (rc_entries a) i) as [[e4 E4]|(t & _ & E4)]; rewrite E4 in H; mrun_in H.
  - injection H as <- _. simpl. eauto.
  - done.
Qed.

(** What the directories and the sweep of [Open] leave. *)
Lemma open_tree rm rd mx vr f f1 rt s1 :
  fs_wf f → names_ok f rt → tidy_at f rt →
  fs_wf f1 →
  (∀ q, f1 !! q = f !! q ∨ (f !! q = None ∧ f1 !! q = Some Dir ∧
     ∃ d, d ∈ [rt; rt ++ ["tmp"]; rt ++ [NamespaceCAS]; rt ++ [NamespaceAC]] ∧ q `prefix_of` d)) →
  (∀ d, d ∈ [rt; rt ++ ["tmp"]; rt ++ [NamespaceCAS]; rt ++ [NamespaceAC]] → is_dir f1 d = true) →
  sweepTemps rd rm (mkStore f1 rt (rt ++ ["tmp"]) mx vr ∅ None None false false zero_stats) = (s1, Ok tt) →
  root s1 = rt ∧ closed s1 = false ∧ store_wf s1 ∧ tidy s1 ∧
  (∀ ns key, ns_Valid ns = true → valid_key key = true →
     tree s1 !! object_file rt ns key = f !! object_file rt ns key) ∧
  (rd = None → ∀ n, HasPrefix n tmpPrefix = true → rm n = None → tree s1 !! (rt ++ ["tmp"] ++ [n]) = None).
Proof.
  intros Hwf Hok Htidy Hwf1 Hg Hd. unfold sweepTemps. mrun. simpl.
  assert (∀ q, (length rt + 2 ≤ length q)%nat → f1 !! q = f !! q) as Hdeep.
  { intros q Hq. destruct (Hg q) as [|(_ & _ & d & Hd' & Hp)]; [done|]. apply prefix_length in Hp.
    rewrite !elem_of_cons, elem_of_nil in Hd'.
    destruct Hd' as [->|[->|[->|[->|[]]]]]; rewrite ?length_app in Hp; simpl in Hp; lia. }
  assert (∀ f2, fs_wf f2 → (∀ q, (∀ n, q ≠ rt ++ ["tmp"; n]) → f2 !! q = f1 !! q) →
    let s2 := mkStore f2 rt (rt ++ ["tmp"]) mx vr ∅ None None false false zero_stats in
    store_wf s2 ∧ tidy s2 ∧ ∀ ns key, ns_Valid ns = true → valid_key key = true →
      f2 !! object_file rt ns key = f !! object_file rt ns key) as Hs2.
  { intros f2 Hwf2 Hf2 s2.
    assert (∀ d, (length d ≤ length rt + 1)%nat → is_dir f1 d = true → is_dir f2 d = true) as Hdir.
    { intros [|c d] Hl; [done|]. rewrite !is_dir_nonroot by done. intros E. rewrite Hf2; [done|].
      intros n He. apply (f_equal length) in He. rewrite length_app in He. simpl in *. lia. }
    assert (∀ ns sfx, ns_Valid ns = true → ∀ n, rt ++ ns :: sfx ≠ rt ++ ["tmp"; n]) as Hns.
    { intros ns sfx Hns n He. apply (inj (rt ++.)) in He. by injection He as -> _. }
    split; [|split].
    - split; simpl; [done|done|apply Hdir; [rewrite length_app; simpl; lia|apply Hd; set_solver]|..].
      + intros ns Hnv. apply Hdir; [rewrite length_app; simpl; lia|]. apply Hd.
        unfold ns_Valid in Hnv. apply orb_true_iff in Hnv as [->%String.eqb_eq| ->%String.eqb_eq]; set_solver.
      + set_solver.
      + set_solver.
    - intros ns sfx x key Hnv Hx Hnd Hl Hk. simpl in *. rewrite Hf2 in Hx by auto.
      destruct (Hg (rt ++ ns :: sfx)) as [E|(_ & E & _)]; [|congruence].
      rewrite E in Hx. by eapply Htidy.
    - intros ns key Hnv Hk. rewrite Hf2.
      + apply Hdeep. rewrite object_file_length by done. lia.
      + rewrite object_file_valid by done. auto. }
  destruct (ReadDir rd f1 (rt ++ ["tmp"])) as [names|e] eqn:Hrd.
  - destruct (sweep_names rm f1 (rt ++ ["tmp"]) names) as [f2 r] eqn:Hsw.
    mrun. destruct r; mrun; [done|]. intros [= <-].
    assert (names = children f1 (rt ++ ["tmp"])) as ->.
    { unfold ReadDir in Hrd. destruct rd; [done|]. destruct (is_dir f1 _); [by injection Hrd|].
      destruct (f1 !! _); done. }
    assert (∀ n, n ∈ children f1 (rt ++ ["tmp"]) → free_of "/"%char n) as Hfree.
    { intros n [x Hx]%elem_of_children. rewrite Hdeep in Hx by (rewrite !length_app; simpl; lia).
      rewrite <-(assoc_L (++)) in Hx. by eapply Hok. }
    destruct (sweep_names_spec _ _ _ _ _ _ Hwf1 Hfree Hsw) as (Hwf2 & Hfr & Hsub & Hrem).
    destruct (Hs2 f2 Hwf2) as (H1 & H2 & H3).
    { intros q Hq. apply Hfr. intros n _ _. rewrite <-(assoc_L (++)). apply Hq. }
    split; [done|]. split; [done|]. split; [done|]. split; [done|]. split; [done|].
    intros _ n Hp Hrm. simpl. destruct (decide (n ∈ children f1 (rt ++ ["tmp"]))) as [Hin|Hin].
    + specialize (Hrem eq_refl n Hin Hp Hrm). by rewrite <-(assoc_L (++)) in Hrem.
    + destruct (f2 !! _) as [x|] eqn:E; [|done]. destruct Hin. apply elem_of_children. apply Hsub in E.
      rewrite <-(assoc_L (++)). eauto.
  - destruct (os_IsNotExist e); mrun; [|done]. intros [= <-]. destruct (Hs2 f1 Hwf1) as (H1 & H2 & H3); [done|].
    split; [done|]. split; [done|]. split; [done|]. split; [done|]. split; [done|].
    intros ->. unfold ReadDir in Hrd. rewrite Hd in Hrd by set_solver. done.
Qed.

(** The disk under a store [Open] hands out. *)
Lemma Open_disk {Scan : SqlScan} env opts f f' s rt :
  fs_wf f → names_ok f rt → tidy_at f rt → Abs (oe_cwd env) (Root opts) = Ok rt →
  Open env opts f = (f', Ok s) →
  root s = rt ∧ closed s = false ∧ store_wf s ∧ tidy s ∧
  (∀ ns key, ns_Valid ns = true → valid_key key = true →
     tree s !! object_file rt ns key = f !! object_file rt ns key) ∧
  (oe_readdir env = None → ∀ n, HasPrefix n tmpPrefix = true → oe_rm env n = None →
     tree s !! (rt ++ ["tmp"] ++ [n]) = None) ∧
  (DisableIndex opts = false → ∃ s1 i rr, store_wf s1 ∧ tidy s1 ∧ index s1 = Some i ∧ objects i = (oe_disk env).1 ∧
     root s1 = root s ∧ Reconcile (oe_reconcile env) s1 = (s, Ok rr)).
Proof.
  intros Hwf Hok Htidy Habs. unfold Open.
  destruct (String.eqb _ EmptyString); [done|]. rewrite Habs.
  assert (∀ c, c ∈ ["tmp"; NamespaceCAS; NamespaceAC] → filepath_Join rt [c] = rt ++ [c]) as Hj.
  { intros c Hc. apply filepath_Join_plain. constructor; [|constructor].
    rewrite !elem_of_cons, elem_of_nil in Hc. destruct Hc as [->|[->|[->|[]]]];
      (repeat split; try done); unfold free_of, sbytes; simpl; set_solver. }
  rewrite !Hj by set_solver.
  destruct (make_dirs _ f _) as [f1 [e|]] eqn:Hmk; [done|].
  destruct (make_dirs_spec _ _ _ _ Hwf Hmk) as (Hwf1 & Hg & Hd).
  destruct (sweepTemps _ _ _) as [s1 [[]|e]] eqn:Hsw; [|done].
  destruct (open_tree _ _ _ _ _ _ _ _ Hwf Hok Htidy Hwf1 Hg Hd Hsw) as (Hr & Hcl & Hwf2 & Ht2 & Hobj & Htmp).
  destruct (DisableIndex opts); [intros [= _ <-]; by split_and!|].
  destruct (OpenIndex _ _ _) as [i|e] eqn:Ho; [|done].
  assert (objects i = (oe_disk env).1) as Hio.
  { unfold OpenIndex in Ho. simpl in Ho. repeat (case_match; simplify_eq); done. }
  set (s2 := set_index (Some i) s1). assert (store_wf s2) as Hwfs2 by (split; apply Hwf2).
  pose proof (Reconcile_same (oe_reconcile env) s2) as Hsd.
  destruct (Reconcile (oe_reconcile env) s2) as [s3 [rr|e]] eqn:HR; [|done]. intros [= _ <-]. simpl in Hsd.
  pose proof Hsd as ((Hr3 & _) & Hc3 & _ & Ht3). simpl in Hr3, Hc3, Ht3.
  split; [congruence|]. split; [congruence|]. split; [by eapply same_disk_wf|].
  split; [unfold tidy; rewrite Ht3, Hr3; apply Ht2|]. rewrite Ht3. split; [done|]. split; [done|].
  intros _. exists s2, i, rr. by split_and!.
Qed.

(** What [Open] hands out. *)
Lemma Open_started {Scan : SqlScan} env opts f f' s rt :
  fs_wf f → names_ok f rt → tidy_at f rt → Abs (oe_cwd env) (Root opts) = Ok rt →
  honest_walk (oe_reconcile env) → DisableIndex opts = false →
  Open env opts f = (f', Ok s) →
  root s = rt ∧ closed s = false ∧ store_wf s ∧ tidy s ∧
  (∀ ns key, ns_Valid ns = true → valid_key key = true →
     tree s !! object_file rt ns key = f !! object_file rt ns key) ∧
  (oe_readdir env = None → ∀ n, HasPrefix n tmpPrefix = true → oe_rm env n = None →
     tree s !! (rt ++ ["tmp"] ++ [n]) = None) ∧
  ∃ i, index s = Some i ∧ ∀ ns key, objects i !! (ns, key) = row_from_disk s (oe_disk env).1 ns key.
Proof.
  intros Hwf Hok Htidy Habs Hh Hdis HO.
  destruct (Open_disk _ _ _ _ _ _ Hwf Hok Htidy Habs HO) as (Hr & Hc & Hw & Ht & Hobj & Htmp & Hix).
  do 6 (split; [done|]). destruct (Hix Hdis) as (s1 & i & rr & Hw1 & Ht1 & Hi & Hio & Hr1 & HR).
  destruct (Reconcile_honest _ _ _ _ _ Hw1 Ht1 Hi Hh HR) as (Htree & i' & Hi' & Hrow). exists i'. split; [done|].
  intros ns key. rewrite Hrow, Hio. unfold row_from_disk. by rewrite Htree, Hr1.
Qed.

Lemma sweepTemps_config rd rm s s' r : sweepTemps rd rm s = (s', r) → same_config s s' ∧ index s' = index s.
Proof.
  unfold sweepTemps. mrun. destruct (ReadDir _ _ _) as [names|e].
  - destruct (sweep_names _ _ _ _) as [f e]. mrun. destruct e; mrun; by intros [= <- _].
  - destruct (os_IsNotExist e); mrun; by intros [= <- _].
Qed.

(** The limit is the configured one, and the store has its index. *)
Lemma Open_limit {Scan : SqlScan} env opts f f' s :
  Open env opts f = (f', Ok s) →
  maxObjectBytes s = MaxObjectBytes opts ∧ f' = tree s ∧ (DisableIndex opts = false → is_Some (index s)).
Proof.
  unfold Open. destruct (String.eqb _ _); [done|]. destruct (Abs _ _) as [rt|]; [|done].
  destruct (make_dirs _ _ _) as [f1 [e|]]; [done|].
  destruct (sweepTemps _ _ _) as [s1 [[]|e]] eqn:Hsw; [|done].
  apply sweepTemps_config in Hsw as [(_ & _ & Hm & _) _]. simpl in Hm.
  destruct (DisableIndex opts); [by intros [= <- <-]|].
  destruct (OpenIndex _ _ _) as [i|]; [|done].
  pose proof (Reconcile_index (oe_reconcile env) (set_index (Some i) s1)) as Hix.
  pose proof (Reconcile_same (oe_reconcile env) (set_index (Some i) s1)) as Hsd.
  destruct (Reconcile _ _) as [s2 [rr|e]]; [|done]. intros [= <- <-].
  destruct Hsd as ((_ & _ & Hm2 & _) & _). simpl in Hm2. split; [congruence|]. split; [done|].
  intros _. apply Hix. by eexists.
Qed.

(** C21: a node starts from the disk, not from its database.  Given a data
    directory in which every file that has a key's name below a namespace is at
    that key's path, and which does not change meanwhile (no walk is told that what
    it just listed is not there), a store handed out by [Open], whatever else failed
    on the way, has the directories and every object of the disk unchanged, none of
    the partial uploads that could be removed, and an index with a row exactly for
    every object, of the file's size and with the history of the old row, whatever
    rows the database file held. *)
Theorem open_ready {Scan : SqlScan} env opts f f' s rt :
  fs_wf f → names_ok f rt → tidy_at f rt → Abs (oe_cwd env) (Root opts) = Ok rt →
  honest_walk (oe_reconcile env) → DisableIndex opts = false →
  Open env opts f = (f', Ok s) →
  root s = rt ∧ closed s = false ∧ store_wf s ∧ tidy s ∧
  (∀ ns key, ns_Valid ns = true → valid_key key = true →
     tree s !! object_file rt ns key = f !! object_file rt ns key) ∧
  (oe_readdir env = None → ∀ n, HasPrefix n tmpPrefix = true → oe_rm env n = None →
     tree s !! (rt ++ ["tmp"] ++ [n]) = None) ∧
  ∃ i, index s = Some i ∧ ∀ ns key, objects i !! (ns, key) = row_from_disk s (oe_disk env).1 ns key.
Proof. apply Open_started. Qed.

(** The largest configurable object limit empties every upload.  With
    [MaxObjectBytes] at the maximum of [int64], [maxObjectBytes + 1] wraps to a
    negative number, [io.LimitReader] yields nothing, and each upload the store
    accepts is published with no content. *)
Theorem max_limit_stores_nothing env ns key r dsz s s' pr :
  store_wf s → maxObjectBytes s = 2 ^ 63 - 1 →
  Put env ns key r dsz s = (s', Ok pr) → pr_AlreadyStored pr = false →
  view s' ns key = Some [].
Proof.
  intros Hwf Hmax H Hnew. destruct (Put_spec _ _ _ _ _ _ _ _ Hwf H) as (_ & Hcfg & _ & Heff).
  destruct (put_ok_view _ _ _ _ _ _ _ _ Hcfg Heff) as [(c & Hc & _ & Hst) _]. rewrite Hnew in Hst.
  destruct Hst as [[Hcont _] _]. rewrite Hc. f_equal. rewrite Hmax in Hcont.
  change (i64 (2 ^ 63 - 1 + 1)) with (- 2 ^ 63) in Hcont. unfold LimitReader in Hcont.
  destruct (Z.leb_spec (- 2 ^ 63) (Z.of_nat (length (rdata r)))); [done|lia].
Qed.

(** ** A small store, for the witnesses *)

Lemma fs_wf_decide (f : files) :
  bool_decide (map_Forall (λ p _, p ≠ [] ∧ is_dir f (parent p) = true) f) = true → fs_wf f.
Proof. intros H%bool_decide_eq_true p x Hp. by apply (H p x). Qed.

Definition fresh_index : Index :=
  mkIndex ∅ ∅ ∅ 4096 false true true (mkIndexStats 0 0 0 0 0 0).

Definition fresh_tree : files :=
  list_to_map [(["data"], Dir); (["data"; "tmp"], Dir); (["data"; "cas"], Dir); (["data"; "ac"], Dir)].

Definition fresh_store (limit : Z) : Store :=
  mkStore fresh_tree ["data"] ["data"; "tmp"] limit true ∅ (Some fresh_index) None false false zero_stats.

Lemma fresh_tree_dirs p x : fresh_tree !! p = Some x → x = Dir.
Proof.
  intros H. assert (bool_decide (map_Forall (λ _ y, y = Dir) fresh_tree) = true) as Hd by (vm_compute; reflexivity).
  apply bool_decide_eq_true in Hd. by apply (Hd p x).
Qed.

Lemma fresh_store_ok limit : store_ok (fresh_store limit).
Proof.
  split.
  - split; simpl; [apply fs_wf_decide; vm_compute; reflexivity|done|vm_compute; reflexivity|..].
    + intros ns Hns. unfold ns_Valid in Hns.
      apply orb_true_iff in Hns as [->%String.eqb_eq| ->%String.eqb_eq]; vm_compute; reflexivity.
    + set_solver.
    + set_solver.
  - intros key c _ Hc. unfold view in Hc. simpl in Hc.
    destruct (fresh_tree !! _) as [x|] eqn:E; [|done]. apply fresh_tree_dirs in E as ->. done.
  - intros ns sfx x key _ Hx Hnd. by apply fresh_tree_dirs in Hx.
Qed.

Definition abc_bytes : bytes := String.list_byte_of_string "abc".
Definition abc_key : string := "ba7816bf8f01cfea414140de5dae2223b00361a396177a9cb410ff61f20015ad".

(** The store after an upload of [abc]. *)
Abbreviation abc_store :=
  (Put (put_fine 7 100) NamespaceCAS abc_key (mkReader abc_bytes None) 3 (fresh_store 1024)).1.

Definition abc_result : PutResult := mkPutResult abc_key NamespaceCAS 3 abc_key false true.

Lemma abc_put_ok :
  Put (put_fine 7 100) NamespaceCAS abc_key (mkReader abc_bytes None) 3 (fresh_store 1024)
  = (abc_store, Ok abc_result).
Proof. apply pair_snd. vm_compute. reflexivity. Qed.

Lemma abc_store_ok : store_ok abc_store.
Proof. exact (Put_ok (put_fine 7 100) NamespaceCAS abc_key (mkReader abc_bytes None) 3 _ (fresh_store_ok 1024)). Qed.

Lemma cas_integrity_witness : store_ok abc_store.
Proof.
  apply (cas_integrity (fresh_store 1024)); [apply fresh_store_ok|].
  apply rtc_once. exact (do_put (put_fine 7 100) NamespaceCAS abc_key (mkReader abc_bytes None) 3 (fresh_store 1024)).
Defined.

Lemma put_refines_witness : view abc_store NamespaceCAS abc_key = Some abc_bytes.
Proof.
  pose proof (put_refines (put_fine 7 100) NamespaceCAS abc_key (mkReader abc_bytes None) 3
    (fresh_store 1024) (ok_wf _ (fresh_store_ok 1024)) eq_refl) as H.
  rewrite abc_put_ok in H. revert H. generalize abc_store. intros st [H _]. exact H.
Defined.

Lemma put_get_roundtrip_witness :
  ∃ s1 o o' w n, Get (get_fine 5) NamespaceCAS abc_key abc_store = (s1, Ok o) ∧
    st_Size (o_stat o) = 3 ∧ WriteTo o (mkWriter [] None) = Some (o', w, (n, None)) ∧
    w_out w = abc_bytes ∧ (Verify o' s1).2 = Ok tt.
Proof.
  destruct (put_get_roundtrip (put_fine 7 100) NamespaceCAS abc_key (mkReader abc_bytes None) 3 (fresh_store 1024)
           abc_store abc_result 5) as (c & s1 & o & o' & w & n & HG & Hs & HW & Ho & HV & _ & Hc).
  - apply fresh_store_ok.
  - reflexivity.
  - apply abc_put_ok.
  - cbn [abc_result pr_AlreadyStored] in Hc. rewrite Hc in Hs, Ho. exists s1, o, o', w, n.
    split; [exact HG|]. split; [exact Hs|]. split; [exact HW|]. split; [exact Ho|exact HV].
Defined.

Definition abc_object : Object :=
  mkObject (mkStat abc_key NamespaceCAS 3 100) abc_bytes None true [] 0 false.

Lemma abc_get_ok :
  Get (get_fine 5) NamespaceCAS abc_key abc_store =
    ((Get (get_fine 5) NamespaceCAS abc_key abc_store).1, Ok abc_object).
Proof. apply pair_snd. vm_compute. reflexivity. Qed.

Lemma verified_read_witness :
  ∃ o' w' n err, WriteTo abc_object (mkWriter [] None) = Some (o', w', (n, err)).
Proof.
  destruct (verified_read (get_fine 5) NamespaceCAS abc_key abc_store
    (Get (get_fine 5) NamespaceCAS abc_key abc_store).1 abc_object (mkWriter [] None) abc_get_ok eq_refl eq_refl)
    as (o' & w' & n & err & Hw & _).
  exists o', w', n, err. exact Hw.
Defined.

Lemma abc_delete_ok : (DeleteFile None None NamespaceCAS abc_key abc_store).2 = Ok 3.
Proof. vm_compute. reflexivity. Qed.

Lemma delete_refines_witness :
  view (DeleteFile None None NamespaceCAS abc_key abc_store).1 NamespaceCAS abc_key = None.
Proof.
  destruct (delete_refines None None None NamespaceCAS abc_key abc_store NamespaceCAS abc_key
    (ok_wf _ abc_store_ok)) as (_ & _ & H); [discriminate|reflexivity|reflexivity|].
  rewrite abc_delete_ok in H. destruct H as [H _].
  rewrite bool_decide_eq_true_2 in H by reflexivity. exact H.
Defined.

Abbreviation emptied :=
  (Put (put_fine 7 100) NamespaceAC abc_key (mkReader abc_bytes None) (-1) (fresh_store (2 ^ 63 - 1))).1.

Definition emptied_result : PutResult :=
  mkPutResult abc_key NamespaceAC 0 "e3b0c44298fc1c149afbf4c8996fb92427ae41e4649b934ca495991b7852b855" false true.

Lemma emptied_ok :
  Put (put_fine 7 100) NamespaceAC abc_key (mkReader abc_bytes None) (-1) (fresh_store (2 ^ 63 - 1))
  = (emptied, Ok emptied_result).
Proof. apply pair_snd. vm_compute. reflexivity. Qed.

Lemma max_limit_stores_nothing_witness : view emptied NamespaceAC abc_key = Some [].
Proof.
  apply (max_limit_stores_nothing (put_fine 7 100) NamespaceAC abc_key (mkReader abc_bytes None) (-1)
           (fresh_store (2 ^ 63 - 1)) emptied emptied_result).
  - apply fresh_store_ok.
  - reflexivity.
  - exact emptied_ok.
  - reflexivity.
Defined.

(** A store whose database has a row and whose disk has no file. *)
Definition stale_store : Store := set_index (Some sample_index) (fresh_store 1024).

Lemma stale_store_wf : store_wf stale_store ∧ tidy stale_store.
Proof.
  destruct (fresh_store_ok 1024) as [[] _ Ht]. split; [by split|exact Ht].
Qed.

Lemma reconcile_rebuilds_index_witness :
  ∃ s' rr i', Reconcile reconcile_fine stale_store = (s', Ok rr) ∧ index s' = Some i' ∧
    objects i' !! ("cas", "k") = None.
Proof.
  destruct (reconcile_rebuilds_index stale_store sample_index (1, 5) (proj1 stale_store_wf) (proj2 stale_store_wf)
    eq_refl eq_refl eq_refl eq_refl) as (s' & rr & i' & HR & Hi & _ & Hrow & _).
  exists s', rr, i'. split; [exact HR|]. split; [exact Hi|]. rewrite Hrow. vm_compute. reflexivity.
Defined.

Definition reconcile_cancelled : ReconcileEnv :=
  mkReconcileEnv None None (λ _, Some Canceled) (λ _, None) (λ _, None) tx_fine None EmptyString.

Lemma cancelled_reconcile :
  Reconcile reconcile_cancelled stale_store =
    (stale_store, Err (Wrap "storage: reconcile walk cas" Canceled)).
Proof.
  vm_cast_no_check (eq_refl (stale_store, Err (A:=ReconcileResult) (Wrap "storage: reconcile walk cas" Canceled))).
Qed.

Lemma reconcile_all_or_nothing_witness :
  ∃ i', index stale_store = Some i' ∧ objects i' = objects sample_index.
Proof.
  apply (reconcile_all_or_nothing reconcile_cancelled stale_store stale_store
           (Wrap "storage: reconcile walk cas" Canceled) sample_index eq_refl cancelled_reconcile).
Defined.

Definition first_start : OpenEnv :=
  mkOpenEnv (Ok []) (λ _ _, None) None (λ _, None) [] reconcile_fine ({[("cas", "k") := mkRow 5 1 1 1]}, ∅).

(** A disk with an interrupted upload. *)
Definition crashed_disk : files :=
  list_to_map [(["data"], Dir); (["data"; "tmp"], Dir); (["data"; "tmp"; "incoming-7"], File abc_bytes 3)].

Definition data_options : Options := mkOptions "/data" 1024 true false.

Lemma started_ok : ∃ f s, Open first_start data_options crashed_disk = (f, Ok s).
Proof.
  assert (is_ok (Open first_start data_options crashed_disk).2 = true) as H by (vm_compute; reflexivity).
  destruct (Open first_start data_options crashed_disk) as [f [s|e]]; [by eauto|discriminate].
Qed.

Lemma names_ok_decide (f : files) (rt : path) :
  bool_decide (map_Forall (λ p _, "/"%char ∉ sbytes (default EmptyString (last p))) f) = true → names_ok f rt.
Proof.
  intros H%bool_decide_eq_true n x Hx. specialize (H _ _ Hx). simpl in H.
  change ["tmp"; n] with (["tmp"] ++ [n]) in H. by rewrite (assoc_L (++)), last_snoc in H.
Qed.

Lemma crashed_disk_ok : fs_wf crashed_disk ∧ names_ok crashed_disk ["data"] ∧ tidy_at crashed_disk ["data"].
Proof.
  split; [apply fs_wf_decide; vm_compute; reflexivity|].
  split; [apply names_ok_decide; vm_compute; reflexivity|].
  intros ns sfx x key Hns Hx Hnd. exfalso.
  assert (bool_decide (map_Forall (λ p y, y = Dir ∨ p = ["data"; "tmp"; "incoming-7"]) crashed_disk) = true)
    as H by (vm_compute; reflexivity).
  apply bool_decide_eq_true in H. destruct (H _ _ Hx) as [|He]; [done|]. by injection He as -> _.
Qed.

Lemma fine_walk : honest_walk reconcile_fine.
Proof. by intros p e [?|?]. Qed.

Lemma open_ready_witness :
  ∃ f s, Open first_start data_options crashed_disk = (f, Ok s) ∧ root s = ["data"] ∧
    tree s !! ["data"; "tmp"; "incoming-7"] = None.
Proof.
  destruct crashed_disk_ok as (H1 & H2 & H3). destruct started_ok as (f & s & Ho).
  destruct (open_ready first_start data_options crashed_disk f s ["data"] H1 H2 H3
    eq_refl fine_walk eq_refl Ho) as (Hr & _ & _ & _ & _ & Ht & _).
  exists f, s. split; [exact Ho|]. split; [exact Hr|]. exact (Ht eq_refl "incoming-7" eq_refl eq_refl).
Defined.

(** A disk on which an object's file was moved to another shard directory. *)
Definition misplaced_tree : files :=
  list_to_map [(["data"], Dir); (["data"; "tmp"], Dir); (["data"; "cas"], Dir); (["data"; "ac"], Dir);
               (["data"; "cas"; "zz"], Dir); (["data"; "cas"; "zz"; abc_key], File abc_bytes 3)].

Definition misplaced_store : Store := set_tree misplaced_tree (fresh_store 1024).

(** Reconciliation can mark a missing object valid.  [Walk] accepts a file by
    its name alone, wherever below the namespace it lies; reconciling a tree
    with a misplaced file succeeds, records a row for the object, and [Get] and
    [Stat] of that object report that it does not exist. *)
Theorem misplaced_file_gets_a_row :
  let '(s', r) := Reconcile reconcile_fine misplaced_store in
  is_ok r = true ∧
  (index s' ≫= λ i, objects i !! (NamespaceCAS, abc_key)) = Some (mkRow 3 3 3 1) ∧
  (Get (get_fine 9) NamespaceCAS abc_key s').2 = Err ErrNotFound ∧
  (Stat_ None 9 NamespaceCAS abc_key s').2 = Err ErrNotFound.
Proof. vm_compute. repeat split; reflexivity. Qed.
