(* ===== verification/Heap.v ===== *)
(** * Binary heaps: the standard library's container/heap

    [Init], [Pop] and the sift-down loop they share, on a slice given as a list
    and ordered by an integer score, as [candidateHeap] in
    internal/storage/evict.go orders its candidates.  The heap invariant is
    stated on positions; the results are that [Init] establishes it, that [Pop]
    removes a least element, and that popping everything sorts. *)

From S2P Require Import Prelude.

#[local] Arguments Nat.mul : simpl never.
#[local] Arguments Nat.add : simpl never.

Section heap.
Context {A : Type} (score : A → Z).

Definition Less (h : list A) (i j : nat) : bool :=
  match h !! i, h !! j with
  | Some x, Some y => (score x <? score y)%Z
  | _, _ => false
  end.

Definition Swap (h : list A) (i j : nat) : list A :=
  match h !! i, h !! j with
  | Some x, Some y => <[i := y]> (<[j := x]> h)
  | _, _ => h
  end.

(** [down(h, i, n)]: [fuel] bounds the number of levels. *)
Fixpoint down (fuel : nat) (h : list A) (i n : nat) : list A :=
  match fuel with
  | O => h
  | S fuel' =>
      let j1 := 2 * i + 1 in
      if n <=? j1 then h
      else
        let j2 := j1 + 1 in
        let j := if (j2 <? n) && Less h j2 j1 then j2 else j1 in
        if negb (Less h j i) then h
        else down fuel' (Swap h i j) j n
  end.

(** The loop of [Init], from position [k - 1] down to 0. *)
Fixpoint init_loop (k : nat) (h : list A) : list A :=
  match k with
  | O => h
  | S k' => init_loop k' (down (length h) h k' (length h))
  end.

Definition Init (h : list A) : list A := init_loop (length h / 2) h.

(** [heap.Pop]: swap the ends, sift the new root down, cut the last element. *)
Definition Pop (h : list A) : option (A * list A) :=
  match h with
  | [] => None
  | _ =>
      let n := length h - 1 in
      let h' := down (length h) (Swap h 0 n) 0 n in
      match h' !! n with
      | Some x => Some (x, take n h')
      | None => None
      end
  end.

(** Pop [n] times. *)
Fixpoint pop_all (n : nat) (h : list A) : list A :=
  match n with
  | O => []
  | S n' => match Pop h with Some (x, h') => x :: pop_all n' h' | None => [] end
  end.

(** ** Positions *)

Definition child (i j : nat) : Prop := j = 2 * i + 1 ∨ j = 2 * i + 2.

Definition ordered (h : list A) (i j : nat) : Prop :=
  ∀ x y, h !! i = Some x → h !! j = Some y → (score x ≤ score y)%Z.

(** Every parent at position [k] or later, with both ends below [n], is in
    order with its children. *)
Definition heap_from (k n : nat) (h : list A) : Prop :=
  ∀ i j, k ≤ i → child i j → j < n → ordered h i j.

(** The same with a hole at [p]: its parent is still in order with its
    children. *)
Definition heap_except (k n p : nat) (h : list A) : Prop :=
  (∀ i j, k ≤ i → i ≠ p → child i j → j < n → ordered h i j) ∧
  (∀ i j, k ≤ i → child i p → child p j → j < n → ordered h i j).

Abbreviation is_heap h := (heap_from 0 (length h) h).

Lemma Swap_length h i j : length (Swap h i j) = length h.
Proof. unfold Swap. repeat case_match; rewrite ?length_insert; done. Qed.

Lemma Swap_perm h i j : Swap h i j ≡ₚ h.
Proof.
  unfold Swap. destruct (h !! i) as [x|] eqn:Hi; [|done].
  destruct (h !! j) as [y|] eqn:Hj; [|done].
  by apply Permutation_insert_swap.
Qed.

Lemma Swap_other h i j k : k ≠ i → k ≠ j → Swap h i j !! k = h !! k.
Proof. intros. unfold Swap. repeat case_match; by rewrite ?list_lookup_insert_ne. Qed.

Lemma Swap_lookup h i j x y :
  i ≠ j → h !! i = Some x → h !! j = Some y →
  Swap h i j !! i = Some y ∧ Swap h i j !! j = Some x ∧
  ∀ k, k ≠ i → k ≠ j → Swap h i j !! k = h !! k.
Proof.
  intros Hij Hi Hj. unfold Swap. rewrite Hi, Hj.
  pose proof (lookup_lt_Some _ _ _ Hi). pose proof (lookup_lt_Some _ _ _ Hj).
  split_and!; [by rewrite list_lookup_insert_eq by (by rewrite length_insert)| |].
  - by rewrite list_lookup_insert_ne, list_lookup_insert_eq.
  - intros k ??. pose proof (Swap_other h i j k) as Hk. unfold Swap in Hk. rewrite Hi, Hj in Hk. auto.
Qed.

Lemma Less_spec h i j x y :
  h !! i = Some x → h !! j = Some y → Less h i j = (score x <? score y)%Z.
Proof. unfold Less. by intros -> ->. Qed.

(** The child the loop compares with: the smaller one below [n]. *)
Lemma smaller_child h i n :
  n ≤ length h → 2 * i + 1 < n →
  let j := if (2 * i + 1 + 1 <? n) && Less h (2 * i + 1 + 1) (2 * i + 1)
           then 2 * i + 1 + 1 else 2 * i + 1 in
  child i j ∧ j < n ∧ ∀ c, child i c → c < n → ordered h j c.
Proof.
  intros Hn H1. destruct (lookup_lt_is_Some_2 h (2 * i + 1)) as [y1 H1']; [lia|].
  simpl. destruct (Nat.ltb_spec (2 * i + 1 + 1) n) as [H2|H2]; simpl.
  - destruct (lookup_lt_is_Some_2 h (2 * i + 1 + 1)) as [y2 H2']; [lia|].
    rewrite (Less_spec _ _ _ _ _ H2' H1'). unfold child.
    destruct (Z.ltb_spec (score y2) (score y1)); (split; [lia|]); (split; [lia|]);
      intros c [->| ->] _ x y Hx Hy; replace (2 * i + 2) with (2 * i + 1 + 1) in * by lia;
      simplify_eq; lia.
  - unfold child. split; [lia|]. split; [lia|].
    intros c [->| ->] Hc x y Hx Hy; [simplify_eq; lia|lia].
Qed.

(** One step of the loop moves the hole to the child. *)
Lemma swap_step k n i j h x y :
  k ≤ i → heap_except k n i h → child i j → j < n →
  (∀ c, child i c → c < n → ordered h j c) →
  h !! i = Some x → h !! j = Some y → (score y < score x)%Z →
  heap_except k n j (Swap h i j).
Proof.
  intros Hk [H1 H2] Hj Hn Hmin Hx Hy Hlt.
  assert (Hne : i ≠ j) by (unfold child in Hj; lia).
  destruct (Swap_lookup h i j x y Hne Hx Hy) as (Hi' & Hj' & Hother). split.
  - intros p c Hp Hpj Hc Hcn u v Hu Hv. destruct (decide (p = i)) as [->|Hpi].
    + rewrite Hi' in Hu. simplify_eq. destruct (decide (c = j)) as [->|Hcj].
      * rewrite Hj' in Hv. simplify_eq. lia.
      * rewrite Hother in Hv by (unfold child in *; lia). by apply (Hmin c Hc Hcn u v).
    + rewrite Hother in Hu by done. destruct (decide (c = i)) as [->|Hci].
      * rewrite Hi' in Hv. simplify_eq. by apply (H2 p j Hp Hc Hj Hn u v).
      * rewrite Hother in Hv by (unfold child in *; lia). by apply (H1 p c Hp Hpi Hc Hcn u v).
  - intros p c Hp Hpj Hc Hcn u v Hu Hv.
    assert (p = i) as -> by (unfold child in *; lia).
    rewrite Hi' in Hu. simplify_eq. rewrite Hother in Hv by (unfold child in *; lia).
    apply (H1 j c); [unfold child in *; lia|done..].
Qed.

Lemma down_perm fuel h i n : down fuel h i n ≡ₚ h.
Proof.
  revert h i. induction fuel as [|fuel IH]; intros h i; simpl; [done|].
  repeat case_match; try done; by rewrite IH, Swap_perm.
Qed.

Lemma down_length fuel h i n : length (down fuel h i n) = length h.
Proof. apply Permutation_length, down_perm. Qed.

(** Positions from [n] on are not touched. *)
Lemma down_lookup fuel h i n p : n ≤ p → down fuel h i n !! p = h !! p.
Proof.
  revert h i. induction fuel as [|fuel IH]; intros h i Hp; simpl; [done|].
  destruct (Nat.leb_spec n (2 * i + 1)); [done|].
  case_match; [done|]. rewrite IH by done. apply Swap_other; [lia|].
  case_match; boolify; lia.
Qed.

(** A hole without children needs no filling. *)
Lemma leaf_heap k n i h : n ≤ 2 * i + 1 → heap_except k n i h → heap_from k n h.
Proof.
  intros Hn Hex p c Hp Hc Hcn. destruct (decide (p = i)) as [->|]; [unfold child in Hc; lia|].
  by apply (proj1 Hex).
Qed.

(** With as many rounds as positions remain below [n], the loop fills the
    hole. *)
Lemma down_heap fuel h k i n :
  n ≤ length h → n - i ≤ fuel → k ≤ i → heap_except k n i h →
  heap_from k n (down fuel h i n).
Proof.
  revert h i. induction fuel as [|fuel IH]; intros h i Hn Hf Hk Hex; simpl.
  { apply (leaf_heap k n i); [lia|done]. }
  destruct (Nat.leb_spec n (2 * i + 1)) as [|H1]; [by apply (leaf_heap k n i)|].
  pose proof (smaller_child h i n Hn H1) as (Hj & Hjn & Hmin).
  revert Hj Hjn Hmin. set (j := if _ : bool then _ else _). intros Hj Hjn Hmin.
  destruct (lookup_lt_is_Some_2 h i) as [x Hx]; [lia|].
  destruct (lookup_lt_is_Some_2 h j) as [y Hy]; [lia|].
  rewrite (Less_spec _ _ _ _ _ Hy Hx). destruct (Z.ltb_spec (score y) (score x)) as [Hlt|Hge]; simpl.
  - apply IH; [by rewrite Swap_length|unfold child in Hj; lia..|by eapply swap_step].
  - intros p c Hp Hc Hcn. destruct (decide (p = i)) as [->|]; [|by apply (proj1 Hex)].
    intros u v Hu Hv. simplify_eq. pose proof (Hmin c Hc Hcn y v Hy Hv). lia.
Qed.

Lemma init_loop_heap k h :
  heap_from k (length h) h → is_heap (init_loop k h).
Proof.
  revert h. induction k as [|k IH]; intros h Hh; simpl; [done|].
  apply IH. rewrite down_length. apply down_heap; [lia..|]. split.
  - intros i j Hi Hne. apply Hh. lia.
  - intros i j Hi Hc. unfold child in Hc. lia.
Qed.

Lemma Init_heap h : is_heap (Init h).
Proof.
  apply init_loop_heap. intros i j Hi Hc Hj. unfold child in Hc.
  pose proof (Nat.div_mod (length h) 2). pose proof (Nat.mod_upper_bound (length h) 2). lia.
Qed.

Lemma Init_perm h : Init h ≡ₚ h.
Proof.
  unfold Init. generalize (length h / 2). intros k. revert h.
  induction k as [|k IH]; intros h; simpl; [done|]. by rewrite IH, down_perm.
Qed.

(** The root of a heap is a least element. *)
Lemma heap_root h x : is_heap h → h !! 0 = Some x → Forall (λ y, (score x ≤ score y)%Z) h.
Proof.
  intros Hh Hx. apply Forall_lookup. intros i. induction (lt_wf i) as [i _ IH]. intros y Hy.
  destruct (decide (i = 0)) as [->|Hi]; [simplify_eq; lia|].
  assert (child ((i - 1) / 2) i) as Hc.
  { unfold child. pose proof (Nat.div_mod (i - 1) 2). pose proof (Nat.mod_upper_bound (i - 1) 2). lia. }
  pose proof (lookup_lt_Some _ _ _ Hy).
  destruct (lookup_lt_is_Some_2 h ((i - 1) / 2)) as [z Hz]; [unfold child in Hc; lia|].
  assert ((i - 1) / 2 < i) as Hlt by (unfold child in Hc; lia).
  pose proof (IH _ Hlt z Hz). pose proof (Hh _ i (Nat.le_0_l _) Hc H z y Hz Hy). lia.
Qed.

Lemma Pop_spec h :
  is_heap h → h ≠ [] →
  ∃ x h', Pop h = Some (x, h') ∧ x :: h' ≡ₚ h ∧ is_heap h' ∧ Forall (λ y, (score x ≤ score y)%Z) h'.
Proof.
  intros Hh Hne. destruct h as [|x t]; [done|]. clear Hne.
  unfold Pop. set (h := x :: t) in *. set (n := length h - 1).
  assert (Hn : n < length h) by (subst n; simpl; lia).
  assert (Hlast : down (length h) (Swap h 0 n) 0 n !! n = Some x).
  { rewrite down_lookup by lia. destruct (lookup_lt_is_Some_2 h n Hn) as [y Hy].
    destruct (decide (n = 0)) as [Hn0|].
    - rewrite Hn0. simpl. by destruct t.
    - by destruct (Swap_lookup h 0 n x y) as (_ & ? & _). }
  rewrite Hlast. exists x, (take n (down (length h) (Swap h 0 n) 0 n)).
  assert (Hperm : x :: take n (down (length h) (Swap h 0 n) 0 n) ≡ₚ h).
  { trans (down (length h) (Swap h 0 n) 0 n); [|by rewrite down_perm, Swap_perm].
    rewrite <-(take_drop_middle _ _ _ Hlast) at 2.
    rewrite drop_ge by (rewrite down_length, Swap_length; lia).
    apply Permutation_cons_append. }
  split; [done|]. split; [done|]. split.
  - assert (Hh' : heap_from 0 n (down (length h) (Swap h 0 n) 0 n)).
    { apply down_heap; [rewrite Swap_length; lia|lia|lia|]. split.
      - intros i j _ Hi Hc Hj u v Hu Hv.
        destruct (lookup_lt_is_Some_2 h n Hn) as [y Hy].
        destruct (Swap_lookup h 0 n x y) as (_ & _ & Ho); [unfold child in Hc; lia|done..|].
        rewrite Ho in Hu by (unfold child in Hc; lia). rewrite Ho in Hv by (unfold child in Hc; lia).
        by apply (Hh i j (Nat.le_0_l _) Hc ltac:(lia) u v).
      - intros i j _ Hc. unfold child in Hc. lia. }
    intros i j Hi Hc Hj u v. rewrite length_take in Hj. rewrite !lookup_take. intros Hu Hv.
    repeat case_decide; try done. by apply (Hh' i j Hi Hc ltac:(lia) u v).
  - pose proof (heap_root h x Hh eq_refl) as Hmin. rewrite <-Hperm in Hmin.
    by apply Forall_cons in Hmin as [_ ?].
Qed.

Lemma Pop_length h x h' : is_heap h → Pop h = Some (x, h') → length h = S (length h').
Proof.
  intros Hh HP. destruct (decide (h = [])) as [->|Hne]; [done|].
  destruct (Pop_spec h Hh Hne) as (? & ? & HP' & Hp & _). rewrite HP in HP'. simplify_eq.
  by rewrite <-Hp.
Qed.

(** Popping a heap empty yields its elements in ascending order of score. *)
Lemma pop_all_sorted h :
  is_heap h →
  pop_all (length h) h ≡ₚ h ∧
  StronglySorted (λ x y, (score x ≤ score y)%Z) (pop_all (length h) h).
Proof.
  remember (length h) as n eqn:Hn. revert h Hn. induction n as [|n IH]; intros h Hn Hh; simpl.
  { destruct h; [|done]. split; [done|constructor]. }
  rewrite Hn in Hh.
  destruct (Pop_spec h Hh) as (x & h' & HP & Hp & Hh' & Hmin); [by intros ->|].
  rewrite HP. pose proof (Pop_length _ _ _ Hh HP).
  destruct (IH h') as [Hp' Hs']; [lia|by replace n with (length h') by lia|].
  split; [by rewrite Hp', Hp|]. constructor; [done|]. by rewrite Hp'.
Qed.
End heap.

Arguments Init {A} score h : simpl never.
Arguments Pop {A} score h : simpl never.
