(* ===== verification/GoFloat.v ===== *)
(** * Go's float64

    IEEE 754 binary64 numbers as the Standard Library's [spec_float], with the
    operations internal/storage/evict.go and internal/config use: arithmetic
    and comparison rounding to nearest even, conversion from and to [int64],
    and [math.Log2].  The conversion of a value outside [int64] is the one of
    amd64, the integer indefinite value; multiplications and additions are not
    fused. *)

From Stdlib Require Import Floats.SpecFloat.
From S2P Require Import Prelude.

#[local] Open Scope Z_scope.

Abbreviation float64 := spec_float.

Definition fmul (x y : float64) : float64 := SFmul 53 1024 x y.
Definition fadd (x y : float64) : float64 := SFadd 53 1024 x y.
Definition fsub (x y : float64) : float64 := SFsub 53 1024 x y.
Definition fdiv (x y : float64) : float64 := SFdiv 53 1024 x y.
Definition flt (x y : float64) : bool := SFltb x y.
Definition fle (x y : float64) : bool := SFleb x y.
Definition feq (x y : float64) : bool := SFeqb x y.

(** [float64(n)] for an integer [n]. *)
Definition of_int (n : Z) : float64 := binary_normalize 53 1024 n 0 false.

(** The constant [n / d], rounded once. *)
Definition constant (n d : positive) : float64 :=
  fdiv (S754_finite false n 0) (S754_finite false d 0).

(** [int64(x)]: truncation towards zero. *)
Definition to_int64 (x : float64) : Z :=
  match x with
  | S754_zero _ => 0
  | S754_finite s m e =>
      let a := if 0 <=? e then Z.pos m * 2 ^ e else Z.pos m / 2 ^ (- e) in
      let v := if s then - a else a in
      if (- 2 ^ 63 <=? v) && (v <? 2 ^ 63) then v else - 2 ^ 63
  | S754_infinity _ | S754_nan => - 2 ^ 63
  end.

Definition one : float64 := of_int 1.
Definition half : float64 := constant 1 2.

(** [math.Frexp]. *)
Definition Frexp (x : float64) : float64 * Z := SFfrexp 53 1024 x.

(** [math.Log] on a positive finite number. *)
Definition Log (x : float64) : float64 :=
  let Ln2Hi := constant 693147180369123816490 (10 ^ 21) in
  let Ln2Lo := constant 190821492927058770002 (10 ^ 30) in
  let L1 := constant 6666666666666735130 (10 ^ 19) in
  let L2 := constant 3999999999940941908 (10 ^ 19) in
  let L3 := constant 2857142874366239149 (10 ^ 19) in
  let L4 := constant 2222219843214978396 (10 ^ 19) in
  let L5 := constant 1818357216161805012 (10 ^ 19) in
  let L6 := constant 1531383769920937332 (10 ^ 19) in
  let L7 := constant 1479819860511658591 (10 ^ 19) in
  let half_sqrt2 := constant 707106781186547524400844362104849039284835937688474 (10 ^ 51) in
  let '(f1, ki) := Frexp x in
  let '(f1, ki) := if flt f1 half_sqrt2 then (fmul f1 (of_int 2), ki - 1) else (f1, ki) in
  let f := fsub f1 one in
  let k := of_int ki in
  let s := fdiv f (fadd (of_int 2) f) in
  let s2 := fmul s s in
  let s4 := fmul s2 s2 in
  let t1 := fmul s2 (fadd L1 (fmul s4 (fadd L3 (fmul s4 (fadd L5 (fmul s4 L7)))))) in
  let t2 := fmul s4 (fadd L2 (fmul s4 (fadd L4 (fmul s4 L6)))) in
  let R := fadd t1 t2 in
  let hfsq := fmul (fmul half f) f in
  fsub (fmul k Ln2Hi) (fsub (fsub hfsq (fadd (fmul s (fadd hfsq R)) (fmul k Ln2Lo))) f).

(** [math.Log2]: exact on powers of two. *)
Definition Log2 (x : float64) : float64 :=
  match x with
  | S754_finite false _ _ =>
      let '(frac, e) := Frexp x in
      if feq frac half then of_int (e - 1)
      else
        let inv_ln2 := constant (10 ^ 54) 693147180559945309417232121458176568075500134360255254 in
        fadd (fmul (Log frac) inv_ln2) (of_int e)
  | S754_zero _ => S754_infinity true
  | S754_infinity false => S754_infinity false
  | _ => S754_nan
  end.

#[global] Arguments fmul : simpl never.
#[global] Arguments fdiv : simpl never.
#[global] Arguments of_int : simpl never.
#[global] Arguments to_int64 : simpl never.
#[global] Arguments Log2 : simpl never.

Lemma to_int64_range x : in_i64 (to_int64 x).
Proof.
  unfold to_int64, in_i64. repeat case_match; boolify; lia.
Qed.

(** ** Conversions of integers *)

Lemma SFopp_round p : SFopp (binary_round 53 1024 false p 0) = binary_round 53 1024 true p 0.
Proof.
  unfold binary_round. destruct (shl_align _ _ _) as [mz ez]. unfold binary_round_aux.
  destruct (shr_fexp _ _ _ _ _) as [m1 e1]. destruct (shr_fexp _ _ _ _ _) as [m2 e2].
  destruct (shr_m m2); [done| |done]. by destruct (_ <=? _).
Qed.

(** The sign of an integer is the sign of its conversion. *)
Lemma of_int_opp p : of_int (Z.neg p) = SFopp (of_int (Z.pos p)).
Proof. unfold of_int, binary_normalize. by rewrite SFopp_round. Qed.

Lemma digits2_bounds p : 2 ^ (Z.pos (digits2_pos p) - 1) ≤ Z.pos p < 2 ^ Z.pos (digits2_pos p).
Proof.
  assert (∀ q, 2 ^ Z.pos (Pos.succ q) = 2 * 2 ^ Z.pos q) as Hs by (intros q; rewrite Pos2Z.inj_succ, Z.pow_succ_r; lia).
  assert (∀ q, Z.pos (Pos.succ q) - 1 = Z.succ (Z.pos q - 1)) as Hp by lia.
  induction p as [p IH|p IH|]; cbn [digits2_pos]; rewrite ?Hs, ?Hp, ?Z.pow_succ_r by lia; lia.
Qed.

Lemma digits2_le p n : Z.pos p < 2 ^ n → 0 ≤ n → Z.pos (digits2_pos p) ≤ n.
Proof.
  intros Hp Hn. destruct (Z.le_gt_cases (Z.pos (digits2_pos p)) n) as [|H]; [done|].
  pose proof (digits2_bounds p) as [H1 _]. pose proof (Z.pow_le_mono_r 2 n (Z.pos (digits2_pos p) - 1)). lia.
Qed.

Lemma digits2_shift p k : digits2_pos (Pos.iter xO p k) = (digits2_pos p + k)%positive.
Proof.
  induction k as [|k IH] using Pos.peano_ind; [cbn; lia|]. rewrite Pos.iter_succ. cbn [digits2_pos]. rewrite IH. lia.
Qed.

Lemma iter_xO p k : Z.pos (Pos.iter xO p k) = Z.pos p * 2 ^ Z.pos k.
Proof.
  induction k as [|k IH] using Pos.peano_ind; [cbn; lia|].
  rewrite Pos.iter_succ, Pos2Z.inj_xO, IH, Pos2Z.inj_succ, Z.pow_succ_r; lia.
Qed.

(** An integer of at most 53 binary digits is converted exactly. *)
Lemma of_int_exact p :
  Z.pos p < 2 ^ 53 → ∃ q k, of_int (Z.pos p) = S754_finite false q (- k) ∧ 0 ≤ k ∧ Z.pos q = Z.pos p * 2 ^ k.
Proof.
  intros Hp. pose proof (digits2_le p 53 Hp) as Hd. set (k := 53 - Z.pos (digits2_pos p)).
  assert (fexp 53 1024 (Z.pos (digits2_pos p) + 0) = - k) as Hf by (unfold fexp, emin; lia).
  assert (∃ q, shl_align p 0 (- k) = (q, - k) ∧ Z.pos q = Z.pos p * 2 ^ k ∧ digits2_pos q = 53%positive)
    as (q & Hs & Hq & H53).
  { unfold shl_align. rewrite Z.sub_0_r. destruct (- k) as [|j|j] eqn:E; [|lia|].
    - exists p. replace k with 0 by lia. rewrite Z.pow_0_r. split_and!; [done|lia|lia].
    - exists (Pos.iter xO p j). replace k with (Z.pos j) by lia. rewrite digits2_shift, iter_xO.
      split_and!; [done..|lia]. }
  exists q, k. split; [|lia]. unfold of_int, binary_normalize, binary_round. rewrite Hf, Hs. unfold binary_round_aux.
  assert (∀ l, shr_fexp 53 1024 (Z.pos q) (- k) l = (shr_record_of_loc (Z.pos q) l, - k)) as Hr.
  { intros l. unfold shr_fexp. cbn [Zdigits2]. rewrite H53.
    replace (fexp 53 1024 (53 + - k) - - k) with 0 by (unfold fexp, emin; lia). done. }
  rewrite Hr. cbn [shr_record_of_loc loc_of_shr_record shr_m round_nearest_even]. rewrite Hr.
  cbn [shr_record_of_loc shr_m]. destruct (Z.leb_spec (- k) (1024 - 53)); [done|lia].
Qed.

(** [int64(float64(z))] is [z] up to 53 binary digits. *)
Lemma to_int64_of_int z : - 2 ^ 53 < z < 2 ^ 53 → to_int64 (of_int z) = z.
Proof.
  intros Hz. assert (∀ q k p, 0 ≤ k → Z.pos q = Z.pos p * 2 ^ k →
    (if 0 <=? - k then Z.pos q * 2 ^ (- k) else Z.pos q / 2 ^ (- - k)) = Z.pos p) as Hdiv.
  { intros q k p Hk Hq. rewrite Z.opp_involutive, Hq. destruct (Z.leb_spec 0 (- k)).
    - replace k with 0 by lia. change (2 ^ (- 0)) with 1. change (2 ^ 0) with 1. lia.
    - apply Z.div_mul. lia. }
  destruct z as [|p|p]; [done| |].
  - destruct (of_int_exact p) as (q & k & -> & Hk & Hq); [lia|]. cbn [to_int64]. unfold to_int64.
    rewrite (Hdiv q k p) by done. destruct (Z.leb_spec (- 2 ^ 63) (Z.pos p)), (Z.ltb_spec (Z.pos p) (2 ^ 63)); cbn [andb]; lia.
  - rewrite of_int_opp. destruct (of_int_exact p) as (q & k & -> & Hk & Hq); [lia|]. cbn [SFopp negb]. unfold to_int64.
    rewrite (Hdiv q k p) by done. destruct (Z.leb_spec (- 2 ^ 63) (- Z.pos p)), (Z.ltb_spec (- Z.pos p) (2 ^ 63)); cbn [andb]; lia.
Qed.

Lemma shr_m_iter n r : 0 ≤ shr_m r → shr_m (SpecFloat.iter_pos shr_1 n r) = shr_m r / 2 ^ Z.pos n ∧ 0 ≤ shr_m (SpecFloat.iter_pos shr_1 n r).
Proof.
  assert (∀ r, 0 ≤ shr_m r → shr_m (shr_1 r) = shr_m r / 2 ∧ 0 ≤ shr_m (shr_1 r)) as H1.
  { intros [[|[p|p|]|p] b s]; cbn [shr_m shr_1]; intros; try lia; (split; [|lia]);
      Z.to_euclidean_division_equations; lia. }
  revert r. induction n as [n IH|n IH|]; intros r Hr; cbn [SpecFloat.iter_pos]; [| |by apply H1].
  - destruct (H1 r Hr) as [E1 P1]. destruct (IH _ P1) as [E2 P2]. destruct (IH _ P2) as [E3 P3].
    split; [|done]. rewrite E3, E2, E1, !Z.div_div by lia. f_equal.
    replace (Z.pos n~1) with (1 + (Z.pos n + Z.pos n)) by lia. rewrite !Z.pow_add_r by lia. ring.
  - destruct (IH _ Hr) as [E2 P2]. destruct (IH _ P2) as [E3 P3]. split; [|done]. rewrite E3, E2, Z.div_div by lia.
    f_equal. replace (Z.pos n~0) with (Z.pos n + Z.pos n) by lia. by rewrite Z.pow_add_r by lia.
Qed.

Lemma Zdigits2_le m n : 0 ≤ m < 2 ^ n → 0 ≤ n → Zdigits2 m ≤ n.
Proof. intros [H0 H] Hn. destruct m as [|p|p]; [done|by apply digits2_le|lia]. Qed.

(** No integer of at most 64 binary digits becomes infinite. *)
Lemma of_int_finite z s : - 2 ^ 64 < z < 2 ^ 64 → of_int z ≠ S754_infinity s.
Proof.
  assert (∀ p s, Z.pos p < 2 ^ 64 → of_int (Z.pos p) ≠ S754_infinity s) as Hpos.
  { clear. intros p s Hp. destruct (Z.lt_ge_cases (Z.pos p) (2 ^ 53)) as [H|H].
    { by destruct (of_int_exact p H) as (q & k & -> & _). }
    pose proof (digits2_le p 64 Hp ltac:(done)) as Hd. pose proof (digits2_bounds p) as [_ Hlt].
    assert (53 < Z.pos (digits2_pos p)) as Hd'.
    { destruct (Z.le_gt_cases (Z.pos (digits2_pos p)) 53) as [Hle|]; [|lia].
      pose proof (Z.pow_le_mono_r 2 _ _ ltac:(lia) Hle). lia. }
    set (n := Z.pos (digits2_pos p) - 53) in *.
    assert (fexp 53 1024 (Z.pos (digits2_pos p) + 0) = n) as Hf by (unfold fexp, emin; lia).
    unfold of_int, binary_normalize, binary_round, shl_align. rewrite Hf, Z.sub_0_r.
    destruct n as [|j|j] eqn:En; [lia| |lia]. unfold binary_round_aux.
    assert (shr_fexp 53 1024 (Z.pos p) 0 loc_Exact
      = (SpecFloat.iter_pos shr_1 j (shr_record_of_loc (Z.pos p) loc_Exact), Z.pos j)) as ->.
    { unfold shr_fexp. cbn [Zdigits2]. by rewrite Hf, Z.sub_0_r. }
    destruct (shr_m_iter j (shr_record_of_loc (Z.pos p) loc_Exact)) as [E1 P1]; [done|].
    set (r := SpecFloat.iter_pos _ _ _) in *. cbn [shr_record_of_loc shr_m] in E1.
    assert (shr_m r < 2 ^ 53) as Hr.
    { rewrite E1. apply Z.div_lt_upper_bound; [lia|]. rewrite <-Z.pow_add_r by lia.
      replace (Z.pos j + 53) with (Z.pos (digits2_pos p)) by lia. lia. }
    set (m := round_nearest_even _ _).
    assert (0 ≤ m < 2 ^ 54) as Hm by (unfold m, round_nearest_even; repeat case_match; lia).
    pose proof (Zdigits2_le m 54 Hm ltac:(done)) as Hdm.
    destruct (shr_fexp _ _ m _ _) as [m2 e2] eqn:E2.
    assert (e2 ≤ Z.pos j + 1) as He.
    { revert E2. unfold shr_fexp, shr. destruct (fexp _ _ _ - _) as [|i|i] eqn:Ei; intros [_ <-]%pair_eq; [lia| |lia].
      unfold fexp, emin in Ei. lia. }
    destruct (shr_m m2); [done| |done]. destruct (Z.leb_spec e2 (1024 - 53)); [done|lia]. }
  intros Hz. destruct z as [|p|p]; [done|apply Hpos; lia|]. rewrite of_int_opp. pose proof (Hpos p (negb s) ltac:(lia)).
  destruct (of_int (Z.pos p)); [done| |done|done]. cbn [SFopp]. intros [= <-]. by rewrite negb_involutive in *.
Qed.
