(* ===== verification/Strconv.v ===== *)
(** * Go's strconv and time.ParseDuration

    The parsers of numbers, booleans and durations internal/config uses:
    [strconv.ParseInt], [Atoi], [ParseBool] and [ParseFloat], and
    [time.ParseDuration].  A decimal or hexadecimal number is read exactly and
    rounded once, to nearest even. *)

From Stdlib Require Import Floats.SpecFloat.
From S2P Require Import Prelude GoStrings Errors GoFloat.

#[local] Open Scope Z_scope.

(** Why a number was refused. *)
Inductive num_err := ErrSyntax | ErrRange.

Definition num_text (e : num_err) : string :=
  match e with ErrSyntax => "invalid syntax" | ErrRange => "value out of range" end.

(** [*strconv.NumError]. *)
Definition NumError (fn s : string) (e : num_err) : error :=
  Errorf ("strconv." +:+ fn +:+ ": parsing " +:+ quoted s +:+ ": " +:+ num_text e).

Inductive parsed (A : Type) := Val (a : A) | Bad (e : num_err).
Arguments Val {A}.
Arguments Bad {A}.

Definition with_name {A} (fn s : string) (p : parsed A) : result A :=
  match p with Val a => Ok a | Bad e => Err (NumError fn s e) end.

(** ** Bytes *)

Definition lower (c : ascii) : ascii := shift_ascii 65 90 32 c.

Definition is_digit (c : ascii) : bool := (48 <=? byte_val c) && (byte_val c <=? 57).

(** The value of a digit or letter, as in [ParseUint]. *)
Definition digit_val (c : ascii) : option Z :=
  let l := byte_val (lower c) in
  if is_digit c then Some (byte_val c - 48)
  else if (97 <=? l) && (l <=? 122) then Some (l - 97 + 10)
  else None.

Definition is_char (s : string) (c : ascii) : bool := String.eqb (String c EmptyString) s.

(** [underscoreOK]: underscores separate digits, or follow the base prefix.
    [saw] is the class of the byte before. *)
Inductive saw := SawNone | SawDigit | SawUnderscore | SawOther.

Fixpoint underscore_loop (hex : bool) (i : saw) (s : string) : bool :=
  match s with
  | EmptyString => match i with SawUnderscore => false | _ => true end
  | String c s' =>
      let l := byte_val (lower c) in
      if is_digit c || (hex && ((97 <=? l) && (l <=? 102))) then underscore_loop hex SawDigit s'
      else if is_char "_" c then
        match i with SawDigit => underscore_loop hex SawUnderscore s' | _ => false end
      else match i with SawUnderscore => false | _ => underscore_loop hex SawOther s' end
  end.

Definition drop_sign (s : string) : string :=
  match s with
  | String c s' => if is_char "-" c || is_char "+" c then s' else s
  | EmptyString => s
  end.

Definition underscoreOK (s : string) : bool :=
  match drop_sign s with
  | String "0" (String c s') as t =>
      let l := lower c in
      if is_char "b" l || is_char "o" l || is_char "x" l
      then underscore_loop (is_char "x" l) SawDigit s'
      else underscore_loop false SawNone t
  | t => underscore_loop false SawNone t
  end.

(** ** Integers *)

Definition maxUint64 : Z := 2 ^ 64 - 1.

(** The loop of [ParseUint]: the number and whether underscores were skipped. *)
Fixpoint uint_loop (base : Z) (base0 : bool) (n : Z) (under : bool) (s : string) : parsed (Z * bool) :=
  match s with
  | EmptyString => Val (n, under)
  | String c s' =>
      if base0 && is_char "_" c then uint_loop base base0 n true s'
      else
        match digit_val c with
        | None => Bad ErrSyntax
        | Some d =>
            if base <=? d then Bad ErrSyntax
            else if maxUint64 / base + 1 <=? n then Bad ErrRange
            else if maxUint64 <? n * base + d then Bad ErrRange
            else uint_loop base base0 (n * base + d) under s'
        end
  end.

(** The base and the digits of a number in base 0. *)
Definition base_prefix (s : string) : Z * string :=
  match s with
  | String "0" s' =>
      match s' with
      | String c (String _ _ as rest) =>
          let l := lower c in
          if is_char "b" l then (2, rest)
          else if is_char "o" l then (8, rest)
          else if is_char "x" l then (16, rest)
          else (8, s')
      | _ => (8, s')
      end
  | _ => (10, s)
  end.

(** [ParseUint(s, base, 64)], with base 0 when [base0]. *)
Definition ParseUint (base0 : bool) (s : string) : parsed Z :=
  match s with
  | EmptyString => Bad ErrSyntax
  | _ =>
      let '(base, digits) := if base0 then base_prefix s else (10, s) in
      match uint_loop base base0 0 false digits with
      | Bad e => Bad e
      | Val (n, under) => if under && negb (underscoreOK s) then Bad ErrSyntax else Val n
      end
  end.

(** [ParseInt(s, base, 64)]. *)
Definition parse_int (base0 : bool) (s : string) : parsed Z :=
  match s with
  | EmptyString => Bad ErrSyntax
  | String c s' =>
      let neg := is_char "-" c in
      match ParseUint base0 (drop_sign s) with
      | Bad e => Bad e
      | Val un =>
          if negb neg && (2 ^ 63 <=? un) then Bad ErrRange
          else if neg && (2 ^ 63 <? un) then Bad ErrRange
          else Val (if neg then - un else un)
      end
  end.

Definition ParseInt (s : string) : result Z := with_name "ParseInt" s (parse_int false s).
Definition Atoi (s : string) : result Z := with_name "Atoi" s (parse_int false s).

(** ** Booleans *)

Definition parse_bool (s : string) : parsed bool :=
  if bool_decide (s ∈ ["1"; "t"; "T"; "TRUE"; "true"; "True"]) then Val true
  else if bool_decide (s ∈ ["0"; "f"; "F"; "FALSE"; "false"; "False"]) then Val false
  else Bad ErrSyntax.

Definition ParseBool (s : string) : result bool := with_name "ParseBool" s (parse_bool s).

(** ** Floating point *)

(** The letters two strings have in common at their start, in any case. *)
Fixpoint common_prefix (s p : string) : nat :=
  match s, p with
  | String c s', String d p' => if Ascii.eqb (lower c) d then S (common_prefix s' p') else O
  | _, _ => O
  end.

(** [special]: infinities and NaN, with the number of bytes read. *)
Definition special (s : string) : option (float64 * nat) :=
  match s with
  | EmptyString => None
  | String c s' =>
      let signed := is_char "+" c || is_char "-" c in
      let n := if signed then common_prefix s' "infinity" else common_prefix s "infinity" in
      let n := if (3 <? n)%nat && (n <? 8)%nat then 3%nat else n in
      if (n =? 3)%nat || (n =? 8)%nat
      then Some (S754_infinity (is_char "-" c), (if signed then S n else n))
      else if negb signed && (common_prefix s "nan" =? 3)%nat then Some (S754_nan, 3%nat)
      else None
  end.

(** The digits of [readFloat]: the number they make without the point, how many
    follow the point, and what is left. *)
Record mantissa := mkMantissa {
  m_val : Z; m_frac : Z; m_dot : bool; m_digits : bool; m_under : bool; m_rest : string }.

Fixpoint mantissa_loop (base : Z) (m : mantissa) (s : string) : mantissa :=
  match s with
  | EmptyString => mkMantissa (m_val m) (m_frac m) (m_dot m) (m_digits m) (m_under m) EmptyString
  | String c s' =>
      if is_char "_" c then
        mantissa_loop base (mkMantissa (m_val m) (m_frac m) (m_dot m) (m_digits m) true s') s'
      else if is_char "." c && negb (m_dot m) then
        mantissa_loop base (mkMantissa (m_val m) (m_frac m) true (m_digits m) (m_under m) s') s'
      else
        match digit_val c with
        | Some d =>
            if d <? base then
              mantissa_loop base
                (mkMantissa (m_val m * base + d) (if m_dot m then m_frac m + 1 else m_frac m) (m_dot m) true
                   (m_under m) s') s'
            else mkMantissa (m_val m) (m_frac m) (m_dot m) (m_digits m) (m_under m) s
        | None => mkMantissa (m_val m) (m_frac m) (m_dot m) (m_digits m) (m_under m) s
        end
  end.

(** The digits of an exponent, which stop growing at 10000. *)
Fixpoint exponent_loop (e : Z) (under : bool) (s : string) : Z * bool * string :=
  match s with
  | EmptyString => (e, under, EmptyString)
  | String c s' =>
      if is_char "_" c then exponent_loop e true s'
      else if is_digit c then exponent_loop (if e <? 10000 then e * 10 + (byte_val c - 48) else e) under s'
      else (e, under, s)
  end.

(** The exponent after its letter: [None] when it is malformed. *)
Definition read_exponent (under : bool) (s : string) : option (Z * bool * string) :=
  let digits := drop_sign s in
  match s, digits with
  | String c _, String d _ =>
      if is_digit d then
        let '(e, under, rest) := exponent_loop 0 under digits in
        Some (if is_char "-" c then - e else e, under, rest)
      else None
  | _, _ => None
  end.

(** The number [v * 10 ^ e], or [v * 2 ^ e] when [hex], rounded once. *)
Definition scaled (hex neg : bool) (v e : Z) : float64 :=
  let b := if hex then 2 else 10 in
  match v with
  | Zpos p =>
      let f := if 0 <=? e then binary_normalize 53 1024 (Z.pos p * b ^ e) 0 false
               else constant p (Z.to_pos (b ^ (- e))) in
      if neg then SFopp f else f
  | _ => S754_zero neg
  end.

(** [readFloat] on a whole string. *)
Definition read_float (s : string) : option float64 :=
  let neg := match s with String c _ => is_char "-" c | EmptyString => false end in
  let t := drop_sign s in
  let '(hex, t) :=
    match t with
    | String "0" (String c (String _ _ as rest)) => if is_char "x" (lower c) then (true, rest) else (false, t)
    | _ => (false, t)
    end in
  let m := mantissa_loop (if hex then 16 else 10) (mkMantissa 0 0 false false false t) t in
  if negb (m_digits m) then None
  else
    let frac := if hex then 4 * m_frac m else m_frac m in
    let exp :=
      match m_rest m with
      | String c rest =>
          if is_char (if hex then "p" else "e") (lower c) then read_exponent (m_under m) rest
          else if hex then None else Some (0, m_under m, m_rest m)
      | EmptyString => if hex then None else Some (0, m_under m, EmptyString)
      end in
    match exp with
    | Some (e, under, EmptyString) =>
        if under && negb (underscoreOK s) then None else Some (scaled hex neg (m_val m) (e - frac))
    | _ => None
    end.

Definition is_inf (f : float64) : bool := match f with S754_infinity _ => true | _ => false end.

Definition parse_float (s : string) : parsed float64 :=
  match special s with
  | Some (f, n) => if (n =? String.length s)%nat then Val f else Bad ErrSyntax
  | None =>
      match read_float s with
      | None => Bad ErrSyntax
      | Some f => if is_inf f then Bad ErrRange else Val f
      end
  end.

Definition ParseFloat (s : string) : result float64 := with_name "ParseFloat" s (parse_float s).

(** ** Durations *)

Definition Second : Z := 1000000000.

(** [Duration.Seconds]. *)
Definition Seconds (d : Z) : float64 :=
  fadd (of_int (Z.quot d 1000000000)) (fdiv (of_int (Z.rem d 1000000000)) (of_int 1000000000)).

Definition unit_of (u : string) : option Z :=
  if String.eqb u "ns" then Some 1
  else if String.eqb u "us" then Some 1000
  else if String.eqb u (String "194" (String "181" "s")) then Some 1000
  else if String.eqb u (String "206" (String "188" "s")) then Some 1000
  else if String.eqb u "ms" then Some 1000000
  else if String.eqb u "s" then Some Second
  else if String.eqb u "m" then Some (60 * Second)
  else if String.eqb u "h" then Some (3600 * Second)
  else None.

(** [leadingInt]: [None] is overflow. *)
Fixpoint leadingInt (x : Z) (s : string) : option (Z * string) :=
  match s with
  | String c s' =>
      if is_digit c then
        if 2 ^ 63 / 10 <? x then None
        else if 2 ^ 63 <? x * 10 + (byte_val c - 48) then None
        else leadingInt (x * 10 + (byte_val c - 48)) s'
      else Some (x, s)
  | EmptyString => Some (x, s)
  end.

(** [leadingFraction]: digits that would overflow are dropped. *)
Fixpoint leadingFraction (x : Z) (scale : float64) (over : bool) (s : string) : Z * float64 * string :=
  match s with
  | String c s' =>
      if is_digit c then
        let y := x * 10 + (byte_val c - 48) in
        if over || ((2 ^ 63 - 1) / 10 <? x) || (2 ^ 63 <? y) then leadingFraction x scale true s'
        else leadingFraction y (fmul scale (of_int 10)) false s'
      else (x, scale, s)
  | EmptyString => (x, scale, s)
  end.

(** The unit: the bytes up to the next digit or point. *)
Fixpoint leading_unit (s : string) : string * string :=
  match s with
  | String c s' =>
      if is_digit c || is_char "." c then (EmptyString, s)
      else let '(u, rest) := leading_unit s' in (String c u, rest)
  | EmptyString => (EmptyString, EmptyString)
  end.

(** One number with its unit: its nanoseconds and what is left. *)
Definition duration_part (s : string) : option (Z * string) :=
  match leadingInt 0 s with
  | None => None
  | Some (v, s1) =>
      let pre := negb (String.length s1 =? String.length s)%nat in
      let '(f, scale, s2, post) :=
        match s1 with
        | String "." t =>
            let '(f, scale, t') := leadingFraction 0 one false t in
            (f, scale, t', negb (String.length t' =? String.length t)%nat)
        | _ => (0, one, s1, false)
        end in
      if negb pre && negb post then None
      else
        let '(u, s3) := leading_unit s2 in
        match unit_of u with
        | None => None
        | Some unit =>
            if 2 ^ 63 / unit <? v then None
            else
              let v := v * unit in
              let v := if 0 <? f then v + to_int64 (fmul (of_int f) (fdiv (of_int unit) scale)) else v in
              if 2 ^ 63 <? v then None else Some (v, s3)
        end
  end.

Fixpoint duration_loop (fuel : nat) (d : Z) (s : string) : option Z :=
  match s with
  | EmptyString => Some d
  | String _ _ =>
      match fuel with
      | O => None
      | S fuel =>
          match duration_part s with
          | None => None
          | Some (v, rest) => if 2 ^ 63 <? d + v then None else duration_loop fuel (d + v) rest
          end
      end
  end.

(** [time.ParseDuration], in nanoseconds.  Each part reads a byte, so the length
    of the string is enough fuel. *)
Definition parse_duration (s : string) : option Z :=
  let neg := match s with String c _ => is_char "-" c | EmptyString => false end in
  let t := drop_sign s in
  if String.eqb t "0" then Some 0
  else if String.eqb t EmptyString then None
  else
    match duration_loop (String.length t) 0 t with
    | None => None
    | Some d => if neg then Some (- d) else if 2 ^ 63 - 1 <? d then None else Some d
    end.

Definition ParseDuration (s : string) : result Z :=
  match parse_duration s with
  | Some d => Ok d
  | None => Err (Errorf ("time: invalid duration " +:+ quoted s))
  end.

(** ** The fuel of [parse_duration] is enough *)

Lemma leadingInt_length x s v r : leadingInt x s = Some (v, r) → (String.length r ≤ String.length s)%nat.
Proof.
  revert x. induction s as [|c s IH]; intros x; cbn [leadingInt]; [by intros [= _ <-]|].
  destruct (is_digit c); [|by intros [= _ <-]]. repeat case_match; try done.
  intros Hr%IH. simpl. lia.
Qed.

Lemma leadingFraction_length x sc o s v sc' r :
  leadingFraction x sc o s = (v, sc', r) → (String.length r ≤ String.length s)%nat.
Proof.
  revert x sc o. induction s as [|c s IH]; intros x sc o; cbn [leadingFraction]; [by intros [= _ _ <-]|].
  destruct (is_digit c); [|by intros [= _ _ <-]]. case_match; intros Hr%IH; simpl; lia.
Qed.

Lemma leading_unit_length s u r :
  leading_unit s = (u, r) → (String.length r + String.length u = String.length s)%nat.
Proof.
  revert u. induction s as [|c s IH]; intros u; cbn [leading_unit]; [by intros [= <- <-]|].
  destruct (is_digit c || is_char "." c); [by intros [= <- <-]|].
  destruct (leading_unit s) as [u' r'] eqn:E. intros [= <- <-]. specialize (IH u' eq_refl). simpl. lia.
Qed.

Lemma duration_part_length s v r : duration_part s = Some (v, r) → (String.length r < String.length s)%nat.
Proof.
  unfold duration_part. destruct (leadingInt 0 s) as [[n s1]|] eqn:H1; [|done].
  apply leadingInt_length in H1.
  assert (Hfrac : ∀ f sc s2 post,
    match s1 with
    | String "." t =>
        let '(f, scale, t') := leadingFraction 0 one false t in
        (f, scale, t', negb (String.length t' =? String.length t)%nat)
    | _ => (0, one, s1, false)
    end = (f, sc, s2, post) → (String.length s2 ≤ String.length s)%nat).
  { intros f sc s2 post. repeat case_match; intros; simplify_eq/=; try lia.
    match goal with H : leadingFraction _ _ _ _ = _ |- _ => apply leadingFraction_length in H end. lia. }
  destruct (match s1 with EmptyString => _ | String _ _ => _ end) as [[[f sc] s2] post] eqn:H2.
  specialize (Hfrac f sc s2 post eq_refl). destruct (_ && _); [done|].
  destruct (leading_unit s2) as [u s3] eqn:H3. apply leading_unit_length in H3.
  destruct (unit_of u) as [unit|] eqn:Hu; [|done]. destruct u as [|c u]; [done|]. simpl in H3.
  destruct (2 ^ 63 / unit <? n); [done|]. cbv zeta. destruct (2 ^ 63 <? _); [done|]. intros [= _ <-]. lia.
Qed.

Lemma duration_fuel n k d s :
  (String.length s ≤ n)%nat → duration_loop (n + k) d s = duration_loop n d s.
Proof.
  revert d s. induction n as [|n IH]; intros d [|c s] Hn; try (simpl in Hn; lia); [by destruct k|done|].
  cbn [Nat.add duration_loop]. destruct (duration_part (String c s)) as [[v r]|] eqn:E; [|done].
  apply duration_part_length in E. case_match; [done|]. apply IH. simpl in *. lia.
Qed.

(** ** Reading what was printed *)

Fixpoint all_digits (s : string) : bool :=
  match s with EmptyString => true | String c s' => is_digit c && all_digits s' end.

(** The number a string of digits continues. *)
Fixpoint decimal (v : Z) (s : string) : Z :=
  match s with EmptyString => v | String c s' => decimal (v * 10 + (byte_val c - 48)) s' end.

Lemma decimal_app v s t : decimal v (s +:+ t) = decimal (decimal v s) t.
Proof. revert v. induction s as [|c s IH]; intros v; [done|]. apply IH. Qed.

Lemma all_digits_app s t : all_digits (s +:+ t) = all_digits s && all_digits t.
Proof. induction s as [|c s IH]; [done|]. rewrite append_cons. cbn [all_digits]. by rewrite IH, andb_assoc. Qed.

Lemma pretty_N_char_digit x : (x < 10)%N → is_digit (pretty_N_char x) = true ∧ byte_val (pretty_N_char x) = 48 + Z.of_N x.
Proof.
  intros H. assert (x = 0 ∨ x = 1 ∨ x = 2 ∨ x = 3 ∨ x = 4 ∨ x = 5 ∨ x = 6 ∨ x = 7 ∨ x = 8 ∨ x = 9)%N as Hx by lia.
  by repeat destruct Hx as [->|Hx]; subst.
Qed.

Lemma pretty_N_go_digits x s :
  (0 < x)%N → ∃ c d, pretty_N_go x s = String c d +:+ s ∧ is_digit c = true ∧ byte_val c ≠ 48 ∧
    all_digits d = true ∧ decimal 0 (String c d) = Z.of_N x.
Proof.
  revert s. induction (N.lt_wf_0 x) as [x _ IH]; intros s Hx. rewrite pretty_N_go_step by done.
  destruct (pretty_N_char_digit (x `mod` 10)) as [Hd Hv]; [by apply N.mod_lt|].
  pose proof (N.div_mod x 10 ltac:(done)) as Hdm. destruct (decide (x < 10)%N) as [Hs|Hs].
  - rewrite N.div_small, pretty_N_go_0 by done. rewrite N.mod_small in * by done.
    eexists _, EmptyString. cbn [decimal all_digits]. rewrite Hv. split_and!; [done|done|lia|done|lia].
  - destruct (IH (x `div` 10)%N ltac:(apply N.div_lt; lia) (String (pretty_N_char (x `mod` 10)) s)) as
      (c & d & -> & Hc & Hn & Had & Hdec).
    { assert (1 ≤ x `div` 10)%N; [|lia]. apply N.div_le_lower_bound; lia. }
    exists c, (d +:+ String (pretty_N_char (x `mod` 10)) EmptyString). split_and!; [|done|done| |].
    + by rewrite !append_cons, append_assoc, append_cons, append_empty_l.
    + rewrite all_digits_app, Had. cbn [all_digits]. by rewrite Hd.
    + rewrite <-append_cons, decimal_app, Hdec. cbn [decimal]. rewrite Hv. lia.
Qed.

Lemma pretty_pos p :
  ∃ c d, pretty (N.pos p) = String c d ∧ is_digit c = true ∧ byte_val c ≠ 48 ∧ all_digits d = true ∧
    decimal 0 (String c d) = Z.pos p.
Proof.
  destruct (pretty_N_go_digits (N.pos p) EmptyString) as (c & d & Hg & H); [done|]. exists c, d. split; [|done].
  unfold pretty, pretty_N. rewrite decide_False by done. by rewrite Hg, append_empty_r.
Qed.

Lemma digit_not_char c a : is_digit c = true → is_digit a = false → is_char (String a EmptyString) c = false.
Proof. intros Hc Ha. apply String.eqb_neq. intros [= ->]. congruence. Qed.

Lemma mantissa_digits v f u r s b :
  all_digits s = true →
  mantissa_loop 10 (mkMantissa v f false b u r) s
  = mkMantissa (decimal v s) f false (b || negb (String.eqb s EmptyString)) u EmptyString.
Proof.
  revert v r b. induction s as [|c s IH]; intros v r b; cbn [all_digits mantissa_loop]; [by rewrite orb_false_r|].
  intros [Hc Hs]%andb_true_iff.
  assert (is_char "_" c = false ∧ is_char "." c = false ∧ digit_val c = Some (byte_val c - 48)) as (-> & -> & ->).
  { split_and!; [by apply digit_not_char..|]. unfold digit_val. by rewrite Hc. }
  cbn [andb m_val m_frac m_dot m_digits m_under]. unfold is_digit in Hc. apply andb_true_iff in Hc as [H1 H2].
  destruct (Z.ltb_spec (byte_val c - 48) 10); [|lia]. rewrite IH by done. cbn [decimal String.eqb]. by rewrite !orb_true_r.
Qed.

(** The first digit of a number that is printed. *)
Lemma leading_digit c (P : ascii → Prop) :
  is_digit c = true → byte_val c ≠ 48 → P "1"%char → P "2"%char → P "3"%char → P "4"%char → P "5"%char → P "6"%char →
  P "7"%char → P "8"%char → P "9"%char → P c.
Proof.
  intros Hd Hn ?????????. unfold is_digit in Hd. apply andb_true_iff in Hd as [Hl%Z.leb_le Hu%Z.leb_le].
  rewrite <-(ascii_N_embedding c). unfold byte_val in *.
  assert (N_of_ascii c = 49 ∨ N_of_ascii c = 50 ∨ N_of_ascii c = 51 ∨ N_of_ascii c = 52 ∨ N_of_ascii c = 53 ∨
    N_of_ascii c = 54 ∨ N_of_ascii c = 55 ∨ N_of_ascii c = 56 ∨ N_of_ascii c = 57)%N as Hx by lia.
  by repeat destruct Hx as [->|Hx]; rewrite ?Hx.
Qed.

Lemma read_float_pos c d :
  is_digit c = true → byte_val c ≠ 48 → all_digits d = true →
  read_float (String c d) = Some (scaled false false (decimal 0 (String c d)) 0) ∧
  read_float (String "-" (String c d)) = Some (scaled false true (decimal 0 (String c d)) 0) ∧
  special (String c d) = None ∧ special (String "-" (String c d)) = None.
Proof.
  intros Hc Hn Hd. assert (all_digits (String c d) = true) as Ha by (cbn [all_digits]; by rewrite Hc).
  pose proof (mantissa_digits 0 0 false (String c d) (String c d) false Ha) as Hm. revert Hm.
  generalize (decimal 0 (String c d)). intros v.
  pattern c. apply leading_digit; [done|done|..]; intros Hm; (split_and!; [| |reflexivity|reflexivity]); unfold read_float; cbn [is_char String.eqb Ascii.eqb Bool.eqb drop_sign orb];
    rewrite Hm; reflexivity.
Qed.

(** [ParseFloat] of the text of an integer is its conversion. *)
Lemma parse_float_pretty z : in_i64 z → parse_float (pretty z) = Val (of_int z).
Proof.
  intros Hz. assert (is_inf (of_int z) = false) as Hi.
  { destruct (of_int z) as [|s| |] eqn:E; try done. exfalso. revert E. apply of_int_finite. unfold in_i64 in Hz. lia. }
  destruct z as [|p|p]; [done| |].
  - change (pretty (Z.pos p)) with (pretty (N.pos p)). destruct (pretty_pos p) as (c & d & -> & Hc & Hn & Hd & Hv).
    destruct (read_float_pos c d Hc Hn Hd) as (H1 & _ & H3 & _). unfold parse_float. rewrite H3, H1, Hv.
    cbn [scaled]. change (0 <=? 0) with true. cbv iota. rewrite Z.pow_0_r, Z.mul_1_r. unfold of_int, binary_normalize in *.
    by rewrite Hi.
  - change (pretty (Z.neg p)) with ("-" +:+ pretty (N.pos p)). destruct (pretty_pos p) as (c & d & -> & Hc & Hn & Hd & Hv).
    destruct (read_float_pos c d Hc Hn Hd) as (_ & H2 & _ & H4). unfold parse_float.
    change ("-" +:+ String c d) with (String "-" (String c d)). rewrite H4, H2, Hv. cbn [scaled].
    change (0 <=? 0) with true. cbv iota. rewrite Z.pow_0_r, Z.mul_1_r. rewrite of_int_opp in *.
    unfold of_int, binary_normalize in *. by rewrite Hi.
Qed.

Lemma uint_loop_digits n s :
  all_digits s = true → 0 ≤ n → decimal n s < 2 ^ 64 → uint_loop 10 false n false s = Val (decimal n s, false).
Proof.
  revert n. induction s as [|c s IH]; intros n; cbn [all_digits uint_loop decimal]; [done|].
  intros [Hc Hs]%andb_true_iff Hn Hlt. cbn [andb]. unfold digit_val. rewrite Hc. unfold is_digit in Hc.
  apply andb_true_iff in Hc as [H1%Z.leb_le H2%Z.leb_le].
  assert (∀ v t, 0 ≤ v → all_digits t = true → v ≤ decimal v t) as Hm.
  { intros v t. revert v. induction t as [|a t IHt]; intros v Hv; cbn [all_digits decimal]; [lia|].
    intros [Ha Ht]%andb_true_iff. unfold is_digit in Ha. apply andb_true_iff in Ha as [Ha%Z.leb_le _].
    specialize (IHt (v * 10 + (byte_val a - 48)) ltac:(lia) Ht). lia. }
  specialize (Hm (n * 10 + (byte_val c - 48)) s ltac:(lia) Hs). unfold maxUint64.
  destruct (Z.leb_spec 10 (byte_val c - 48)); [lia|].
  change ((2 ^ 64 - 1) / 10) with 1844674407370955161. destruct (Z.leb_spec (1844674407370955161 + 1) n); [lia|].
  destruct (Z.ltb_spec (2 ^ 64 - 1) (n * 10 + (byte_val c - 48))); [lia|]. apply IH; [done|lia|done].
Qed.

(** [ParseInt] of the text of an integer is the integer. *)
Lemma parse_int_pretty z : in_i64 z → parse_int false (pretty z) = Val z.
Proof.
  unfold in_i64. intros Hz. destruct z as [|p|p]; [done| |].
  - change (pretty (Z.pos p)) with (pretty (N.pos p)). destruct (pretty_pos p) as (c & d & -> & Hc & Hn & Hd & Hv).
    assert (all_digits (String c d) = true) as Ha by (cbn [all_digits]; by rewrite Hc).
    pose proof (uint_loop_digits 0 (String c d) Ha ltac:(lia) ltac:(lia)) as Hu. rewrite Hv in Hu. revert Hu.
    pattern c. apply leading_digit; [done|done|..]; intros Hu; unfold parse_int, ParseUint;
      cbn [is_char String.eqb Ascii.eqb Bool.eqb drop_sign negb andb orb]; rewrite Hu; cbn [andb negb];
      (destruct (Z.leb_spec (2 ^ 63) (Z.pos p)); [lia|done]).
  - change (pretty (Z.neg p)) with ("-" +:+ pretty (N.pos p)). destruct (pretty_pos p) as (c & d & -> & Hc & Hn & Hd & Hv).
    assert (all_digits (String c d) = true) as Ha by (cbn [all_digits]; by rewrite Hc).
    pose proof (uint_loop_digits 0 (String c d) Ha ltac:(lia) ltac:(lia)) as Hu. rewrite Hv in Hu.
    change ("-" +:+ String c d) with (String "-" (String c d)). unfold parse_int, ParseUint.
    cbn [is_char String.eqb Ascii.eqb Bool.eqb drop_sign negb andb orb]. rewrite Hu. cbn [andb negb].
    destruct (Z.ltb_spec (2 ^ 63) (Z.pos p)); [lia|done].
Qed.

Lemma digit_val_nonneg c d : digit_val c = Some d → 0 ≤ d.
Proof.
  unfold digit_val, is_digit. repeat case_match; intros [= <-]; repeat match goal with H : _ && _ = true |- _ =>
    apply andb_true_iff in H as [?%Z.leb_le ?%Z.leb_le] end; lia.
Qed.

Lemma uint_loop_nonneg n u s m u' : 0 ≤ n → uint_loop 10 false n u s = Val (m, u') → 0 ≤ m.
Proof.
  revert n. induction s as [|c s IH]; intros n Hn; cbn [uint_loop andb]; [by intros [= <- _]|].
  destruct (digit_val c) as [d|] eqn:Hd; [|done]. apply digit_val_nonneg in Hd.
  repeat (case_match; [done|]). apply IH. lia.
Qed.

