(* ===== verification/Restart.v ===== *)
(** * Restarts: what a node finds on its disk

    A node that starts finds an empty data directory or what earlier runs left in
    it.  [used_disk] are the disks that come about this way: from an empty
    directory, by starting a store with [Open], successfully or not, by any
    sequence of operations under any faults, and by a process killed while it was
    writing an upload.  Every one of them satisfies what the
    theorems on [Open] ask of the disk, so a store opened on it is in order. *)

From S2P Require Import Prelude GoStrings Sha256 Errors Key Index FileSystem Store StoreSpec GoFloat Strconv.

#[local] Open Scope Z_scope.

(** ** Disks *)

(** Every content-addressed object has the content its key names. *)
Definition cas_at (f : files) (rt : path) : Prop :=
  ∀ key c t, valid_key key = true → f !! object_file rt NamespaceCAS key = Some (File c t) → Sha.digest c = key.

Record disk_ok (rt : path) (f : files) : Prop := {
  dk_wf : fs_wf f; dk_names : names_ok f rt; dk_tidy : tidy_at f rt; dk_cas : cas_at f rt }.

(** The disks a node can find: nothing below the root, or what runs left. *)
Inductive used_disk {Scan : SqlScan} (rt : path) : files → Prop :=
  | ud_new f :
      fs_wf f → (∀ q, q ≠ [] → f !! (rt ++ q) = None) → used_disk rt f
  | ud_failed env opts f f' e :
      used_disk rt f → Abs (oe_cwd env) (Root opts) = Ok rt → Open env opts f = (f', Err e) → used_disk rt f'
  | ud_run env opts f f' s s' :
      used_disk rt f → Abs (oe_cwd env) (Root opts) = Ok rt → Open env opts f = (f', Ok s) → rtc store_step s s' →
      used_disk rt (tree s')
  | ud_killed n c t f :
      used_disk rt f → is_dir f (rt ++ ["tmp"]) = true → f !! (rt ++ ["tmp"; tmpPrefix +:+ pretty (n : N)]) = None →
      used_disk rt (<[rt ++ ["tmp"; tmpPrefix +:+ pretty n] := File c t]> f).

(** ** Lemmas *)

(** *** Names of temporary files *)

Lemma digits_free s : all_digits s = true → free_of "/"%char s.
Proof.
  induction s as [|c s IH]; cbn [all_digits]; [intros _; apply not_elem_of_nil|]. intros [Hc Hs]%andb_true_iff.
  apply free_of_cons. split; [by intros <-|by apply IH].
Qed.

Lemma temp_name_free (n : N) : free_of "/"%char (tmpPrefix +:+ pretty n).
Proof.
  assert (free_of "/"%char (pretty n)) as H.
  { destruct n as [|p]; [vm_compute; set_solver|]. destruct (pretty_pos p) as (c & d & -> & Hc & _ & Hd & _).
    apply free_of_cons. split; [by intros <-|by apply digits_free]. }
  unfold tmpPrefix. rewrite !append_cons. repeat (apply free_of_cons; split; [done|]). exact H.
Qed.

Lemma ensure_names fault ns key s s' r :
  ns_Valid ns = true → valid_key key = true → ensure fault (ObjectPath (root s) ns key).1 s = (s', r) →
  ∀ n, tree s' !! (root s ++ ["tmp"; n]) = tree s !! (root s ++ ["tmp"; n]).
Proof.
  intros Hns Hk. unfold ensure. mrun. case_bool_decide; mrun; [by intros [= <- _]|].
  destruct (MkdirAll fault (tree s) _) as [f e] eqn:Hm. mrun. destruct (MkdirAll_spec _ _ _ _ _ Hm) as [Hg _].
  intros HE n. assert (tree s' = f) as -> by (destruct e; mrun_in HE; by injection HE as <- _).
  destruct (Hg (root s ++ ["tmp"; n])) as [|(_ & _ & Hp & _)]; [done|]. exfalso.
  rewrite ObjectPath_valid in Hp by done. cbn [fst] in Hp. apply prefix_app_inv in Hp.
  apply prefix_cons_inv_1 in Hp. by subst ns.
Qed.

Lemma object_not_temp rt ns key n : ns_Valid ns = true → valid_key key = true → object_file rt ns key ≠ rt ++ ["tmp"; n].
Proof.
  intros Hns Hk He. rewrite object_file_valid in He by done. apply (inj (rt ++.)) in He. by injection He as -> _.
Qed.

Lemma Put_names env ns key r dsz s :
  store_wf s → names_ok (tree s) (root s) → names_ok (tree (Put env ns key r dsz s).1) (root s).
Proof.
  intros Hwf Hok. destruct (Put_guards env ns key r dsz s) as [[e E]|(Hcl & Hns & Hk & s1 & r1 & He & E)]; [by rewrite E|].
  destruct (ensure_spec _ _ _ _ _ Hwf (shardDir_length _ _ _ Hns Hk) He) as (Hwf1 & (Hr & Ht & _) & _).
  rewrite E by done. pose proof (ensure_names _ _ _ _ _ _ Hns Hk He) as Hn.
  assert (names_ok (tree s1) (root s)) as Hok1 by (intros n x; rewrite Hn; apply Hok).
  destruct r1; [|done]. destruct (put_rest_cases env ns key r dsz s1 Hns Hk) as [(c & t & _ & _ & ->)|[_ ->]].
  - destruct (put_existing _ _ _ _ _ s1) as [s2 r2] eqn:H. apply put_existing_spec in H as ((_ & _ & _ & Htr) & _).
    intros n x. cbn [fst]. rewrite Htr. apply Hok1.
  - destruct (put_new _ _ _ _ _ _ s1) as [s2 r2] eqn:H.
    destruct (put_new_spec _ _ _ _ _ _ _ _ Hwf1 Hns Hk H) as (_ & _ & _ & Hres). cbn [fst]. intros n x. destruct r2 as [pr|e].
    + destruct Hres as (c & _ & Htr & _). rewrite Htr, Hr, lookup_insert_ne by (by apply object_not_temp). apply Hok1.
    + destruct Hres as (_ & Hq & _). destruct (decide (root s ++ ["tmp"; n] = temp_path s1 (pe_suffix env))) as [Hp|Hp].
      * unfold temp_path in Hp. rewrite Ht, (wf_tmp _ Hwf), <-(assoc_L (++)) in Hp. apply (inj (root s ++.)) in Hp.
        injection Hp as ->. intros _. apply temp_name_free.
      * rewrite Hq by done. apply Hok1.
Qed.

(** *** Operations *)

Definition shrunk (s s' : Store) : Prop := root s' = root s ∧ ∀ q x, tree s' !! q = Some x → tree s !! q = Some x.

Lemma same_disk_shrunk s s' : same_disk s s' → shrunk s s'.
Proof. intros ((Hr & _) & _ & _ & Ht). split; [done|]. intros q x. by rewrite Ht. Qed.

Lemma unlinked_shrunk s s' p : root s' = root s → tree s' = tree s ∨ tree s' = delete p (tree s) → shrunk s s'.
Proof.
  intros Hr [Ht|Ht]; (split; [done|]); intros q x; rewrite Ht; [done|]. by intros [_ ?]%lookup_delete_Some.
Qed.

Lemma Close_shrunk env rc wc s : shrunk s (Store.Close env rc wc s).1.
Proof.
  unfold Store.Close. mrun. destruct (closed s); mrun; [by split|]. destruct (index s); [|by split].
  unfold lift_index. destruct (Index.Close _ _ _ _). by split.
Qed.

Lemma step_names {Scan : SqlScan} s s' :
  store_step s s' → store_ok s → names_ok (tree s) (root s) → root s' = root s ∧ names_ok (tree s') (root s).
Proof.
  intros Hs Hok Hn. assert (shrunk s s' → root s' = root s ∧ names_ok (tree s') (root s)) as Hsh.
  { intros [Hr Ht]. split; [done|]. intros n x Hx. eapply Hn. by apply Ht. }
  destruct Hs as [env ns key r dsz s|env ns key s|f now ns key s|a b c ns key s|a b ns key s|o s|f o s|env s|f s|s|env rc wc s].
  - split; [|apply Put_names; [apply Hok|done]]. destruct (Put env ns key r dsz s) as [s' res] eqn:H.
    by destruct (Put_spec _ _ _ _ _ _ _ _ (ok_wf _ Hok) H) as (_ & (Hr & _) & _).
  - apply Hsh, same_disk_shrunk. destruct (Get env ns key s) eqn:HG. by apply Get_spec in HG as [? _].
  - apply Hsh, same_disk_shrunk, Stat_same.
  - apply Hsh. destruct (Delete a b c ns key s) as [s' res] eqn:H.
    destruct (Delete_spec _ _ _ _ _ _ _ _ (ok_wf _ Hok) H) as (_ & (Hr & _) & _ & Hres).
    apply (unlinked_shrunk _ _ (object_file (root s) ns key)); [done|]. destruct res; naive_solver.
  - apply Hsh. destruct (DeleteFile a b ns key s) as [s' res] eqn:H.
    destruct (DeleteFile_spec _ _ _ _ _ _ _ (ok_wf _ Hok) H) as (_ & (Hr & _) & _ & _ & Hres).
    apply (unlinked_shrunk _ _ (object_file (root s) ns key)); [done|]. destruct res; naive_solver.
  - apply Hsh, same_disk_shrunk, Verify_same.
  - apply Hsh, same_disk_shrunk, Object_Close_same.
  - apply Hsh, same_disk_shrunk, Reconcile_same.
  - apply Hsh, same_disk_shrunk, on_index_same.
  - by apply Hsh.
  - apply Hsh, Close_shrunk.
Qed.

Lemma store_disk_ok s : store_ok s → names_ok (tree s) (root s) → disk_ok (root s) (tree s).
Proof.
  intros [Hwf Hc Ht] Hn. split; [apply Hwf|done|done|]. intros key c t Hk Hf. apply Hc; [done|]. unfold view. by rewrite Hf.
Qed.

Lemma steps_disk_ok {Scan : SqlScan} s s' :
  rtc store_step s s' → store_ok s → names_ok (tree s) (root s) → root s' = root s ∧ disk_ok (root s) (tree s').
Proof.
  induction 1 as [s|s1 s2 s3 Hs _ IH]; intros Hok Hn; [split; [done|by apply store_disk_ok]|].
  destruct (step_names _ _ Hs Hok Hn) as [Hr Hn2]. rewrite <-Hr in Hn2 |- *. apply IH; [by eapply step_ok|done].
Qed.

(** *** Starting *)

Lemma disk_ok_from rt f f' :
  disk_ok rt f → fs_wf f' →
  (∀ q x, f' !! q = Some x → f !! q = Some x ∨ (x = Dir ∧ (length q ≤ length rt + 1)%nat)) → disk_ok rt f'.
Proof.
  intros [_ Hn Ht Hc] Hwf Hf. split; [done|..].
  - intros n x [H|[_ H]]%Hf; [by eapply Hn|]. rewrite length_app in H. simpl in H. lia.
  - intros ns sfx x key Hns [H|[-> _]]%Hf Hd; [by eapply Ht|done].
  - intros key c t Hk [H|[? _]]%Hf; [by eapply Hc|done].
Qed.

Lemma make_dirs_leaves rt fault f ds f' r :
  (∀ d, d ∈ ds → (length d ≤ length rt + 1)%nat) → make_dirs fault f ds = (f', r) → disk_ok rt f → disk_ok rt f'.
Proof.
  revert f. induction ds as [|d ds IH]; intros f Hd; cbn [make_dirs]; [by intros [= <- _]|].
  destruct (MkdirAll (fault d) f d) as [f1 e] eqn:Hm. intros H Hok.
  assert (disk_ok rt f1) as Hok1.
  { eapply disk_ok_from; [exact Hok|by eapply MkdirAll_wf; [apply Hok|]|]. intros q x Hx.
    destruct (proj1 (MkdirAll_spec _ _ _ _ _ Hm) q) as [E|(_ & E & Hp & _)]; [left; congruence|]. right.
    split; [congruence|]. apply prefix_length in Hp. specialize (Hd d ltac:(left)). lia. }
  destruct e as [e|]; [by injection H as <- _|]. apply (IH f1); [|done..]. intros d' Hd'. apply Hd. by right.
Qed.

Lemma sweepTemps_leaves rt rd rm s s' r :
  tmpDir s = rt ++ ["tmp"] → sweepTemps rd rm s = (s', r) → disk_ok rt (tree s) → disk_ok rt (tree s').
Proof.
  intros Ht H Hok. unfold sweepTemps in H. mrun_in H. destruct (ReadDir _ _ _) as [names|e] eqn:Hrd.
  2: { destruct (os_IsNotExist e); mrun_in H; by injection H as <- _. }
  destruct (sweep_names rm (tree s) (tmpDir s) names) as [f e] eqn:Hsw. mrun_in H.
  assert (tree s' = f) as -> by (destruct e; mrun_in H; by injection H as <- _).
  assert (∀ n, n ∈ names → free_of "/"%char n) as Hfree.
  { assert (names = children (tree s) (tmpDir s)) as ->.
    { unfold ReadDir in Hrd. destruct rd; [done|]. destruct (is_dir (tree s) _); [by injection Hrd|].
      destruct (tree s !! _); done. }
    intros n [x Hx]%elem_of_children. rewrite Ht, <-(assoc_L (++)) in Hx. by eapply (dk_names _ _ Hok). }
  destruct (sweep_names_spec _ _ _ _ _ _ (dk_wf _ _ Hok) Hfree Hsw) as (Hwf & _ & Hsub & _).
  eapply disk_ok_from; [exact Hok|done|]. intros q x Hx. left. by apply Hsub.
Qed.

Lemma top_dirs rt c : c ∈ ["tmp"; NamespaceCAS; NamespaceAC] → filepath_Join rt [c] = rt ++ [c].
Proof.
  intros Hc. apply filepath_Join_plain. constructor; [|constructor]. rewrite !elem_of_cons, elem_of_nil in Hc.
  destruct Hc as [->|[->|[->|[]]]]; (repeat split; try done); unfold free_of, sbytes; simpl; set_solver.
Qed.

(** However a start ends, it leaves the disk in order. *)
Lemma Open_leaves {Scan : SqlScan} env opts f f' r rt :
  Abs (oe_cwd env) (Root opts) = Ok rt → Open env opts f = (f', r) → disk_ok rt f → disk_ok rt f'.
Proof.
  intros Habs H Hok. unfold Open in H. destruct (String.eqb _ _); [by injection H as <- _|]. rewrite Habs in H.
  rewrite !top_dirs in H by set_solver. destruct (make_dirs _ f _) as [f1 e] eqn:Hm.
  assert (disk_ok rt f1) as Hok1.
  { eapply make_dirs_leaves; [|exact Hm|done]. intros d. rewrite !elem_of_cons, elem_of_nil.
    intros [->|[->|[->|[->|[]]]]]; rewrite ?length_app; simpl; lia. }
  destruct e as [e|]; [by injection H as <- _|]. destruct (sweepTemps _ _ _) as [s1 r1] eqn:Hs.
  assert (disk_ok rt (tree s1)) as Hok2 by (by eapply sweepTemps_leaves; [|exact Hs|]).
  destruct r1; [|by injection H as <- _]. destruct (DisableIndex opts); [by injection H as <- _|].
  destruct (OpenIndex _ _ _) as [i|]; [|by injection H as <- _].
  pose proof (Reconcile_same (oe_reconcile env) (set_index (Some i) s1)) as (_ & _ & _ & Ht).
  destruct (Reconcile _ _) as [s2 [rr|e]]; injection H as <- _; cbn [fst] in Ht; by rewrite Ht.
Qed.

(** A store opened on a disk in order is in order, with the names of its temporary
    files. *)
Lemma Open_ok {Scan : SqlScan} env opts f f' s rt :
  Abs (oe_cwd env) (Root opts) = Ok rt → Open env opts f = (f', Ok s) → disk_ok rt f →
  root s = rt ∧ Store.closed s = false ∧ store_ok s ∧ names_ok (tree s) rt.
Proof.
  intros Habs HO Hok. pose proof (Open_leaves _ _ _ _ _ _ Habs HO Hok) as Hok'.
  destruct (Open_limit _ _ _ _ _ HO) as (_ & -> & _). destruct Hok as [Hwf Hn Ht Hc].
  destruct (Open_disk _ _ _ _ _ _ Hwf Hn Ht Habs HO) as (Hr & Hcl & Hw & Hti & Hobj & _).
  split; [done|]. split; [done|]. split; [|apply Hok']. split; [done| |done]. intros key c Hk. unfold view.
  rewrite Hr. destruct (tree s !! _) as [[c' t| |]|] eqn:E; try done. intros [= <-]. by eapply (dk_cas _ _ Hok').
Qed.

(** An upload that was cut off is out of the objects' way. *)
Lemma killed_ok rt f (n : N) c t :
  disk_ok rt f → is_dir f (rt ++ ["tmp"]) = true → f !! (rt ++ ["tmp"; tmpPrefix +:+ pretty n]) = None →
  disk_ok rt (<[rt ++ ["tmp"; tmpPrefix +:+ pretty n] := File c t]> f).
Proof.
  intros [Hwf Hn Ht Hc] Hd Hfr. set (p := rt ++ ["tmp"; tmpPrefix +:+ pretty n]).
  split.
  - apply fs_wf_insert; [done|by unfold p; destruct rt| |unfold p; congruence]. unfold p, parent.
    rewrite length_app. cbn [length]. replace (pred (length rt + 2)) with (length rt + 1)%nat by lia.
    by rewrite take_app_add.
  - intros m x [[Hp _]|[_ Hx]]%lookup_insert_Some; [|by eapply Hn].
    unfold p in Hp. apply (inj (rt ++.)) in Hp. injection Hp as <-. apply temp_name_free.
  - intros ns sfx x key Hns [[Hp _]|[_ Hx]]%lookup_insert_Some Hx'; [|by eapply Ht].
    unfold p in Hp. apply (inj (rt ++.)) in Hp. injection Hp as <- _. done.
  - intros key c' t' Hk [[Hp _]|[_ Hx]]%lookup_insert_Some; [|by eapply Hc].
    symmetry in Hp. by apply object_not_temp in Hp.
Qed.

Lemma used_disk_ok {Scan : SqlScan} rt f : used_disk rt f → disk_ok rt f.
Proof.
  induction 1 as [f Hwf Hno|env opts f f' e _ IH Habs HO|env opts f f' s s' _ IH Habs HO Hs|n c t f _ IH Hd Hfr].
  - split; [done|..].
    + intros n x. by rewrite Hno.
    + intros ns sfx x key _. by rewrite Hno.
    + intros key c t Hk. rewrite object_file_valid by done. by rewrite Hno.
  - by eapply Open_leaves.
  - destruct (Open_ok _ _ _ _ _ _ Habs HO IH) as (<- & _ & Hok & Hn).
    by destruct (steps_disk_ok _ _ Hs Hok Hn) as [_ ?].
  - by apply killed_ok.
Qed.
