(* ===== verification/Fmt.v ===== *)
(** * Go's fmt

    What the commands use of the package to print a result: [%d], [%v], [%.Nf]
    with or without a width, and the program's own [humanBytes] over them.  [%.Nf]
    is exact: the binary value scaled by a power of ten and rounded half to even. *)

From Stdlib Require Import Floats.SpecFloat.
From S2P Require Import Prelude GoStrings Sha256 Errors GoFloat Strconv.

#[local] Open Scope Z_scope.

(** ** Numbers *)

(** The quotient of two integers, rounded half to even. *)
Definition round_even (n d : Z) : Z :=
  let q := n / d in
  let r := n mod d in
  if (d <? 2 * r) || ((2 * r =? d) && Z.odd q) then q + 1 else q.

(** A positive binary value in units of ten to the minus [n]. *)
Definition units (n : nat) (m : positive) (e : Z) : Z :=
  round_even (Z.pos m * 10 ^ Z.of_nat n * 2 ^ Z.max e 0) (2 ^ Z.max (- e) 0).

(** The last [n] digits of a number. *)
Fixpoint last_digits (n : nat) (q : Z) : string :=
  match n with
  | O => EmptyString
  | S n' => last_digits n' (q / 10) +:+ String (Sha.hex_digit (q mod 10)) EmptyString
  end.

Definition fixed_point (n : nat) (q : Z) : string :=
  pretty (q / 10 ^ Z.of_nat n) +:+ (if (0 <? n)%nat then "." +:+ last_digits n q else EmptyString).

(** [%.Nf] *)
Definition Fixed (n : nat) (x : float64) : string :=
  let sign (s : bool) := if s then "-" else EmptyString in
  match x with
  | S754_nan => "NaN"
  | S754_infinity s => (if s then "-" else "+") +:+ "Inf"
  | S754_zero s => sign s +:+ fixed_point n 0
  | S754_finite s m e => sign s +:+ fixed_point n (units n m e)
  end.

Fixpoint blanks (n : nat) : string := match n with O => EmptyString | S n' => String " " (blanks n') end.

(** A width, with the text at the right or at the left. *)
Definition pad_left (w : nat) (s : string) : string := blanks (w - String.length s) +:+ s.
Definition pad_right (w : nat) (s : string) : string := s +:+ blanks (w - String.length s).

(** [%v] of a boolean *)
Definition show_bool (b : bool) : string := if b then "true" else "false".

(** ** Sizes: humanBytes *)

Definition humanBytes (n : Z) : string :=
  if 2 ^ 30 <=? n then Fixed 1 (fdiv (of_int n) (of_int (2 ^ 30))) +:+ " GiB"
  else if 2 ^ 20 <=? n then Fixed 0 (fdiv (of_int n) (of_int (2 ^ 20))) +:+ " MiB"
  else if 2 ^ 10 <=? n then Fixed 0 (fdiv (of_int n) (of_int (2 ^ 10))) +:+ " KiB"
  else pretty n +:+ " B".

(** ** Lemmas *)

(** The number printed is the nearest with that many digits. *)
Lemma round_even_nearest n d : 0 < d → 2 * Z.abs (round_even n d * d - n) ≤ d.
Proof.
  intros Hd. unfold round_even. pose proof (Z.div_mod n d ltac:(lia)) as Hn. pose proof (Z.mod_pos_bound n d Hd) as Hr.
  destruct (Z.ltb_spec d (2 * (n mod d))); cbn [orb]; [lia|].
  destruct (Z.eqb_spec (2 * (n mod d)) d), (Z.odd (n / d)); cbn [andb]; lia.
Qed.

Lemma round_even_exact q d : 0 < d → round_even (q * d) d = q.
Proof.
  intros Hd. unfold round_even. rewrite Z.div_mul, Z.mod_mul by lia. destruct (Z.ltb_spec d (2 * 0)); [lia|].
  by destruct (Z.eqb_spec (2 * 0) d); [lia|].
Qed.

(** *** Characters of a text *)

Fixpoint all_chars (p : ascii → bool) (s : string) : bool :=
  match s with EmptyString => true | String c s' => p c && all_chars p s' end.

Lemma all_chars_app p s t : all_chars p (s +:+ t) = all_chars p s && all_chars p t.
Proof. induction s as [|c s IH]; [done|]. rewrite append_cons. cbn [all_chars]. by rewrite IH, andb_assoc. Qed.

Lemma all_chars_impl p q s : (∀ c, p c = true → q c = true) → all_chars p s = true → all_chars q s = true.
Proof.
  intros Hpq. induction s as [|c s IH]; [done|]. cbn [all_chars]. intros [Hc Hs]%andb_true_iff.
  rewrite (Hpq c Hc). by apply IH.
Qed.

Lemma all_chars_free p c s : all_chars p s = true → p c = false → free_of c s.
Proof.
  intros Hs Hc. induction s as [|d s IH]; [by intros ?%elem_of_nil|]. cbn [all_chars] in Hs.
  apply andb_true_iff in Hs as [Hd Hs]. apply free_of_cons. split; [congruence|by apply IH].
Qed.

(** No space, and not the separator of the columns of a table. *)
Definition solid (c : ascii) : bool := negb (is_space c) && negb (Ascii.eqb c "|").

Lemma solid_trimmed s : all_chars solid s = true → trimmed s.
Proof.
  intros Hs. unfold trimmed, TrimSpace. assert (TrimLeftSpace s = s) as ->.
  { destruct s as [|c s]; [done|]. cbn [all_chars] in Hs. apply andb_true_iff in Hs as [Hc _]. unfold solid in Hc.
    cbn [TrimLeftSpace]. by destruct (is_space c). }
  induction s as [|c s IH]; [done|]. cbn [all_chars] in Hs. apply andb_true_iff in Hs as [Hc Hs]. unfold solid in Hc.
  cbn [TrimRightFunc]. rewrite (IH Hs). destruct s; [by destruct (is_space c)|done].
Qed.

Lemma solid_digits s : all_digits s = true → all_chars solid s = true.
Proof.
  induction s as [|c s IH]; [done|]. cbn [all_digits all_chars]. intros [Hc Hs]%andb_true_iff. rewrite (IH Hs), andb_true_r.
  unfold is_digit in Hc. apply andb_true_iff in Hc as [H1%Z.leb_le H2%Z.leb_le]. unfold solid, is_space.
  destruct (Z.leb_spec (byte_val c) 13), (Z.eqb_spec (byte_val c) 32); try lia. rewrite andb_false_r. cbn [orb negb andb].
  destruct (Ascii.eqb_spec c "|"%char) as [->|]; [|done]. change (byte_val "|") with 124 in H2. lia.
Qed.

Lemma digits_pretty z : 0 ≤ z → all_digits (pretty z) = true.
Proof.
  intros Hz. destruct z as [|p|p]; [done| |lia]. change (pretty (Z.pos p)) with (pretty (N.pos p)).
  destruct (pretty_pos p) as (c & d & -> & Hc & _ & Hd & _). cbn [all_digits]. by rewrite Hc.
Qed.

Lemma solid_pretty (z : Z) : all_chars solid (pretty z) = true.
Proof.
  destruct (Z.leb_spec 0 z) as [Hz|Hz]; [by apply solid_digits, digits_pretty|]. destruct z as [|p|p]; [lia|lia|].
  change (pretty (Z.neg p)) with (String "-" (pretty (N.pos p))). cbn [all_chars]. change (solid "-") with true.
  by apply solid_digits, (digits_pretty (Z.pos p)).
Qed.

Lemma digits_last n q : all_digits (last_digits n q) = true.
Proof.
  revert q. induction n as [|n IH]; intros q; [done|]. cbn [last_digits]. rewrite all_digits_app, IH. cbn [all_digits andb].
  pose proof (Z.mod_pos_bound q 10 ltac:(lia)) as H. revert H. generalize (q mod 10). intros r Hr.
  assert (r = 0 ∨ r = 1 ∨ r = 2 ∨ r = 3 ∨ r = 4 ∨ r = 5 ∨ r = 6 ∨ r = 7 ∨ r = 8 ∨ r = 9) as Hx by lia.
  by repeat destruct Hx as [->|Hx]; subst.
Qed.

Lemma solid_fixed_point n q : all_chars solid (fixed_point n q) = true.
Proof.
  unfold fixed_point. rewrite all_chars_app, solid_pretty. destruct (0 <? n)%nat; [|done].
  rewrite all_chars_app. by apply solid_digits, digits_last.
Qed.

Lemma solid_Fixed n x : all_chars solid (Fixed n x) = true.
Proof. destruct x as [[]|[]| |[] m e]; cbn [Fixed]; rewrite ?all_chars_app, ?solid_fixed_point; done. Qed.

(** A text on one line. *)
Definition inline (c : ascii) : bool := negb (Ascii.eqb c "010").

Lemma solid_inline s : all_chars solid s = true → all_chars inline s = true.
Proof.
  apply all_chars_impl. intros c. unfold inline. destruct (Ascii.eqb_spec c "010") as [->|]; [|done]. by vm_compute.
Qed.

Lemma inline_pretty (z : Z) : all_chars inline (pretty z) = true.
Proof. apply solid_inline, solid_pretty. Qed.

Lemma inline_Fixed n x : all_chars inline (Fixed n x) = true.
Proof. apply solid_inline, solid_Fixed. Qed.

Lemma inline_humanBytes n : all_chars inline (humanBytes n) = true.
Proof.
  unfold humanBytes. repeat case_match; rewrite all_chars_app, ?inline_Fixed, ?inline_pretty; done.
Qed.
