(* ===== verification/Json.v ===== *)
(** * Go's encoding/json

    What the program uses of the package: the encoder of the stats page, with
    indentation, and the decoder into [map\[string\]any] with which cmd/chaos
    reads it.  A text is a string of bytes; a byte above 127 is copied by the
    encoder and the decoder, as in valid UTF-8. *)

From Stdlib Require Import Floats.SpecFloat.
From S2P Require Import Prelude GoStrings Sha256 Errors GoFloat Strconv.

#[local] Open Scope Z_scope.

(** ** Values *)

#[local] Unset Elimination Schemes.

(** What is encoded: numbers, booleans, strings, slices, and the fields of a
    struct or of a map in the order the encoder writes them. *)
Inductive gval :=
  | GNull | GBool (b : bool) | GInt (z : Z) | GFloat (f : float64) | GString (s : string)
  | GSlice (l : list gval) | GObject (l : list (string * gval)).

(** A text that has been scanned: a number is still its literal. *)
Inductive json :=
  | JNull | JBool (b : bool) | JNumber (lit : string) | JString (s : string)
  | JArray (l : list json) | JObject (l : list (string * json)).

(** A value of an interface: what a text is decoded to, or an integer that the
    program stored. *)
Inductive any :=
  | ANull | ABool (b : bool) | ANumber (f : float64) | AInt (z : Z) | AString (s : string)
  | AArray (l : list any) | AObject (l : list (string * any)).

#[local] Set Elimination Schemes.

Section gval_ind.
Context (P : gval → Prop).
Context (P_null : P GNull) (P_bool : ∀ b, P (GBool b)) (P_int : ∀ z, P (GInt z)) (P_float : ∀ f, P (GFloat f)).
Context (P_string : ∀ s, P (GString s)) (P_slice : ∀ l, Forall P l → P (GSlice l)).
Context (P_object : ∀ l, Forall (λ kv, P kv.2) l → P (GObject l)).

Fixpoint gval_ind (v : gval) : P v :=
  match v with
  | GNull => P_null
  | GBool b => P_bool b
  | GInt z => P_int z
  | GFloat f => P_float f
  | GString s => P_string s
  | GSlice l =>
      P_slice l ((fix go l : Forall P l :=
                    match l with
                    | [] => Forall_nil_2 _
                    | x :: l' => Forall_cons_2 _ _ _ (gval_ind x) (go l')
                    end) l)
  | GObject l =>
      P_object l ((fix go l : Forall (λ kv, P kv.2) l :=
                     match l with
                     | [] => Forall_nil_2 _
                     | x :: l' => Forall_cons_2 (λ kv, P kv.2) _ _ (gval_ind x.2) (go l')
                     end) l)
  end.
End gval_ind.

(** A map is written in the order of its keys. *)
Definition key_le (x y : string * gval) : Prop := String.leb x.1 y.1 = true.

#[export] Instance key_le_dec x y : Decision (key_le x y).
Proof. unfold key_le. apply _. Defined.

Definition of_map (m : gmap string gval) : gval := GObject (merge_sort key_le (map_to_list m)).

(** The value that decoding finds; of a key written twice the last value. *)
Fixpoint any_of (v : gval) : any :=
  match v with
  | GNull => ANull
  | GBool b => ABool b
  | GInt z => ANumber (of_int z)
  | GFloat f => ANumber f
  | GString s => AString s
  | GSlice l => AArray (any_of <$> l)
  | GObject l => AObject (prod_map id any_of <$> l)
  end.

(** The text's structure; [fmt] is the text of a float64. *)
Fixpoint json_of (fmt : float64 → string) (v : gval) : json :=
  match v with
  | GNull => JNull
  | GBool b => JBool b
  | GInt z => JNumber (pretty z)
  | GFloat f => JNumber (fmt f)
  | GString s => JString s
  | GSlice l => JArray (json_of fmt <$> l)
  | GObject l => JObject (prod_map id (json_of fmt) <$> l)
  end.

Fixpoint field {A} (k : string) (l : list (string * A)) : option A :=
  match l with
  | [] => None
  | (k', v) :: l' => match field k l' with Some v' => Some v' | None => if String.eqb k k' then Some v else None end
  end.

(** ** Encoding *)

(** One byte of a string, with HTML escaping. *)
Definition escape (c : ascii) : string :=
  let v := byte_val c in
  if (v =? 34) || (v =? 92) then String "\" (String c EmptyString)
  else if v =? 8 then "\b"
  else if v =? 12 then "\f"
  else if v =? 10 then "\n"
  else if v =? 13 then "\r"
  else if v =? 9 then "\t"
  else if (v <? 32) || (v =? 60) || (v =? 62) || (v =? 38)
  then "\u00" +:+ String (Sha.hex_digit (v / 16)) (String (Sha.hex_digit (v mod 16)) EmptyString)
  else String c EmptyString.

Fixpoint escape_all (s : string) : string :=
  match s with EmptyString => EmptyString | String c s' => escape c +:+ escape_all s' end.

Definition quote_char : ascii := "034".

Definition quote (s : string) : string := String quote_char (escape_all s +:+ String quote_char EmptyString).

Fixpoint spaces (n : nat) : string :=
  match n with O => EmptyString | S n' => String " " (String " " (spaces n')) end.

(** A new line at a depth, with two spaces for each level. *)
Definition new_line (n : nat) : string := String "010" (spaces n).

Fixpoint commas (l : list string) : string :=
  match l with
  | [] => EmptyString
  | [x] => x
  | x :: l' => x +:+ "," +:+ commas l'
  end.

(** [Encode] with [SetIndent] of two spaces. *)
Fixpoint encode (fmt : float64 → string) (n : nat) (v : gval) : string :=
  match v with
  | GNull => "null"
  | GBool true => "true"
  | GBool false => "false"
  | GInt z => pretty z
  | GFloat f => fmt f
  | GString s => quote s
  | GSlice [] => "[]"
  | GSlice l => "[" +:+ commas ((λ x, new_line (S n) +:+ encode fmt (S n) x) <$> l) +:+ new_line n +:+ "]"
  | GObject [] => "{}"
  | GObject l =>
      "{" +:+ commas ((λ kv, new_line (S n) +:+ quote kv.1 +:+ ": " +:+ encode fmt (S n) kv.2) <$> l)
          +:+ new_line n +:+ "}"
  end.

Definition Encode (fmt : float64 → string) (v : gval) : string := encode fmt 0 v +:+ new_line 0.

(** [Encode] without an indent. *)
Fixpoint compact (fmt : float64 → string) (v : gval) : string :=
  match v with
  | GSlice l => "[" +:+ commas (compact fmt <$> l) +:+ "]"
  | GObject l => "{" +:+ commas ((λ kv, quote kv.1 +:+ ":" +:+ compact fmt kv.2) <$> l) +:+ "}"
  | v => encode fmt 0 v
  end.

(** A floating point number that has no JSON: the first in the order of writing. *)
Fixpoint unsupported (v : gval) : option float64 :=
  match v with
  | GFloat (S754_nan as f) | GFloat (S754_infinity _ as f) => Some f
  | GSlice l => foldr (λ x r, match unsupported x with Some f => Some f | None => r end) None l
  | GObject l => foldr (λ kv r, match unsupported kv.2 with Some f => Some f | None => r end) None l
  | _ => None
  end.

Definition unsupported_text (f : float64) : string :=
  match f with
  | S754_infinity true => "-Inf"
  | S754_infinity false => "+Inf"
  | _ => "NaN"
  end.

(** [MarshalIndent] with two spaces. *)
Definition MarshalIndent (fmt : float64 → string) (v : gval) : result string :=
  match unsupported v with
  | Some f => Err (Errorf ("json: unsupported value: " +:+ unsupported_text f))
  | None => Ok (encode fmt 0 v)
  end.

(** ** Decoding *)

Definition is_space (c : ascii) : bool :=
  let v := byte_val c in (v =? 32) || (v =? 9) || (v =? 13) || (v =? 10).

Fixpoint skip (s : string) : string :=
  match s with String c s' => if is_space c then skip s' else s | EmptyString => EmptyString end.

(** The text after a literal. *)
Fixpoint after (lit s : string) : option string :=
  match lit, s with
  | EmptyString, _ => Some s
  | String a lit', String b s' => if Ascii.eqb a b then after lit' s' else None
  | _, _ => None
  end.

Fixpoint span_digits (s : string) : string * string :=
  match s with
  | String c s' => if is_digit c then let '(d, r) := span_digits s' in (String c d, r) else (EmptyString, s)
  | EmptyString => (EmptyString, EmptyString)
  end.

(** One or more digits. *)
Definition some_digits (s : string) : option (string * string) :=
  let '(d, r) := span_digits s in if String.eqb d EmptyString then None else Some (d, r).

(** The text after a byte. *)
Definition expect (v : Z) (s : string) : option string :=
  match s with String c r => if byte_val c =? v then Some r else None | EmptyString => None end.

Definition scan_sign (s : string) : string * string :=
  match expect 45 s with Some r => ("-", r) | None => (EmptyString, s) end.

Definition scan_int (s : string) : option (string * string) :=
  match expect 48 s with Some r => Some ("0", r) | None => some_digits s end.

Definition scan_frac (s : string) : option (string * string) :=
  match expect 46 s with
  | Some r => '(d, r') ← some_digits r; Some (String "." d, r')
  | None => Some (EmptyString, s)
  end.

Definition scan_exp (s : string) : option (string * string) :=
  match s with
  | String c r =>
      if (byte_val c =? 101) || (byte_val c =? 69) then
        let '(sg, r) := match expect 43 r with Some r' => ("+", r') | None => scan_sign r end in
        '(d, r') ← some_digits r; Some (String c (sg +:+ d), r')
      else Some (EmptyString, s)
  | EmptyString => Some (EmptyString, s)
  end.

(** A number literal and the text after it. *)
Definition scan_number (s : string) : option (string * string) :=
  let '(sg, r) := scan_sign s in
  '(i, r1) ← scan_int r;
  '(f, r2) ← scan_frac r1;
  '(e, r3) ← scan_exp r2;
  Some (sg +:+ i +:+ f +:+ e, r3).

Definition hex_val (c : ascii) : option Z :=
  let v := byte_val c in
  if (48 <=? v) && (v <=? 57) then Some (v - 48)
  else if (97 <=? v) && (v <=? 102) then Some (v - 87)
  else if (65 <=? v) && (v <=? 70) then Some (v - 55)
  else None.

Definition hex4 (a b c d : ascii) : option Z :=
  x ← hex_val a; y ← hex_val b; z ← hex_val c; t ← hex_val d;
  Some (((x * 16 + y) * 16 + z) * 16 + t).

Definition byte_of (v : Z) : ascii := ascii_of_N (Z.to_N v).

(** [utf8.AppendRune]. *)
Definition utf8 (r : Z) : string :=
  if r <? 128 then String (byte_of r) EmptyString
  else if r <? 2048 then String (byte_of (192 + r / 64)) (String (byte_of (128 + r mod 64)) EmptyString)
  else if r <? 65536 then
    String (byte_of (224 + r / 4096))
      (String (byte_of (128 + r / 64 mod 64)) (String (byte_of (128 + r mod 64)) EmptyString))
  else
    String (byte_of (240 + r / 262144))
      (String (byte_of (128 + r / 4096 mod 64))
         (String (byte_of (128 + r / 64 mod 64)) (String (byte_of (128 + r mod 64)) EmptyString))).

Definition surrogate (r : Z) : bool := (55296 <=? r) && (r <? 57344).

(** [utf16.DecodeRune] on two halves. *)
Definition decode_pair (h l : Z) : option Z :=
  if (55296 <=? h) && (h <? 56320) && (56320 <=? l) && (l <? 57344)
  then Some ((h - 55296) * 1024 + (l - 56320) + 65536) else None.

(** What a half without its other half becomes. *)
Definition lone (half : option Z) : string := match half with Some _ => utf8 65533 | None => EmptyString end.

Definition simple_escape (e : ascii) : option ascii :=
  let v := byte_val e in
  if (v =? 34) || (v =? 92) || (v =? 47) then Some e
  else if v =? 98 then Some (byte_of 8)
  else if v =? 102 then Some (byte_of 12)
  else if v =? 110 then Some (byte_of 10)
  else if v =? 114 then Some (byte_of 13)
  else if v =? 116 then Some (byte_of 9)
  else None.

Definition prepend (t : string) (o : option (string * string)) : option (string * string) :=
  '(s, r) ← o; Some (t +:+ s, r).

(** A string after its opening quote: its value and the text after the closing
    quote; [half] is half of a surrogate pair. *)
Fixpoint unquote (half : option Z) (s : string) : option (string * string) :=
  match s with
  | EmptyString => None
  | String c s1 =>
      let v := byte_val c in
      if v =? 34 then Some (lone half, s1)
      else if v =? 92 then
        match s1 with
        | EmptyString => None
        | String e s2 =>
            if byte_val e =? 117 then
              match s2 with
              | String a (String b (String c' (String d s3))) =>
                  match hex4 a b c' d with
                  | None => None
                  | Some r =>
                      match (h ← half; decode_pair h r) with
                      | Some x => prepend (utf8 x) (unquote None s3)
                      | None =>
                          if surrogate r then prepend (lone half) (unquote (Some r) s3)
                          else prepend (lone half +:+ utf8 r) (unquote None s3)
                      end
                  end
              | _ => None
              end
            else
              match simple_escape e with
              | None => None
              | Some c' => prepend (lone half +:+ String c' EmptyString) (unquote None s2)
              end
        end
      else if v <? 32 then None
      else prepend (lone half +:+ String c EmptyString) (unquote None s1)
  end.

Definition maxNestingDepth : Z := 10000.

(** A number literal as a value. *)
Definition parse_number (s : string) : option (json * string) :=
  '(t, r) ← scan_number s; Some (JNumber t, r).

(** A value and the text after it, the fields of an object and the elements of an
    array after the opening bracket; [None] is a syntax error. *)
Fixpoint parse_value (fuel : nat) (depth : Z) (s : string) : option (json * string) :=
  match fuel, s with
  | O, _ | _, EmptyString => None
  | S fuel, String c r =>
      let v := byte_val c in
      if v =? 123 then
        if maxNestingDepth <=? depth then None
        else match expect 125 (skip r) with
             | Some r' => Some (JObject [], r')
             | None => '(l, r') ← parse_fields fuel (depth + 1) (skip r); Some (JObject l, r')
             end
      else if v =? 91 then
        if maxNestingDepth <=? depth then None
        else match expect 93 (skip r) with
             | Some r' => Some (JArray [], r')
             | None => '(l, r') ← parse_elements fuel (depth + 1) (skip r); Some (JArray l, r')
             end
      else if v =? 34 then '(t, r') ← unquote None r; Some (JString t, r')
      else if v =? 116 then r' ← after "rue" r; Some (JBool true, r')
      else if v =? 102 then r' ← after "alse" r; Some (JBool false, r')
      else if v =? 110 then r' ← after "ull" r; Some (JNull, r')
      else parse_number s
  end
with parse_fields (fuel : nat) (depth : Z) (s : string) : option (list (string * json) * string) :=
  match fuel with
  | O => None
  | S fuel =>
      r ← expect 34 s;
      '(k, r1) ← unquote None r;
      r2 ← expect 58 (skip r1);
      '(v, r3) ← parse_value fuel depth (skip r2);
      match expect 44 (skip r3) with
      | Some r4 => '(l, r5) ← parse_fields fuel depth (skip r4); Some ((k, v) :: l, r5)
      | None => r4 ← expect 125 (skip r3); Some ([(k, v)], r4)
      end
  end
with parse_elements (fuel : nat) (depth : Z) (s : string) : option (list json * string) :=
  match fuel with
  | O => None
  | S fuel =>
      '(v, r) ← parse_value fuel depth s;
      match expect 44 (skip r) with
      | Some r1 => '(l, r2) ← parse_elements fuel depth (skip r1); Some (v :: l, r2)
      | None => r1 ← expect 93 (skip r); Some ([v], r1)
      end
  end.

(** Enough fuel for a text: two calls for each byte. *)
Definition fuel_for (s : string) : nat := S (S (2 * String.length s)).

(** A function that may fail, on every element. *)
Definition traverse {A B} (f : A → option B) : list A → option (list B) :=
  fix go l := match l with [] => Some [] | x :: l' => y ← f x; ys ← go l'; Some (y :: ys) end.

(** A scanned text as the value of an interface; [None] is a number out of range. *)
Fixpoint to_any (j : json) : option any :=
  match j with
  | JNull => Some ANull
  | JBool b => Some (ABool b)
  | JNumber t => match parse_float t with Val f => Some (ANumber f) | Bad _ => None end
  | JString s => Some (AString s)
  | JArray l => AArray <$> traverse to_any l
  | JObject l => AObject <$> traverse (λ kv, v ← to_any kv.2; Some (kv.1, v)) l
  end.

(** The first value of a text, as a [Decoder] reads it. *)
Definition first_value (s : string) : option json := fst <$> parse_value (fuel_for s) 0 (skip s).

(** [Decode] of the first value of a text into a [map\[string\]any]: the fields,
    none for null, or an error. *)
Definition Decode (s : string) : option (list (string * any)) :=
  j ← first_value s;
  v ← to_any j;
  match v with AObject l => Some l | ANull => Some [] | _ => None end.

(** [Unmarshal]: the text is one value. *)
Definition Unmarshal (s : string) : option json :=
  '(j, r) ← parse_value (fuel_for s) 0 (skip s);
  if String.eqb (skip r) EmptyString then Some j else None.

(** ** Lemmas *)

#[global] Arguments maxNestingDepth : simpl never.

Lemma skip_length s : (String.length (skip s) ≤ String.length s)%nat.
Proof. induction s as [|c s IH]; cbn [skip]; [done|]. destruct (is_space c); cbn [String.length]; lia. Qed.

Lemma expect_length v s r : expect v s = Some r → String.length s = S (String.length r).
Proof. destruct s as [|c s]; [done|]. cbn [expect]. destruct (_ =? _); [by intros [= ->]|done]. Qed.

Lemma after_length l s r : after l s = Some r → (String.length r ≤ String.length s)%nat.
Proof.
  revert s. induction l as [|a l IH]; intros s; cbn [after]; [intros [= ->]; done|].
  destruct s as [|b s]; [done|]. destruct (Ascii.eqb a b); [|done]. intros H%IH. cbn [String.length]. lia.
Qed.

Lemma unquote_length n half s t r :
  (String.length s ≤ n)%nat → unquote half s = Some (t, r) → (String.length r < String.length s)%nat.
Proof.
  revert half s t. induction n as [|n IH]; intros half [|c s] t Hn; cbn [String.length] in Hn; [done|lia|done|].
  assert (∀ p h s' q, (String.length s' ≤ String.length s)%nat → prepend p (unquote h s') = Some (q, r) →
    (String.length r < String.length (String c s))%nat) as Hrec.
  { intros p h s' q Hle. unfold prepend. destruct (unquote h s') as [[u r']|] eqn:E; cbn; [|done].
    intros [= _ ->]. apply IH in E; lia. }
  cbn [unquote]. destruct (_ =? 34); [intros [= _ ->]; cbn; lia|]. destruct (_ =? 92).
  2: { destruct (_ <? 32); [done|]. by apply Hrec. }
  destruct s as [|e s]; [done|]. destruct (_ =? 117).
  2: { destruct (simple_escape e); [|done]. apply Hrec. cbn; lia. }
  destruct s as [|a [|b [|d [|f s]]]]; try done. destruct (hex4 a b d f); [|done].
  destruct (half ≫= _); [apply Hrec; cbn; lia|]. destruct (surrogate _); apply Hrec; cbn; lia.
Qed.

Lemma span_digits_length s d r : span_digits s = (d, r) → (String.length d + String.length r = String.length s)%nat.
Proof.
  revert d r. induction s as [|c s IH]; intros d r; cbn [span_digits]; [by intros [= <- <-]|].
  destruct (is_digit c); [|by intros [= <- <-]]. destruct (span_digits s) as [d' r'] eqn:E. intros [= <- <-].
  specialize (IH _ _ eq_refl). cbn [String.length]. lia.
Qed.

Lemma some_digits_length s d r : some_digits s = Some (d, r) → (String.length r < String.length s)%nat.
Proof.
  unfold some_digits. destruct (span_digits s) as [d' r'] eqn:E. apply span_digits_length in E.
  destruct d' as [|c d']; [done|]. cbn. intros [= _ <-]. cbn [String.length] in E. lia.
Qed.

Lemma scan_number_length s t r : scan_number s = Some (t, r) → (String.length r < String.length s)%nat.
Proof.
  unfold scan_number. destruct (scan_sign s) as [sg r0] eqn:E0.
  assert (String.length r0 ≤ String.length s)%nat as H0.
  { revert E0. unfold scan_sign. destruct (expect 45 s) as [r'|] eqn:E; intros [= _ <-]; [|done].
    apply expect_length in E. lia. }
  destruct (scan_int r0) as [[i r1]|] eqn:E1; cbn [mbind option_bind]; [|done].
  assert (String.length r1 < String.length r0)%nat as H1.
  { revert E1. unfold scan_int. destruct (expect 48 r0) as [r'|] eqn:E.
    - intros [= _ <-]. apply expect_length in E. lia.
    - by intros H%some_digits_length. }
  destruct (scan_frac r1) as [[f r2]|] eqn:E2; cbn [mbind option_bind]; [|done].
  assert (String.length r2 ≤ String.length r1)%nat as H2.
  { revert E2. unfold scan_frac. destruct (expect 46 r1) as [r'|] eqn:E; [|by intros [= _ <-]].
    apply expect_length in E. destruct (some_digits r') as [[d r'']|] eqn:Ed; cbn; [|done]. intros [= _ <-].
    apply some_digits_length in Ed. lia. }
  destruct (scan_exp r2) as [[e r3]|] eqn:E3; cbn [mbind option_bind]; [|done].
  assert (String.length r3 ≤ String.length r2)%nat as H3; [|intros [= _ <-]; lia].
  revert E3. unfold scan_exp. destruct r2 as [|c r2]; [by intros [= _ <-]|]. destruct (_ || _); [|by intros [= _ <-]].
  destruct (match expect 43 r2 with Some r' => _ | None => _ end) as [sg' r'] eqn:Es.
  assert (String.length r' ≤ String.length r2)%nat as Hs.
  { revert Es. unfold scan_sign. destruct (expect 43 r2) as [r''|] eqn:E.
    - intros [= _ <-]. apply expect_length in E. lia.
    - destruct (expect 45 r2) as [r''|] eqn:E'; intros [= _ <-]; [|done]. apply expect_length in E'. lia. }
  destruct (some_digits r') as [[d r'']|] eqn:Ed; cbn; [|done]. intros [= _ <-]. apply some_digits_length in Ed. lia.
Qed.

(** A parser returns less text than it was given. *)
Definition shrinks {A} (s : string) (o : option (A * string)) : Prop :=
  match o with Some (_, r) => (String.length r < String.length s)%nat | None => True end.

Lemma shrinks_bind {A B} s s' (o : option (A * string)) (f : A * string → option (B * string)) :
  shrinks s' o → (String.length s' ≤ String.length s)%nat →
  (∀ a r, (String.length r < String.length s)%nat → shrinks s (f (a, r))) → shrinks s (o ≫= f).
Proof. destruct o as [[a r]|]; cbn; [|done]. intros H Hl Hf. apply Hf. lia. Qed.

Lemma shrinks_unquote s : shrinks s (unquote None s).
Proof. destruct (unquote None s) as [[t r]|] eqn:E; [|done]. by apply (unquote_length _ _ _ _ _ (reflexivity _)) in E. Qed.

Lemma expect_shrinks {A} v s s' (f : string → option (A * string)) :
  (String.length s' ≤ String.length s)%nat →
  (∀ r, (String.length r < String.length s)%nat → shrinks s (f r)) → shrinks s (expect v s' ≫= f).
Proof. destruct (expect v s') as [r|] eqn:E; cbn; [|done]. apply expect_length in E. intros Hl Hf. apply Hf. lia. Qed.

Lemma parse_shrinks n :
  (∀ depth s, shrinks s (parse_value n depth s)) ∧ (∀ depth s, shrinks s (parse_fields n depth s)) ∧
  (∀ depth s, shrinks s (parse_elements n depth s)).
Proof.
  induction n as [|n (IHv & IHf & IHe)]; [done|]. split_and!; intros depth s.
  - destruct s as [|c s]; [done|]. cbn [parse_value]. pose proof (skip_length s).
    repeat match goal with
    | |- shrinks _ (if _ then None else _) => case_match; [done|]
    | |- shrinks _ (match expect ?v ?t with _ => _ end) => destruct (expect v t) eqn:E; [apply expect_length in E; cbn; lia|]
    | |- shrinks _ (if _ then _ else _) => case_match
    end.
    + eapply shrinks_bind; [apply IHf|cbn; lia|done].
    + eapply shrinks_bind; [apply IHe|cbn; lia|done].
    + eapply shrinks_bind; [apply shrinks_unquote|cbn; lia|done].
    + destruct (after "rue" s) eqn:E; cbn; [|done]. apply after_length in E. lia.
    + destruct (after "alse" s) eqn:E; cbn; [|done]. apply after_length in E. lia.
    + destruct (after "ull" s) eqn:E; cbn; [|done]. apply after_length in E. lia.
    + unfold parse_number. destruct (scan_number _) as [[t r]|] eqn:E; cbn; [|done]. by apply scan_number_length in E.
  - cbn [parse_fields]. apply expect_shrinks; [done|]. intros r Hr.
    eapply shrinks_bind; [apply shrinks_unquote|lia|]. intros k r1 Hr1. pose proof (skip_length r1).
    apply expect_shrinks; [lia|]. intros r2 Hr2. pose proof (skip_length r2).
    eapply shrinks_bind; [apply IHv|lia|]. intros v r3 Hr3. pose proof (skip_length r3).
    destruct (expect 44 (skip r3)) as [r4|] eqn:E; [|by apply expect_shrinks; [lia|]].
    apply expect_length in E. pose proof (skip_length r4). eapply shrinks_bind; [apply IHf|lia|done].
  - cbn [parse_elements]. eapply shrinks_bind; [apply IHv|done|]. intros v r Hr. pose proof (skip_length r).
    destruct (expect 44 (skip r)) as [r1|] eqn:E; [|by apply expect_shrinks; [lia|]].
    apply expect_length in E. pose proof (skip_length r1). eapply shrinks_bind; [apply IHe|lia|done].
Qed.

Lemma bind_ext_shrinks {A B} s (o o' : option (A * string)) (f g : A * string → option B) :
  o = o' → shrinks s o → (∀ a r, (String.length r < String.length s)%nat → f (a, r) = g (a, r)) → o ≫= f = o' ≫= g.
Proof. intros <-. destruct o as [[a r]|]; cbn; [|done]. intros Hr Hf. by apply Hf. Qed.

(** More fuel than two calls for each byte changes nothing. *)
Lemma parse_fuel n m :
  (∀ depth s, (2 * String.length s < n)%nat → (2 * String.length s < m)%nat →
     parse_value n depth s = parse_value m depth s) ∧
  (∀ depth s, (2 * String.length s < n)%nat → (2 * String.length s < m)%nat →
     parse_fields n depth s = parse_fields m depth s) ∧
  (∀ depth s, (2 * String.length s + 1 < n)%nat → (2 * String.length s + 1 < m)%nat →
     parse_elements n depth s = parse_elements m depth s).
Proof.
  revert m. induction n as [|n IH]; intros m; [split_and!; intros; lia|].
  destruct m as [|m]; [split_and!; intros; lia|]. destruct (IH m) as (IHv & IHf & IHe).
  destruct (parse_shrinks n) as (Sv & Sf & Se). split_and!; intros depth s Hn Hm.
  - destruct s as [|c s]; [done|]. cbn [parse_value]. cbn [String.length] in *. pose proof (skip_length s).
    repeat case_match; try done; [rewrite IHf by lia|rewrite IHe by lia]; done.
  - cbn [parse_fields]. destruct (expect 34 s) as [r|] eqn:E; cbn [mbind option_bind]; [|done]. apply expect_length in E.
    eapply bind_ext_shrinks; [done|apply shrinks_unquote|]. intros k r1 Hr1. pose proof (skip_length r1).
    destruct (expect 58 (skip r1)) as [r2|] eqn:E2; cbn [mbind option_bind]; [|done]. apply expect_length in E2.
    pose proof (skip_length r2). eapply bind_ext_shrinks; [apply IHv; lia|apply Sv|]. intros v r3 Hr3.
    pose proof (skip_length r3). destruct (expect 44 (skip r3)) as [r4|] eqn:E4; [|done]. apply expect_length in E4.
    pose proof (skip_length r4). by rewrite IHf by lia.
  - cbn [parse_elements]. eapply bind_ext_shrinks; [apply IHv; lia|apply Sv|]. intros v r Hr. pose proof (skip_length r).
    destruct (expect 44 (skip r)) as [r1|] eqn:E1; [|done]. apply expect_length in E1. pose proof (skip_length r1).
    by rewrite IHe by lia.
Qed.

(** *** Reading back a number *)

(** A text that does not continue a number. *)
Definition ends (s : string) : bool :=
  match s with
  | EmptyString => true
  | String c _ =>
      negb (is_digit c || (byte_val c =? 46) || (byte_val c =? 101) || (byte_val c =? 69))
  end.

Lemma span_digits_app s t d r :
  ends t = true → span_digits s = (d, r) → span_digits (s +:+ t) = (d, r +:+ t).
Proof.
  intros Ht. revert d r. induction s as [|c s IH]; intros d r; cbn [span_digits].
  - intros [= <- <-]. rewrite !append_empty_l. destruct t as [|c t]; [done|]. cbn [ends] in Ht. cbn [span_digits].
    by destruct (is_digit c).
  - rewrite append_cons. cbn [span_digits]. destruct (is_digit c); [|by intros [= <- <-]].
    destruct (span_digits s) as [d' r']. intros [= <- <-]. by rewrite (IH d' r').
Qed.

Lemma some_digits_app s t d r :
  ends t = true → some_digits s = Some (d, r) → some_digits (s +:+ t) = Some (d, r +:+ t).
Proof.
  intros Ht. unfold some_digits. destruct (span_digits s) as [d' r'] eqn:E. rewrite (span_digits_app _ _ _ _ Ht E).
  destruct (String.eqb d' EmptyString); [done|]. by intros [= <- <-].
Qed.

Lemma expect_app v s t r : expect v s = Some r → expect v (s +:+ t) = Some (r +:+ t).
Proof. destruct s as [|c s]; [done|]. rewrite append_cons. cbn [expect]. destruct (_ =? _); [by intros [= ->]|done]. Qed.

Lemma expect_app_None v s t : expect v s = None → s ≠ EmptyString ∨ expect v t = None → expect v (s +:+ t) = None.
Proof.
  destruct s as [|c s]; [rewrite append_empty_l; naive_solver|]. rewrite append_cons. cbn [expect].
  by destruct (_ =? _).
Qed.

Lemma ends_expect v t : ends t = true → (v = 46 ∨ 48 ≤ v ≤ 57) → expect v t = None.
Proof.
  destruct t as [|c t]; [done|]. cbn [ends expect]. unfold is_digit. intros H Hv.
  destruct (Z.eqb_spec (byte_val c) v) as [E|]; [|done]. exfalso. rewrite E in H.
  destruct (Z.eqb_spec v 46), (Z.leb_spec 48 v), (Z.leb_spec v 57); simpl in H; try done; lia.
Qed.

Lemma scan_sign_app s t : s ≠ EmptyString → scan_sign (s +:+ t) = ((scan_sign s).1, (scan_sign s).2 +:+ t).
Proof.
  intros Hs. unfold scan_sign. destruct (expect 45 s) as [r|] eqn:E; [by rewrite (expect_app _ _ _ _ E)|].
  by rewrite (expect_app_None _ _ _ E) by (by left).
Qed.

Lemma scan_int_app s t i r : ends t = true → scan_int s = Some (i, r) → scan_int (s +:+ t) = Some (i, r +:+ t).
Proof.
  intros Ht. unfold scan_int. destruct (expect 48 s) as [r'|] eqn:E.
  - rewrite (expect_app _ _ _ _ E). by intros [= <- <-].
  - rewrite (expect_app_None _ _ _ E) by (right; apply ends_expect; [done|lia]). by apply some_digits_app.
Qed.

Lemma scan_frac_app s t f r : ends t = true → scan_frac s = Some (f, r) → scan_frac (s +:+ t) = Some (f, r +:+ t).
Proof.
  intros Ht. unfold scan_frac. destruct (expect 46 s) as [r'|] eqn:E.
  - rewrite (expect_app _ _ _ _ E). destruct (some_digits r') as [[d r'']|] eqn:Ed; cbn [mbind option_bind]; [|done].
    rewrite (some_digits_app _ _ _ _ Ht Ed). cbn [mbind option_bind]. by intros [= <- <-].
  - rewrite (expect_app_None _ _ _ E) by (right; apply ends_expect; [done|lia]). by intros [= <- <-].
Qed.

Lemma scan_exp_app s t e r : ends t = true → scan_exp s = Some (e, r) → scan_exp (s +:+ t) = Some (e, r +:+ t).
Proof.
  intros Ht. destruct s as [|c s]; cbn [scan_exp].
  { intros [= <- <-]. rewrite !append_empty_l. destruct t as [|c t]; [done|]. cbn [ends scan_exp] in *.
    destruct (_ =? 101), (_ =? 69); rewrite ?orb_true_r in Ht; done. }
  rewrite append_cons. cbn [scan_exp]. destruct (_ || _); [|by intros [= <- <-]].
  destruct (match expect 43 s with Some r' => _ | None => _ end) as [sg r'] eqn:Es.
  destruct (some_digits r') as [[d r'']|] eqn:Ed; cbn [mbind option_bind]; [|done]. intros [= <- <-].
  assert (s ≠ EmptyString) as Hne by (intros ->; cbn in Es; by injection Es as <- <-).
  assert (match expect 43 (s +:+ t) with Some r' => ("+", r') | None => scan_sign (s +:+ t) end = (sg, r' +:+ t)) as ->.
  { destruct (expect 43 s) as [r0|] eqn:E.
    - rewrite (expect_app _ _ _ _ E). by injection Es as <- <-.
    - rewrite (expect_app_None _ _ _ E) by (by left). rewrite scan_sign_app by done. by rewrite Es. }
  by rewrite (some_digits_app _ _ _ _ Ht Ed).
Qed.

Lemma scan_number_app s t x :
  ends t = true → scan_number s = Some (x, EmptyString) → scan_number (s +:+ t) = Some (x, t).
Proof.
  intros Ht. unfold scan_number. intros H.
  assert (s ≠ EmptyString) as Hs by (intros ->; done). rewrite scan_sign_app by done.
  destruct (scan_sign s) as [sg r]. cbn [fst snd].
  destruct (scan_int r) as [[i r1]|] eqn:E1; cbn [mbind option_bind] in H; [|done].
  destruct (scan_frac r1) as [[f r2]|] eqn:E2; cbn [mbind option_bind] in H; [|done].
  destruct (scan_exp r2) as [[e r3]|] eqn:E3; cbn [mbind option_bind] in H; [|done]. injection H as <- ->.
  rewrite (scan_int_app _ _ _ _ Ht E1). cbn [mbind option_bind].
  rewrite (scan_frac_app _ _ _ _ Ht E2). cbn [mbind option_bind].
  rewrite (scan_exp_app _ _ _ _ Ht E3). cbn [mbind option_bind]. by rewrite append_empty_l.
Qed.

Lemma span_all_digits s : all_digits s = true → span_digits s = (s, EmptyString).
Proof.
  induction s as [|c s IH]; [done|]. cbn [all_digits span_digits]. intros [-> Hs]%andb_true_iff. by rewrite IH.
Qed.

Lemma scan_digits c d :
  is_digit c = true → byte_val c ≠ 48 → all_digits d = true →
  scan_int (String c d) = Some (String c d, EmptyString) ∧ expect 45 (String c d) = None.
Proof.
  intros Hc Hn Hd. unfold scan_int. cbn [expect]. split.
  - destruct (Z.eqb_spec (byte_val c) 48); [done|]. unfold some_digits. cbn [span_digits]. rewrite Hc.
    by rewrite span_all_digits.
  - unfold is_digit in Hc. destruct (Z.eqb_spec (byte_val c) 45) as [E|]; [|done]. by rewrite E in Hc.
Qed.

(** An integer is printed as a number literal. *)
Lemma scan_pretty (z : Z) : scan_number (pretty z) = Some (pretty z, EmptyString).
Proof.
  destruct z as [|p|p]; [done| |].
  - change (pretty (Z.pos p)) with (pretty (N.pos p)). destruct (pretty_pos p) as (c & d & -> & Hc & Hn & Hd & _).
    destruct (scan_digits c d Hc Hn Hd) as [H1 H2]. unfold scan_number, scan_sign. rewrite H2, H1.
    cbn [mbind option_bind scan_frac expect scan_exp]. by rewrite !append_empty_l, append_empty_r.
  - change (pretty (Z.neg p)) with ("-" +:+ pretty (N.pos p)). destruct (pretty_pos p) as (c & d & -> & Hc & Hn & Hd & _).
    destruct (scan_digits c d Hc Hn Hd) as [H1 _]. change ("-" +:+ String c d) with (String "-" (String c d)).
    unfold scan_number. change (scan_sign (String "-" (String c d))) with ("-", String c d). cbv iota beta. rewrite H1.
    cbn [mbind option_bind scan_frac expect scan_exp]. by rewrite append_empty_l, append_empty_r.
Qed.

(** A number literal starts with a sign or a digit. *)
Lemma scan_number_start c s t r :
  scan_number (String c s) = Some (t, r) → byte_val c = 45 ∨ is_digit c = true.
Proof.
  unfold scan_number, scan_sign. cbn [expect]. destruct (Z.eqb_spec (byte_val c) 45); [by left|].
  destruct (is_digit c) eqn:Hd; [by right|]. cbv iota beta. unfold scan_int. cbn [expect].
  destruct (Z.eqb_spec (byte_val c) 48) as [E|]; [unfold is_digit in Hd; by rewrite E in Hd|].
  unfold some_digits. cbn [span_digits]. by rewrite Hd.
Qed.

(** A text for the value [f]. *)
Definition writes (t : string) (f : float64) : Prop := scan_number t = Some (t, EmptyString) ∧ parse_float t = Val f.

Lemma writes_pretty z : in_i64 z → writes (pretty z) (of_int z).
Proof. intros Hz. split; [apply scan_pretty|by apply parse_float_pretty]. Qed.

Lemma parse_writes t f fuel depth rest :
  writes t f → ends rest = true → parse_value (S fuel) depth (t +:+ rest) = Some (JNumber t, rest).
Proof.
  intros [Hs _] Hr. pose proof (scan_number_app _ _ _ Hr Hs) as Ha. destruct t as [|c t]; [done|].
  rewrite append_cons in *. cbn [parse_value]. pose proof (scan_number_start _ _ _ _ Hs) as Hc.
  assert (∀ v, 57 < v ∨ v < 45 → (byte_val c =? v) = false) as Hv.
  { intros v Hv. apply Z.eqb_neq. unfold is_digit in Hc. destruct Hc as [|[H1 H2]%andb_true_iff]; boolify; lia. }
  rewrite !Hv by lia. unfold parse_number. by rewrite Ha.
Qed.

(** *** Reading back a string *)

Lemma unquote_escape c s : unquote None (escape c +:+ s) = prepend (String c EmptyString) (unquote None s).
Proof. destruct c as [[] [] [] [] [] [] [] []]; reflexivity. Qed.

Lemma unquote_escape_all s rest :
  unquote None (escape_all s +:+ String quote_char rest) = Some (s, rest).
Proof.
  induction s as [|c s IH]; [done|]. cbn [escape_all]. rewrite append_assoc, unquote_escape, IH. done.
Qed.

Lemma parse_quote s fuel depth rest : parse_value (S fuel) depth (quote s +:+ rest) = Some (JString s, rest).
Proof.
  unfold quote. rewrite append_cons, append_assoc, append_cons, append_empty_l. cbn [parse_value].
  change (byte_val quote_char) with 34. cbn [Z.eqb Pos.eqb]. by rewrite unquote_escape_all.
Qed.

(** *** Reading back a value *)

Fixpoint ascii_text (s : string) : bool :=
  match s with EmptyString => true | String c s' => (byte_val c <? 128) && ascii_text s' end.

(** The values that are read back: integers of 64 bits, floating point numbers
    whose text reads back, and strings of ASCII bytes. *)
Fixpoint plain (fmt : float64 → string) (v : gval) : Prop :=
  match v with
  | GNull | GBool _ => True
  | GInt z => in_i64 z
  | GFloat f => writes (fmt f) f
  | GString s => ascii_text s = true
  | GSlice l => foldr (λ x P, plain fmt x ∧ P) True l
  | GObject l => foldr (λ kv P, (ascii_text kv.1 = true ∧ plain fmt kv.2) ∧ P) True l
  end.

(** The nesting and the number of parts of a value. *)
Fixpoint gheight (v : gval) : nat :=
  match v with
  | GSlice l => S (foldr (λ x, Nat.max (gheight x)) O l)
  | GObject l => S (foldr (λ kv, Nat.max (gheight kv.2)) O l)
  | _ => O
  end.

Fixpoint gsize (v : gval) : nat :=
  match v with
  | GSlice l => S (foldr (λ x n, S (gsize x + n)) O l)
  | GObject l => S (foldr (λ kv n, S (gsize kv.2 + n)) O l)
  | _ => 1%nat
  end.

(** What follows the first of the parts between commas. *)
Fixpoint more {A} (f : A → string) (l : list A) (t : string) : string :=
  match l with [] => t | x :: l' => "," +:+ f x +:+ more f l' t end.

Lemma commas_more {A} (f : A → string) x l t : commas (f <$> x :: l) +:+ t = f x +:+ more f l t.
Proof.
  revert x. induction l as [|y l IH]; intros x; [done|].
  change (commas (f <$> x :: y :: l)) with (f x +:+ "," +:+ commas (f <$> y :: l)).
  cbn [more]. by rewrite !append_assoc, IH.
Qed.

Lemma skip_new_line n t : skip (new_line n +:+ t) = skip t.
Proof. unfold new_line. rewrite append_cons. cbn [skip]. change (is_space "010") with true. cbv iota.
  induction n as [|n IH]; [done|]. cbn [spaces]. rewrite !append_cons. cbn [skip]. by change (is_space " ") with true.
Qed.

Lemma ends_more {A} (f : A → string) l n t : ends (more f l (new_line n +:+ t)) = true.
Proof. by destruct l. Qed.

Definition starts (s : string) : bool := match s with String c _ => negb (is_space c) | EmptyString => false end.

Lemma skip_starts s t : starts s = true → skip (s +:+ t) = s +:+ t.
Proof. destruct s as [|c s]; [done|]. rewrite append_cons. cbn [starts skip]. by destruct (is_space c). Qed.

Lemma writes_starts t f : writes t f → starts t = true.
Proof.
  intros [Hs _]. destruct t as [|c t]; [done|]. apply scan_number_start in Hs. cbn [starts]. unfold is_space, is_digit in *.
  destruct Hs as [->|[H1 H2]%andb_true_iff]; [done|]. boolify.
  destruct (Z.eqb_spec (byte_val c) 32), (Z.eqb_spec (byte_val c) 9), (Z.eqb_spec (byte_val c) 13),
    (Z.eqb_spec (byte_val c) 10); try done; lia.
Qed.

Lemma encode_starts fmt n v : plain fmt v → starts (encode fmt n v) = true.
Proof.
  destruct v as [|[]|z|f|s|[|x l]|[|x l]]; cbn [plain encode]; intros H; try done.
  - by eapply writes_starts, writes_pretty.
  - by eapply writes_starts.
Qed.

(** A value is read back from its text. *)
Definition reads_back (fmt : float64 → string) (v : gval) : Prop :=
  ∀ n depth fuel rest,
    plain fmt v → depth + Z.of_nat (gheight v) ≤ maxNestingDepth → (gsize v ≤ fuel)%nat → ends rest = true →
    parse_value fuel depth (encode fmt n v +:+ rest) = Some (json_of fmt v, rest).

Lemma parse_elements_encode fmt n depth rest l x fuel :
  Forall (reads_back fmt) (x :: l) → plain fmt (GSlice (x :: l)) →
  depth + Z.of_nat (foldr (λ x, Nat.max (gheight x)) O (x :: l)) ≤ maxNestingDepth →
  (foldr (λ x n, S (gsize x + n)) O (x :: l) ≤ fuel)%nat →
  parse_elements fuel depth
    (encode fmt (S n) x +:+ more (λ x, new_line (S n) +:+ encode fmt (S n) x) l (new_line n +:+ "]" +:+ rest))
  = Some (json_of fmt <$> x :: l, rest).
Proof.
  revert x fuel. induction l as [|y l IH]; intros x fuel Hf Hp Hd Hs;
    destruct fuel as [|fuel]; cbn [foldr] in Hd, Hs; try lia; cbn [parse_elements];
    apply Forall_cons in Hf as [Hx Hf]; destruct Hp as [Hpx Hp];
    rewrite (Hx (S n) depth fuel) by (done || lia || apply ends_more); cbn [mbind option_bind more].
  - rewrite skip_new_line. done.
  - change ("," +:+ ?t) with (String "," t). cbn [skip expect]. change (is_space ",") with false. cbn [expect].
    change (byte_val ",") with 44. cbn [Z.eqb Pos.eqb]. rewrite append_assoc, skip_new_line.
    rewrite skip_starts by (apply encode_starts, Hp). rewrite IH; [done|done|done|cbn [foldr]; lia|cbn [foldr]; lia].
Qed.

Lemma parse_fields_encode fmt n depth rest l x fuel :
  Forall (λ kv, reads_back fmt kv.2) (x :: l) → plain fmt (GObject (x :: l)) →
  depth + Z.of_nat (foldr (λ kv, Nat.max (gheight kv.2)) O (x :: l)) ≤ maxNestingDepth →
  (foldr (λ kv n, S (gsize kv.2 + n)) O (x :: l) ≤ fuel)%nat →
  parse_fields fuel depth
    (quote x.1 +:+ ": " +:+ encode fmt (S n) x.2 +:+
     more (λ kv, new_line (S n) +:+ quote kv.1 +:+ ": " +:+ encode fmt (S n) kv.2) l (new_line n +:+ "}" +:+ rest))
  = Some (prod_map id (json_of fmt) <$> x :: l, rest).
Proof.
  revert x fuel. induction l as [|y l IH]; intros [k v] fuel Hf Hp Hd Hs;
    destruct fuel as [|fuel]; cbn [foldr fst snd] in Hd, Hs; try lia; cbn [parse_fields fst snd];
    apply Forall_cons in Hf as [Hx Hf]; destruct Hp as [[_ Hpx] Hp]; cbn [snd] in Hx, Hpx;
    unfold quote at 1; rewrite append_cons, append_assoc, append_cons, append_empty_l; cbn [expect];
    change (byte_val quote_char) with 34; cbn [Z.eqb Pos.eqb mbind option_bind];
    rewrite unquote_escape_all; cbn [mbind option_bind];
    match goal with |- context [": " +:+ ?t] => change (": " +:+ t) with (String ":" (String " " t)) end;
    cbn [skip expect]; change (is_space ":") with false; cbn [expect]; change (byte_val ":") with 58;
    cbn [Z.eqb Pos.eqb mbind option_bind skip]; change (is_space " ") with true; cbv iota;
    rewrite skip_starts by (by apply encode_starts);
    rewrite (Hx (S n) depth fuel) by (done || lia || apply ends_more); cbn [mbind option_bind more].
  - rewrite skip_new_line. done.
  - change ("," +:+ ?t) with (String "," t). cbn [skip expect]. change (is_space ",") with false. cbn [expect].
    change (byte_val ",") with 44. cbn [Z.eqb Pos.eqb]. rewrite append_assoc, skip_new_line.
    rewrite skip_starts by done. rewrite !append_assoc. rewrite IH; [done|done|done|cbn [foldr]; lia|cbn [foldr]; lia].
Qed.

(** No value starts with a closing bracket. *)
Lemma bracket_free fmt n v t : plain fmt v → expect 93 (encode fmt n v +:+ t) = None.
Proof.
  assert (∀ u f, writes u f → expect 93 (u +:+ t) = None) as Hw.
  { intros [|c u] f [Hs _]; [done|]. apply scan_number_start in Hs. rewrite append_cons. cbn [expect].
    destruct (Z.eqb_spec (byte_val c) 93) as [E|]; [|done]. unfold is_digit in Hs. rewrite E in Hs. by destruct Hs. }
  destruct v as [|[]|z|f|s|[|x l]|[|x l]]; cbn [plain encode]; intros H; try done.
  - by eapply Hw, writes_pretty.
  - by eapply Hw.
Qed.

Lemma reads_back_all fmt v : reads_back fmt v.
Proof.
  induction v as [|b|z|f|s|l IH|l IH] using gval_ind; intros n depth fuel rest Hp Hd Hs Hr;
    (destruct fuel as [|fuel]; [cbn [gsize] in Hs; lia|]); cbn [json_of].
  - done.
  - by destruct b.
  - by eapply parse_writes; [apply writes_pretty|].
  - by eapply parse_writes.
  - apply parse_quote.
  - destruct l as [|x l]; cbn [gheight gsize] in Hd, Hs.
    + cbn [encode]. change ("[]" +:+ rest) with (String "[" (String "]" rest)). cbn [parse_value].
      change (byte_val "[") with 91. cbn [Z.eqb Pos.eqb]. destruct (Z.leb_spec maxNestingDepth depth); [simpl in Hd; lia|].
      done.
    + cbn [encode]. rewrite !append_assoc. change ("[" +:+ ?t) with (String "[" t). cbn [parse_value].
      change (byte_val "[") with 91. cbn [Z.eqb Pos.eqb]. destruct (Z.leb_spec maxNestingDepth depth); [simpl in Hd; lia|].
      rewrite commas_more, append_assoc, skip_new_line. destruct Hp as [Hpx Hp].
      rewrite skip_starts by (by apply encode_starts).
      assert (∀ t, expect 93 (encode fmt (S n) x +:+ t) = None) as Hx.
      { intros t. apply (bracket_free fmt (S n) x t Hpx). }
      rewrite Hx, parse_elements_encode; [done|done|done| |]; cbn [foldr] in *; lia.
  - destruct l as [|x l]; cbn [gheight gsize] in Hd, Hs.
    + cbn [encode]. change ("{}" +:+ rest) with (String "{" (String "}" rest)). cbn [parse_value].
      change (byte_val "{") with 123. cbn [Z.eqb Pos.eqb]. destruct (Z.leb_spec maxNestingDepth depth); [simpl in Hd; lia|].
      done.
    + cbn [encode]. rewrite !append_assoc. change ("{" +:+ ?t) with (String "{" t). cbn [parse_value].
      change (byte_val "{") with 123. cbn [Z.eqb Pos.eqb]. destruct (Z.leb_spec maxNestingDepth depth); [simpl in Hd; lia|].
      rewrite commas_more, !append_assoc, skip_new_line.
      rewrite skip_starts by done. change (expect 125 (quote x.1 +:+ ?t)) with (@None string). cbv iota.
      rewrite parse_fields_encode; [done|done|done| |]; cbn [foldr] in *; lia.
Qed.

(** Decoding is the inverse of encoding, whatever follows the text. *)
Lemma parse_encode fmt n v depth fuel rest :
  plain fmt v → depth + Z.of_nat (gheight v) ≤ maxNestingDepth → ends rest = true →
  (2 * String.length (encode fmt n v +:+ rest) < fuel)%nat →
  parse_value fuel depth (encode fmt n v +:+ rest) = Some (json_of fmt v, rest).
Proof.
  intros Hp Hd Hr Hf. destruct (parse_fuel fuel (gsize v + fuel)) as (Hv & _ & _).
  rewrite Hv by lia. apply reads_back_all; [done|done|lia|done].
Qed.

(** The value of an interface that is read back. *)
Lemma to_any_json_of fmt v : plain fmt v → to_any (json_of fmt v) = Some (any_of v).
Proof.
  induction v as [|b|z|f|s|l IH|l IH] using gval_ind; cbn [plain json_of to_any any_of]; intros Hp; try done.
  - by rewrite (parse_float_pretty z Hp).
  - by destruct Hp as [_ ->].
  - assert (traverse to_any (json_of fmt <$> l) = Some (any_of <$> l)) as ->; [|done].
    induction IH as [|x l Hx _ IHl]; [done|]. destruct Hp as [Hpx Hp]. cbn. by rewrite Hx, (IHl Hp).
  - match goal with |- AObject <$> ?t = _ => assert (t = Some (prod_map id any_of <$> l)) as -> end; [|done].
    induction IH as [|[k x] l Hx _ IHl]; [done|]. destruct Hp as [[_ Hpx] Hp]. cbn in *. by rewrite Hx, (IHl Hp).
Qed.

Lemma first_value_Encode fmt v :
  plain fmt v → (gheight v ≤ Z.to_nat maxNestingDepth)%nat → first_value (Encode fmt v) = Some (json_of fmt v).
Proof.
  intros Hp Hh. unfold first_value, Encode. rewrite skip_starts by (by apply encode_starts).
  rewrite parse_encode; [reflexivity|done| |reflexivity|unfold fuel_for; lia]. unfold maxNestingDepth in *. lia.
Qed.

Lemma Decode_Encode fmt l :
  plain fmt (GObject l) → (gheight (GObject l) ≤ Z.to_nat maxNestingDepth)%nat →
  Decode (Encode fmt (GObject l)) = Some (prod_map id any_of <$> l).
Proof.
  intros Hp Hh. unfold Decode. rewrite first_value_Encode by done. cbn [mbind option_bind].
  by rewrite (to_any_json_of fmt _ Hp).
Qed.

Lemma Unmarshal_Encode fmt v :
  plain fmt v → (gheight v ≤ Z.to_nat maxNestingDepth)%nat → Unmarshal (Encode fmt v) = Some (json_of fmt v).
Proof.
  intros Hp Hh. unfold Unmarshal, Encode. rewrite skip_starts by (by apply encode_starts).
  rewrite parse_encode; [reflexivity|done| |reflexivity|unfold fuel_for; lia]. unfold maxNestingDepth in *. lia.
Qed.

(** *** Fields *)

Lemma field_map {A B} (f : A → B) k l : field k (prod_map id f <$> l) = f <$> field k l.
Proof.
  induction l as [|[k' v] l IH]; [done|].
  change (prod_map id f <$> (k', v) :: l) with ((k', f v) :: (prod_map id f <$> l)). cbn [field]. rewrite IH.
  destruct (field k l); [done|]. by destruct (String.eqb k k').
Qed.

Lemma field_elem {A} k (v : A) l : NoDup (l.*1) → field k l = Some v ↔ (k, v) ∈ l.
Proof.
  revert v. induction l as [|[k' v'] l IH]; intros v; cbn [fmap list_fmap field fst].
  { intros _; split; [done|by intros ?%elem_of_nil]. }
  intros [Hn Hd]%NoDup_cons. rewrite elem_of_cons. destruct (field k l) as [u|] eqn:E.
  - assert ((k, u) ∈ l) as Hu by (by apply IH). assert (k ≠ k') as Hne.
    { intros ->. apply Hn. apply list_elem_of_fmap. by exists (k', u). }
    rewrite <-IH by done. naive_solver.
  - destruct (String.eqb_spec k k') as [->|Hne]; [|rewrite <-IH by done; naive_solver].
    split; [intros [= ->]; by left|]. intros [[= ->]|Hi]; [done|]. by apply IH in Hi.
Qed.

(** What a map holds is found in its text. *)
Lemma field_of_map {A} (f : gval → A) (m : gmap string gval) k :
  field k (prod_map id f <$> merge_sort key_le (map_to_list m)) = f <$> m !! k.
Proof.
  rewrite field_map. f_equal. apply option_eq. intros v.
  assert (merge_sort key_le (map_to_list m) ≡ₚ map_to_list m) as Hp by apply merge_sort_Permutation.
  rewrite field_elem by (rewrite Hp; apply NoDup_fst_map_to_list). rewrite Hp. apply elem_of_map_to_list.
Qed.

Lemma plain_object fmt l : plain fmt (GObject l) ↔ Forall (λ kv, ascii_text kv.1 = true ∧ plain fmt kv.2) l.
Proof.
  induction l as [|kv l IH]; cbn [plain foldr]; [by split|]. rewrite Forall_cons, <-IH. done.
Qed.

Lemma plain_of_map fmt m k v : plain fmt (of_map m) → m !! k = Some v → plain fmt v.
Proof.
  intros Hp Hk. unfold of_map in Hp. rewrite plain_object, merge_sort_Permutation, Forall_forall in Hp.
  apply (Hp (k, v)). by apply elem_of_map_to_list.
Qed.
