(* ===== verification/Codec.v ===== *)
(** * JSON of Go types

    How encoding/json writes and reads the types of the program's reports.  A
    [Codec] is a type's encoding, its decoding and its zero value; the values of
    the instances are read back by the decoder ([Lawful]).  Field names are
    matched exactly. *)

From Stdlib Require Import Floats.SpecFloat.
From S2P Require Import Prelude GoStrings Sha256 Errors GoFloat Strconv Json.

#[local] Open Scope Z_scope.

(** ** Types with an encoding *)

(** [jnorm] is the value that is read back: an integer in an interface becomes a
    floating point number.  A null leaves the zero value. *)
Class Codec (A : Type) := {
  jput : A → gval;
  jget : json → option A;
  jzero : A;
  jnorm : A → A }.

Class Lawful (fmt : float64 → string) (A : Type) `{Codec A} := {
  jget_null : jget JNull = Some jzero;
  jget_jput a : plain fmt (jput a) → jget (json_of fmt (jput a)) = Some (jnorm a) }.

#[export] Instance bool_codec : Codec bool := {|
  jput := GBool;
  jget j := match j with JBool b => Some b | JNull => Some false | _ => None end;
  jzero := false;
  jnorm := id |}.

#[export] Instance int_codec : Codec Z := {|
  jput := GInt;
  jget j := match j with
            | JNumber t => match parse_int false t with Val z => Some z | Bad _ => None end
            | JNull => Some 0
            | _ => None
            end;
  jzero := 0;
  jnorm := id |}.

#[export] Instance float_codec : Codec float64 := {|
  jput := GFloat;
  jget j := match j with
            | JNumber t => match parse_float t with Val f => Some f | Bad _ => None end
            | JNull => Some (of_int 0)
            | _ => None
            end;
  jzero := of_int 0;
  jnorm := id |}.

#[export] Instance string_codec : Codec string := {|
  jput := GString;
  jget j := match j with JString s => Some s | JNull => Some EmptyString | _ => None end;
  jzero := EmptyString;
  jnorm := id |}.

(** A slice; the empty ones are those that nothing was appended to, and nil. *)
#[export] Instance list_codec `{Codec A} : Codec (list A) := {|
  jput l := match l with [] => GNull | _ => GSlice (jput <$> l) end;
  jget j := match j with JArray l => traverse jget l | JNull => Some [] | _ => None end;
  jzero := [];
  jnorm l := jnorm <$> l |}.

(** A pointer, or a map that may be nil. *)
#[export] Instance option_codec `{Codec A} : Codec (option A) := {|
  jput o := match o with Some a => jput a | None => GNull end;
  jget j := match j with JNull => Some None | _ => Some <$> jget j end;
  jzero := None;
  jnorm o := jnorm <$> o |}.

#[export] Instance map_codec `{Codec A} : Codec (gmap string A) := {|
  jput m := of_map (jput <$> m);
  jget j := match j with
            | JObject l => list_to_map ∘ reverse <$> traverse (λ kv, v ← jget kv.2; Some (kv.1, v)) l
            | JNull => Some ∅
            | _ => None
            end;
  jzero := ∅;
  jnorm m := jnorm <$> m |}.

(** An interface value. *)
Fixpoint gval_of (a : any) : gval :=
  match a with
  | ANull => GNull
  | ABool b => GBool b
  | ANumber f => GFloat f
  | AInt z => GInt z
  | AString s => GString s
  | AArray l => GSlice (gval_of <$> l)
  | AObject l => of_map (list_to_map (reverse (prod_map id gval_of <$> l)))
  end.

#[export] Instance any_codec : Codec any := {|
  jput := gval_of;
  jget := to_any;
  jzero := ANull;
  jnorm a := any_of (gval_of a) |}.

(** ** Structs *)

(** A field of a struct: an absent one is zero. *)
Definition fget `{Codec A} (k : string) (l : list (string * json)) : option A :=
  match field k l with Some j => jget j | None => Some jzero end.

(** A field that is left out when it is empty. *)
Definition omitempty `{Codec A} (empty : A → bool) (k : string) (a : A) : list (string * gval) :=
  if empty a then [] else [(k, jput a)].

Definition structured {A} (z : A) (f : list (string * json) → option A) (j : json) : option A :=
  match j with JObject l => f l | JNull => Some z | _ => None end.

(** A field that is a struct, and a slice of structs. *)
Definition sget {A} (z : A) (f : list (string * json) → option A) (k : string) (l : list (string * json)) : option A :=
  match field k l with Some j => structured z f j | None => Some z end.

Definition sgets {A} (z : A) (f : list (string * json) → option A) (k : string) (l : list (string * json))
    : option (list A) :=
  match field k l with
  | None | Some JNull => Some []
  | Some (JArray js) => traverse (structured z f) js
  | Some _ => None
  end.

(** ** Lemmas *)

Section laws.
Context (fmt : float64 → string).

#[export] Instance bool_lawful : Lawful fmt bool.
Proof. by split. Qed.

#[export] Instance int_lawful : Lawful fmt Z.
Proof. split; [done|]. intros z Hz. cbn. by rewrite parse_int_pretty. Qed.

#[export] Instance float_lawful : Lawful fmt float64.
Proof. split; [done|]. intros f [_ Hf]. cbn. by rewrite Hf. Qed.

#[export] Instance string_lawful : Lawful fmt string.
Proof. by split. Qed.

#[export] Instance any_lawful : Lawful fmt any.
Proof. split; [done|]. intros a. apply to_any_json_of. Qed.

#[export] Instance list_lawful `{Lawful fmt A} : Lawful fmt (list A).
Proof.
  split; [done|]. intros l Hp.
  assert (traverse jget (json_of fmt <$> (jput <$> l)) = Some (jnorm <$> l)) as Ht; [|by destruct l].
  assert (plain fmt (GSlice (jput <$> l))) as Hp' by (by destruct l). clear Hp.
  induction l as [|a l IH]; [done|]. destruct Hp' as [Ha Hl]. specialize (IH Hl). cbn in *. by rewrite jget_jput, IH.
Qed.

(** A value that is not written as null. *)
Class NonNull (A : Type) `{Codec A} := non_null a : jput a ≠ GNull.

#[export] Instance float_non_null : NonNull float64.
Proof. by intros f. Qed.

#[export] Instance map_non_null `{Codec A} : NonNull (gmap string A).
Proof. by intros m. Qed.

#[export] Instance option_lawful `{Lawful fmt A, !NonNull A} : Lawful fmt (option A).
Proof.
  split; [done|]. intros [a|] Hp; [|done]. cbn in *. pose proof (jget_jput a Hp) as Hg. pose proof (non_null a) as Hn.
  destruct (jput a); try done; by rewrite Hg.
Qed.

Lemma traverse_fields `{Lawful fmt A} (l : list (string * A)) :
  plain fmt (GObject (prod_map id jput <$> l)) →
  traverse (λ kv, v ← jget kv.2; Some (kv.1, v)) (prod_map id (json_of fmt) <$> (prod_map id jput <$> l))
  = Some (prod_map id jnorm <$> l).
Proof.
  induction l as [|[k a] l IH]; [done|]. intros [[_ Ha] Hl]. specialize (IH Hl). cbn in *. by rewrite jget_jput, IH.
Qed.

#[export] Instance map_lawful `{Lawful fmt A} : Lawful fmt (gmap string A).
Proof.
  split; [done|]. intros m Hp. cbn [jput map_codec of_map] in Hp.
  assert (∃ l, merge_sort key_le (map_to_list (jput <$> m)) = prod_map id jput <$> l ∧ l ≡ₚ map_to_list m) as (l & E & Hl).
  { assert (merge_sort key_le (map_to_list (jput <$> m)) ≡ₚ prod_map id jput <$> map_to_list m) as Hs.
    { by rewrite merge_sort_Permutation, map_to_list_fmap. }
    apply Permutation_map_inv in Hs as (l & E & Hl). by exists l. }
  cbn [jput jget map_codec of_map json_of]. unfold of_map in Hp. rewrite E in *. rewrite (traverse_fields l Hp).
  cbn [fmap option_fmap option_map]. f_equal.
  transitivity (list_to_map (prod_map id jnorm <$> map_to_list m) : gmap string A).
  - apply list_to_map_proper.
    + assert (NoDup ((prod_map id jnorm <$> l).*1)) as Hd.
      { rewrite <-list_fmap_compose. change (fst ∘ prod_map id jnorm) with (@fst string A). rewrite Hl.
        apply NoDup_fst_map_to_list. }
      cbn [compose]. by rewrite fmap_reverse, reverse_Permutation.
    + cbn [compose]. by rewrite reverse_Permutation, Hl.
  - rewrite list_to_map_fmap. by rewrite list_to_map_to_list.
Qed.
End laws.
