(* ===== verification/Evict.v ===== *)
(** * Quota enforcement: internal/storage/evict.go

    The eviction policy, the quota with its two water marks, and the evictor:
    [Sweep] with its batches, the heap it ranks a batch with, the unlinks and
    the removal of index rows, and [Run], the loop that calls it. *)

From S2P Require Import Prelude GoStrings Sha256 Errors Key Index FileSystem Store StoreSpec Heap GoFloat.

#[local] Open Scope Z_scope.

(** ** The policy *)

Record EvictionPolicy := mkEvictionPolicy { SizeWeight : Z; SizeUnit : Z }.

Definition DefaultEvictionPolicy : EvictionPolicy :=
  mkEvictionPolicy (3600 * 10 ^ 9) (Z.shiftl 64 10).

Definition Score (p : EvictionPolicy) (e : Entry) : Z :=
  let unit := if SizeUnit p <=? 0 then Z.shiftl 64 10 else SizeUnit p in
  let ratio := fdiv (of_int (row_size (e_row e))) (of_int unit) in
  let penalty := fmul (Log2 (fadd one ratio)) (of_int (SizeWeight p)) in
  i64 (last_access (e_row e) - to_int64 penalty).

Record candidate := mkCandidate { c_entry : Entry; c_score : Z }.

(** ** The quota *)

Record Quota := mkQuota { MaxBytes : Z; HighWater : float64; LowWater : float64 }.

(** [Valid]: [None] when the quota is usable.  The fractions a message prints
    are left out. *)
Definition Quota_Valid (q : Quota) : option error :=
  if MaxBytes q <=? 0 then
    Some (Errorf ("quota: max bytes must be positive, got " +:+ pretty (MaxBytes q)))
  else if fle (HighWater q) (of_int 0) || flt one (HighWater q) then
    Some (Errorf "quota: high water must be in (0,1]")
  else if fle (LowWater q) (of_int 0) || fle (HighWater q) (LowWater q) then
    Some (Errorf "quota: low water must be in (0,high)")
  else None.

Definition HighBytes (q : Quota) : Z := to_int64 (fmul (of_int (MaxBytes q)) (HighWater q)).
Definition LowBytes (q : Quota) : Z := to_int64 (fmul (of_int (MaxBytes q)) (LowWater q)).

#[global] Arguments HighBytes : simpl never.
#[global] Arguments LowBytes : simpl never.
#[global] Arguments Score : simpl never.

(** ** The evictor *)

Record EvictorStats := mkEvictorStats {
  Sweeps : Z; Evicted : Z; BytesReclaimed : Z; Failures : Z; Overshoot : Z }.

(** The index is the store's own, as internal/node builds the evictor. *)
Record Evictor := mkEvictor {
  store : Store;
  quota : Quota;
  policy : EvictionPolicy;
  ev_closed : bool;
  batchSize : Z;
  ev_stats : EvictorStats }.

Record EvictorOptions := mkEvictorOptions {
  opt_Store : option Store; opt_Quota : Quota; opt_Policy : EvictionPolicy; opt_BatchSize : Z }.

Definition defaultEvictBatch : Z := 512.

Definition NewEvictor (opts : EvictorOptions) : result Evictor :=
  match opt_Store opts with
  | None => Err (Errorf "evictor: store and index are required")
  | Some s =>
      match index s with
      | None => Err (Errorf "evictor: store and index are required")
      | Some _ =>
          match Quota_Valid (opt_Quota opts) with
          | Some e => Err e
          | None =>
              let pol := opt_Policy opts in
              let pol := if (SizeUnit pol =? 0) && (SizeWeight pol =? 0)
                         then DefaultEvictionPolicy else pol in
              let n := if opt_BatchSize opts <=? 0 then defaultEvictBatch else opt_BatchSize opts in
              Ok (mkEvictor s (opt_Quota opts) pol false n (mkEvictorStats 0 0 0 0 0))
          end
      end
  end.

Definition set_store (s : Store) (e : Evictor) : Evictor :=
  mkEvictor s (quota e) (policy e) (ev_closed e) (batchSize e) (ev_stats e).
Definition set_ev_stats (f : EvictorStats → EvictorStats) (e : Evictor) : Evictor :=
  mkEvictor (store e) (quota e) (policy e) (ev_closed e) (batchSize e) (f (ev_stats e)).

Definition add_Sweeps (st : EvictorStats) : EvictorStats :=
  mkEvictorStats (Sweeps st + 1) (Evicted st) (BytesReclaimed st) (Failures st) (Overshoot st).
Definition add_Failures (st : EvictorStats) : EvictorStats :=
  mkEvictorStats (Sweeps st) (Evicted st) (BytesReclaimed st) (Failures st + 1) (Overshoot st).
Definition add_Overshoot (st : EvictorStats) : EvictorStats :=
  mkEvictorStats (Sweeps st) (Evicted st) (BytesReclaimed st) (Failures st) (Overshoot st + 1).
Definition add_Evicted (n b : Z) (st : EvictorStats) : EvictorStats :=
  mkEvictorStats (Sweeps st) (Evicted st + n) (BytesReclaimed st + b) (Failures st) (Overshoot st).

(** A method call on the index.  [NewEvictor] refuses a nil index, so the
    second branch, a nil dereference, is not reached. *)
Definition nil_index : error := Errorf "invalid memory address or nil pointer dereference".

Definition on_idx {A} (m : M Index A) (e : Evictor) : Evictor * result A :=
  match index (store e) with
  | Some i => let '(s', r) := lift_index i m (store e) in (set_store s' e, r)
  | None => (e, Err nil_index)
  end.

(** ** Sweep *)

(** What the environment may inject: into the flush and the query that start a
    sweep, and, for the [k]-th round, a cancelled context, an error of the
    query, of the [Stat] and the unlink of each file, and of the transaction
    that removes the rows. *)
Record SweepEnv := mkSweepEnv {
  sw_flush : TxEnv; sw_totals : option error; sw_ctx : nat → option error;
  sw_coldest : nat → option error; sw_stat : nat → string * string → option error;
  sw_rm : nat → string * string → option error; sw_remove : nat → TxEnv }.

Definition sweep_fine : SweepEnv :=
  mkSweepEnv tx_fine None (λ _, None) (λ _, None) (λ _ _, None) (λ _ _, None) (λ _, tx_fine).

(** The variables of one round. *)
Record round := mkRound {
  rd_store : Store; rd_refs : list (string * string); rd_evicted : Z; rd_freed : Z;
  rd_failures : nat; rd_progressed : bool }.

(** The loop that pops candidates until enough is freed: [n] is the number of
    candidates on the heap. *)
Fixpoint pop_loop (stat rm : string * string → option error) (mustFree : Z) (n : nat)
    (h : list candidate) (a : round) : round :=
  match n with
  | O => a
  | S n' =>
      if negb (rd_freed a <? mustFree) then a
      else
        match Pop c_score h with
        | None => a
        | Some (c, h') =>
            let r := e_ref (c_entry c) in
            let '(s', res) := DeleteFile (stat r) (rm r) r.1 r.2 (rd_store a) in
            pop_loop stat rm mustFree n' h'
              (match res with
               | Err _ => mkRound s' (rd_refs a) (rd_evicted a) (rd_freed a) (S (rd_failures a))
                            (rd_progressed a)
               | Ok _ => mkRound s' (rd_refs a ++ [r]) (rd_evicted a + 1)
                           (i64 (rd_freed a + row_size (e_row (c_entry c)))) (rd_failures a) true
               end)
        end
  end.

Definition make_heap (p : EvictionPolicy) (batch : list Entry) : list candidate :=
  Init c_score ((λ en, mkCandidate en (Score p en)) <$> batch).

(** The removal of the rows of the unlinked files. *)
Definition remove_rows (env : TxEnv) (refs : list (string * string)) (e : Evictor) : Evictor :=
  if bool_decide (refs = []) then e
  else
    let '(e', res) := on_idx (RemoveBatch env refs) e in
    if is_ok res then e' else set_ev_stats add_Failures e'.

(** The unlinks of one round, and then the transaction that removes the
    rows. *)
Definition evict_batch (env : SweepEnv) (k : nat) (mustFree : Z) (batch : list Entry)
    (evicted freed : Z) (e : Evictor) : Evictor * round :=
  let h := make_heap (policy e) batch in
  let a := pop_loop (sw_stat env k) (sw_rm env k) mustFree (length h) h
             (mkRound (store e) [] evicted freed 0 false) in
  let e1 := set_ev_stats (λ st, Nat.iter (rd_failures a) add_Failures st)
              (set_store (rd_store a) e) in
  (remove_rows (sw_remove env k) (rd_refs a) e1, a).

Definition finish (evicted freed : Z) (e : Evictor) : Evictor * (Z * Z * option error) :=
  (set_ev_stats (add_Evicted evicted freed) e, (evicted, freed, None)).

Section sweep.
Context {Scan : SqlScan}.

(** The outer loop; [None] when [fuel] rounds were not enough. *)
Fixpoint sweep_loop (env : SweepEnv) (fuel k : nat) (mustFree evicted freed : Z) (e : Evictor)
    : option (Evictor * (Z * Z * option error)) :=
  match fuel with
  | O => None
  | S fuel' =>
      if negb (freed <? mustFree) then Some (finish evicted freed e)
      else
        match sw_ctx env k with
        | Some er => Some (e, (evicted, freed, Some er))
        | None =>
            let '(e1, res) := on_idx (ColdestN (sw_coldest env k) (batchSize e)) e in
            match res with
            | Err er => Some (e1, (evicted, freed, Some er))
            | Ok [] => Some (finish evicted freed (set_ev_stats add_Overshoot e1))
            | Ok batch =>
                let '(e2, a) := evict_batch env k mustFree batch evicted freed e1 in
                if negb (rd_progressed a)
                then Some (finish (rd_evicted a) (rd_freed a) (set_ev_stats add_Overshoot e2))
                else sweep_loop env fuel' (S k) mustFree (rd_evicted a) (rd_freed a) e2
            end
        end
  end.

Definition Sweep (env : SweepEnv) (fuel : nat) (e : Evictor)
    : option (Evictor * (Z * Z * option error)) :=
  if ev_closed e then Some (e, (0, 0, Some ErrClosed))
  else
    let '(e1, res) := on_idx (FlushTouches (sw_flush env)) e in
    match res with
    | Err er => Some (e1, (0, 0, Some (Wrap "flush touches before sweep" er)))
    | Ok _ =>
        let '(e2, res) := on_idx (Totals (sw_totals env)) e1 in
        match res with
        | Err er => Some (e2, (0, 0, Some er))
        | Ok (_, used) =>
            if used <=? HighBytes (quota e) then Some (e2, (0, 0, None))
            else
              let mustFree := i64 (used - LowBytes (quota e)) in
              sweep_loop env fuel 0 mustFree 0 0 (set_ev_stats add_Sweeps e2)
        end
    end.

Definition sweepLogged (env : SweepEnv) (fuel : nat) (e : Evictor) : option Evictor :=
  match Sweep env fuel e with
  | None => None
  | Some (e', (_, _, Some _)) => Some (set_ev_stats add_Failures e')
  | Some (e', _) => Some e'
  end.

(** ** Run

    [Wake] leaves a token in a channel with room for one; it is the store's
    [evictor] field, which [Put] sets.  [Run] sweeps at startup and then on
    each event the select statement picks, until the context is done. *)

Definition Wake (e : Evictor) : Evictor :=
  set_store (set_evictor (Some true) (store e)) e.

Inductive run_event := RunDone | RunWake | RunTick.

(** The events that are ready: a receive from [wake] needs the token. *)
Definition ready (ev : run_event) (e : Evictor) : bool :=
  match ev with RunWake => bool_decide (evictor (store e) = Some true) | _ => true end.

Fixpoint run_loop (fuel : nat) (evs : list (run_event * SweepEnv)) (e : Evictor) : option Evictor :=
  match evs with
  | [] => Some e
  | (ev, env) :: evs' =>
      if negb (ready ev e) then run_loop fuel evs' e
      else
        match ev with
        | RunDone => Some e
        | RunWake =>
            e' ← sweepLogged env fuel (set_store (set_evictor (Some false) (store e)) e);
            run_loop fuel evs' e'
        | RunTick => e' ← sweepLogged env fuel e; run_loop fuel evs' e'
        end
  end.

Definition Run (fuel : nat) (first : SweepEnv) (evs : list (run_event * SweepEnv)) (e : Evictor)
    : option Evictor :=
  e' ← sweepLogged first fuel e; run_loop fuel evs e'.
End sweep.

(** [Close], once. *)
Definition Evictor_Close (e : Evictor) : Evictor :=
  mkEvictor (store e) (quota e) (policy e) true (batchSize e) (ev_stats e).

(** ** Lemmas *)

#[global] Arguments DeleteFile : simpl never.
#[global] Arguments ColdestN : simpl never.
#[global] Arguments Totals : simpl never.
#[global] Arguments evict_batch : simpl never.
#[global] Arguments on_idx : simpl never.

Lemma on_idx_eq {A} (m : M Index A) e i :
  index (store e) = Some i →
  on_idx m e = (set_store (set_index (Some (m i).1) (store e)) e, (m i).2).
Proof. intros Hi. unfold on_idx, lift_index. rewrite Hi. by destruct (m i). Qed.

(** A query leaves the evictor as it was. *)
Lemma on_idx_query {A} (m : M Index A) e i r :
  index (store e) = Some i → m i = (i, r) → on_idx m e = (e, r).
Proof.
  intros Hi Hm. rewrite (on_idx_eq m e i Hi), Hm. destruct e as [s ?????]; simpl in *.
  destruct s; simpl in *. by subst.
Qed.

Lemma on_idx_same {A} (m : M Index A) e :
  same_disk (store e) (store (on_idx m e).1) ∧ quota (on_idx m e).1 = quota e.
Proof.
  unfold on_idx. destruct (index (store e)) as [i|]; [|by repeat split].
  pose proof (lift_index_same i m (store e)) as Hs. destruct (lift_index _ _ _). by split.
Qed.

(** The rows of [t] stand for objects the store holds, at their size. *)
Definition accurate (s : Store) (t : Table) : Prop :=
  ∀ r x, t !! r = Some x →
    ns_Valid r.1 = true ∧ valid_key r.2 = true ∧
    ∃ c, view s r.1 r.2 = Some c ∧ row_size x = Z.of_nat (length c).

(** Every object the store holds has a row: the index does not under-count. *)
Definition accounted (s : Store) : Prop :=
  ∀ ns key, ns_Valid ns = true → valid_key key = true →
    is_Some (tree s !! object_file (root s) ns key) →
    ∃ i, index s = Some i ∧ is_Some (objects i !! (ns, key)).

Abbreviation cref := (λ c, e_ref (c_entry c)).
Abbreviation csize := (λ c, row_size (e_row (c_entry c))).

Lemma DeleteFile_fine ns key s c :
  store_wf s → ns_Valid ns = true → valid_key key = true → view s ns key = Some c →
  ∃ s' n, DeleteFile None None ns key s = (s', Ok n) ∧ store_wf s' ∧ same_config s s' ∧
    closed s' = closed s ∧ index s' = index s ∧
    tree s' = delete (object_file (root s) ns key) (tree s).
Proof.
  intros Hwf Hns Hk Hv. destruct (DeleteFile None None ns key s) as [s' res] eqn:HD.
  assert (∃ n, res = Ok n) as [n ->].
  { revert HD. unfold DeleteFile. mrun.
    destruct (check_ref_cases ns key s) as [(e & _ & Hno)|(_ & _ & ->)]; [by destruct Hno|]. mrun.
    unfold unlink, os_Remove, view in *. mrun.
    destruct (lookup_node None (tree s) (object_file (root s) ns key));
      destruct (tree s !! _) as [[]|]; try done; mrun; intros [= _ <-]; eauto. }
  exists s', n. destruct (DeleteFile_spec _ _ _ _ _ _ _ Hwf HD) as (? & ? & ? & ? & _ & _ & Heff).
  do 5 (split; [done|]). destruct Heff as [(_ & Hno & _)|(x & _ & ? & _)]; [|done].
  unfold view in Hv. by rewrite (Hno eq_refl) in Hv.
Qed.

Lemma Zsum_fmap_perm {A} (f : A → Z) l1 l2 : l1 ≡ₚ l2 → Zsum (f <$> l1) = Zsum (f <$> l2).
Proof. intros H. by apply Zsum_perm, fmap_Permutation. Qed.

(** The store after the files of [rs] have been unlinked. *)
Definition unlinked (s s' : Store) (rs : list (string * string)) : Prop :=
  store_wf s' ∧ same_config s s' ∧ closed s' = closed s ∧ index s' = index s ∧
  ∀ ns key, ns_Valid ns = true → valid_key key = true →
    view s' ns key = if bool_decide ((ns, key) ∈ rs) then None else view s ns key.

Lemma unlinked_refl s : store_wf s → unlinked s s [].
Proof.
  intros. split; [done|]. split; [done|]. split; [done|]. split; [done|].
  intros. by rewrite bool_decide_eq_false_2 by apply not_elem_of_nil.
Qed.

Lemma unlinked_cons s s1 s' r rs :
  ns_Valid r.1 = true → valid_key r.2 = true → store_wf s1 → same_config s s1 →
  closed s1 = closed s → index s1 = index s →
  tree s1 = delete (object_file (root s) r.1 r.2) (tree s) →
  unlinked s1 s' rs → unlinked s s' (r :: rs).
Proof.
  intros Hns Hk Hwf (Hr & ? & ? & ?) Hc Hi Ht (? & (?&?&?&?) & ? & ? & Hv).
  split; [done|]. split; [repeat split; congruence|]. split; [congruence|]. split; [congruence|].
  intros ns key Hns' Hk'. rewrite Hv by done.
  destruct (view_delete s s1 r.1 r.2 Hr Ht Hns Hk) as [Hv1 Hv2].
  destruct (decide ((ns, key) = r)) as [<-|Hne]; simpl in *.
  - rewrite Hv1, (bool_decide_eq_true_2 ((ns, key) ∈ _ :: _)) by (apply list_elem_of_here).
    by case_match.
  - rewrite Hv2 by (by rewrite <-?surjective_pairing).
    assert ((ns, key) ∈ r :: rs ↔ (ns, key) ∈ rs) as Hiff by (rewrite elem_of_cons; naive_solver).
    by rewrite (bool_decide_ext _ _ Hiff).
Qed.

(** Popping without faults: the victims [vs] leave the heap in ascending order
    of score until [mustFree] is reached, and no later. *)
Record popped (mustFree : Z) (h : list candidate) (a a' : round) (vs rest : list candidate) : Prop := {
  pp_perm : vs ++ rest ≡ₚ h;
  pp_refs : rd_refs a' = rd_refs a ++ (cref <$> vs);
  pp_evicted : rd_evicted a' = rd_evicted a + Z.of_nat (length vs);
  pp_freed : rd_freed a' = rd_freed a + Zsum (csize <$> vs);
  pp_failures : rd_failures a' = rd_failures a;
  pp_progressed : rd_progressed a' = rd_progressed a || bool_decide (vs ≠ []);
  pp_enough : mustFree ≤ rd_freed a' ∨ rest = [];
  pp_needed : ∀ v, last vs = Some v → rd_freed a' - csize v < mustFree;
  pp_sorted : StronglySorted (λ x y, c_score x ≤ c_score y) vs;
  pp_lowest : ∀ v u, v ∈ vs → u ∈ rest → c_score v ≤ c_score u;
  pp_store : unlinked (rd_store a) (rd_store a') (cref <$> vs) }.

Lemma popped_nil mustFree h a :
  store_wf (rd_store a) → mustFree ≤ rd_freed a ∨ h = [] → popped mustFree h a a [] h.
Proof.
  intros Hwf He.
  split; simpl; rewrite ?app_nil_r, ?orb_false_r; try done; try lia.
  - apply SSorted_nil.
  - intros v u Hv. by apply elem_of_nil in Hv.
Qed.

Lemma popped_cons mustFree h h' a a1 a' c vs rest :
  c :: h' ≡ₚ h → Forall (λ u, c_score c ≤ c_score u) h' → rd_freed a < mustFree →
  (let r := cref c in
   ns_Valid r.1 = true ∧ valid_key r.2 = true ∧ store_wf (rd_store a1) ∧
   same_config (rd_store a) (rd_store a1) ∧ closed (rd_store a1) = closed (rd_store a) ∧
   index (rd_store a1) = index (rd_store a) ∧
   tree (rd_store a1) = delete (object_file (root (rd_store a)) r.1 r.2) (tree (rd_store a))) →
  rd_refs a1 = rd_refs a ++ [cref c] → rd_evicted a1 = rd_evicted a + 1 →
  rd_freed a1 = rd_freed a + csize c → rd_failures a1 = rd_failures a → rd_progressed a1 = true →
  popped mustFree h' a1 a' vs rest → popped mustFree h a a' (c :: vs) rest.
Proof.
  intros Hp Hmin Hlt (? & ? & ? & ? & ? & ? & ?) Hr He Hf Hfl Hpr [Pp Pr Pe Pf Pfl Ppr Pen Pn Ps Pl Pst].
  split; csimpl.
  - rewrite <-Hp. by apply perm_skip.
  - by rewrite Pr, Hr, <-(assoc_L _).
  - lia.
  - lia.
  - congruence.
  - by rewrite Ppr, Hpr, orb_true_r.
  - done.
  - intros v Hv. rewrite last_cons in Hv. destruct (last vs) as [v'|] eqn:El; simplify_eq; [by apply Pn|].
    apply last_None in El as ->. simpl in Pf. lia.
  - constructor; [done|]. rewrite <-Pp in Hmin. by apply Forall_app in Hmin as [? _].
  - intros v u [->|Hv]%elem_of_cons Hu; [|by apply Pl]. rewrite Forall_forall in Hmin. apply Hmin.
    rewrite <-Pp. apply elem_of_app. by right.
  - by eapply unlinked_cons.
Qed.

(** A heap of candidates whose rows are accurate. *)
Definition heap_ready (s : Store) (h : list candidate) : Prop :=
  heap_from c_score 0 (length h) h ∧ NoDup (cref <$> h) ∧
  ∀ c, c ∈ h → ns_Valid (cref c).1 = true ∧ valid_key (cref c).2 = true ∧
    ∃ b, view s (cref c).1 (cref c).2 = Some b ∧ csize c = Z.of_nat (length b).

Lemma heap_ready_sizes s h : heap_ready s h → Forall (Z.le 0) (csize <$> h).
Proof.
  intros (_ & _ & Hh). apply Forall_fmap, Forall_forall. intros c Hc.
  destruct (Hh c Hc) as (_ & _ & b & _ & Hs). simpl. lia.
Qed.

Lemma pop_loop_fine mustFree n h a :
  n = length h → store_wf (rd_store a) → heap_ready (rd_store a) h →
  0 ≤ rd_freed a → rd_freed a + Zsum (csize <$> h) < 2 ^ 63 →
  ∃ vs rest, popped mustFree h a (pop_loop (λ _, None) (λ _, None) mustFree n h a) vs rest.
Proof.
  revert h a. induction n as [|n IH]; intros h a Hn Hwf Hh Hpos Hbnd; simpl.
  { destruct h; [|done]. exists [], []. apply popped_nil; auto. }
  destruct (Z.ltb_spec (rd_freed a) mustFree) as [Hlt|Hge]; simpl.
  2: { exists [], h. apply popped_nil; auto. }
  pose proof (heap_ready_sizes _ _ Hh) as Hsz. destruct Hh as (Hheap & Hnd & Hacc).
  destruct (Pop_spec c_score h Hheap) as (c & h' & HP & Hperm & Hheap' & Hmin); [by intros ->|].
  rewrite HP. destruct (Hacc c) as (Hns & Hk & b & Hv & Hs).
  { rewrite <-Hperm. apply list_elem_of_here. }
  destruct (DeleteFile_fine _ _ _ _ Hwf Hns Hk Hv) as (s1 & m & -> & Hwf1 & Hcfg & Hcl & Hi & Ht).
  rewrite <-Hperm, fmap_cons in Hsz. apply Forall_cons in Hsz as [_ Hsz]. apply Zsum_nonneg in Hsz.
  rewrite <-(Zsum_fmap_perm csize _ _ Hperm) in Hbnd. csimpl in Hbnd.
  cbv beta in *. rewrite i64_id by (unfold in_i64; lia).
  assert (Hnd' : (cref c ∉ (cref <$> h')) ∧ NoDup (cref <$> h')).
  { apply NoDup_cons. change (NoDup (cref <$> (c :: h'))). by rewrite Hperm. }
  destruct Hnd' as [Hni Hnd'].
  match goal with |- context [pop_loop _ _ _ n h' ?x] => set (a1 := x) end.
  destruct (IH h' a1) as (vs & rest & Hpp); simpl; [|done| |lia|lia|].
  - pose proof (Permutation_length Hperm). simpl in *. lia.
  - split; [done|]. split; [done|]. intros c' Hc'.
    destruct (Hacc c') as (Hns' & Hk' & b' & Hv' & Hs'); [rewrite <-Hperm; by right|].
    split; [done|]. split; [done|]. exists b'. split; [|done].
    destruct Hcfg as (Hr & _). destruct (view_delete _ s1 _ _ Hr Ht Hns Hk) as [_ ->]; [done..|].
    rewrite <-!surjective_pairing. intros He. apply Hni. cbv beta. rewrite <-He. by apply (list_elem_of_fmap_2 cref).
  - exists (c :: vs), rest. by eapply (popped_cons mustFree h h' a a1).
Qed.

(** ** A round without faults *)

Abbreviation esize := (λ en, row_size (e_row en)).

(** The evictor is at rest between rounds: its index answers and its rows are
    those of objects the store holds. *)
Record steady (e : Evictor) (t : Table) : Prop := {
  st_wf : store_wf (store e);
  st_index : ∃ i, index (store e) = Some i ∧ index_open i ∧ objects i = t;
  st_rows : accurate (store e) t }.

Lemma accurate_sizes s t : accurate s t → Forall (Z.le 0) (Zsizes t).
Proof.
  intros Ha. apply Forall_fmap, Forall_forall. intros [r x] Hin%elem_of_map_to_list. simpl.
  destruct (Ha r x Hin) as (_ & _ & c & _ & ->). lia.
Qed.

Lemma make_heap_perm p batch : c_entry <$> make_heap p batch ≡ₚ batch.
Proof.
  unfold make_heap. rewrite (fmap_Permutation c_entry _ _ (Init_perm _ _)).
  rewrite <-list_fmap_compose. by rewrite list_fmap_id.
Qed.

Lemma make_heap_score p batch c : c ∈ make_heap p batch → c_score c = Score p (c_entry c).
Proof.
  unfold make_heap. intros Hc. rewrite (Init_perm c_score) in Hc. by apply list_elem_of_fmap in Hc as (en & -> & _).
Qed.

Lemma batch_sizes (f : Entry → Z) p batch :
  Zsum ((λ c, f (c_entry c)) <$> make_heap p batch) = Zsum (f <$> batch).
Proof.
  rewrite <-(Zsum_perm _ _ (fmap_Permutation f _ _ (make_heap_perm p batch))).
  by rewrite <-list_fmap_compose.
Qed.

(** What one round does to a batch taken from the table [t]: the entries
    [vs] are evicted and [rest] is kept. *)
Record evicts (p : EvictionPolicy) (mustFree : Z) (batch : list Entry) (t : Table)
    (evicted freed : Z) (e e' : Evictor) (a : round) (vs rest : list Entry) : Prop := {
  ev_perm : vs ++ rest ≡ₚ batch;
  ev_refs : rd_refs a = e_ref <$> vs;
  ev_evicted : rd_evicted a = evicted + Z.of_nat (length vs);
  ev_freed : rd_freed a = freed + Zsum (esize <$> vs);
  ev_progressed : rd_progressed a = bool_decide (vs ≠ []);
  ev_enough : mustFree ≤ rd_freed a ∨ rest = [];
  ev_needed : ∀ v, last vs = Some v → rd_freed a - esize v < mustFree;
  ev_sorted : StronglySorted (λ x y, Score p x ≤ Score p y) vs;
  ev_lowest : ∀ v u, v ∈ vs → u ∈ rest → Score p v ≤ Score p u;
  ev_steady : steady e' (delete_refs (e_ref <$> vs) t);
  ev_config : quota e' = quota e ∧ policy e' = policy e ∧ batchSize e' = batchSize e ∧
    same_config (store e) (store e');
  ev_view : ∀ ns key, ns_Valid ns = true → valid_key key = true →
    view (store e') ns key =
      if bool_decide ((ns, key) ∈ (e_ref <$> vs)) then None else view (store e) ns key }.

Lemma StronglySorted_fmap_in {A B} (f : A → B) (R : relation B) (R' : relation A) l :
  (∀ x y, x ∈ l → y ∈ l → R' x y → R (f x) (f y)) → StronglySorted R' l → StronglySorted R (f <$> l).
Proof.
  induction l as [|x l IH]; intros HR Hs; [constructor|].
  inversion_clear Hs as [|?? Hs' Hx]. csimpl. constructor.
  - apply IH; [|done]. intros ????. apply HR; by right.
  - apply Forall_fmap, Forall_forall. intros y Hy. rewrite Forall_forall in Hx.
    apply HR; [left|by right|by apply Hx].
Qed.

(** Removing the evicted rows leaves the evictor steady. *)
Lemma steady_after e e1 t rs :
  accurate (store e) t → store_wf (store e1) →
  (∀ ns key, ns_Valid ns = true → valid_key key = true →
    view (store e1) ns key = if bool_decide ((ns, key) ∈ rs) then None else view (store e) ns key) →
  (∃ i, index (store e1) = Some i ∧ index_open i ∧ objects i = delete_refs rs t) →
  steady e1 (delete_refs rs t).
Proof.
  intros Ha Hwf Hv Hi. split; [done..|]. intros r x Hx.
  rewrite delete_refs_lookup in Hx. case_bool_decide as Hin; [done|].
  destruct (Ha r x Hx) as (Hns & Hk & c & Hc & Hs). split; [done|]. split; [done|].
  exists c. split; [|done]. rewrite Hv by done. rewrite bool_decide_eq_false_2; [done|].
  by rewrite <-surjective_pairing.
Qed.

(** The heap a batch of accurate rows is ranked with. *)
Lemma make_heap_ready s p t batch :
  accurate s t → NoDup (e_ref <$> batch) → (∀ en, en ∈ batch → t !! e_ref en = Some (e_row en)) →
  heap_ready s (make_heap p batch).
Proof.
  intros Ha Hnd Hin. pose proof (make_heap_perm p batch) as Hp. split; [apply Init_heap|]. split.
  - rewrite (list_fmap_compose c_entry e_ref). by rewrite (fmap_Permutation e_ref _ _ Hp).
  - intros c Hc%(list_elem_of_fmap_2 c_entry). rewrite Hp in Hc. by apply Hin, Ha in Hc.
Qed.

Lemma remove_rows_fine rs e i :
  index (store e) = Some i → index_open i →
  let e' := remove_rows tx_fine rs e in
  same_disk (store e) (store e') ∧ quota e' = quota e ∧ policy e' = policy e ∧
  batchSize e' = batchSize e ∧
  ∃ i', index (store e') = Some i' ∧ index_open i' ∧ objects i' = delete_refs rs (objects i).
Proof.
  intros Hi Ho. unfold remove_rows. case_bool_decide as Hrs.
  { subst rs. split; [apply same_disk_refl|]. split; [done|]. split; [done|]. split; [done|]. by exists i. }
  destruct (RemoveBatch_fine rs i Ho Hrs) as (i' & HR & Ho' & Hobj).
  rewrite (on_idx_eq _ _ i Hi), HR. simpl. split; [by repeat split|].
  split; [done|]. split; [done|]. split; [done|]. by exists i'.
Qed.

(** The conclusions about entries follow from those about candidates. *)
Lemma evicts_of_popped mustFree batch t evicted freed e e' a cs us :
  let p := policy e in
  let vs := c_entry <$> cs in
  popped mustFree (make_heap p batch) (mkRound (store e) [] evicted freed 0 false) a cs us →
  steady e' (delete_refs (e_ref <$> vs) t) →
  quota e' = quota e ∧ policy e' = policy e ∧ batchSize e' = batchSize e ∧
    same_config (store e) (store e') →
  (∀ ns key, view (store e') ns key = view (rd_store a) ns key) →
  evicts p mustFree batch t evicted freed e e' a vs (c_entry <$> us).
Proof.
  intros p vs [Pp Pr Pe Pf Pfl Ppr Pen Pn Ps Pl Pst] Hst Hcfg Hview. cbn in Pr, Pe, Pf, Pfl, Ppr, Pen, Pst.
  assert (Hsc : ∀ c, c ∈ cs ++ us → c_score c = Score p (c_entry c)).
  { intros c Hc. rewrite Pp in Hc. by eapply make_heap_score. }
  setoid_rewrite elem_of_app in Hsc.
  split; try done.
  - unfold vs. by rewrite <-fmap_app, (fmap_Permutation c_entry _ _ Pp), make_heap_perm.
  - rewrite Pr. unfold vs. by rewrite <-list_fmap_compose.
  - unfold vs. by rewrite length_fmap.
  - rewrite Pf. unfold vs. by rewrite <-list_fmap_compose.
  - rewrite Ppr. apply bool_decide_ext. unfold vs. by destruct cs.
  - destruct Pen as [|Hu]; [by left|right]. by rewrite Hu.
  - intros v. unfold vs. rewrite fmap_last. intros (c & Hc & ->)%fmap_Some_1. by apply Pn.
  - apply (StronglySorted_fmap_in _ _ (λ x y, c_score x ≤ c_score y)); [|done].
    intros x y Hx Hy. cbv beta. by rewrite !Hsc by auto.
  - intros v u (c & -> & Hc)%list_elem_of_fmap (d & -> & Hd)%list_elem_of_fmap.
    rewrite <-!Hsc by auto. by apply Pl.
  - destruct Pst as (_ & _ & _ & _ & Hv). intros ns key Hns Hk. rewrite Hview, Hv by done.
    unfold vs. by rewrite <-list_fmap_compose.
Qed.

Lemma evict_batch_fine k mustFree batch evicted freed e t :
  steady e t → NoDup (e_ref <$> batch) → (∀ en, en ∈ batch → t !! e_ref en = Some (e_row en)) →
  0 ≤ freed → freed + Zsum (Zsizes t) < 2 ^ 63 →
  ∃ e' a vs rest, evict_batch sweep_fine k mustFree batch evicted freed e = (e', a) ∧
    evicts (policy e) mustFree batch t evicted freed e e' a vs rest.
Proof.
  intros [Hwf (i & Hi & Ho & <-) Ha] Hnd Hin Hpos Hbnd.
  set (h := make_heap (policy e) batch).
  set (a0 := mkRound (store e) [] evicted freed 0 false).
  destruct (delete_entries batch (objects i) Hnd Hin) as [Hsum _].
  destruct (pop_loop_fine mustFree (length h) h a0) as (cs & us & Hpp); [done|done| | | |].
  { by eapply make_heap_ready. }
  { done. }
  { unfold h. rewrite (batch_sizes (λ en, row_size (e_row en))). cbn [rd_freed a0].
    enough (0 ≤ Zsum (Zsizes (delete_refs (e_ref <$> batch) (objects i)))) by lia.
    apply Zsum_nonneg, (accurate_sizes (store e)). intros r x Hx. rewrite delete_refs_lookup in Hx.
    case_match; [done|]. by apply Ha. }
  unfold evict_batch. fold h a0. cbn zeta.
  change (sw_stat sweep_fine k) with (λ _ : string * string, @None error).
  change (sw_rm sweep_fine k) with (λ _ : string * string, @None error).
  change (sw_remove sweep_fine k) with tx_fine.
  set (a := pop_loop _ _ _ _ _ _) in *. clearbody a.
  set (e1 := set_ev_stats _ _). eexists _, a, (c_entry <$> cs), (c_entry <$> us). split; [done|].
  pose proof Hpp as [_ Pr _ _ _ _ _ _ _ _ (Hwf1 & Hc1 & _ & Hi1 & Hv1)]. cbn in Pr, Hwf1, Hc1, Hi1, Hv1.
  destruct (remove_rows_fine (rd_refs a) e1 i) as (Hsd & Hq & Hp & Hb & Hi2); [by rewrite <-Hi|done|].
  rewrite Pr, (list_fmap_compose c_entry e_ref) in *.
  assert (Hview : ∀ ns key, view (store (remove_rows tx_fine (e_ref <$> (c_entry <$> cs)) e1)) ns key =
    view (rd_store a) ns key).
  { intros ns key. destruct Hsd as ((Hr & _) & _ & _ & Ht). unfold view. by rewrite Ht, Hr. }
  eapply evicts_of_popped; [done|..|done].
  - apply (steady_after e); [done|by eapply same_disk_wf|by setoid_rewrite Hview|done].
  - split; [done|]. split; [done|]. split; [done|].
    change (store e1) with (rd_store a) in Hsd.
    destruct Hsd as ((?&?&?&?) & _), Hc1 as (?&?&?&?). repeat split; congruence.
Qed.

(** ** The whole sweep without faults *)

Lemma steady_stats f e t : steady e t → steady (set_ev_stats f e) t.
Proof. intros [? ? ?]. by split. Qed.

(** The rows of [t] that [t'] lacks have lost their object, the others have
    kept it. *)
Definition view_after (t t' : Table) (s s' : Store) : Prop :=
  ∀ ns key, ns_Valid ns = true → valid_key key = true →
    view s' ns key =
      if bool_decide (is_Some (t !! (ns, key)) ∧ t' !! (ns, key) = None) then None
      else view s ns key.

Lemma view_after_refl t s : view_after t t s s.
Proof.
  intros ns key _ _. rewrite bool_decide_eq_false_2; [done|]. intros [[x Hx] ?]. congruence.
Qed.

Lemma view_after_trans t1 t2 t3 s1 s2 s3 :
  t2 ⊆ t1 → t3 ⊆ t2 → view_after t1 t2 s1 s2 → view_after t2 t3 s2 s3 → view_after t1 t3 s1 s3.
Proof.
  intros H21 H32 Hv1 Hv2 ns key Hns Hk. rewrite Hv2, Hv1 by done.
  destruct (t1 !! (ns, key)) as [x1|] eqn:E1.
  - destruct (t2 !! (ns, key)) as [x2|] eqn:E2.
    + destruct (t3 !! (ns, key)) eqn:E3; repeat case_bool_decide; naive_solver.
    + assert (t3 !! (ns, key) = None) as E3 by (by eapply lookup_weaken_None).
      rewrite E3. repeat case_bool_decide; naive_solver.
  - assert (t2 !! (ns, key) = None) as E2 by (by eapply lookup_weaken_None).
    rewrite E2. repeat case_bool_decide; naive_solver.
Qed.

Lemma delete_refs_subseteq (rs : list (string * string)) (t : Table) : delete_refs rs t ⊆ t.
Proof.
  apply map_subseteq_spec. intros r x. rewrite delete_refs_lookup. by case_match.
Qed.

(** What the outer loop reaches, from [t] with [freed] bytes counted. *)
Record drained (mustFree evicted freed : Z) (t t' : Table) (e e' : Evictor) (n' f' : Z) : Prop := {
  dr_steady : steady e' t';
  dr_sub : t' ⊆ t;
  dr_evicted : n' = evicted + (Z.of_nat (size t) - Z.of_nat (size t'));
  dr_freed : f' = freed + (Zsum (Zsizes t) - Zsum (Zsizes t'));
  dr_enough : mustFree ≤ f' ∨ t' = ∅;
  dr_stop : mustFree ≤ freed → t' = t;
  dr_needed : freed < mustFree → t ≠ ∅ →
    ∃ r x, t !! r = Some x ∧ t' !! r = None ∧ f' - row_size x < mustFree;
  dr_view : view_after t t' (store e) (store e') }.

Section drain.
Context {Scan : SqlScan}.

Lemma drained_refl mustFree evicted freed t e f :
  steady e t → mustFree ≤ freed ∨ t = ∅ →
  drained mustFree evicted freed t t e (set_ev_stats f e) evicted freed.
Proof.
  intros Hst He. split; [by apply steady_stats|done|lia|lia|done|done| |apply view_after_refl].
  intros ? Ht. destruct He; [lia|done].
Qed.

Lemma round_drains k mustFree evicted freed e t :
  steady e t → 0 < batchSize e → t ≠ ∅ → freed < mustFree →
  0 ≤ freed → freed + Zsum (Zsizes t) < 2 ^ 63 →
  ∃ e1 a t1 x,
    evict_batch sweep_fine k mustFree (coldest (batchSize e) t) evicted freed e = (e1, a) ∧
    rd_progressed a = true ∧ steady e1 t1 ∧ t1 ⊆ t ∧ (size t1 < size t)%nat ∧
    batchSize e1 = batchSize e ∧
    rd_evicted a = evicted + (Z.of_nat (size t) - Z.of_nat (size t1)) ∧
    rd_freed a = freed + (Zsum (Zsizes t) - Zsum (Zsizes t1)) ∧ freed ≤ rd_freed a ∧
    view_after t t1 (store e) (store e1) ∧
    (∃ r, t !! r = Some x ∧ t1 !! r = None) ∧ rd_freed a - row_size x < mustFree.
Proof.
  intros Hst Hb Ht Hlt Hpos Hbnd.
  destruct (evict_batch_fine k mustFree (coldest (batchSize e) t) evicted freed e t)
    as (e1 & a & vs & rest & HE & [Vp Vr Ve Vf Vpr Ven Vn _ _ Vst (_ & _ & Vb & _) Vv]);
    [done|apply coldest_NoDup|intros; by eapply coldest_elem|done..|].
  assert (Hvs : ∀ v, v ∈ vs → t !! e_ref v = Some (e_row v)).
  { intros v Hv. apply (coldest_elem (batchSize e)). rewrite <-Vp. apply elem_of_app. by left. }
  assert (Hnd : NoDup (e_ref <$> vs)).
  { pose proof (coldest_NoDup (batchSize e) t) as Hnd.
    rewrite <-(fmap_Permutation e_ref _ _ Vp), fmap_app in Hnd. by apply NoDup_app in Hnd as [? _]. }
  destruct (delete_entries vs t Hnd Hvs) as [Hsum Hsize].
  destruct (last vs) as [v|] eqn:El.
  2: { apply last_None in El. subst vs. simpl in *. destruct Ven as [|Hr]; [lia|].
       subst rest. apply Permutation_nil_l in Vp. symmetry in Vp. by apply coldest_nil in Vp. }
  pose proof (last_Some_elem_of _ _ El) as Hvin.
  assert (0 ≤ Zsum (esize <$> vs)).
  { apply Zsum_nonneg, Forall_fmap, Forall_forall. intros u Hu%Hvs. simpl.
    destruct (st_rows _ _ Hst _ _ Hu) as (_ & _ & c & _ & ->). lia. }
  exists e1, a, (delete_refs (e_ref <$> vs) t), (e_row v). split; [done|].
  assert (length vs ≠ 0%nat) by (destruct vs; [by apply elem_of_nil in Hvin|done]).
  split; [rewrite Vpr; by destruct vs|]. split; [done|]. split; [apply delete_refs_subseteq|].
  split; [lia|]. split; [done|]. split; [lia|]. split; [lia|]. split; [lia|]. split; [|split].
  - intros ns key Hns Hk. rewrite Vv by done. rewrite delete_refs_lookup.
    destruct (decide ((ns, key) ∈ (e_ref <$> vs))) as [Hin|Hni].
    + rewrite !(bool_decide_eq_true_2 ((ns, key) ∈ _)) by done. rewrite bool_decide_eq_true_2; [done|].
      split; [|done]. apply list_elem_of_fmap in Hin as (u & -> & Hu). exists (e_row u). by apply Hvs.
    + rewrite !(bool_decide_eq_false_2 ((ns, key) ∈ _)) by done.
      rewrite bool_decide_eq_false_2; [done|]. intros [[y Hy] Hno]. congruence.
  - exists (e_ref v). split; [by apply Hvs|]. rewrite delete_refs_lookup, bool_decide_eq_true_2; [done|].
    by apply list_elem_of_fmap_2.
  - by apply Vn.
Qed.

Lemma drained_trans mustFree evicted freed t t1 t' e e1 e' n1 f1 n' f' x :
  freed < mustFree → t1 ⊆ t → n1 = evicted + (Z.of_nat (size t) - Z.of_nat (size t1)) →
  f1 = freed + (Zsum (Zsizes t) - Zsum (Zsizes t1)) →
  view_after t t1 (store e) (store e1) →
  (∃ r, t !! r = Some x ∧ t1 !! r = None) → f1 - row_size x < mustFree →
  drained mustFree n1 f1 t1 t' e1 e' n' f' → drained mustFree evicted freed t t' e e' n' f'.
Proof.
  intros Hlt0 Hsub Hn Hf Hv (r & Hr & Hr1) Hneed [Ds Dsub De Df Den Dst Dn Dv].
  split; [done|by etrans|lia|lia|done|lia| |by eapply view_after_trans].
  intros _ _. destruct (decide (f1 < mustFree ∧ t1 ≠ ∅)) as [[Hlt Hne]|Hno].
  - destruct (Dn Hlt Hne) as (r' & x' & H1 & H2 & H3). exists r', x'. split; [|done].
    by eapply lookup_weaken.
  - assert (t' = t1) as ->.
    { destruct (decide (f1 < mustFree)); [|apply Dst; lia].
      destruct (decide (t1 = ∅)) as [->|]; [|tauto].
      apply (anti_symm (⊆)); [done|apply map_empty_subseteq]. }
    exists r, x. split; [done|]. split; [done|]. lia.
Qed.

Lemma sweep_loop_fine fuel k mustFree evicted freed e t :
  steady e t → 0 < batchSize e → 0 ≤ freed → freed + Zsum (Zsizes t) < 2 ^ 63 →
  (size t < fuel)%nat →
  ∃ e' n' f' t', sweep_loop sweep_fine fuel k mustFree evicted freed e = Some (e', (n', f', None)) ∧
    drained mustFree evicted freed t t' e e' n' f'.
Proof.
  revert k evicted freed e t. induction fuel as [|fuel IH]; intros k evicted freed e t Hst Hb Hpos Hbnd Hf;
    [lia|]. cbn [sweep_loop].
  destruct (Z.ltb_spec freed mustFree) as [Hlt|Hge]; cbn [negb].
  2: { eexists _, _, _, t. split; [done|]. apply drained_refl; auto. }
  destruct (st_index _ _ Hst) as (i & Hi & Ho & Hobj).
  change (sw_ctx sweep_fine k) with (@None error). change (sw_coldest sweep_fine k) with (@None error).
  rewrite (on_idx_query _ _ i (Ok (coldest (batchSize e) t)) Hi).
  2: { unfold ColdestN. destruct (Z.leb_spec (batchSize e) 0); [lia|]. by rewrite query_r_fine, Hobj. }
  destruct (coldest (batchSize e) t) as [|en l] eqn:Hc.
  { apply coldest_nil in Hc; [|done]. eexists _, _, _, t. split; [done|].
    apply (drained_refl mustFree evicted freed t e (λ st, add_Evicted evicted freed (add_Overshoot st))); auto. }
  destruct (round_drains k mustFree evicted freed e t) as
    (e2 & a & t1 & x & HE & Hpr & Hst2 & Hsub & Hsz & Hb2 & Hev & Hfr & Hmono & Hv & Hr & Hneed);
    [done..| |done|done|done|].
  { intros ->. assert (en ∈ coldest (batchSize e) ∅) as Hin by (rewrite Hc; left).
    by apply coldest_elem in Hin. }
  rewrite Hc in HE. rewrite HE, Hpr. cbn [negb].
  destruct (IH (S k) (rd_evicted a) (rd_freed a) e2 t1) as (e' & n' & f' & t' & HL & HD);
    [done|by rewrite Hb2|lia|lia|lia|].
  exists e', n', f', t'. split; [done|]. by eapply drained_trans.
Qed.
End drain.

(** ** Sweeping under any faults *)

(** The store lost at most files, and every file it still has keeps its row. *)
Definition shrinks (s s' : Store) : Prop :=
  store_ok s → accounted s →
  store_ok s' ∧ accounted s' ∧ root s' = root s ∧
  ∀ p, tree s' !! p = tree s !! p ∨ tree s' !! p = None.

Lemma shrinks_refl s : shrinks s s.
Proof. intros ??. split; [done|]. split; [done|]. auto. Qed.

Lemma shrinks_trans s1 s2 s3 : shrinks s1 s2 → shrinks s2 s3 → shrinks s1 s3.
Proof.
  intros H12 H23 Hok Ha. destruct (H12 Hok Ha) as (Hok2 & Ha2 & Hr2 & Ht2).
  destruct (H23 Hok2 Ha2) as (Hok3 & Ha3 & Hr3 & Ht3).
  split; [done|]. split; [done|]. split; [congruence|]. intros p.
  destruct (Ht3 p) as [->|]; auto.
Qed.

Lemma shrinks_on_idx {A} (m : M Index A) e :
  (∀ i r, is_Some (objects i !! r) → is_Some (objects (m i).1 !! r)) →
  shrinks (store e) (store (on_idx m e).1).
Proof.
  intros Hm Hok Ha. destruct (on_idx_same m e) as [Hsd _].
  split; [by eapply same_disk_ok|]. destruct Hsd as ((Hr & _) & _ & _ & Ht). rewrite Ht.
  split; [|auto]. intros ns key Hns Hk. rewrite Hr, Ht. intros Hf.
  destruct (Ha ns key Hns Hk Hf) as (i & Hi & Hrow). exists (m i).1.
  rewrite (on_idx_eq m e i Hi). simpl. auto.
Qed.

Lemma FlushTouches_rows env i r :
  is_Some (objects i !! r) → is_Some (objects (FlushTouches env i).1 !! r).
Proof.
  unfold FlushTouches. mrun. case_bool_decide; mrun; [done|].
  destruct (flush_write_cases env (map_to_list (pendingTouch i)) (set_pending ∅ i)) as [[e ->]| ->]; [done|].
  simpl. rewrite touch_fold_lookup, fmap_is_Some. done.
Qed.

Lemma query_rows {A} f msg (g : Index → result A) i r :
  is_Some (objects i !! r) → is_Some (objects (query_r f msg g i).1 !! r).
Proof. by rewrite query_r_state. Qed.

(** An unlink the operating system reports as [ENOENT] found no file. *)
Definition honest (rm : string * string → option error) : Prop :=
  ∀ r e, rm r = Some e → os_IsNotExist e = false.

(** The files of [refs] are gone, and only files were lost. *)
Definition gone (s s' : Store) (refs : list (string * string)) : Prop :=
  store_ok s' ∧ root s' = root s ∧ index s' = index s ∧
  (∀ p, tree s' !! p = tree s !! p ∨ tree s' !! p = None) ∧
  ∀ r, r ∈ refs → tree s' !! object_file (root s) r.1 r.2 = None.

Lemma DeleteFile_gone rm stat r s s' refs res s0 :
  honest rm → gone s0 s refs → DeleteFile (stat r) (rm r) r.1 r.2 s = (s', res) →
  gone s0 s' (if is_ok res then refs ++ [r] else refs).
Proof.
  intros Hh (Hok & Hr & Hi & Ht & Hg) HD. pose proof (DeleteFile_ok (stat r) (rm r) r.1 r.2 s Hok) as Hok'.
  rewrite HD in Hok'.
  destruct (DeleteFile_spec _ _ _ _ _ _ _ (ok_wf _ Hok) HD) as (_ & (Hr' & _) & _ & Hi' & Heff).
  assert (∀ p, tree s' !! p = tree s !! p ∨ tree s' !! p = None) as Hmono.
  { destruct res as [n|e]; [|rewrite Heff; auto]. destruct Heff as (_ & _ & [(-> & _)|(x & _ & -> & _)]); [auto|].
    intros p. destruct (decide (p = object_file (root s) r.1 r.2)) as [->|]; [right; apply lookup_delete_eq|left].
    by apply lookup_delete_ne. }
  split; [done|]. split; [congruence|]. split; [congruence|]. split.
  { intros p. destruct (Hmono p) as [->|]; auto. }
  assert (∀ q, q ∈ refs → tree s' !! object_file (root s0) q.1 q.2 = None) as Hold.
  { intros q Hq. by destruct (Hmono (object_file (root s0) q.1 q.2)) as [->|]; [apply Hg|]. }
  destruct res as [n|e]; simpl; [|done]. intros q [Hq|Hq]%elem_of_app; [auto|].
  apply list_elem_of_singleton in Hq as ->. rewrite <-Hr.
  destruct Heff as (_ & _ & [(-> & Hno & _)|(x & _ & -> & _)]); [|apply lookup_delete_eq].
  destruct (rm r) as [er|] eqn:Erm; [|auto].
  exfalso. revert HD. unfold DeleteFile. mrun. destruct (check_ref_cases r.1 r.2 s) as [(? & -> & _)|(_ & _ & ->)]; [done|].
  mrun. unfold unlink, os_Remove. mrun. by rewrite (Hh _ _ Erm).
Qed.

Lemma pop_loop_gone stat rm mustFree n h a s0 :
  honest rm → gone s0 (rd_store a) (rd_refs a) →
  let a' := pop_loop stat rm mustFree n h a in gone s0 (rd_store a') (rd_refs a').
Proof.
  intros Hh. revert h a. induction n as [|n IH]; intros h a Hg; simpl; [done|].
  destruct (negb _); [done|]. destruct (Pop _ _) as [[c h']|]; [|done].
  destruct (DeleteFile _ _ _ _ _) as [s' res] eqn:HD. apply IH.
  pose proof (DeleteFile_gone _ stat _ _ _ _ _ _ Hh Hg HD). by destruct res.
Qed.

Lemma remove_rows_shrinks env refs e s0 :
  gone s0 (store e) refs → accounted s0 → accounted (store (remove_rows env refs e)) ∧
  same_disk (store e) (store (remove_rows env refs e)).
Proof.
  intros (Hok & Hr & Hi & Ht & Hg) Ha.
  assert (∀ ns key, ns_Valid ns = true → valid_key key = true →
    is_Some (tree (store e) !! object_file (root (store e)) ns key) →
    ((ns, key) ∉ refs) ∧ ∃ i, index (store e) = Some i ∧ is_Some (objects i !! (ns, key))) as Hacc.
  { intros ns key Hns Hk Hf. rewrite Hr in Hf. split.
    - intros Hin%Hg. simpl in Hin. rewrite Hin in Hf. by destruct Hf.
    - rewrite Hi. apply Ha; [done..|]. destruct (Ht (object_file (root s0) ns key)) as [<-|Hno]; [done|].
      rewrite Hno in Hf. by destruct Hf. }
  unfold remove_rows. case_bool_decide.
  { split; [|apply same_disk_refl]. intros ns key Hns Hk Hf. by apply Hacc. }
  destruct (on_idx (RemoveBatch env refs) e) as [e' res] eqn:HO.
  pose proof (on_idx_same (RemoveBatch env refs) e) as [Hsd _]. rewrite HO in Hsd. simpl in Hsd.
  enough (accounted (store e')) by (by destruct (is_ok res)).
  destruct Hsd as ((Hr' & _) & _ & _ & Ht'). intros ns key Hns Hk Hf. rewrite Hr', Ht' in Hf.
  destruct (Hacc ns key Hns Hk Hf) as (Hni & i & Hi' & Hrow).
  rewrite (on_idx_eq _ _ i Hi') in HO. injection HO as <- _. simpl. eexists. split; [done|].
  destruct (RemoveBatch_cases env refs i) as [(? & -> & _)|[[? ->]| ->]]; [done..|]. simpl.
  by rewrite delete_refs_lookup, bool_decide_eq_false_2.
Qed.

Definition honest_env (env : SweepEnv) : Prop := ∀ k, honest (sw_rm env k).

Lemma evict_batch_shrinks env k mustFree batch evicted freed e :
  honest_env env → shrinks (store e) (store (evict_batch env k mustFree batch evicted freed e).1).
Proof.
  intros Hh Hok Ha. unfold evict_batch.
  set (a0 := mkRound (store e) [] evicted freed 0 false).
  assert (gone (store e) (rd_store a0) (rd_refs a0)) as Hg0.
  { split; [done|]. split; [done|]. split; [done|]. split; [auto|]. intros r Hr. by apply elem_of_nil in Hr. }
  set (h := make_heap (policy e) batch).
  pose proof (pop_loop_gone (sw_stat env k) _ mustFree (length h) h a0 _ (Hh k) Hg0) as Hg.
  simpl in Hg. set (a := pop_loop _ _ _ _ _ _) in *. clearbody a. simpl.
  match goal with |- store_ok (store (remove_rows _ _ ?x)) ∧ _ => set (e1 := x) end.
  assert (gone (store e) (store e1) (rd_refs a)) as Hg1 by done.
  destruct (remove_rows_shrinks (sw_remove env k) _ e1 _ Hg1 Ha) as [Ha' Hsd].
  destruct Hg as (Hok1 & Hr1 & _ & Ht1 & _). split; [by eapply same_disk_ok|]. split; [done|].
  destruct Hsd as ((Hr & _) & _ & _ & Ht). split; [by rewrite Hr|]. by rewrite Ht.
Qed.

Lemma sweep_loop_shrinks {Scan : SqlScan} env fuel k mustFree evicted freed e e' out :
  honest_env env → sweep_loop env fuel k mustFree evicted freed e = Some (e', out) →
  shrinks (store e) (store e').
Proof.
  intros Hh. revert k evicted freed e. induction fuel as [|fuel IH]; intros k evicted freed e;
    cbn [sweep_loop]; [done|].
  destruct (negb _); [intros [= <- _]; apply shrinks_refl|].
  destruct (sw_ctx env k); [intros [= <- _]; apply shrinks_refl|].
  destruct (on_idx (ColdestN (sw_coldest env k) (batchSize e)) e) as [e1 res] eqn:HO.
  assert (shrinks (store e) (store e1)) as H1.
  { replace e1 with (on_idx (ColdestN (sw_coldest env k) (batchSize e)) e).1 by (by rewrite HO).
    apply shrinks_on_idx. intros i r. unfold ColdestN. destruct (_ <=? _); [done|]. apply query_rows. }
  destruct res as [[|en l]|er]; [intros [= <- _]; done| |intros [= <- _]; done].
  pose proof (evict_batch_shrinks env k mustFree (en :: l) evicted freed e1 Hh) as H2.
  destruct (evict_batch env k mustFree (en :: l) evicted freed e1) as [e2 a].
  simpl in H2. destruct (negb _); [intros [= <- _]; exact (shrinks_trans _ _ _ H1 H2)|].
  intros HL. eapply shrinks_trans; [exact H1|]. eapply shrinks_trans; [exact H2|]. by eapply IH.
Qed.

(** *** Ending under any faults *)

(** What is popped comes from the heap, a round that progressed has rows to remove,
    and with sizes above zero it has freed something. *)
Lemma pop_loop_refs stat rm mustFree n h a :
  heap_from c_score 0 (length h) h →
  let a' := pop_loop stat rm mustFree n h a in
  (∀ r, r ∈ rd_refs a' → r ∈ rd_refs a ∨ r ∈ cref <$> h) ∧
  (rd_progressed a' = true → rd_progressed a = true ∨ rd_refs a' ≠ []) ∧ (rd_refs a ≠ [] → rd_refs a' ≠ []).
Proof.
  revert h a. induction n as [|n IH]; intros h a Hh; cbn [pop_loop]; [auto|].
  destruct (negb _); [auto|]. destruct (decide (h = [])) as [->|Hne]; [auto|].
  destruct (Pop_spec c_score h Hh Hne) as (c & h' & HP & Hp & Hh' & _). rewrite HP.
  assert (∀ r, r ∈ cref <$> h' → r ∈ cref <$> h) as Hsub.
  { intros r Hr. rewrite <-(fmap_Permutation cref _ _ Hp). by right. }
  destruct (DeleteFile _ _ _ _ _) as [s' [m|er]].
  - destruct (IH h' (mkRound s' (rd_refs a ++ [cref c]) (rd_evicted a + 1) (i64 (rd_freed a + csize c)) (rd_failures a) true) Hh')
      as (H1 & _ & H3). cbn [rd_refs rd_progressed] in *.
    assert (rd_refs a ++ [cref c] ≠ []) as Hn by (by destruct (rd_refs a)).
    split; [|auto]. intros r [[Hr|Hr]%elem_of_app|Hr]%H1; [by left| |by right; apply Hsub].
    apply list_elem_of_singleton in Hr as ->. right. rewrite <-(fmap_Permutation cref _ _ Hp). left.
  - destruct (IH h' (mkRound s' (rd_refs a) (rd_evicted a) (rd_freed a) (S (rd_failures a)) (rd_progressed a)) Hh')
      as (H1 & H2 & H3). cbn [rd_refs rd_progressed] in *. split; [|done]. intros r [Hr|Hr]%H1; auto.
Qed.

Lemma pop_loop_frees stat rm mustFree n h a :
  heap_from c_score 0 (length h) h → Forall (λ c, 0 < csize c < 2 ^ 62) h → mustFree ≤ 2 ^ 62 → 0 ≤ rd_freed a →
  let a' := pop_loop stat rm mustFree n h a in
  rd_freed a ≤ rd_freed a' ∧ (rd_progressed a' = true → rd_progressed a = true ∨ rd_freed a < rd_freed a').
Proof.
  intros Hh Hs Hm. revert h a Hh Hs. induction n as [|n IH]; intros h a Hh Hs H0; cbn [pop_loop]; cbv zeta;
    [split; [lia|auto]|].
  destruct (Z.ltb_spec (rd_freed a) mustFree) as [Hlt|]; cbn [negb]; [|split; [lia|auto]].
  destruct (decide (h = [])) as [->|Hne]; [by split; [apply Z.le_refl|left]|].
  destruct (Pop_spec c_score h Hh Hne) as (c & h' & HP & Hp & Hh' & _). rewrite HP.
  rewrite <-Hp in Hs. apply Forall_cons in Hs as [Hc Hs].
  destruct (DeleteFile _ _ _ _ _) as [s' [m|er]].
  - rewrite i64_id by (unfold in_i64; lia).
    destruct (IH h' (mkRound s' (rd_refs a ++ [cref c]) (rd_evicted a + 1) (rd_freed a + csize c) (rd_failures a) true) Hh' Hs)
      as [H1 _]; cbn [rd_freed] in *; [lia|]. split; [lia|]. intros _. right. lia.
  - apply (IH h' (mkRound s' (rd_refs a) (rd_evicted a) (rd_freed a) (S (rd_failures a)) (rd_progressed a))); done.
Qed.

Lemma remove_rows_index env refs e i :
  index (store e) = Some i →
  ∃ i', index (store (remove_rows env refs e)) = Some i' ∧ (index_open i → index_open i') ∧
    (objects i' = objects i ∨ objects i' = delete_refs refs (objects i)).
Proof.
  intros Hi. unfold remove_rows. case_bool_decide; [exists i; auto|]. rewrite (on_idx_eq _ _ i Hi).
  destruct (RemoveBatch_cases env refs i) as [(r & -> & _)|[[er ->]| ->]]; cbn [fst snd];
    (match goal with |- context [is_ok ?x] => destruct (is_ok x) end); eexists; (split; [reflexivity|]); auto.
Qed.

Definition positive (t : Table) : Prop := ∀ r x, t !! r = Some x → 0 < row_size x < 2 ^ 62.

Lemma round_progress {Scan : SqlScan} env k mustFree n evicted freed e i e' a :
  honest_env env → store_ok (store e) → index (store e) = Some i →
  evict_batch env k mustFree (coldest n (objects i)) evicted freed e = (e', a) →
  ∃ i', index (store e') = Some i' ∧ (index_open i → index_open i') ∧ objects i' ⊆ objects i ∧
    (positive (objects i) → mustFree ≤ 2 ^ 62 → 0 ≤ freed →
       freed ≤ rd_freed a ∧ (rd_progressed a = true → freed < rd_freed a)) ∧
    (rd_progressed a = true → sw_remove env k = tx_fine → index_open i → (size (objects i') < size (objects i))%nat).
Proof.
  intros Hh Hok Hi. unfold evict_batch. set (h := make_heap (policy e) (coldest n (objects i))).
  set (a0 := mkRound (store e) [] evicted freed 0 false).
  assert (gone (store e) (rd_store a0) (rd_refs a0)) as Hg0.
  { split; [done|]. split; [done|]. split; [done|]. split; [auto|]. intros r Hr. by apply elem_of_nil in Hr. }
  destruct (pop_loop_gone (sw_stat env k) _ mustFree (length h) h a0 _ (Hh k) Hg0) as (_ & _ & Hi1 & _).
  assert (heap_from c_score 0 (length h) h) as Hheap by apply Init_heap.
  destruct (pop_loop_refs (sw_stat env k) (sw_rm env k) mustFree (length h) h a0 Hheap) as (Hrefs & Hprog & _).
  pose proof (pop_loop_frees (sw_stat env k) (sw_rm env k) mustFree (length h) h a0 Hheap) as Hfrees.
  set (a1 := pop_loop _ _ _ _ _ _) in *. intros [= <- <-]. rewrite Hi in Hi1.
  match goal with |- context [remove_rows _ _ ?x] => set (e1 := x) end.
  assert (∀ c, c ∈ h → objects i !! cref c = Some (e_row (c_entry c))) as Hrow.
  { intros c Hc%(list_elem_of_fmap_2 c_entry). unfold h in Hc. rewrite make_heap_perm in Hc. by eapply coldest_elem. }
  destruct (remove_rows_index (sw_remove env k) (rd_refs a1) e1 i Hi1) as (i' & Hi' & Ho & Hobj).
  exists i'. split; [done|]. split; [done|]. split; [destruct Hobj as [-> | ->]; [done|apply delete_refs_subseteq]|]. split.
  - intros Hpos Hm H0. destruct Hfrees as [H1 H2]; [|done..|].
    + apply Forall_forall. intros c Hc. by eapply Hpos, Hrow.
    + split; [done|]. intros [?|?]%H2; done.
  - intros [?|Hne]%Hprog Hfine Hopen; [done|].
    destruct (remove_rows_fine (rd_refs a1) e1 i Hi1 Hopen) as (_ & _ & _ & _ & i2 & Hi2 & _ & Hobj2).
    rewrite Hfine, Hi2 in Hi'. injection Hi' as <-. rewrite Hobj2.
    destruct (rd_refs a1) as [|r rs] eqn:Er; [done|]. destruct (Hrefs r ltac:(left)) as [Hr|Hr]; [by apply elem_of_nil in Hr|].
    apply list_elem_of_fmap in Hr as (c & -> & Hc). apply map_subset_size, map_subset_alt.
    split; [apply delete_refs_subseteq|]. exists (cref c). split; [|by rewrite (Hrow c Hc)].
    rewrite delete_refs_lookup, bool_decide_eq_true_2; [done|left].
Qed.

(** Enough rounds: every one frees a byte, or from some round on every one removes a
    row. *)
Definition enough (env : SweepEnv) (i : Index) (K k : nat) (mustFree freed : Z) (fuel : nat) : Prop :=
  (positive (objects i) ∧ mustFree ≤ 2 ^ 62 ∧ 0 ≤ freed ∧ (Z.to_nat (mustFree - freed) < fuel)%nat) ∨
  ((∀ k, (K ≤ k)%nat → sw_remove env k = tx_fine) ∧ index_open i ∧ (K - k + size (objects i) < fuel)%nat).

Lemma sweep_loop_ends {Scan : SqlScan} env fuel K k mustFree evicted freed e i :
  honest_env env → store_ok (store e) → accounted (store e) → index (store e) = Some i →
  enough env i K k mustFree freed fuel → is_Some (sweep_loop env fuel k mustFree evicted freed e).
Proof.
  intros Hh. revert k evicted freed e i. induction fuel as [|fuel IH]; intros k evicted freed e i Hok Ha Hi Hen;
    [destruct Hen as [(_ & _ & _ & ?)|(_ & _ & ?)]; lia|]. cbn [sweep_loop].
  destruct (Z.ltb_spec freed mustFree) as [Hlt|]; cbn [negb]; [|by eexists]. destruct (sw_ctx env k); [by eexists|].
  assert (∃ r, ColdestN (sw_coldest env k) (batchSize e) i = (i, r) ∧
    ∀ b, r = Ok b → b = [] ∨ b = coldest (batchSize e) (objects i)) as (r & HC & Hb).
  { unfold ColdestN. destruct (_ <=? _); [eexists; split; [done|]; intros b [= <-]; by left|].
    destruct (query_r _ _ _ i) as [i1 r] eqn:HQ. exists r.
    pose proof (f_equal fst HQ) as E. rewrite query_r_state in E. cbn [fst] in E. subst i1. split; [done|].
    intros b ->. unfold query_r in HQ. mrun_in HQ. destruct (if r_open i then _ else _); cbn in HQ; mrun_in HQ; [done|].
    injection HQ as <-. by right. }
  rewrite (on_idx_query _ e i r Hi HC). destruct r as [[|en l]|er]; [by eexists| |by eexists].
  destruct (Hb _ eq_refl) as [?|Eb]; [done|]. rewrite Eb.
  pose proof (evict_batch_shrinks env k mustFree (coldest (batchSize e) (objects i)) evicted freed e Hh Hok Ha) as Hsh.
  destruct (evict_batch env k mustFree _ evicted freed e) as [e2 a] eqn:HE. destruct Hsh as (Hok2 & Ha2 & _).
  destruct (round_progress _ _ _ _ _ _ _ _ _ _ Hh Hok Hi HE) as (i2 & Hi2 & Ho & Hsub & Hpos & Hrem).
  destruct (rd_progressed a); cbn [negb]; [|by eexists].
  apply (IH (S k) _ _ e2 i2); [done..|]. destruct Hen as [(Hp & Hm & H0 & Hf)|(Hfine & Hop & Hf)].
  - left. destruct (Hpos Hp Hm H0) as [_ Hlt2]. specialize (Hlt2 eq_refl).
    split; [intros r x Hx; eapply Hp, lookup_weaken; [exact Hx|done]|]. split; [done|]. split; lia.
  - right. split; [done|]. split; [by apply Ho|]. pose proof (map_subseteq_size _ _ Hsub).
    destruct (decide (K ≤ k)%nat) as [Hk|Hk]; [|lia]. specialize (Hrem eq_refl (Hfine k Hk) Hop). lia.
Qed.

Lemma Totals_spec f i i' res :
  Totals f i = (i', res) →
  i' = i ∧ match res with Ok (_, used) => used = Zsum (Zsizes (objects i)) | Err _ => True end.
Proof.
  unfold Totals, query_r. mrun. destruct (if r_open i then _ else _); simpl; mrun; [by intros [= <- <-]|].
  destruct (_ || _); mrun; by intros [= <- <-].
Qed.

Lemma FlushTouches_keeps env i :
  row_dims (objects (FlushTouches env i).1) = row_dims (objects i) ∧ (index_open i → index_open (FlushTouches env i).1).
Proof.
  unfold FlushTouches. mrun. case_bool_decide; mrun; [done|].
  destruct (flush_write_cases env (map_to_list (pendingTouch i)) (set_pending ∅ i)) as [[er ->]| ->]; [done|].
  split; [apply touch_fold_dims|done].
Qed.

Lemma dims_positive (t u : Table) : row_dims u = row_dims t → positive t → positive u.
Proof.
  intros Hd Hp r x Hx. assert (row_dims t !! r = Some (row_size x)) as Ht by (rewrite <-Hd; unfold row_dims; by rewrite lookup_fmap, Hx).
  unfold row_dims in Ht. rewrite lookup_fmap in Ht. destruct (t !! r) as [y|] eqn:Hy; [|done].
  injection Ht as <-. by eapply Hp.
Qed.

Lemma Sweep_shrinks {Scan : SqlScan} env fuel e e' out :
  honest_env env → Sweep env fuel e = Some (e', out) → shrinks (store e) (store e').
Proof.
  intros Hh. unfold Sweep. destruct (ev_closed e); [intros [= <- _]; apply shrinks_refl|].
  pose proof (shrinks_on_idx _ e (FlushTouches_rows (sw_flush env))) as H1.
  destruct (on_idx _ e) as [e1 [[]|er]]; simpl in H1; [|by intros [= <- _]].
  pose proof (shrinks_on_idx (Totals (sw_totals env)) e1 (λ i r, query_rows _ _ _ i r)) as H2.
  destruct (on_idx _ e1) as [e2 [[n used]|er]]; simpl in H2;
    [|intros [= <- _]; by eapply shrinks_trans].
  destruct (_ <=? _); [intros [= <- _]; by eapply shrinks_trans|].
  intros HL%sweep_loop_shrinks; [|done]. eapply shrinks_trans; [exact H1|].
  eapply shrinks_trans; [exact H2|exact HL].
Qed.

Lemma Sweep_ends {Scan : SqlScan} env K e i fuel :
  honest_env env → store_ok (store e) → accounted (store e) → index (store e) = Some i → index_open i →
  0 ≤ LowBytes (quota e) → Zsum (Zsizes (objects i)) < 2 ^ 62 →
  (positive (objects i) ∧ (Z.to_nat (Zsum (Zsizes (objects i))) < fuel)%nat) ∨
  ((∀ k, (K ≤ k)%nat → sw_remove env k = tx_fine) ∧ (K + size (objects i) < fuel)%nat) →
  is_Some (Sweep env fuel e).
Proof.
  intros Hh Hok Ha Hi Ho Hlow Hsum Hen. unfold Sweep. destruct (ev_closed e); [by eexists|].
  destruct (shrinks_on_idx _ e (FlushTouches_rows (sw_flush env)) Hok Ha) as (Hok1 & Ha1 & _).
  destruct (FlushTouches_keeps (sw_flush env) i) as [Hd Hop]. rewrite (on_idx_eq _ _ i Hi) in *.
  destruct (FlushTouches (sw_flush env) i) as [i1 [[]|er]]; cbn [fst snd] in *; [|by eexists].
  set (e1 := set_store _ e) in *. destruct (Totals (sw_totals env) i1) as [i2 res] eqn:HT.
  destruct (Totals_spec _ _ _ _ HT) as [-> Hused]. rewrite (on_idx_query _ e1 i1 res eq_refl HT).
  destruct res as [[n used]|er]; [|by eexists]. rewrite (row_dims_sum _ _ Hd) in Hused. subst used.
  destruct (_ <=? _); [by eexists|]. apply (sweep_loop_ends env fuel K 0 _ 0 0 _ i1); [done..|].
  destruct Hen as [[Hp Hf]|[Hfine Hf]].
  - left. split; [by apply (dims_positive (objects i))|].
    assert (0 ≤ Zsum (Zsizes (objects i))) as H0.
    { apply Zsum_nonneg, Forall_fmap, Forall_forall. intros [r x] Hx%elem_of_map_to_list.
      specialize (Hp _ _ Hx). cbn. lia. }
    pose proof (to_int64_range (fmul (of_int (MaxBytes (quota e))) (LowWater (quota e)))) as Hr.
    fold (LowBytes (quota e)) in Hr. change (quota e1) with (quota e) in *.
    rewrite i64_id by (unfold in_i64 in *; lia). split; [lia|]. split; lia.
  - right. split; [done|]. split; [by apply Hop|]. rewrite Nat.sub_0_r.
    rewrite <-(map_size_fmap row_size (objects i1)). unfold row_dims in Hd. rewrite Hd, map_size_fmap. lia.
Qed.

(** ** Claims *)

(** C9: a sweep reaches the low-water mark and stops there.  On an index whose
    rows match the stored objects and with nothing failing, [Sweep] over a
    usage above the high-water mark terminates without error after at most one
    round per row; the rows left use at most [LowBytes]; it reports exactly the
    rows it removed and their bytes; the objects of removed rows are gone and
    all others are as they were; and it evicts no more than needed: with one of
    the victims put back the usage would be above the mark. *)
Theorem sweep_reaches_low_water {Scan : SqlScan} e i fuel :
  ev_closed e = false → 0 < batchSize e → store_wf (store e) →
  index (store e) = Some i → index_open i → accurate (store e) (objects i) →
  Zsum (Zsizes (objects i)) < 2 ^ 63 →
  0 ≤ LowBytes (quota e) → LowBytes (quota e) ≤ HighBytes (quota e) →
  HighBytes (quota e) < Zsum (Zsizes (objects i)) →
  (size (objects i) < fuel)%nat →
  ∃ e' n freed i',
    Sweep sweep_fine fuel e = Some (e', (n, freed, None)) ∧
    index (store e') = Some i' ∧ accurate (store e') (objects i') ∧
    Zsum (Zsizes (objects i')) ≤ LowBytes (quota e) ∧
    n = Z.of_nat (size (objects i)) - Z.of_nat (size (objects i')) ∧
    freed = Zsum (Zsizes (objects i)) - Zsum (Zsizes (objects i')) ∧
    (∀ ns key, ns_Valid ns = true → valid_key key = true →
      view (store e') ns key =
        if bool_decide (is_Some (objects i !! (ns, key)) ∧ objects i' !! (ns, key) = None)
        then None else view (store e) ns key) ∧
    ∃ r x, objects i !! r = Some x ∧ objects i' !! r = None ∧
      LowBytes (quota e) < Zsum (Zsizes (objects i')) + row_size x.
Proof.
  intros Hcl Hb Hwf Hi Ho Hacc Hmax Hlow Hlh Hover Hfuel. unfold Sweep. rewrite Hcl.
  destruct (FlushTouches_open i Ho) as (i1 & HF & Ho1 & Hobj1).
  destruct (flushed_sizes (pendingTouch i) (objects i)) as [Hsum Hsize]. rewrite <-Hobj1 in Hsum, Hsize.
  change (sw_flush sweep_fine) with tx_fine. rewrite (on_idx_eq _ _ i Hi), HF. cbn [fst snd].
  set (e1 := set_store _ e).
  change (sw_totals sweep_fine) with (@None error).
  rewrite (on_idx_query _ e1 i1 (Ok (Z.of_nat (size (objects i1)), Zsum (Zsizes (objects i1)))) eq_refl).
  2: { unfold Totals. rewrite query_r_fine by done.
       pose proof (Zsum_nonneg _ (accurate_sizes _ _ Hacc)).
       rewrite !bool_decide_eq_false_2 by lia. done. }
  rewrite Hsum. destruct (Z.leb_spec (Zsum (Zsizes (objects i))) (HighBytes (quota e))); [lia|].
  pose proof (Zsum_nonneg _ (accurate_sizes _ _ Hacc)) as Hpos.
  pose proof (to_int64_range (fmul (of_int (MaxBytes (quota e))) (LowWater (quota e)))) as Hrange.
  rewrite i64_id by (unfold in_i64, LowBytes in *; lia).
  assert (Hsome : ∀ r, is_Some (objects i1 !! r) ↔ is_Some (objects i !! r)).
  { intros r. by rewrite Hobj1, flushed_lookup, fmap_is_Some. }
  assert (Hst : steady (set_ev_stats add_Sweeps e1) (objects i1)).
  { split; [by eapply same_disk_wf; [|done]|by exists i1|]. intros r x. rewrite Hobj1, flushed_lookup.
    intros (y & Hy & ->)%fmap_Some_1. destruct (Hacc r y Hy) as (? & ? & c & ? & ?).
    split; [done|]. split; [done|]. exists c. split; [done|]. by destruct (pendingTouch i !! r). }
  destruct (sweep_loop_fine fuel 0 (Zsum (Zsizes (objects i)) - LowBytes (quota e)) 0 0 _ _ Hst)
    as (e' & n' & f' & t' & -> & [Ds Dsub De Df Den _ Dn Dv]); [done..|lia|lia|].
  destruct Ds as [_ (i' & Hi' & _ & <-) Hacc']. exists e', n', f', i'. split; [done|].
  rewrite Hsum in Df. rewrite Hsize in De. split; [done|]. split; [done|].
  split; [destruct Den as [|Hempty]; [lia|by rewrite Hempty]|]. split; [lia|]. split; [lia|]. split.
  - intros ns key Hns Hk. rewrite Dv by done. by rewrite (bool_decide_ext _ _ (and_iff_compat_r _ (Hsome _))).
  - destruct Dn as (r & x & Hr & Hr' & Hneed); [lia|intros Hem; rewrite Hem in Hsum; change (0 = Zsum (Zsizes (objects i))) in Hsum; lia|].
    rewrite Hobj1, flushed_lookup in Hr. apply fmap_Some_1 in Hr as (y & Hy & ->).
    exists r, y. split; [done|]. split; [done|]. destruct (pendingTouch i !! r); simpl in *; lia.
Qed.

(** Nothing is evicted at or below the high-water mark.  Whatever fails,
    [Sweep] over a usage at or below [HighBytes] removes nothing: it returns
    zero objects and zero bytes, the disk is untouched and every row keeps its
    size. *)
Theorem sweep_idle_below_high_water {Scan : SqlScan} env e i fuel :
  index (store e) = Some i → Zsum (Zsizes (objects i)) ≤ HighBytes (quota e) →
  ∃ e' err, Sweep env fuel e = Some (e', (0, 0, err)) ∧ tree (store e') = tree (store e) ∧
    ∃ i', index (store e') = Some i' ∧ row_dims (objects i') = row_dims (objects i).
Proof.
  intros Hi Hle. unfold Sweep. destruct (ev_closed e).
  { eexists _, _. split; [done|]. split; [done|]. by exists i. }
  rewrite (on_idx_eq _ _ i Hi).
  destruct (FlushTouches_keeps (sw_flush env) i) as [Hd _].
  destruct (FlushTouches (sw_flush env) i) as [i1 [[]|er]]; simpl in *.
  2: { eexists _, _. split; [done|]. split; [done|]. by exists i1. }
  set (e1 := set_store _ e).
  destruct (Totals (sw_totals env) i1) as [i2 res] eqn:HT.
  destruct (Totals_spec _ _ _ _ HT) as [-> Hused].
  rewrite (on_idx_query _ e1 i1 res eq_refl HT).
  destruct res as [[n used]|er]; [|eexists _, _; split; [done|]; split; [done|]; by exists i1].
  simpl in Hused. rewrite Hused, (row_dims_sum _ _ Hd).
  destruct (Z.leb_spec (Zsum (Zsizes (objects i))) (HighBytes (quota e))); [|lia].
  eexists _, _. split; [done|]. split; [done|]. by exists i1.
Qed.

(** C30: eviction ends and never lets the index under-count.  On a store in order
    whose files have rows of less than 2^62 bytes in total, and with a low-water mark
    that is not negative: whatever database,
    cancellation or unlink errors occur (an unlink that reports a missing file found
    none), a sweep comes to an end, if every row has a size above zero or if from
    some round on the removal of rows succeeds.  It keeps the store's invariant,
    every file the store still holds keeps its row (the files go first and the
    rows after), and no file appears or changes. *)
Theorem sweep_never_undercounts {Scan : SqlScan} env K e i fuel :
  honest_env env → store_ok (store e) → accounted (store e) → index (store e) = Some i → index_open i →
  0 ≤ LowBytes (quota e) → Zsum (Zsizes (objects i)) < 2 ^ 62 →
  (positive (objects i) ∧ (Z.to_nat (Zsum (Zsizes (objects i))) < fuel)%nat) ∨
  ((∀ k, (K ≤ k)%nat → sw_remove env k = tx_fine) ∧ (K + size (objects i) < fuel)%nat) →
  ∃ e' out, Sweep env fuel e = Some (e', out) ∧ store_ok (store e') ∧ accounted (store e') ∧
    ∀ p, tree (store e') !! p = tree (store e) !! p ∨ tree (store e') !! p = None.
Proof.
  intros Hh Hok Ha Hi Ho Hlow Hsum Hen.
  destruct (Sweep_ends env K e i fuel Hh Hok Ha Hi Ho Hlow Hsum Hen) as [[e' out] HS]. exists e', out. split; [done|].
  destruct (Sweep_shrinks env fuel e e' out Hh HS Hok Ha) as (? & ? & _ & ?). done.
Qed.

(** A round evicts the candidates with the lowest scores.  Of the batch it
    ranks, a round removes entries in ascending order of [Score] and every
    entry it removes scores at most as much as every entry it keeps; it stops as
    soon as enough is freed. *)
Theorem round_evicts_lowest_scores {Scan : SqlScan} k mustFree n evicted freed e t :
  steady e t → 0 ≤ freed → freed + Zsum (Zsizes t) < 2 ^ 63 →
  ∃ e' a vs rest,
    evict_batch sweep_fine k mustFree (coldest n t) evicted freed e = (e', a) ∧
    vs ++ rest ≡ₚ coldest n t ∧ rd_refs a = e_ref <$> vs ∧
    rd_freed a = freed + Zsum (esize <$> vs) ∧
    StronglySorted (λ x y, Score (policy e) x ≤ Score (policy e) y) vs ∧
    (∀ v u, v ∈ vs → u ∈ rest → Score (policy e) v ≤ Score (policy e) u) ∧
    (mustFree ≤ rd_freed a ∨ rest = []) ∧
    (∀ v, last vs = Some v → rd_freed a - esize v < mustFree).
Proof.
  intros Hst Hpos Hbnd.
  destruct (evict_batch_fine k mustFree (coldest n t) evicted freed e t) as (e' & a & vs & rest & HE & HV);
    [done|apply coldest_NoDup|intros; by eapply coldest_elem|done..|].
  exists e', a, vs, rest. by destruct HV.
Qed.

(** ** A small store over its quota, for the witnesses *)

Definition key_a : string := "aaaaaaaaaaaaaaaaaaaaaaaaaaaaaaaaaaaaaaaaaaaaaaaaaaaaaaaaaaaaaaaa".
Definition key_b : string := "bbbbbbbbbbbbbbbbbbbbbbbbbbbbbbbbbbbbbbbbbbbbbbbbbbbbbbbbbbbbbbbb".

Definition full_tree : files :=
  list_to_map
    [(["data"], Dir); (["data"; "tmp"], Dir); (["data"; "cas"], Dir); (["data"; "ac"], Dir);
     (["data"; "ac"; "aa"], Dir); (["data"; "ac"; "aa"; "aa"], Dir);
     (["data"; "ac"; "aa"; "aa"; key_a], File abc_bytes 1);
     (["data"; "ac"; "bb"], Dir); (["data"; "ac"; "bb"; "bb"], Dir);
     (["data"; "ac"; "bb"; "bb"; key_b], File abc_bytes 2)].

Definition full_index : Index :=
  mkIndex (list_to_map [((NamespaceAC, key_a), mkRow 3 1 1 1); ((NamespaceAC, key_b), mkRow 3 2 2 1)])
    ∅ {[(NamespaceAC, key_a) := 5]} 4096 false true true (mkIndexStats 0 0 0 0 0 0).

Definition full_store : Store :=
  mkStore full_tree ["data"] ["data"; "tmp"] 1024 true ∅ (Some full_index) (Some false) false false zero_stats.

(** A ceiling of five bytes with marks at nine tenths and at a half. *)
Definition tiny_quota : Quota := mkQuota 5 (constant 9 10) (constant 1 2).

Definition full_evictor (n : Z) : Evictor :=
  mkEvictor full_store tiny_quota DefaultEvictionPolicy false n (mkEvictorStats 0 0 0 0 0).

Definition commit_fails_once : SweepEnv :=
  mkSweepEnv tx_fine None (λ _, None) (λ _, None) (λ _ _, None) (λ _ _, None)
    (λ k, match k with
          | O => mkTxEnv None None None (λ _, None) (Some (OSError false "disk I/O error"))
          | _ => tx_fine
          end).

(** When the rows of evicted files cannot be removed, the next round counts
    the same rows again.  Two objects of three bytes each, a quota that asks for
    four bytes, and one failed transaction: the second round pops the first row
    again, finds its file already gone, and the sweep returns two evictions and
    six bytes although one object is still stored and three bytes were freed. *)
Theorem failed_removal_counts_twice :
  match Sweep commit_fails_once 5 (full_evictor 1) with
  | Some (e', (n, freed, None)) =>
      n = 2 ∧ freed = 6 ∧ view (store e') NamespaceAC key_a = Some abc_bytes ∧
      view (store e') NamespaceAC key_b = None
  | _ => False
  end.
Proof. vm_compute. repeat split. Qed.

(** A sweep need not end when rows of empty objects cannot be removed: [progressed]
    is set although nothing was freed, and the next round takes the same row.  One
    empty object read last, one of nine bytes, a quota of five, candidates taken one
    at a time, and a database that refuses every commit: no number of rounds is
    enough. *)
Definition spin_index (objs : Table) : Index :=
  mkIndex objs ∅ ∅ 4096 false true true (mkIndexStats 0 0 0 0 0 0).

Definition spin_objects : Table :=
  list_to_map [((NamespaceAC, key_a), mkRow 0 1 1 1); ((NamespaceAC, key_b), mkRow 9 2 100 1)].

Definition spin_evictor (st : EvictorStats) : Evictor :=
  mkEvictor (mkStore (delete ["data"; "ac"; "aa"; "aa"; key_a] full_tree) ["data"] ["data"; "tmp"] 1024 true ∅
               (Some (spin_index spin_objects)) (Some false) false false zero_stats)
    tiny_quota DefaultEvictionPolicy false 1 st.

Definition commit_fails : SweepEnv :=
  mkSweepEnv tx_fine None (λ _, None) (λ _, None) (λ _ _, None) (λ _ _, None)
    (λ _, mkTxEnv None None None (λ _, None) (Some (OSError false "database or disk is full"))).

Definition spin_row : Entry := mkEntry (NamespaceAC, key_a) (mkRow 0 1 1 1).

Lemma spin_coldest st : on_idx (ColdestN None 1) (spin_evictor st) = (spin_evictor st, Ok [spin_row]).
Proof. vm_cast_no_check (eq_refl (spin_evictor st, Ok [spin_row])). Qed.

Lemma spin_batch k evicted st :
  evict_batch commit_fails k 7 [spin_row] evicted 0 (spin_evictor st) =
  (spin_evictor (add_Failures st), mkRound (store (spin_evictor st)) [(NamespaceAC, key_a)] (evicted + 1) 0 0 true).
Proof.
  vm_cast_no_check (eq_refl (spin_evictor (add_Failures st),
    mkRound (store (spin_evictor st)) [(NamespaceAC, key_a)] (evicted + 1) 0 0 true)).
Qed.

Lemma sweep_loop_round {Scan : SqlScan} env fuel k mustFree evicted freed e e1 en l e2 a :
  (freed <? mustFree) = true → sw_ctx env k = None →
  on_idx (ColdestN (sw_coldest env k) (batchSize e)) e = (e1, Ok (en :: l)) →
  evict_batch env k mustFree (en :: l) evicted freed e1 = (e2, a) → rd_progressed a = true →
  sweep_loop env (S fuel) k mustFree evicted freed e = sweep_loop env fuel (S k) mustFree (rd_evicted a) (rd_freed a) e2.
Proof. intros H1 H2 H3 H4 H5. cbn [sweep_loop]. by rewrite H1, H2, H3, H4, H5. Qed.

Lemma Sweep_begins {Scan : SqlScan} env fuel e e1 e2 n used :
  ev_closed e = false → on_idx (FlushTouches (sw_flush env)) e = (e1, Ok tt) →
  on_idx (Totals (sw_totals env)) e1 = (e2, Ok (n, used)) → (used <=? HighBytes (quota e)) = false →
  Sweep env fuel e = sweep_loop env fuel 0 (i64 (used - LowBytes (quota e))) 0 0 (set_ev_stats add_Sweeps e2).
Proof. intros H1 H2 H3 H4. unfold Sweep. by rewrite H1, H2, H3, H4. Qed.

Lemma spin_flush st : on_idx (FlushTouches tx_fine) (spin_evictor st) = (spin_evictor st, Ok tt).
Proof. vm_cast_no_check (eq_refl (spin_evictor st, Ok tt)). Qed.

Lemma spin_totals st : on_idx (Totals None) (spin_evictor st) = (spin_evictor st, Ok (2, 9)).
Proof. vm_cast_no_check (eq_refl (spin_evictor st, Ok (2, 9))). Qed.

Lemma spin_marks : (9 <=? HighBytes tiny_quota) = false ∧ i64 (9 - LowBytes tiny_quota) = 7.
Proof. vm_compute. split; reflexivity. Qed.

Theorem empty_rows_spin fuel st : Sweep commit_fails fuel (spin_evictor st) = None.
Proof.
  assert (∀ k evicted st, sweep_loop commit_fails fuel k 7 evicted 0 (spin_evictor st) = None) as H.
  { induction fuel as [|fuel IH]; intros k evicted st'; [done|].
    rewrite (sweep_loop_round commit_fails fuel k 7 evicted 0 (spin_evictor st') _ _ _ _ _ eq_refl eq_refl (spin_coldest st')
      (spin_batch k evicted st') eq_refl). apply IH. }
  rewrite (Sweep_begins commit_fails fuel (spin_evictor st) _ _ _ _ eq_refl (spin_flush st) (spin_totals st) (proj1 spin_marks)).
  change (quota (spin_evictor st)) with tiny_quota. rewrite (proj2 spin_marks). apply (H 0%nat 0 (add_Sweeps st)).
Qed.

(** The files of [full_tree] are the two objects. *)
Lemma full_tree_cases p x :
  full_tree !! p = Some x →
  (x = Dir ∧ (length p ≤ 4)%nat) ∨
  (is_regular x = true ∧ ∃ k, (k = key_a ∨ k = key_b) ∧ p = object_file ["data"] NamespaceAC k).
Proof.
  intros Hp%elem_of_list_to_map_2.
  repeat (apply elem_of_cons in Hp as [Hp|Hp];
    [injection Hp as -> ->; first [left; split; [done|simpl; lia]
                                  |right; split; [done|]; exists key_a; split; [auto|vm_compute; reflexivity]
                                  |right; split; [done|]; exists key_b; split; [auto|vm_compute; reflexivity]]|]).
  by apply elem_of_nil in Hp.
Qed.

(** The only objects [full_tree] has a file for. *)
Lemma full_tree_object ns key x :
  ns_Valid ns = true → valid_key key = true →
  full_tree !! object_file ["data"] ns key = Some x →
  is_regular x = true ∧ ns = NamespaceAC ∧ (key = key_a ∨ key = key_b).
Proof.
  intros Hns Hk [[-> Hlen]|[Hr (k & Hab & He)]]%full_tree_cases.
  - rewrite object_file_length in Hlen by done. simpl in Hlen. lia.
  - apply object_file_inj in He as [-> ->]; [done..|]. by destruct Hab as [->| ->].
Qed.

Lemma full_store_ok : store_ok full_store.
Proof.
  split.
  - split; simpl; [apply fs_wf_decide; vm_compute; reflexivity|done|vm_compute; reflexivity|..].
    + intros ns Hns. unfold ns_Valid in Hns.
      apply orb_true_iff in Hns as [->%String.eqb_eq| ->%String.eqb_eq]; vm_compute; reflexivity.
    + set_solver.
    + set_solver.
  - intros key c Hk Hc. unfold view in Hc. simpl in Hc.
    destruct (full_tree !! _) as [x|] eqn:E; [|done]. by apply full_tree_object in E as (_ & ? & _).
  - intros ns sfx x key Hns Hx Hnd Hl Hk.
    apply full_tree_cases in Hx as [[-> _]|[Hr (k & Hab & He)]]; [done|]. split; [done|].
    rewrite He. assert (valid_key k = true) as Hvk by (by destruct Hab as [->| ->]).
    rewrite object_file_valid in He by done. simpl in He. injection He as -> Hs.
    rewrite Hs in Hl. simpl in Hl. by injection Hl as ->.
Qed.

Lemma full_accounted : accounted full_store.
Proof.
  intros ns key Hns Hk [x Hx]. exists full_index. split; [done|].
  destruct (full_tree_object ns key x Hns Hk Hx) as (_ & -> & [->| ->]); by eexists.
Qed.

Lemma full_accurate : accurate full_store (objects full_index).
Proof.
  intros r x Hr%elem_of_list_to_map_2.
  repeat (apply elem_of_cons in Hr as [Hr|Hr];
    [injection Hr as -> ->; split; [done|]; split; [done|]; by exists abc_bytes|]).
  by apply elem_of_nil in Hr.
Qed.

Lemma sweep_reaches_low_water_witness :
  ∃ e' n freed i', Sweep sweep_fine 3 (full_evictor 512) = Some (e', (n, freed, None)) ∧
    index (store e') = Some i' ∧ Zsum (Zsizes (objects i')) ≤ 2.
Proof.
  destruct (sweep_reaches_low_water (full_evictor 512) full_index 3) as
    (e' & n & freed & i' & HS & Hi & _ & Hle & _);
    [done|done|apply full_store_ok|done|done|exact full_accurate|vm_compute; done..|].
  exists e', n, freed, i'. split; [exact HS|]. split; [exact Hi|exact Hle].
Defined.

(** The same store under a ceiling of ten bytes. *)
Definition roomy_evictor : Evictor :=
  mkEvictor full_store (mkQuota 10 (constant 9 10) (constant 1 2)) DefaultEvictionPolicy false 512
    (mkEvictorStats 0 0 0 0 0).

Lemma sweep_idle_below_high_water_witness :
  ∃ e' err, Sweep sweep_fine 3 roomy_evictor = Some (e', (0, 0, err)) ∧ tree (store e') = full_tree.
Proof.
  destruct (sweep_idle_below_high_water sweep_fine roomy_evictor full_index 3) as (e' & err & HS & Ht & _);
    [done|vm_compute; done|].
  exists e', err. split; [exact HS|exact Ht].
Defined.

Lemma full_positive : positive (objects full_index).
Proof.
  assert (bool_decide (map_Forall (λ _ x, 0 < row_size x < 2 ^ 62) (objects full_index)) = true) as H
    by (vm_compute; reflexivity).
  apply bool_decide_eq_true in H. exact H.
Qed.

Lemma sweep_never_undercounts_witness :
  ∃ e' out, Sweep commit_fails_once 7 (full_evictor 1) = Some (e', out) ∧ accounted (store e').
Proof.
  destruct (sweep_never_undercounts commit_fails_once 0 (full_evictor 1) full_index 7) as (e' & out & HS & _ & Ha & _).
  - done.
  - apply full_store_ok.
  - apply full_accounted.
  - reflexivity.
  - done.
  - vm_compute. discriminate.
  - vm_compute. reflexivity.
  - left. split; [exact full_positive|]. apply Nat.ltb_lt. vm_compute. reflexivity.
  - exists e', out. split; [exact HS|exact Ha].
Defined.

Lemma round_evicts_lowest_scores_witness :
  ∃ e' a, evict_batch sweep_fine 0 4 (coldest 512 (objects full_index)) 0 0 (full_evictor 512) = (e', a) ∧
    (4 ≤ rd_freed a ∨ rd_freed a = 6).
Proof.
  destruct (round_evicts_lowest_scores 0 4 512 0 0 (full_evictor 512) (objects full_index)) as
    (e' & a & vs & rest & HE & Hp & _ & Hf & _ & _ & Hen & _).
  - split; [apply full_store_ok|by exists full_index|exact full_accurate].
  - done.
  - vm_compute. done.
  - exists e', a. split; [exact HE|]. destruct Hen as [Hen|Hr]; [by left|]. right. rewrite Hf.
    rewrite Hr, app_nil_r in Hp. rewrite (Zsum_fmap_perm _ _ _ Hp). vm_compute. reflexivity.
Defined.

(** The figures of the comment on [EvictionPolicy]: with the default policy an
    object of 64 KiB looks exactly one hour colder than it is, one of 64 MiB
    about ten. *)
Example default_penalties :
  let age size := - Score DefaultEvictionPolicy (mkEntry (NamespaceAC, key_a) (mkRow size 0 0 1)) in
  let hour := 3600 * 10 ^ 9 in
  age (2 ^ 16) = hour ∧ 10 * hour < age (2 ^ 26) ≤ 10 * hour + hour / 100 ∧ age 0 = 0.
Proof. vm_compute. repeat split; discriminate. Qed.

(** The largest ceiling and a high-water mark of one: [float64] rounds the
    ceiling up to 2^63, which does not fit in an [int64], and the mark at which
    eviction begins becomes negative. *)
Example high_water_overflow :
  let q := mkQuota (2 ^ 63 - 1) one (constant 1 2) in
  Quota_Valid q = None ∧ HighBytes q = - 2 ^ 63.
Proof. vm_compute. by split. Qed.
