(* ===== verification/Client.v ===== *)
(** * Talking to other nodes: internal/cluster/client.go

    HTTP messages, the [PeerClient] interface and [HTTPPeerClient], which
    implements it over an HTTP transport.  The transport, net/http's client and
    the network behind it, is a parameter: [Transport] gives what
    [NewRequestWithContext] and [Do] return, and what a request does to the
    state [S] of the rest of the world. *)

From S2P Require Import Prelude GoStrings Sha256 Errors Key Config Ring Protocol Store.

#[local] Open Scope Z_scope.

(** ** Messages *)

Abbreviation Header := (gmap string string).

(** [Header.Get]: the empty string when absent. *)
Definition header_Get (h : Header) (k : string) : string := default EmptyString (h !! k).

Record Request := mkRequest {
  rq_Method : string; rq_URL : string; rq_Header : Header; rq_Body : option Reader;
  rq_ContentLength : Z }.

Record Response := mkResponse {
  rs_StatusCode : Z; rs_Header : Header; rs_Body : Reader; rs_ContentLength : Z }.

Definition MethodGet : string := "GET".
Definition MethodHead : string := "HEAD".
Definition MethodPut : string := "PUT".
Definition MethodPost : string := "POST".

Definition StatusOK : Z := 200.
Definition StatusCreated : Z := 201.
Definition StatusBadRequest : Z := 400.
Definition StatusNotFound : Z := 404.
Definition StatusMethodNotAllowed : Z := 405.
Definition StatusRequestEntityTooLarge : Z := 413.
Definition StatusTooManyRequests : Z := 429.
Definition StatusClientClosedRequest : Z := 499.
Definition StatusInternalServerError : Z := 500.
Definition StatusServiceUnavailable : Z := 503.
Definition StatusInsufficientStorage : Z := 507.

(** [io.ReadAll(io.LimitReader(body, n))], ignoring a read error, as a string. *)
Definition read_limited (n : nat) (r : Reader) : string :=
  String.string_of_list_byte (take n (rdata r)).

(** ** Peer errors *)

(** [Retryable] on the fields of a [PeerError]. *)
Definition Retryable (Status : Z) (Err : option error) : bool :=
  match Err with
  | Some _ => true
  | None => (500 <=? Status) || (Status =? StatusTooManyRequests)
  end.

(** ** Objects streamed from a peer *)

Record peerObject := mkPeerObject {
  p_body : bytes; p_bodyerr : option error; p_size : Z; p_source : string; p_read : Z }.

Definition peerCopyBufSize : nat := 256 * 1024.

(** The copy loop of [peerObject.WriteTo]; [None] is running out of fuel. *)
Fixpoint peer_copy (fuel n : nat) (p : peerObject) (w : Writer) (written : Z)
    : option (peerObject * Writer * (Z * option error)) :=
  match fuel with
  | O => None
  | S fuel =>
      match p_body p with
      | [] => Some (p, w, (written, p_bodyerr p))
      | rest =>
          let b := take n rest in
          let '(w', nw, werr) := Write w b in
          let p' := mkPeerObject (drop n rest) (p_bodyerr p) (p_size p) (p_source p)
                      (p_read p + Z.of_nat nw) in
          let written' := written + Z.of_nat nw in
          match werr with
          | Some e => Some (p', w', (written', Some e))
          | None =>
              if negb (nw =? length b)%nat then Some (p', w', (written', Some io_ErrShortWrite))
              else peer_copy fuel n p' w' written'
          end
      end
  end.

Definition peer_WriteTo (p : peerObject) (w : Writer) : option (peerObject * Writer * (Z * option error)) :=
  peer_copy (S (length (p_body p))) peerCopyBufSize p w 0.

(** ** The interface *)

Record PeerClient (S : Type) := mkPeerClient {
  peer_Put : Member → string → string → Reader → Z → Hop → M S unit;
  peer_Get : Member → string → string → Hop → M S peerObject;
  peer_Stat : Member → string → string → Hop → M S ObjectInfo }.
Arguments mkPeerClient {S}.
Arguments peer_Put {S}.
Arguments peer_Get {S}.
Arguments peer_Stat {S}.

(** ** The HTTP implementation *)

Class Transport (S : Type) := {
  url_err : string → option error;
  Do : Request → M S Response }.

Definition objectURL (peer : Member) (ns key : string) : string :=
  URL peer +:+ "/" +:+ ns +:+ "/" +:+ key.

Section http.
Context {S : Type} {T : Transport S}.

Definition newRequest (me method : string) (peer : Member) (ns key : string) (body : option Reader)
    (hop : Hop) : result Request :=
  match url_err (objectURL peer ns key) with
  | Some e => Err e
  | None =>
      Ok (mkRequest method (objectURL peer ns key)
            (<[HeaderHop := hop]> (<[HeaderForwardedBy := me]> ∅)) body 0)
  end.

Definition set_length (n : Z) (r : Request) : Request :=
  mkRequest (rq_Method r) (rq_URL r)
    (if 0 <=? n then <["Content-Type" := "application/octet-stream"]> (rq_Header r) else rq_Header r)
    (rq_Body r) n.

Definition transport_error (peer : Member) (op : string) (e : error) : error :=
  PeerError (Name peer) op 0 EmptyString (Some e).

Definition http_Put (me : string) (peer : Member) (ns key : string) (body : Reader) (size : Z) (hop : Hop)
    : M S unit :=
  match newRequest me MethodPut peer ns key (Some body) hop with
  | Err e => fail (transport_error peer "put" e)
  | Ok req =>
      r ← attempt (Do (set_length size req));
      match r with
      | Err e => fail (transport_error peer "put" e)
      | Ok resp =>
          let msg := read_limited 4096 (rs_Body resp) in
          if (200 <=? rs_StatusCode resp) && (rs_StatusCode resp <? 300) then mret tt
          else fail (PeerError (Name peer) "put" (rs_StatusCode resp) msg None)
      end
  end.

Definition http_Get (me : string) (peer : Member) (ns key : string) (hop : Hop) : M S peerObject :=
  match newRequest me MethodGet peer ns key None hop with
  | Err e => fail (transport_error peer "get" e)
  | Ok req =>
      r ← attempt (Do req);
      match r with
      | Err e => fail (transport_error peer "get" e)
      | Ok resp =>
          if rs_StatusCode resp =? StatusNotFound then fail ErrPeerNotFound
          else if negb (rs_StatusCode resp =? StatusOK) then
            fail (PeerError (Name peer) "get" (rs_StatusCode resp) (read_limited 4096 (rs_Body resp)) None)
          else
            let node := header_Get (rs_Header resp) HeaderNode in
            let source := if String.eqb node EmptyString then Name peer else node in
            mret (mkPeerObject (rdata (rs_Body resp)) (rerr (rs_Body resp)) (rs_ContentLength resp)
                    source 0)
      end
  end.

Definition http_Stat (me : string) (peer : Member) (ns key : string) (hop : Hop) : M S ObjectInfo :=
  match newRequest me MethodHead peer ns key None hop with
  | Err e => fail (transport_error peer "stat" e)
  | Ok req =>
      r ← attempt (Do req);
      match r with
      | Err e => fail (transport_error peer "stat" e)
      | Ok resp =>
          if rs_StatusCode resp =? StatusOK then
            mret (mkObjectInfo (rs_ContentLength resp) (Name peer))
          else if rs_StatusCode resp =? StatusNotFound then fail ErrPeerNotFound
          else fail (PeerError (Name peer) "stat" (rs_StatusCode resp) EmptyString None)
      end
  end.

Definition HTTPPeerClient (me : string) : PeerClient S :=
  mkPeerClient (http_Put me) (http_Get me) (http_Stat me).
End http.

#[global] Arguments http_Put : simpl never.
#[global] Arguments http_Get : simpl never.
#[global] Arguments http_Stat : simpl never.

(** ** Lemmas *)

Lemma peer_copy_total n fuel p w k :
  (0 < n)%nat → (length (p_body p) < fuel)%nat → is_Some (peer_copy fuel n p w k).
Proof.
  intros Hn. revert p w k. induction fuel as [|fuel IH]; intros p w k Hf; [lia|]. simpl.
  destruct (p_body p) as [|x rest] eqn:Hr; [by eexists|].
  destruct (Write w (take n (x :: rest))) as [[w' nw] werr]. destruct werr; [by eexists|].
  destruct (negb _); [by eexists|]. apply IH. cbn [p_body].
  rewrite length_drop. simpl in *. lia.
Qed.

Lemma peer_WriteTo_total p w : is_Some (peer_WriteTo p w).
Proof.
  apply peer_copy_total; [|lia]. apply Nat.ltb_lt. vm_compute. reflexivity.
Qed.
