(* ===== verification/Coordinator.v ===== *)
(** * Placement, replication and read fallback: internal/cluster/coordinator.go

    The [Coordinator] of one node.  Its methods run in the state [S] of the
    whole world, of which [Host] singles out this node's own state; the other
    nodes are reached only through the [PeerClient].  The goroutines of a
    fan-out run in the order the scheduler's [ne_rank] gives. *)

From S2P Require Import Prelude GoStrings Sha256 Errors Key Config Ring Protocol Index FileSystem Store StoreSpec Client.

#[local] Open Scope Z_scope.

(** ** State *)

Inductive ccounter :=
  | LocalHits | PeerHits | Misses | ForwardedPuts | ReplicaWrites | ReplicaFailures
  | CoordinatedPuts | InsufficientAcks | ReadFallbacks | RepairDeclined.

#[export] Instance ccounter_eq_dec : EqDecision ccounter.
Proof. solve_decision. Defined.

(** The ten counters, as a function. *)
Definition CoordinatorStats : Type := ccounter → Z.

(** [quotaProbe] is a function of this node's store: whether usage is above the
    high-water mark, the usage and the mark. *)
Record Coordinator := mkCoordinator {
  ring : Ring;
  local : Store;
  replicaCount : Z;
  quotaProbe : option (Store → bool * Z * Z);
  cstats : CoordinatorStats }.

Definition set_local (s : Store) (c : Coordinator) : Coordinator :=
  mkCoordinator (ring c) s (replicaCount c) (quotaProbe c) (cstats c).

Definition cadd (k : ccounter) (n : Z) (c : Coordinator) : Coordinator :=
  mkCoordinator (ring c) (local c) (replicaCount c) (quotaProbe c)
    (λ k', cstats c k' + if bool_decide (k' = k) then n else 0).

Definition SetQuotaProbe (f : Store → bool * Z * Z) (c : Coordinator) : Coordinator :=
  mkCoordinator (ring c) (local c) (replicaCount c) (Some f) (cstats c).

Definition NewCoordinator (r : option Ring) (l : option Store) (n : Z) : result Coordinator :=
  match r, l with
  | None, _ => Err (Errorf "cluster: ring is required")
  | _, None => Err (Errorf "cluster: local store is required")
  | Some r, Some l =>
      let rf := if n <? 1 then 1 else n in
      let rf := if Size r <? rf then Size r else rf in
      Ok (mkCoordinator r l rf None (λ _, 0))
  end.

Definition overHighWater (c : Coordinator) : bool * Z * Z :=
  match quotaProbe c with None => (false, 0, 0) | Some f => f (local c) end.

Definition short (key : string) : string :=
  if (12 <? String.length key)%nat then stake 12 key else key.

Definition selfIn (c : Coordinator) (ms : list Member) : bool :=
  existsb (λ m, String.eqb (Name m) (self (ring c))) ms.

Definition memberNames (ms : list Member) : list string := Name <$> ms.

(** [readOrder]: the holders first, then everyone else, without this node. *)
Definition readOrder (c : Coordinator) (key : string) : list Member :=
  filter (λ m, Name m ≠ self (ring c)) (Owners (ring c) key).

(** ** Readers *)

(** [protocol.ObjectReader]: a local file or a peer's response body. *)
Inductive ObjectReader := LocalObject (o : Object) | PeerObject (p : peerObject).

Definition obj_Size (r : ObjectReader) : Z :=
  match r with LocalObject o => st_Size (o_stat o) | PeerObject p => p_size p end.

Definition obj_Source (r : ObjectReader) : string :=
  match r with LocalObject _ => "local" | PeerObject p => p_source p end.

(** The loops behind both [WriteTo] methods terminate, so there is always a
    result. *)
Definition obj_WriteTo (r : ObjectReader) (w : Writer)
    : option (ObjectReader * Writer * (Z * option error)) :=
  match r with
  | LocalObject o => '(o', w', res) ← WriteTo o w; Some (LocalObject o', w', res)
  | PeerObject p => '(p', w', res) ← peer_WriteTo p w; Some (PeerObject p', w', res)
  end.

(** ** The environment of a request on one node

    Faults of the local write, of opening and closing a local handle for a
    target (or for this node itself), of the local [Stat], and the order in
    which the scheduler runs the goroutines of a fan-out. *)
Record NodeEnv := mkNodeEnv {
  ne_put : PutEnv;
  ne_get : string → GetEnv;
  ne_close : string → option error;
  ne_stat : option error * Z;
  ne_rank : string → Z }.

Definition node_fine (suffix : N) (now : Z) : NodeEnv :=
  mkNodeEnv (put_fine suffix now) (λ _, get_fine now) (λ _, None) (None, now) (λ _, 0).

(** This node within the world. *)
Record Host (S : Type) := mkHost { h_get : S → Coordinator; h_set : Coordinator → S → S }.
Arguments mkHost {S}.
Arguments h_get {S}.
Arguments h_set {S}.

Definition no_outcome : PutOutcome := mkPutOutcome 0 false 0 0 [] false.

Section coordinator.
Context {S : Type} (host : Host S) (peers : option (PeerClient S)).

Abbreviation me s := (self (ring (h_get host s))).

(** A method call on the local store. *)
Definition on_local {A} (m : M Store A) : M S A := λ s,
  let c := h_get host s in
  let '(st, r) := m (local c) in
  (h_set host (set_local st c) s, r).

Definition count (k : ccounter) (n : Z) (s : S) : S := h_set host (cadd k n (h_get host s)) s.

(** ** Put *)

Definition putLocalOnly (env : NodeEnv) (ns key : string) (body : Reader) (size : Z) (s : S)
    : S * (PutOutcome * option error) :=
  let '(s1, r) := on_local (Put (ne_put env) ns key body size) s in
  match r with
  | Err e => (s1, (no_outcome, Some e))
  | Ok res =>
      (count ReplicaWrites 1 s1,
       (mkPutOutcome (pr_Size res) (pr_AlreadyStored res) 1 1 [me s] (pr_Durable res), None))
  end.

Definition replicateOne (p : PeerClient S) (env : NodeEnv) (ns key : string) (size : Z) (target : Member)
    : M S unit :=
  r ← attempt (on_local (Get (ne_get env (Name target)) ns key));
  match r with
  | Err e => fail (Wrap ("reopen local copy of " +:+ short key +:+ " for replication") e)
  | Ok obj =>
      deferred (peer_Put p target ns key (mkReader (o_rest obj) (o_readerr obj)) size HopReplica)
        (λ _ s, (on_local (Object_Close (ne_close env (Name target)) obj) s).1)
  end.

(** The goroutines of [fanOut], in the order they run. *)
Fixpoint run_targets (p : PeerClient S) (env : NodeEnv) (ns key : string) (size : Z) (ts : list Member)
    (s : S) : S * list (string * option error) :=
  match ts with
  | [] => (s, [])
  | t :: ts' =>
      let '(s1, r) := replicateOne p env ns key size t s in
      let '(s2, rs) := run_targets p env ns key size ts' s1 in
      (s2, (Name t, match r with Ok _ => None | Err e => Some e end) :: rs)
  end.

Definition schedule (env : NodeEnv) (ts : list Member) : list Member :=
  sort_Slice (λ a b, ne_rank env (Name a) <? ne_rank env (Name b)) ts.

(** The results in the order of the targets; a result not filled in is the
    zero value, without an error. *)
Definition fanOut (p : PeerClient S) (env : NodeEnv) (ns key : string) (size : Z) (ts : list Member)
    (s : S) : S * list (string * option error) :=
  let '(s', rs) := run_targets p env ns key size (schedule env ts) s in
  (s', (λ t, (Name t, (list_to_map rs : gmap string (option error)) !! Name t ≫= id)) <$> ts).

(** The loop over the results: how many acknowledged, which, and why the others
    did not. *)
Definition tally (rs : list (string * option error)) : Z * list string * list error :=
  fold_left (λ '(got, acked, causes) r,
    match r.2 with
    | None => (got + 1, acked ++ [r.1], causes)
    | Some e => (got, acked, causes ++ [e])
    end) rs (0, [], []).

Definition coordinate (env : NodeEnv) (ns key : string) (body : Reader) (size : Z) (s : S)
    : S * (PutOutcome * option error) :=
  let c := h_get host s in
  let holders := Holders (ring c) key (replicaCount c) in
  let wanted := Z.of_nat (length holders) in
  let '(s1, r) := on_local (Put (ne_put env) ns key body size) s in
  match r with
  | Err e => (s1, (no_outcome, Some e))
  | Ok res =>
      let s2 := count CoordinatedPuts 1 s1 in
      let targets := filter (λ m, Name m ≠ self (ring c)) holders in
      let '(s3, results) :=
        match peers with
        | Some p => if bool_decide (targets = []) then (s2, []) else fanOut p env ns key (pr_Size res) targets s2
        | None => (s2, [])
        end in
      let '(got, acked, causes) := tally results in
      let s4 := count ReplicaFailures (Z.of_nat (length causes)) s3 in
      let outcome := mkPutOutcome (pr_Size res) (pr_AlreadyStored res) (1 + got) wanted
                       (self (ring c) :: acked) (pr_Durable res) in
      if 1 + got <? wanted then
        (count InsufficientAcks 1 s4,
         (outcome, Some (InsufficientReplicasError key wanted (1 + got) (self (ring c) :: acked) causes)))
      else (s4, (outcome, None))
  end.

(** [proxyPut]; a ring has at least one member, so [holders] is not empty. *)
Definition proxyPut (ns key : string) (body : Reader) (size : Z) (holders : list Member) (s : S)
    : S * (PutOutcome * option error) :=
  match peers, holders with
  | None, _ => (s, (no_outcome, Some (Errorf "cluster: no peer client configured")))
  | Some _, [] => (s, (no_outcome, Some (Errorf "index out of range [0] with length 0")))
  | Some p, target :: _ =>
      let s1 := count ForwardedPuts 1 s in
      let n := Z.of_nat (length holders) in
      let '(s2, r) := peer_Put p target ns key body size HopCoordinator s1 in
      match r with
      | Ok _ => (s2, (mkPutOutcome size false n n (memberNames holders) true, None))
      | Err e =>
          (count InsufficientAcks 1 s2,
           (mkPutOutcome 0 false 0 n [] false,
            Some (InsufficientReplicasError key n 0 [] [e])))
      end
  end.

Definition coord_Put (env : NodeEnv) (ns key : string) (body : Reader) (declaredSize : Z) (hop : Hop) (s : S)
    : S * (PutOutcome * option error) :=
  if String.eqb hop HopRepair then
    if (overHighWater (h_get host s)).1.1 then
      (count RepairDeclined 1 s, (no_outcome, Some ErrOverQuota))
    else putLocalOnly env ns key body declaredSize s
  else if String.eqb hop HopReplica then putLocalOnly env ns key body declaredSize s
  else if String.eqb hop HopCoordinator then coordinate env ns key body declaredSize s
  else if String.eqb hop HopRead then putLocalOnly env ns key body declaredSize s
  else
    let c := h_get host s in
    let holders := Holders (ring c) key (replicaCount c) in
    if selfIn c holders then coordinate env ns key body declaredSize s
    else proxyPut ns key body declaredSize holders s.

(** ** Open and Stat *)

(** The loop over the candidates: the first answer, or the last error that was
    not a plain miss. *)
Fixpoint ask {A} (call : Member → M S A) (ms : list Member) (lastErr : option error) (s : S)
    : S * (option A * option error) :=
  match ms with
  | [] => (s, (None, lastErr))
  | m :: ms' =>
      let '(s1, r) := call m s in
      match r with
      | Ok a => (s1, (Some a, lastErr))
      | Err e => ask call ms' (if errors_Is e IsPeerNotFound then lastErr else Some e) s1
      end
  end.

Definition unreachable (key : string) (e : error) : error :=
  Wrap ("all holders unreachable for " +:+ short key) e.

Definition coord_Open (env : NodeEnv) (ns key : string) (hop : Hop) (s : S) : S * result ObjectReader :=
  let '(s1, r) := on_local (Get (ne_get env (me s)) ns key) s in
  match r with
  | Ok o => (count LocalHits 1 s1, Ok (LocalObject o))
  | Err e =>
      if negb (errors_Is e IsNotFound) then (s1, Err e)
      else
        match (if Terminal hop then None else peers) with
        | None => (count Misses 1 s1, Err ErrNotFound)
        | Some p =>
            let '(s2, (found, lastErr)) :=
              ask (λ m, peer_Get p m ns key HopRead) (readOrder (h_get host s) key) None s1 in
            match found with
            | Some o => (count ReadFallbacks 1 (count PeerHits 1 s2), Ok (PeerObject o))
            | None =>
                (count Misses 1 s2,
                 match lastErr with Some e => Err (unreachable key e) | None => Err ErrNotFound end)
            end
        end
  end.

Definition coord_Stat (env : NodeEnv) (ns key : string) (hop : Hop) (s : S) : S * result ObjectInfo :=
  let '(s1, r) := on_local (Stat_ (ne_stat env).1 (ne_stat env).2 ns key) s in
  match r with
  | Ok st => (count LocalHits 1 s1, Ok (mkObjectInfo (st_Size st) "local"))
  | Err e =>
      if negb (errors_Is e IsNotFound) then (s1, Err e)
      else
        match (if Terminal hop then None else peers) with
        | None => (count Misses 1 s1, Err ErrNotFound)
        | Some p =>
            let '(s2, (found, lastErr)) :=
              ask (λ m, peer_Stat p m ns key HopRead) (readOrder (h_get host s) key) None s1 in
            match found with
            | Some i => (count PeerHits 1 s2, Ok i)
            | None =>
                (count Misses 1 s2,
                 match lastErr with Some e => Err (unreachable key e) | None => Err ErrNotFound end)
            end
        end
  end.

(** [Verify] and [Close] of a reader [Open] returned. *)
Definition obj_Verify (r : ObjectReader) : M S unit :=
  match r with LocalObject o => on_local (Verify o) | PeerObject _ => mret tt end.

Definition obj_Close (fault : option error) (r : ObjectReader) (s : S) : S :=
  match r with LocalObject o => (on_local (Object_Close fault o) s).1 | PeerObject _ => s end.
End coordinator.

#[global] Arguments coord_Put : simpl never.
#[global] Arguments coord_Open : simpl never.
#[global] Arguments coord_Stat : simpl never.
#[global] Arguments coordinate : simpl never.
#[global] Arguments proxyPut : simpl never.
#[global] Arguments putLocalOnly : simpl never.
#[global] Arguments fanOut : simpl never.

(** ** Lemmas *)

Definition failed (r : string * option error) : bool :=
  match r.2 with Some _ => true | None => false end.

Lemma tally_spec rs :
  tally rs =
    (Z.of_nat (length (filter (λ r, failed r = false) rs)),
     (filter (λ r, failed r = false) rs).*1, omap snd rs).
Proof.
  unfold tally.
  assert (∀ got acked causes,
    fold_left (λ '(got, acked, causes) r,
      match r.2 with
      | None => (got + 1, acked ++ [r.1], causes)
      | Some e => (got, acked, causes ++ [e])
      end) rs (got, acked, causes) =
    (got + Z.of_nat (length (filter (λ r, failed r = false) rs)),
     acked ++ (filter (λ r, failed r = false) rs).*1, causes ++ omap snd rs)) as H.
  { induction rs as [|[n [e|]] rs IH]; intros got acked causes; cbn [fold_left snd fst].
    - by rewrite !app_nil_r, Z.add_0_r.
    - rewrite IH, filter_cons_False by done. csimpl. by rewrite <-(assoc_L (++)).
    - rewrite IH, filter_cons_True by done. csimpl. rewrite <-!(assoc_L (++)). csimpl.
      f_equal; f_equal. lia. }
  by rewrite H.
Qed.

(** Enough acknowledgements means that nobody failed. *)
Lemma tally_all rs got acked causes :
  tally rs = (got, acked, causes) → Z.of_nat (length rs) ≤ got →
  Forall (λ r, r.2 = None) rs ∧ got = Z.of_nat (length rs) ∧ acked = rs.*1 ∧ causes = [].
Proof.
  rewrite tally_spec. intros [= <- <- <-] Hle.
  assert (Forall (λ r, r.2 = None) rs) as Hall.
  { apply Forall_forall. intros [n [e|]] Hr; [|done]. exfalso.
    pose proof (length_filter_lt (λ r, failed r = false) rs _ Hr). simpl in *. naive_solver lia. }
  assert (filter (λ r, failed r = false) rs = rs ∧ omap snd rs = []) as [-> ->].
  { clear Hle. induction Hall as [|[n r] rs Hr Hall [IH1 IH2]]; [done|]. simpl in Hr. subst r.
    rewrite filter_cons_True by done. csimpl. by rewrite IH1, IH2. }
  done.
Qed.

Section lemmas.
Context {S : Type} (host : Host S).

Lemma replicateOne_Ok p env ns key size t s s' :
  replicateOne host p env ns key size t s = (s', Ok tt) →
  ∃ s1 obj s2, on_local host (Get (ne_get env (Name t)) ns key) s = (s1, Ok obj) ∧
    peer_Put p t ns key (mkReader (o_rest obj) (o_readerr obj)) size HopReplica s1 = (s2, Ok tt).
Proof.
  unfold replicateOne. mrun. destruct (on_local host _ s) as [s1 [obj|e]] eqn:HG; mrun; [|done].
  destruct (peer_Put _ _ _ _ _ _ _ s1) as [s2 [[]|e]] eqn:HP; [|done]. intros _. by exists s1, obj, s2.
Qed.

(** Each goroutine ran once. *)
Lemma run_targets_spec p env ns key size ts s s' rs :
  run_targets host p env ns key size ts s = (s', rs) →
  Forall2 (λ t r, r.1 = Name t ∧ ∃ s1 s2 res, replicateOne host p env ns key size t s1 = (s2, res) ∧
    r.2 = match res with Ok _ => None | Err e => Some e end) ts rs.
Proof.
  revert s rs. induction ts as [|t ts IH]; intros s rs; simpl; [intros [= _ <-]; constructor|].
  destruct (replicateOne host p env ns key size t s) as [s1 r] eqn:HR.
  destruct (run_targets host p env ns key size ts s1) as [s2 rs2] eqn:HT. intros [= -> <-].
  constructor; [|by eapply IH]. simpl. split; [done|]. by exists s, s1, r.
Qed.

Lemma schedule_perm env ts : schedule env ts ≡ₚ ts.
Proof. apply sort_Slice_perm. Qed.

(** The results of a fan-out are those of its goroutines. *)
Lemma fanOut_spec p env ns key size ts s s' rs :
  NoDup (Name <$> ts) → fanOut host p env ns key size ts s = (s', rs) →
  rs.*1 = Name <$> ts ∧
  ∀ t, t ∈ ts → ∃ s1 s2 res, replicateOne host p env ns key size t s1 = (s2, res) ∧
    (Name t, match res with Ok _ => None | Err e => Some e end) ∈ rs.
Proof.
  intros Hnd. unfold fanOut. destruct (run_targets _ _ _ _ _ _ _ s) as [s1 done_] eqn:HR.
  intros [= _ <-]. apply run_targets_spec in HR.
  assert (done_.*1 = Name <$> schedule env ts) as Hfst.
  { clear -HR. induction HR as [|t r ts' rs' [Hr _] _ IH]; [done|]. csimpl. by rewrite Hr, IH. }
  split; [by rewrite <-list_fmap_compose|]. intros t Ht.
  assert (t ∈ schedule env ts) as Hts by (by rewrite schedule_perm).
  apply list_elem_of_lookup in Hts as [i Hts].
  destruct (Forall2_lookup_l _ _ _ _ _ HR Hts) as (r & Hr%list_elem_of_lookup_2 & Hname & s2 & s3 & res & HO & Hres).
  exists s2, s3, res. split; [done|]. rewrite <-Hres. apply list_elem_of_fmap. exists t. split; [|done].
  f_equal. assert ((list_to_map done_ : gmap string (option error)) !! Name t = Some r.2) as ->; [|by destruct r as [? []]].
  apply elem_of_list_to_map_1; [|by rewrite <-Hname, <-surjective_pairing].
  rewrite Hfst. by rewrite (fmap_Permutation Name _ _ (schedule_perm env ts)).
Qed.

Lemma names_without x (hs : list Member) :
  NoDup (Name <$> hs) → x ∈ Name <$> hs →
  Name <$> hs ≡ₚ x :: (Name <$> filter (λ m, Name m ≠ x) hs).
Proof.
  induction hs as [|m hs IH]; intros Hnd Hx; [by apply elem_of_nil in Hx|].
  rewrite fmap_cons in Hnd, Hx. apply NoDup_cons in Hnd as [Hni Hnd].
  destruct (decide (Name m = x)) as [<-|Hne].
  - rewrite filter_cons_False by (by intros []). csimpl. apply perm_skip.
    assert (filter (λ m', Name m' ≠ Name m) hs = hs) as ->; [|done].
    clear -Hni. induction hs as [|m' hs IH]; [done|].
    rewrite fmap_cons, not_elem_of_cons in Hni. destruct Hni as [Hne Hni].
    rewrite filter_cons_True by done. by rewrite IH.
  - rewrite filter_cons_True by done. csimpl. rewrite perm_swap. apply perm_skip, IH; [done|].
    by apply elem_of_cons in Hx as [->|].
Qed.

Lemma selfIn_spec c hs : selfIn c hs = true ↔ self (ring c) ∈ Name <$> hs.
Proof.
  unfold selfIn. rewrite existsb_exists, list_elem_of_fmap. split.
  - intros (m & Hm & He%String.eqb_eq). exists m. split; [done|]. by apply list_elem_of_In.
  - intros (m & He & Hm). exists m. split; [by apply list_elem_of_In|]. by apply String.eqb_eq.
Qed.

Lemma Holders_NoDup r key n : ring_ok r → NoDup (Name <$> Holders r key n).
Proof.
  intros Hr. rewrite Holders_take, fmap_take. apply NoDup_take.
  rewrite (fmap_Permutation Name _ _ (Owners_perm r key)). exact Hr.
Qed.

(** The peer [m] acknowledged a replica write of this node's copy. *)
Definition replicated (p : PeerClient S) (env : NodeEnv) (ns key : string) (size : Z) (m : Member) : Prop :=
  ∃ s1 s2 s3 obj, on_local host (Get (ne_get env (Name m)) ns key) s1 = (s2, Ok obj) ∧
    peer_Put p m ns key (mkReader (o_rest obj) (o_readerr obj)) size HopReplica s2 = (s3, Ok tt).

Lemma coordinate_ack peers env ns key body size s s' out :
  let c := h_get host s in
  let hs := Holders (ring c) key (replicaCount c) in
  ring_ok (ring c) → selfIn c hs = true →
  coordinate host peers env ns key body size s = (s', (out, None)) →
  ∃ s1 res, on_local host (Put (ne_put env) ns key body size) s = (s1, Ok res) ∧
    out_Size out = pr_Size res ∧
    out_Copies out = Z.of_nat (length hs) ∧ out_Wanted out = Z.of_nat (length hs) ∧
    out_Holders out ≡ₚ memberNames hs ∧
    ∀ m, m ∈ hs → Name m ≠ self (ring c) →
      ∃ p, peers = Some p ∧ replicated p env ns key (pr_Size res) m.
Proof.
  intros c hs Hok Hself. unfold coordinate. fold c hs.
  pose proof (Holders_NoDup (ring c) key (replicaCount c) Hok) as Hnd.
  destruct (on_local host _ s) as [s1 [res|e]]; [|done].
  set (ts := filter _ hs).
  assert (Hperm : Name <$> hs ≡ₚ self (ring c) :: (Name <$> ts)) by (by apply names_without, selfIn_spec).
  pose proof (Permutation_length Hperm) as Hlen. simpl in Hlen. rewrite !length_fmap in Hlen.
  assert (Hnt : NoDup (Name <$> ts)) by (fold hs in Hnd; rewrite Hperm in Hnd; by apply NoDup_cons in Hnd as [_ ?]).
  destruct (match peers with Some p => _ | None => _ end) as [s3 results] eqn:HF.
  destruct (tally results) as [[got acked] causes] eqn:HT.
  destruct (Z.ltb_spec (1 + got) (Z.of_nat (length hs))) as [|Hge]; [done|]. intros [= _ <-].
  exists s1, res. split; [done|]. split; [done|].
  assert (Hres : (length results ≤ length ts)%nat ∧
    (length ts ≤ length results → results.*1 = Name <$> ts)%nat ∧
    ∀ t, t ∈ ts → (length ts ≤ length results)%nat → ∃ p s2 s4 r, peers = Some p ∧
      replicateOne host p env ns key (pr_Size res) t s2 = (s4, r) ∧
      (Name t, match r with Ok _ => None | Err e => Some e end) ∈ results).
  { destruct peers as [p|]; [case_bool_decide as Hts|]; try (injection HF as <- <-).
    - rewrite Hts. split; [done|]. split; [done|]. intros t Ht. by apply elem_of_nil in Ht.
    - destruct (fanOut_spec _ _ _ _ _ _ _ _ _ Hnt HF) as [Hfst Hrun].
      pose proof (f_equal length Hfst) as Hl. rewrite !length_fmap in Hl.
      split; [lia|]. split; [done|]. intros t Ht _.
      destruct (Hrun t Ht) as (s2 & s4 & r & ? & ?). by exists p, s2, s4, r.
    - split; [simpl; lia|]. split; [by destruct ts; [|simpl; lia]|]. intros t Ht Hl.
      destruct ts; [by apply elem_of_nil in Ht|simpl in Hl; lia]. }
  destruct Hres as (Hle & Hfst & Hrun).
  destruct (tally_all _ _ _ _ HT) as (Hall & -> & -> & _); [lia|].
  rewrite Hfst by lia. simpl. split; [lia|]. split; [done|].
  split; [unfold memberNames; by rewrite Hperm|]. intros m Hm Hne.
  destruct (Hrun m) as (p & s2 & s4 & r & -> & HR & Hin); [by apply list_elem_of_filter|lia|].
  exists p. split; [done|]. rewrite Forall_forall in Hall. specialize (Hall _ Hin). simpl in Hall.
  destruct r as [[]|]; [|done]. destruct (replicateOne_Ok _ _ _ _ _ _ _ _ HR) as (s5 & obj & s6 & HG & HP).
  by exists s2, s5, s6, obj.
Qed.
End lemmas.

(** ** Hop roles *)

(** The roles a request may be forwarded under. *)
Definition may_forward (hop h : Hop) : Prop :=
  (hop = HopClient ∧ (h = HopCoordinator ∨ h = HopReplica ∨ h = HopRead)) ∨
  (hop = HopCoordinator ∧ (h = HopReplica ∨ h = HopRead)).

(** How many forwardings a role allows. *)
Definition hop_rank (h : Hop) : nat :=
  if String.eqb h HopClient then 2 else if String.eqb h HopCoordinator then 1 else 0.

Lemma may_forward_down hop h : may_forward hop h → (hop_rank h < hop_rank hop)%nat.
Proof. intros [[-> [->|[->| ->]]]|[-> [->| ->]]]; vm_compute; lia. Qed.

Lemma hop_rank_terminal h : h ∈ [HopReplica; HopRepair; HopRead] → Terminal h = true ∧ hop_rank h = 0%nat.
Proof. rewrite !elem_of_cons, elem_of_nil. by intros [->|[->|[->|[]]]]. Qed.

Section forwarding.
Context {S : Type} (host : Host S).

(** Two clients that answer alike wherever [Q] allows the role. *)
Definition agree (Q : Hop → Prop) (p p' : PeerClient S) : Prop :=
  (∀ m ns key b n h s, Q h → peer_Put p m ns key b n h s = peer_Put p' m ns key b n h s) ∧
  (∀ m ns key h s, Q h → peer_Get p m ns key h s = peer_Get p' m ns key h s) ∧
  (∀ m ns key h s, Q h → peer_Stat p m ns key h s = peer_Stat p' m ns key h s).

Lemma replicateOne_agree Q p p' env ns key size t s :
  agree Q p p' → Q HopReplica →
  replicateOne host p env ns key size t s = replicateOne host p' env ns key size t s.
Proof.
  intros [HP _] HQ. unfold replicateOne. mrun. destruct (on_local host _ s) as [s1 [obj|e]]; mrun; [|done].
  by rewrite HP.
Qed.

Lemma run_targets_agree Q p p' env ns key size ts s :
  agree Q p p' → Q HopReplica →
  run_targets host p env ns key size ts s = run_targets host p' env ns key size ts s.
Proof.
  intros HA HQ. revert s. induction ts as [|t ts IH]; intros s; simpl; [done|].
  rewrite (replicateOne_agree Q p p') by done. destruct (replicateOne _ _ _ _ _ _ _ _). by rewrite IH.
Qed.

Lemma coordinate_agree Q p p' env ns key body size s :
  agree Q p p' → Q HopReplica →
  coordinate host (Some p) env ns key body size s = coordinate host (Some p') env ns key body size s.
Proof.
  intros HA HQ. unfold coordinate. destruct (on_local host _ s) as [s1 [res|e]]; [|done].
  unfold fanOut. by rewrite (run_targets_agree Q p p').
Qed.

Lemma ask_agree {A} (call call' : Member → M S A) ms e s :
  (∀ m s, call m s = call' m s) → ask call ms e s = ask call' ms e s.
Proof.
  intros HA. revert e s. induction ms as [|m ms IH]; intros e s; simpl; [done|].
  rewrite HA. destruct (call' m s) as [s1 [a|er]]; [done|]. apply IH.
Qed.

(** What a request does under a role depends on the peers only through requests
    under the roles it may forward. *)
Lemma hops_only_go_down p p' env ns key body size hop s :
  hop ∈ [HopClient; HopCoordinator; HopReplica; HopRepair; HopRead] →
  agree (may_forward hop) p p' →
  coord_Put host (Some p) env ns key body size hop s = coord_Put host (Some p') env ns key body size hop s ∧
  coord_Open host (Some p) env ns key hop s = coord_Open host (Some p') env ns key hop s ∧
  coord_Stat host (Some p) env ns key hop s = coord_Stat host (Some p') env ns key hop s ∧
  (∀ h, may_forward hop h → (hop_rank h < hop_rank hop ≤ 2)%nat).
Proof.
  intros Hhop HA.
  assert (Hread : Terminal hop = true ∨ may_forward hop HopRead).
  { rewrite !elem_of_cons, elem_of_nil in Hhop. unfold may_forward.
    destruct Hhop as [->|[->|[->|[->|[->|[]]]]]]; auto 6. }
  split; [|split; [|split]].
  - unfold coord_Put. rewrite !elem_of_cons, elem_of_nil in Hhop.
    destruct Hhop as [->|[->|[->|[->|[->|[]]]]]]; try done; cbn -[coordinate proxyPut Holders selfIn].
    + rewrite (coordinate_agree (may_forward HopClient) p p') by (done || (unfold may_forward; auto)).
      destruct (selfIn _ _); [done|]. unfold proxyPut. destruct (Holders _ _ _) as [|m ms]; [done|].
      destruct HA as [HA _]. rewrite HA by (unfold may_forward; auto). done.
    + apply (coordinate_agree (may_forward HopCoordinator)); [done|unfold may_forward; auto].
  - unfold coord_Open. destruct (on_local host _ s) as [s1 [o|e]]; [done|]. destruct (negb _); [done|].
    destruct (Terminal hop) eqn:Ht; [done|]. destruct Hread as [|Hr]; [done|].
    rewrite (ask_agree _ (λ m, peer_Get p' m ns key HopRead)); [done|]. intros m s2. by apply HA.
  - unfold coord_Stat. destruct (on_local host _ s) as [s1 [o|e]]; [done|]. destruct (negb _); [done|].
    destruct (Terminal hop) eqn:Ht; [done|]. destruct Hread as [|Hr]; [done|].
    rewrite (ask_agree _ (λ m, peer_Stat p' m ns key HopRead)); [done|]. intros m s2. by apply HA.
  - intros h Hh%may_forward_down. split; [done|]. unfold hop_rank. repeat case_match; lia.
Qed.
End forwarding.

(** ** Asking the peers *)

(** The peers [ms], asked in order, answered [rs]. *)
Inductive answers {S A} (call : Member → M S A) : list Member → S → list (result A) → S → Prop :=
  | answers_nil s : answers call [] s [] s
  | answers_cons m ms s s1 s2 r rs :
      call m s = (s1, r) → answers call ms s1 rs s2 → answers call (m :: ms) s (r :: rs) s2.

Definition missed {A} (r : result A) : Prop := ∃ e, r = Err e ∧ errors_Is e IsPeerNotFound = true.
Definition refused {A} (r : result A) : Prop := ∃ e, r = Err e.

Lemma ask_spec {S A} (call : Member → M S A) ms s s' found lastErr :
  ask call ms None s = (s', (found, lastErr)) →
  ∃ pre post rs, ms = pre ++ post ∧ answers call pre s rs s' ∧
    match found with
    | Some a => ∃ rs', rs = rs' ++ [Ok a] ∧ Forall refused rs'
    | None =>
        post = [] ∧ Forall refused rs ∧
        match lastErr with
        | None => Forall missed rs
        | Some e => Err e ∈ rs ∧ errors_Is e IsPeerNotFound = false
        end
    end.
Proof.
  assert (∀ e0, ask call ms e0 s = (s', (found, lastErr)) →
    ∃ pre post rs, ms = pre ++ post ∧ answers call pre s rs s' ∧
      match found with
      | Some a => ∃ rs', rs = rs' ++ [Ok a] ∧ Forall refused rs'
      | None =>
          post = [] ∧ Forall refused rs ∧
          ((lastErr = e0 ∧ Forall missed rs) ∨
           ∃ e, lastErr = Some e ∧ Err e ∈ rs ∧ errors_Is e IsPeerNotFound = false)
      end) as H.
  { revert s. induction ms as [|m ms IH]; intros s e0; simpl.
    { intros [= <- <- <-]. exists [], [], []. split; [done|]. split; [constructor|]. auto. }
    destruct (call m s) as [s1 [a|e]] eqn:Hc.
    { intros [= <- <- <-]. exists [m], ms, [Ok a]. split; [done|]. split; [by repeat econstructor|]. by exists []. }
    intros (pre & post & rs & -> & Hans & Hres)%IH. exists (m :: pre), post, (Err e :: rs).
    split; [done|]. split; [by econstructor|]. destruct found as [a|].
    - destruct Hres as (rs' & -> & Hall). exists (Err e :: rs'). split; [done|]. constructor; [by eexists|done].
    - destruct Hres as (-> & Hall & Hlast). split; [done|]. split; [constructor; [by eexists|done]|].
      destruct Hlast as [[-> Hm]|(e' & -> & Hin & He')].
      + destruct (errors_Is e IsPeerNotFound) eqn:He.
        * left. split; [done|]. constructor; [|done]. by exists e.
        * right. exists e. split; [done|]. split; [left|done].
      + right. exists e'. split; [done|]. split; [by right|done]. }
  intros (pre & post & rs & Hms & Hans & Hres)%H. exists pre, post, rs. split; [done|]. split; [done|].
  destruct found; [done|]. destruct Hres as (? & ? & [[-> ?]|(e & -> & ? & ?)]); auto.
Qed.

(** ** Claims *)

(** An acknowledged write is on every holder.  When [Put] on a holder
    succeeds, as the front door for a client or as the coordinator another node
    chose, the local write succeeded, every other holder acknowledged a replica
    write of the local copy, and the outcome reports exactly the holders; this
    holds whatever the peers, the network, the disk and the scheduler do. *)
Theorem acknowledged_put_is_replicated {S} (host : Host S) peers env ns key body size hop s s' out :
  let c := h_get host s in
  let hs := Holders (ring c) key (replicaCount c) in
  ring_ok (ring c) → selfIn c hs = true → hop = HopClient ∨ hop = HopCoordinator →
  coord_Put host peers env ns key body size hop s = (s', (out, None)) →
  ∃ s1 res, on_local host (Put (ne_put env) ns key body size) s = (s1, Ok res) ∧
    out_Copies out = Z.of_nat (length hs) ∧ out_Wanted out = Z.of_nat (length hs) ∧
    out_Holders out ≡ₚ memberNames hs ∧
    ∀ m, m ∈ hs → Name m ≠ self (ring c) →
      ∃ p, peers = Some p ∧ replicated host p env ns key (pr_Size res) m.
Proof.
  intros c hs Hok Hself Hhop HP.
  assert (coordinate host peers env ns key body size s = (s', (out, None))) as HC.
  { revert HP. unfold coord_Put. fold c hs. rewrite Hself. by destruct Hhop as [->| ->]. }
  destruct (coordinate_ack host peers env ns key body size s s' out Hok Hself HC)
    as (s1 & res & HL & _ & Hc & Hw & Hh & Hr).
  exists s1, res. auto.
Qed.

(** C16: a partition does not look like a miss.  What the local store has, or an
    error of it other than a miss, is the answer.  On a local miss, a request that
    must not be forwarded (a read by a peer, a replica write, a repair) and a node
    without a peer client answer "not found" for the local store alone.  Any other
    request asks the other members of the ring in placement order, holders first;
    the first copy found is returned; "not found" is returned only when every one
    of them was asked and answered that it has no copy; and when one of them could
    not answer, the error names it. *)
Theorem miss_needs_every_peer {S} (host : Host S) peers env ns key hop s s1 r s' res :
  on_local host (Get (ne_get env (self (ring (h_get host s)))) ns key) s = (s1, r) →
  coord_Open host peers env ns key hop s = (s', res) →
  let others := filter (λ m, Name m ≠ self (ring (h_get host s))) (Owners (ring (h_get host s)) key) in
  match r with
  | Ok o => res = Ok (LocalObject o)
  | Err e =>
      if negb (errors_Is e IsNotFound) then res = Err e
      else
        match peers with
        | Some p =>
            if Terminal hop then res = Err ErrNotFound
            else
              ∃ pre post rs s2, others = pre ++ post ∧ answers (λ m, peer_Get p m ns key HopRead) pre s1 rs s2 ∧
                match res with
                | Ok r => ∃ o rs', r = PeerObject o ∧ rs = rs' ++ [Ok o] ∧ Forall refused rs'
                | Err er =>
                    post = [] ∧ Forall refused rs ∧
                    ((er = ErrNotFound ∧ Forall missed rs) ∨
                     ∃ e', er = unreachable key e' ∧ Err e' ∈ rs ∧ errors_Is e' IsPeerNotFound = false)
                end
        | None => res = Err ErrNotFound
        end
  end.
Proof.
  intros HG. unfold coord_Open. rewrite HG. destruct r as [o|e]; [by intros [= _ <-]|].
  destruct (errors_Is e IsNotFound); cbn [negb]; [|by intros [= _ <-]].
  destruct peers as [p|]; [|destruct (Terminal hop); by intros [= _ <-]].
  destruct (Terminal hop); [by intros [= _ <-]|].
  destruct (ask _ _ None s1) as [s2 [found lastErr]] eqn:HA.
  apply ask_spec in HA as (pre & post & rs & Hms & Hans & Hres).
  intros HE. exists pre, post, rs, s2. split; [exact Hms|]. split; [done|].
  destruct found as [o|]; injection HE; intros <- _.
  - destruct Hres as (rs' & -> & Hall). by exists o, rs'.
  - destruct Hres as (-> & Hall & Hlast).
    destruct lastErr as [e'|]; (split; [done|]); (split; [done|]); [right; by exists e'|by left].
Qed.

(** ** Three nodes, for the witnesses *)

Definition trio : list Member :=
  [mkMember "node-a" "http://node-a" 1; mkMember "node-b" "http://node-b" 2;
   mkMember "node-c" "http://node-c" 3].

Definition action_key : string := "aaaaaaaaaaaaaaaaaaaaaaaaaaaaaaaaaaaaaaaaaaaaaaaaaaaaaaaaaaaaaaaa".

(** A node of the three, which holds [action_key] when it is [node-b] or [node-c]. *)
Definition trio_node (x : string) : Coordinator :=
  mkCoordinator (mkRing trio x) (fresh_store 1024) 2 None (λ _, 0).

(** A world of one node, whose peers accept every replica and hold nothing;
    [node-b] is cut off from reads. *)
Definition alone : Host Coordinator := mkHost id (λ c _, c).
Definition friendly : PeerClient Coordinator :=
  mkPeerClient (λ _ _ _ _ _ _ s, (s, Ok tt))
    (λ m _ _ _ s, (s, Err (if String.eqb (Name m) "node-b" then Canceled else ErrPeerNotFound)))
    (λ _ _ _ _ s, (s, Err ErrPeerNotFound)).

Lemma trio_NoDup : NoDup (Name <$> trio).
Proof. apply (bool_decide_unpack _). vm_compute. exact I. Qed.

Definition trio_put := coord_Put alone (Some friendly) (node_fine 7 100) NamespaceAC action_key
  (mkReader abc_bytes None) 3 HopClient (trio_node "node-c").

Lemma trio_put_fine : (trio_put.2).2 = None.
Proof. vm_compute. reflexivity. Qed.

Lemma acknowledged_put_is_replicated_witness :
  ∃ res, replicated alone friendly (node_fine 7 100) NamespaceAC action_key (pr_Size res)
           (mkMember "node-b" "http://node-b" 2).
Proof.
  destruct (acknowledged_put_is_replicated alone (Some friendly) (node_fine 7 100) NamespaceAC action_key
    (mkReader abc_bytes None) 3 HopClient (trio_node "node-c") trio_put.1 (trio_put.2).1)
    as (s1 & res & _ & _ & _ & _ & H).
  - exact trio_NoDup.
  - vm_compute. reflexivity.
  - left. reflexivity.
  - fold trio_put. rewrite <-trio_put_fine, <-!surjective_pairing. reflexivity.
  - exists res. destruct (H (mkMember "node-b" "http://node-b" 2)) as (p & Hp & Hr); [|discriminate|].
    + apply (bool_decide_unpack _). vm_compute. exact I.
    + injection Hp as <-. exact Hr.
Defined.

Definition trio_open := coord_Open alone (Some friendly) (node_fine 7 100) NamespaceAC action_key
  HopClient (trio_node "node-a").

Definition trio_miss := on_local alone (Get (get_fine 100) NamespaceAC action_key) (trio_node "node-a").

Lemma trio_misses : trio_miss.2 = Err ErrNotFound.
Proof. vm_compute. reflexivity. Qed.

Lemma trio_open_fails : trio_open.2 = Err (unreachable action_key Canceled).
Proof. vm_compute. reflexivity. Qed.

Lemma miss_needs_every_peer_witness :
  ∃ pre rs s2,
    filter (λ m, Name m ≠ "node-a") (Owners (mkRing trio "node-a") action_key) = pre ++ [] ∧
    answers (λ m, peer_Get friendly m NamespaceAC action_key HopRead) pre trio_miss.1 rs s2 ∧
    Forall refused rs.
Proof.
  destruct (miss_needs_every_peer alone (Some friendly) (node_fine 7 100) NamespaceAC action_key HopClient
    (trio_node "node-a") trio_miss.1 (Err ErrNotFound) trio_open.1 (Err (unreachable action_key Canceled)))
    as (pre & post & rs & s2 & Hpre & Ha & Hpost & Hr & _).
  - rewrite <-trio_misses, <-surjective_pairing. reflexivity.
  - rewrite <-trio_open_fails, <-surjective_pairing. reflexivity.
  - exists pre, rs, s2. rewrite <-Hpost. split; [exact Hpre|]. split; [exact Ha|exact Hr].
Defined.
