(* ===== verification/HttpApi.v ===== *)
(** * The HTTP front door: internal/httpapi

    The object-protocol handler of cache.go with its response recorders, the
    routing of router.go, the middleware and the health state.  Handlers run
    against a [Backend], which the coordinator implements. *)

From S2P Require Import Prelude GoStrings Sha256 Errors Key Config Ring Protocol Index FileSystem Store StoreSpec Client Coordinator.

#[local] Open Scope Z_scope.

(** ** Response writers *)

(** net/http's writer: the header map, the status once written (0 before) with
    the headers sent with it, the declared length, and the connection. *)
Record ResponseWriter := mkRW {
  w_header : Header; w_code : Z; w_sent : Header; w_length : option Z; w_conn : Writer }.

Definition rw_Set (k v : string) (w : ResponseWriter) : ResponseWriter :=
  mkRW (<[k := v]> (w_header w)) (w_code w) (w_sent w) (w_length w) (w_conn w).

(** [Content-Length], as a number beside its header. *)
Definition rw_SetLength (n : Z) (w : ResponseWriter) : ResponseWriter :=
  let w := rw_Set "Content-Length" (pretty n) w in
  mkRW (w_header w) (w_code w) (w_sent w) (Some n) (w_conn w).

Definition rw_WriteHeader (code : Z) (w : ResponseWriter) : ResponseWriter :=
  if w_code w =? 0 then mkRW (w_header w) code (w_header w) (w_length w) (w_conn w) else w.

Definition rw_Write (b : bytes) (w : ResponseWriter) : ResponseWriter * nat :=
  let w := rw_WriteHeader StatusOK w in
  let '(c, n, _) := Write (w_conn w) b in
  (mkRW (w_header w) (w_code w) (w_sent w) (w_length w) c, n).

(** The access log's wrapper. *)
Record responseRecorder := mkRR { rr_w : ResponseWriter; rr_status : Z; rr_bytes : Z }.

Definition rr_WriteHeader (code : Z) (r : responseRecorder) : responseRecorder :=
  mkRR (rw_WriteHeader code (rr_w r)) (if rr_status r =? 0 then code else rr_status r) (rr_bytes r).

Definition rr_Write (b : bytes) (r : responseRecorder) : responseRecorder * nat :=
  let '(w, n) := rw_Write b (rr_w r) in
  (mkRR w (if rr_status r =? 0 then StatusOK else rr_status r) (rr_bytes r + Z.of_nat n), n).

Definition rr_Status (r : responseRecorder) : Z := if rr_status r =? 0 then StatusOK else rr_status r.

(** The metrics' wrapper around it. *)
Record statusRecorder := mkSR { sr_r : responseRecorder; sr_status : Z }.

Definition sr_WriteHeader (code : Z) (r : statusRecorder) : statusRecorder :=
  mkSR (rr_WriteHeader code (sr_r r)) (if sr_status r =? 0 then code else sr_status r).

Definition sr_Write (b : bytes) (r : statusRecorder) : statusRecorder * nat :=
  let '(w, n) := rr_Write b (sr_r r) in
  (mkSR w (if sr_status r =? 0 then StatusOK else sr_status r), n).

Definition sr_Status (r : statusRecorder) : Z := if sr_status r =? 0 then StatusOK else sr_status r.

(** [Header().Set] through both wrappers. *)
Definition on_rw (f : ResponseWriter → ResponseWriter) (r : statusRecorder) : statusRecorder :=
  mkSR (mkRR (f (rr_w (sr_r r))) (rr_status (sr_r r)) (rr_bytes (sr_r r))) (sr_status r).

Definition sr_Set (k v : string) : statusRecorder → statusRecorder := on_rw (rw_Set k v).

Definition newline : string := String (ascii_of_nat 10) EmptyString.

Definition httpError (code : Z) (msg : string) (w : statusRecorder) : statusRecorder :=
  let w := sr_Set "Content-Type" "text/plain; charset=utf-8" w in
  let w := sr_Set "X-Content-Type-Options" "nosniff" w in
  let w := sr_WriteHeader code w in
  (sr_Write (String.list_byte_of_string (msg +:+ newline)) w).1.

(** [http.NotFound]. *)
Definition http_NotFound (w : statusRecorder) : statusRecorder :=
  httpError StatusNotFound "404 page not found" w.

Definition setObjectHeaders (size : Z) (w : statusRecorder) : statusRecorder :=
  let w := sr_Set "Content-Type" "application/octet-stream" w in
  let w := on_rw (rw_SetLength size) w in
  sr_Set "Cache-Control" "no-store" w.

(** ** Requests *)

Definition inboundHop (r : Request) : Hop :=
  if String.eqb (header_Get (rq_Header r) HeaderForwardedBy) EmptyString then HopClient
  else ParseHop (header_Get (rq_Header r) HeaderHop).

Definition parsePath (p : string) : option (string * string) :=
  let p := TrimPrefix p "/" in
  let p := TrimSuffix p "/" in
  let p := TrimPrefix p "cache/" in
  let '(nsPart, keyPart, found) := Cut p "/"%char in
  if negb found then None
  else if Contains keyPart "/" then None
  else
    match ParseNamespace nsPart with
    | Err _ => None
    | Ok ns => match ValidateKey keyPart with Some _ => None | None => Some (ns, keyPart) end
    end.

Definition opName (method : string) : string :=
  if String.eqb method MethodGet then "get"
  else if String.eqb method MethodHead then "head"
  else if String.eqb method MethodPut || String.eqb method MethodPost then "put"
  else "other".

Definition isBodyReadError (e : error) : bool :=
  Contains (Error e) "stream body:" || Contains (Error e) "unexpected EOF" ||
  Contains (Error e) "connection reset".

(** ** The backend *)

Record Backend (S : Type) := mkBackend {
  be_Put : string → string → Reader → Z → Hop → S → S * (PutOutcome * option error);
  be_Open : string → string → Hop → S → S * result ObjectReader;
  be_Stat : string → string → Hop → S → S * result ObjectInfo;
  be_Verify : ObjectReader → M S unit;
  be_Close : ObjectReader → S → S }.
Arguments mkBackend {S}.
Arguments be_Put {S}.
Arguments be_Open {S}.
Arguments be_Stat {S}.
Arguments be_Verify {S}.
Arguments be_Close {S}.

(** What the metrics see of a request. *)
Inductive observation :=
  | ObserveForwarded (hop : Hop)
  | InFlight (op : string) (delta : Z)
  | ObserveRequest (op ns : string) (status : Z).

Record CacheHandler := mkCacheHandler { ch_node : string; ch_maxObjectBytes : Z; ch_metrics : bool }.

(** ** The handler *)

(** The answers to an error of a read and of a write. *)
Definition writeGetError (e : error) (w : statusRecorder) : statusRecorder :=
  if errors_Is e IsNotFound then http_NotFound w
  else if errors_Is e IsBadKey || errors_Is e IsBadNamespace then http_NotFound w
  else if errors_Is e IsClosed then httpError StatusServiceUnavailable "node is shutting down" w
  else if errors_Is e IsCanceled then httpError StatusClientClosedRequest "client closed the connection" w
  else httpError StatusServiceUnavailable "no holder could serve this object" w.

Definition writePutError (res : PutOutcome) (e : error) (w : statusRecorder) : statusRecorder :=
  if errors_Is e IsDigestMismatch then httpError StatusBadRequest (Error e) w
  else if errors_Is e IsTooLarge then httpError StatusRequestEntityTooLarge (Error e) w
  else if errors_Is e IsOverQuota then httpError StatusInsufficientStorage (Error e) w
  else if errors_Is e IsShortWrite then httpError StatusBadRequest (Error e) w
  else if errors_Is e IsBadKey || errors_Is e IsBadNamespace then httpError StatusBadRequest (Error e) w
  else if errors_Is e IsClosed then httpError StatusServiceUnavailable "node is shutting down" w
  else if errors_Is e IsInsufficientReplicas then
    let w := sr_Set HeaderCopies (pretty (out_Copies res)) w in
    let w := sr_Set HeaderCopiesWanted (pretty (out_Wanted res)) w in
    httpError StatusServiceUnavailable (Error e) w
  else if errors_Is e IsCanceled || errors_Is e IsDeadlineExceeded then
    httpError StatusClientClosedRequest "client closed the connection" w
  else if isBodyReadError e then httpError StatusBadRequest "upload interrupted" w
  else httpError StatusInternalServerError "write failed" w.

Section handler.
Context {S : Type} (backend : Backend S).

(** The copy of an object into the response, through both wrappers. *)
Definition copy_object (obj : ObjectReader) (w : statusRecorder)
    : option (ObjectReader * statusRecorder * option error) :=
  let rw := rr_w (sr_r w) in
  '(obj', c, (n, e)) ← obj_WriteTo obj (w_conn rw);
  Some (obj',
    mkSR (mkRR (mkRW (w_header rw) (w_code rw) (w_sent rw) (w_length rw) c)
            (rr_status (sr_r w)) (rr_bytes (sr_r w) + n)) (sr_status w), e).

Definition serveGet (ns key : string) (hop : Hop) (withBody : bool) (w : statusRecorder) (s : S)
    : option (S * statusRecorder) :=
  if negb withBody then
    let '(s1, r) := be_Stat backend ns key hop s in
    match r with
    | Err e => Some (s1, writeGetError e w)
    | Ok info =>
        Some (s1, sr_WriteHeader StatusOK
                    (setObjectHeaders (info_Size info) (sr_Set HeaderSource (info_Source info) w)))
    end
  else
    let '(s1, r) := be_Open backend ns key hop s in
    match r with
    | Err e => Some (s1, writeGetError e w)
    | Ok obj =>
        let w1 := sr_WriteHeader StatusOK
                    (setObjectHeaders (obj_Size obj) (sr_Set HeaderSource (obj_Source obj) w)) in
        '(obj', w2, copyErr) ← copy_object obj w1;
        let s2 := match copyErr with Some _ => s1 | None => (be_Verify backend obj' s1).1 end in
        Some (be_Close backend obj' s2, w2)
    end.

Definition servePut (h : CacheHandler) (r : Request) (ns key : string) (hop : Hop) (w : statusRecorder) (s : S)
    : S * statusRecorder :=
  match rq_Body r with
  | None => (s, httpError StatusBadRequest "missing body" w)
  | Some body =>
      if (0 <? ch_maxObjectBytes h) && (ch_maxObjectBytes h <? rq_ContentLength r) then
        (s, httpError StatusRequestEntityTooLarge
              ("object exceeds the per-object limit of " +:+ pretty (ch_maxObjectBytes h) +:+ " bytes") w)
      else
        let '(s1, (res, err)) := be_Put backend ns key body (rq_ContentLength r) hop s in
        match err with
        | Some e => (s1, writePutError res e w)
        | None =>
            let w := if bool_decide (out_Holders res = []) then w
                     else sr_Set HeaderHolders (SJoin (out_Holders res) ",") w in
            let w := sr_Set HeaderCopies (pretty (out_Copies res)) w in
            let w := sr_Set HeaderCopiesWanted (pretty (out_Wanted res)) w in
            (s1, if out_AlreadyStored res
                 then sr_WriteHeader StatusOK (sr_Set HeaderAlreadyStored "true" w)
                 else sr_WriteHeader StatusCreated w)
        end
  end.

Definition dispatch (h : CacheHandler) (r : Request) (ns key : string) (hop : Hop) (w : statusRecorder) (s : S)
    : option (S * statusRecorder) :=
  let m := rq_Method r in
  if String.eqb m MethodGet then serveGet ns key hop true w s
  else if String.eqb m MethodHead then serveGet ns key hop false w s
  else if String.eqb m MethodPut || String.eqb m MethodPost then Some (servePut h r ns key hop w s)
  else Some (s, httpError StatusMethodNotAllowed "method not allowed" (sr_Set "Allow" "GET, HEAD, PUT" w)).

(** [ServeHTTP] on a request whose URL has the path [p]: the state, what was
    written, and what the metrics observed. *)
Definition ServeHTTP (h : CacheHandler) (r : Request) (p : string) (w : responseRecorder) (s : S)
    : option (S * responseRecorder * list observation) :=
  match parsePath p with
  | None =>
      let w := mkSR w 0 in
      let w := if String.eqb (rq_Method r) MethodPut || String.eqb (rq_Method r) MethodPost
               then httpError StatusBadRequest "malformed cache path" w
               else http_NotFound w in
      Some (s, sr_r w, [])
  | Some (ns, key) =>
      let hop := inboundHop r in
      let op := opName (rq_Method r) in
      '(s1, rec) ← dispatch h r ns key hop (mkSR w 0) s;
      Some (s1, sr_r rec,
        if ch_metrics h
        then [ObserveForwarded hop; InFlight op 1; ObserveRequest op ns (sr_Status rec); InFlight op (-1)]
        else [])
  end.
End handler.

(** ** Routing *)

Definition isCachePath (p : string) : bool :=
  let s := TrimPrefix p "/" in
  let s := TrimPrefix s "cache/" in
  String.eqb s "cas" || String.eqb s "ac" || HasPrefix s "cas/" || HasPrefix s "ac/".

(** Where the mux sends a cleaned path that is not a cache path; a pattern for
    GET also matches HEAD. *)
Inductive route :=
  | Healthz | Readyz | MetricsPage | StatsPage | Pprof (name : string) | RootPage
  | NotFoundPage | WrongMethod.

Record RouterOptions := mkRouterOptions { ro_Node : string; ro_DevMode : bool; ro_Metrics : bool }.

Definition get_route (m : string) (x : route) : route :=
  if String.eqb m MethodGet || String.eqb m MethodHead then x else WrongMethod.

Definition mux_route (opts : RouterOptions) (m p : string) : route :=
  if String.eqb p "/healthz" then get_route m Healthz
  else if String.eqb p "/readyz" then get_route m Readyz
  else if String.eqb p "/metrics" && ro_Metrics opts then get_route m MetricsPage
  else if String.eqb p "/stats" then get_route m StatsPage
  else if ro_DevMode opts && String.eqb p "/debug/pprof/symbol" then
    if String.eqb m MethodPost then Pprof "symbol" else get_route m (Pprof "symbol")
  else if ro_DevMode opts && HasPrefix p "/debug/pprof/" then
    get_route m (Pprof (TrimPrefix p "/debug/pprof/"))
  else if String.eqb p "/" then get_route m RootPage
  else NotFoundPage.

(** [NewRouter] without the access log: the node header, then the cache handler
    or the mux, whose pages are a parameter. *)
Definition route_request {S} (opts : RouterOptions)
    (cache : responseRecorder → S → option (S * responseRecorder * list observation))
    (pages : route → responseRecorder → S → S * responseRecorder)
    (m p : string) (w : responseRecorder) (s : S) : option (S * responseRecorder * list observation) :=
  let w := mkRR (rw_Set HeaderNode (ro_Node opts) (rr_w w)) (rr_status w) (rr_bytes w) in
  if isCachePath p then cache w s
  else let '(s1, w1) := pages (mux_route opts m p) w s in Some (s1, w1, []).

(** The level [AccessLog] logs a status at. *)
Inductive level := LevelDebug | LevelInfo | LevelWarn | LevelError.

Definition access_level (status : Z) : level :=
  if 500 <=? status then LevelError
  else if (400 <=? status) && negb (status =? StatusNotFound) then LevelWarn
  else if status =? StatusNotFound then LevelDebug
  else LevelInfo.

(** [Recover]: a handler that panicked, after what it wrote, is answered with a
    500. *)
Definition Recover (panicked : bool) (w : responseRecorder) : responseRecorder :=
  if panicked then sr_r (httpError StatusInternalServerError "internal error" (mkSR w 0)) else w.

(** ** Health *)

Record Health := mkHealth { live : bool; ready : bool; readyErr : option string }.

Definition SetReady (h : Health) : Health := mkHealth (live h) true None.
Definition SetNotReady (reason : string) (h : Health) : Health := mkHealth (live h) false (Some reason).
Definition SetDead (reason : string) (h : Health) : Health :=
  let h := SetNotReady reason h in mkHealth false (ready h) (readyErr h).
Definition NewHealth : Health := SetNotReady "starting up" (mkHealth true false None).

Definition Ready (h : Health) : bool * string :=
  if ready h then (true, EmptyString)
  else match readyErr h with Some r => (false, r) | None => (false, "not ready") end.

(** The status code, the word and the reason of the two probes. *)
Definition HealthzHandler (h : Health) : Z * string * string :=
  if live h then (StatusOK, "ok", EmptyString)
  else (StatusServiceUnavailable, "dead", default EmptyString (readyErr h)).

Definition ReadyzHandler (h : Health) : Z * string * string :=
  let '(ok, reason) := Ready h in
  if ok then (StatusOK, "ready", EmptyString) else (StatusServiceUnavailable, "not ready", reason).

(** ** Lemmas *)

(** The three layers agree on the status. *)
Definition layered (w : statusRecorder) : Prop :=
  sr_status w = rr_status (sr_r w) ∧ rr_status (sr_r w) = w_code (rr_w (sr_r w)).

Definition unwritten (w : responseRecorder) : Prop := rr_status w = 0 ∧ w_code (rr_w w) = 0.

Lemma layered_fresh w : unwritten w → layered (mkSR w 0).
Proof. intros [H1 H2]. split; simpl; congruence. Qed.

Lemma sr_Set_layered k v w : layered w → layered (sr_Set k v w).
Proof. done. Qed.

Lemma setObjectHeaders_layered n w : layered w → layered (setObjectHeaders n w).
Proof. done. Qed.

Lemma sr_WriteHeader_layered code w : layered w → layered (sr_WriteHeader code w).
Proof.
  intros [H1 H2]. unfold layered, sr_WriteHeader, rr_WriteHeader, rw_WriteHeader. simpl.
  rewrite H1, H2. by destruct (w_code _ =? 0).
Qed.

Lemma sr_Write_layered b w : layered w → layered (sr_Write b w).1.
Proof.
  intros [H1 H2]. unfold layered, sr_Write, rr_Write, rw_Write, rw_WriteHeader. rewrite H1, H2.
  destruct (w_code _ =? 0) eqn:E; simpl; destruct (Write _ _) as [[c n] e]; simpl; rewrite ?H2, ?E; done.
Qed.

Lemma httpError_layered code msg w : layered w → layered (httpError code msg w).
Proof. intros H. by apply sr_Write_layered, sr_WriteHeader_layered, sr_Set_layered, sr_Set_layered. Qed.

(** The status a writer that wrote nothing yet has after [WriteHeader] and after
    an error page. *)
Lemma sr_WriteHeader_code code w :
  w_code (rr_w (sr_r w)) = 0 → w_code (rr_w (sr_r (sr_WriteHeader code w))) = code.
Proof. intros H. unfold sr_WriteHeader, rr_WriteHeader, rw_WriteHeader. simpl. by rewrite H. Qed.

Lemma httpError_code code msg w :
  code ≠ 0 → w_code (rr_w (sr_r w)) = 0 → w_code (rr_w (sr_r (httpError code msg w))) = code.
Proof.
  intros Hc H. unfold httpError. set (w1 := sr_WriteHeader code _).
  assert (w_code (rr_w (sr_r w1)) = code) as H1 by (by apply sr_WriteHeader_code).
  unfold sr_Write, rr_Write, rw_Write, rw_WriteHeader. rewrite H1.
  destruct (Z.eqb_spec code 0); [done|]. by destruct (Write _ _) as [[c k] e].
Qed.

Lemma sr_Set_code k v w : w_code (rr_w (sr_r (sr_Set k v w))) = w_code (rr_w (sr_r w)).
Proof. done. Qed.

#[global] Arguments httpError : simpl never.
#[global] Arguments sr_WriteHeader : simpl never.
#[global] Arguments sr_Set : simpl never.
#[global] Arguments setObjectHeaders : simpl never.

(** The status of the answer to an error. *)
Definition put_error_code (e : error) : Z :=
  if errors_Is e IsDigestMismatch then 400
  else if errors_Is e IsTooLarge then 413
  else if errors_Is e IsOverQuota then 507
  else if errors_Is e IsShortWrite || errors_Is e IsBadKey || errors_Is e IsBadNamespace then 400
  else if errors_Is e IsClosed || errors_Is e IsInsufficientReplicas then 503
  else if errors_Is e IsCanceled || errors_Is e IsDeadlineExceeded then 499
  else if isBodyReadError e then 400 else 500.

Definition get_error_code (e : error) : Z :=
  if errors_Is e IsNotFound || errors_Is e IsBadKey || errors_Is e IsBadNamespace then 404
  else if errors_Is e IsClosed then 503 else if errors_Is e IsCanceled then 499 else 503.

Lemma writePutError_code res e w :
  w_code (rr_w (sr_r w)) = 0 → w_code (rr_w (sr_r (writePutError res e w))) = put_error_code e.
Proof.
  intros H. unfold writePutError, put_error_code.
  repeat match goal with |- context [errors_Is e ?t] => destruct (errors_Is e t) end; simpl;
    try destruct (isBodyReadError e); by rewrite httpError_code.
Qed.

Lemma writeGetError_code e w :
  w_code (rr_w (sr_r w)) = 0 → w_code (rr_w (sr_r (writeGetError e w))) = get_error_code e.
Proof.
  intros H. unfold writeGetError, get_error_code, http_NotFound.
  repeat match goal with |- context [errors_Is e ?t] => destruct (errors_Is e t) end; simpl;
    by rewrite httpError_code.
Qed.

Lemma writePutError_layered res e w : layered w → layered (writePutError res e w).
Proof.
  intros H. unfold writePutError.
  repeat match goal with |- context [if ?b then _ else _] => destruct b end; by apply httpError_layered.
Qed.

Lemma writeGetError_layered e w : layered w → layered (writeGetError e w).
Proof.
  intros H. unfold writeGetError, http_NotFound.
  repeat match goal with |- context [if ?b then _ else _] => destruct b end; by apply httpError_layered.
Qed.

Lemma obj_WriteTo_total r w : is_Some (obj_WriteTo r w).
Proof.
  destruct r as [o|p]; simpl.
  - destruct (WriteTo_total o w) as [[[??]?] ->]. by eexists.
  - destruct (peer_WriteTo_total p w) as [[[??]?] ->]. by eexists.
Qed.

Lemma copy_object_spec obj w :
  ∃ obj' w' e, copy_object obj w = Some (obj', w', e) ∧ sr_status w' = sr_status w ∧
    rr_status (sr_r w') = rr_status (sr_r w) ∧ w_code (rr_w (sr_r w')) = w_code (rr_w (sr_r w)).
Proof.
  unfold copy_object. destruct (obj_WriteTo_total obj (w_conn (rr_w (sr_r w)))) as [[[o c] [n e]] ->].
  simpl. by eexists _, _, _.
Qed.

(** [servePut] on every branch. *)
Lemma servePut_spec {S} (backend : Backend S) h r ns key hop w s s' rec :
  unwritten w → servePut backend h r ns key hop (mkSR w 0) s = (s', rec) →
  layered rec ∧ w_code (rr_w (sr_r rec)) ≠ 0 ∧
  match rq_Body r with
  | None => s' = s ∧ w_code (rr_w (sr_r rec)) = 400
  | Some body =>
      if (0 <? ch_maxObjectBytes h) && (ch_maxObjectBytes h <? rq_ContentLength r)
      then s' = s ∧ w_code (rr_w (sr_r rec)) = 413
      else
        let '(s1, (out, err)) := be_Put backend ns key body (rq_ContentLength r) hop s in
        s' = s1 ∧
        match err with
        | None => w_code (rr_w (sr_r rec)) = if out_AlreadyStored out then 200 else 201
        | Some e => w_code (rr_w (sr_r rec)) = put_error_code e ∧ 400 ≤ w_code (rr_w (sr_r rec))
        end
  end.
Proof.
  intros Hw. pose proof (layered_fresh w Hw) as Hl0. destruct Hw as [_ Hw]. unfold servePut.
  destruct (rq_Body r) as [body|].
  2: { intros [= <- <-]. rewrite httpError_code by done. by split; [apply httpError_layered|]. }
  destruct (_ && _).
  { intros [= <- <-]. rewrite httpError_code by done. by split; [apply httpError_layered|]. }
  destruct (be_Put _ _ _ _ _ _ _) as [s1 [out [e|]]]; intros [= <- <-].
  - rewrite writePutError_code by done. split; [by apply writePutError_layered|].
    assert (400 ≤ put_error_code e) by (unfold put_error_code; repeat case_match; lia).
    split; [lia|done].
  - destruct (out_AlreadyStored out); rewrite sr_WriteHeader_code by (by case_bool_decide);
      (split; [apply sr_WriteHeader_layered; by case_bool_decide|done]).
Qed.

(** ** Claims *)

(** A request for the object protocol, as the handler sees it. *)
Definition is_put (r : Request) : Prop := rq_Method r = MethodPut ∨ rq_Method r = MethodPost.

(** C18: the front door tells the truth about a write.  For every upload and
    every backend the handler answers: with 201, or 200 for an object already
    stored, exactly when the backend's [Put] returned no error, and otherwise
    with the status of the error, which is at least 400; an upload over the
    limit is refused with 413 before the backend sees it; and the access log and
    the metrics record the status that was sent. *)
Theorem put_status_is_truthful {S} (backend : Backend S) h r p ns key w s :
  parsePath p = Some (ns, key) → is_put r → unwritten w →
  ∃ s' w' obs, ServeHTTP backend h r p w s = Some (s', w', obs) ∧
    let code := w_code (rr_w w') in
    rr_Status w' = code ∧ (ch_metrics h = true → ObserveRequest "put" ns code ∈ obs) ∧
    match rq_Body r with
    | None => s' = s ∧ code = 400
    | Some body =>
        if (0 <? ch_maxObjectBytes h) && (ch_maxObjectBytes h <? rq_ContentLength r)
        then s' = s ∧ code = 413
        else
          let '(s1, (out, err)) := be_Put backend ns key body (rq_ContentLength r) (inboundHop r) s in
          s' = s1 ∧
          match err with
          | None => code = if out_AlreadyStored out then 200 else 201
          | Some e => code = put_error_code e ∧ 400 ≤ code
          end
    end.
Proof.
  intros Hp Hm Hw. unfold ServeHTTP. rewrite Hp.
  assert (dispatch backend h r ns key (inboundHop r) (mkSR w 0) s =
    Some (servePut backend h r ns key (inboundHop r) (mkSR w 0) s)) as ->.
  { unfold dispatch. by destruct Hm as [->| ->]. }
  assert (opName (rq_Method r) = "put") as -> by (by destruct Hm as [->| ->]).
  destruct (servePut backend h r ns key (inboundHop r) (mkSR w 0) s) as [s' rec] eqn:HS. simpl.
  exists s', (sr_r rec). eexists. split; [done|].
  destruct (servePut_spec _ _ _ _ _ _ _ _ _ _ Hw HS) as (Hl & Hne & Hres).
  split; [|split; [|done]].
  - unfold rr_Status. destruct Hl as [_ ->]. by destruct (Z.eqb_spec (w_code (rr_w (sr_r rec))) 0).
  - intros ->. rewrite !elem_of_cons. right. right. left. f_equal. unfold sr_Status.
    destruct Hl as [-> ->]. by destruct (Z.eqb_spec (w_code (rr_w (sr_r rec))) 0).
Qed.

(** C19: the front door tells the truth about a read.  A GET or HEAD is answered
    with 200 exactly when the backend found the object, declaring the object's
    size; with 404 exactly when the backend's error says that the object, the
    key or the namespace does not exist; and with 503, or 499 for a client that
    left, on every other error, so an unreachable holder never looks like a
    miss. *)
Theorem get_status_is_truthful {S} (backend : Backend S) h r p ns key w s :
  parsePath p = Some (ns, key) → rq_Method r = MethodGet ∨ rq_Method r = MethodHead → unwritten w →
  ∃ s' w' obs, ServeHTTP backend h r p w s = Some (s', w', obs) ∧
    let code := w_code (rr_w w') in
    let found := if String.eqb (rq_Method r) MethodGet
                 then match (be_Open backend ns key (inboundHop r) s).2 with
                      | Ok o => Ok (obj_Size o) | Err e => Err e end
                 else match (be_Stat backend ns key (inboundHop r) s).2 with
                      | Ok i => Ok (info_Size i) | Err e => Err e end in
    match found with
    | Ok size => code = 200 ∧ w_length (rr_w w') = Some size
    | Err e =>
        (code = 404 ↔ errors_Is e IsNotFound ∨ errors_Is e IsBadKey ∨ errors_Is e IsBadNamespace) ∧
        code ∈ [404; 499; 503]
    end.
Proof.
  intros Hp Hm Hw. unfold ServeHTTP. rewrite Hp.
  assert (Herr : ∀ e, let code := w_code (rr_w (sr_r (writeGetError e (mkSR w 0)))) in
    (code = 404 ↔ errors_Is e IsNotFound ∨ errors_Is e IsBadKey ∨ errors_Is e IsBadNamespace) ∧
    code ∈ [404; 499; 503]).
  { intros e. simpl. rewrite writeGetError_code by apply Hw. unfold get_error_code.
    destruct (errors_Is e IsNotFound), (errors_Is e IsBadKey), (errors_Is e IsBadNamespace),
      (errors_Is e IsClosed), (errors_Is e IsCanceled); simpl; (split; [split; [try done; auto|]; naive_solver|]);
      rewrite !elem_of_cons; auto. }
  unfold dispatch. destruct Hm as [Hm|Hm]; rewrite Hm; simpl; unfold serveGet; simpl.
  - destruct (be_Open backend ns key (inboundHop r) s) as [s1 [obj|e]]; simpl.
    2: { eexists _, _, _. split; [done|]. apply Herr. }
    set (w1 := sr_WriteHeader StatusOK _).
    assert (w_code (rr_w (sr_r w1)) = 200) as Hc by (apply sr_WriteHeader_code; apply Hw).
    assert (w_length (rr_w (sr_r w1)) = Some (obj_Size obj)) as Hlen.
    { unfold w1, sr_WriteHeader, rr_WriteHeader, rw_WriteHeader. simpl. by case_match. }
    unfold copy_object. destruct (obj_WriteTo_total obj (w_conn (rr_w (sr_r w1)))) as [[[o c] [n e]] ->].
    simpl. eexists _, _, _. split; [done|]. simpl. done.
  - destruct (be_Stat backend ns key (inboundHop r) s) as [s1 [info|e]]; simpl.
    2: { eexists _, _, _. split; [done|]. apply Herr. }
    eexists _, _, _. split; [done|].
    unfold sr_WriteHeader, rr_WriteHeader, rw_WriteHeader. simpl. destruct Hw as [_ ->]. done.
Qed.

Lemma ValidateKey_free key : ValidateKey key = None → key ≠ EmptyString ∧ free_of "/"%char key.
Proof.
  intros Hk. assert (valid_key key = true) as Hv by (unfold valid_key; by rewrite Hk).
  apply valid_key_spec in Hv as [Hl Hall]. split; [by intros ->|].
  intros Hin. rewrite Forall_forall in Hall. by destruct (lower_hex_not _ (Hall _ Hin)).
Qed.

(** The spellings of a namespace. *)
Definition spellings : list string :=
  ["cas"; "Cas"; "cAs"; "caS"; "CAs"; "CaS"; "cAS"; "CAS"; "ac"; "Ac"; "aC"; "AC"].

Lemma lower_letter c d :
  shift_ascii 65 90 32 c = d → d ∈ ["c"; "a"; "s"]%char → c = d ∨ c = shift_ascii 97 122 (-32) d.
Proof.
  intros Hc. rewrite !elem_of_cons, elem_of_nil. intros Hd.
  destruct Hd as [->|[->|[->|[]]]]; revert Hc; destruct c as [[] [] [] [] [] [] [] []]; vm_compute; auto; discriminate.
Qed.

Lemma spelled n : ns_Valid (ToLower n) = true → n ∈ spellings.
Proof.
  unfold ns_Valid. intros [Hn%String.eqb_eq|Hn%String.eqb_eq]%orb_true_iff; revert Hn; unfold ToLower, NamespaceCAS, NamespaceAC.
  - destruct n as [|c1 [|c2 [|c3 [|]]]]; cbn [smap]; try discriminate. intros [= H1 H2 H3].
    apply lower_letter in H1, H2, H3; [|set_solver..].
    destruct H1 as [-> | ->], H2 as [-> | ->], H3 as [-> | ->]; apply list_elem_of_In; vm_compute; auto 20.
  - destruct n as [|c1 [|c2 [|]]]; cbn [smap]; try discriminate. intros [= H1 H2].
    apply lower_letter in H1, H2; [|set_solver..].
    destruct H1 as [-> | ->], H2 as [-> | ->]; apply list_elem_of_In; vm_compute; auto 20.
Qed.

Lemma spelled_facts n :
  n ∈ spellings → free_of "/"%char n ∧ ParseNamespace n = Ok (ToLower n) ∧
  ∀ lead pre t, lead ∈ [EmptyString; "/"] → pre ∈ [EmptyString; "cache/"] →
    TrimPrefix (lead +:+ (pre +:+ n +:+ t)) "/" = pre +:+ n +:+ t ∧ TrimPrefix (pre +:+ n +:+ t) "cache/" = n +:+ t.
Proof.
  intros Hn. split; [|split].
  - revert n Hn. apply Forall_forall. repeat (constructor; [vm_compute; set_solver|]). constructor.
  - revert n Hn. apply Forall_forall. repeat (constructor; [reflexivity|]). constructor.
  - intros lead pre t Hl Hp. revert n Hn. apply Forall_forall. rewrite !elem_of_cons, elem_of_nil in Hl, Hp.
    destruct Hl as [->|[->|[]]], Hp as [->|[->|[]]]; repeat (constructor; [split; reflexivity|]); constructor.
Qed.

Lemma parsePath_spelled n key :
  ns_Valid (ToLower n) = true → valid_key key = true →
  ∀ lead pre tail, lead ∈ [EmptyString; "/"] → pre ∈ [EmptyString; "cache/"] →
    tail ∈ [EmptyString; "/"] →
    parsePath (lead +:+ (pre +:+ n +:+ "/" +:+ key) +:+ tail) = Some (ToLower n, key).
Proof.
  intros Hn%spelled Hk lead pre tail Hl Hp Ht.
  assert (ValidateKey key = None) as HV by (unfold valid_key in Hk; by destruct (ValidateKey key)).
  destruct (ValidateKey_free key HV) as [Hne Hfree].
  assert (∀ a, TrimSuffix ((a +:+ key) +:+ tail) "/" = a +:+ key) as Htrim.
  { intros a. rewrite !elem_of_cons, elem_of_nil in Ht. destruct Ht as [->|[->|[]]].
    - rewrite append_empty_r. by apply TrimSuffix_free.
    - apply TrimSuffix_append. }
  destruct (spelled_facts n Hn) as (Hnf & HN & Htp). unfold parsePath.
  replace ((pre +:+ n +:+ "/" +:+ key) +:+ tail) with (pre +:+ n +:+ (("/" +:+ key) +:+ tail)) by (by rewrite !append_assoc).
  destruct (Htp lead pre (("/" +:+ key) +:+ tail) Hl Hp) as [-> _].
  replace (pre +:+ n +:+ (("/" +:+ key) +:+ tail)) with (((pre +:+ n +:+ "/") +:+ key) +:+ tail) by (by rewrite !append_assoc).
  rewrite Htrim, !append_assoc. destruct (Htp lead pre ("/" +:+ key) Hl Hp) as [_ ->].
  assert (Cut (n +:+ "/" +:+ key) "/" = (n, key, true)) as -> by (by apply (Cut_append n key "/"%char)).
  simpl. by rewrite Contains_free, HN, HV.
Qed.

Lemma ToLower_ns ns : ns_Valid ns = true → ToLower ns = ns.
Proof. by intros [->%String.eqb_eq| ->%String.eqb_eq]%orb_true_iff. Qed.

Lemma parsePath_complete ns key :
  ns_Valid ns = true → valid_key key = true →
  ∀ lead pre tail, lead ∈ [EmptyString; "/"] → pre ∈ [EmptyString; "cache/"] →
    tail ∈ [EmptyString; "/"] →
    parsePath (lead +:+ (pre +:+ ns +:+ "/" +:+ key) +:+ tail) = Some (ns, key).
Proof.
  intros Hns Hk lead pre tail Hl Hp Ht. pose proof (ToLower_ns ns Hns) as E.
  rewrite parsePath_spelled by (done || by rewrite E). by rewrite E.
Qed.

(** C34: which paths name an object.  A path is accepted, and yields a namespace and
    a key, exactly when it consists of an optional leading slash, an optional
    [cache/], that namespace in upper, lower or mixed case, a slash, the key, which
    is a valid one, and an optional trailing slash. *)
Theorem parsePath_exact p ns key :
  parsePath p = Some (ns, key) ↔
  ns_Valid ns = true ∧ valid_key key = true ∧
  ∃ lead pre n tail, p = lead +:+ (pre +:+ n +:+ "/" +:+ key) +:+ tail ∧
    ToLower n = ns ∧ lead ∈ [EmptyString; "/"] ∧ pre ∈ [EmptyString; "cache/"] ∧ tail ∈ [EmptyString; "/"].
Proof.
  split.
  - unfold parsePath. set (p1 := TrimPrefix p "/"). set (p2 := TrimSuffix p1 "/").
    set (p3 := TrimPrefix p2 "cache/"). destruct (Cut p3 "/") as [[n k] found] eqn:HC.
    destruct found; [|done]. simpl. destruct (Contains k "/"); [done|].
    destruct (ParseNamespace n) as [ns'|] eqn:HN; [|done].
    destruct (ValidateKey k) eqn:HV; [done|]. intros [= -> ->].
    apply Cut_true in HC.
    assert (ToLower n = ns ∧ ns_Valid ns = true) as [Hn Hns].
    { revert HN. unfold ParseNamespace. destruct (String.eqb_spec (ToLower n) NamespaceCAS) as [E|]; [by intros [= <-]|].
      destruct (String.eqb_spec (ToLower n) NamespaceAC) as [E|]; [by intros [= <-]|done]. }
    split; [done|]. split; [unfold valid_key; by rewrite HV|].
    assert (∃ lead, p = lead +:+ p1 ∧ lead ∈ [EmptyString; "/"]) as (lead & Hl & Hlead).
    { destruct (TrimPrefix_cases p "/") as [E|E]; [exists "/"|exists EmptyString]; (split; [done|set_solver]). }
    assert (∃ tail, p1 = p2 +:+ tail ∧ tail ∈ [EmptyString; "/"]) as (tail & Ht & Htail).
    { destruct (TrimSuffix_cases p1 "/") as [E|E]; [exists "/"|exists EmptyString]; (split; [|set_solver]);
        [done|]. by rewrite append_empty_r. }
    assert (∃ pre, p2 = pre +:+ p3 ∧ pre ∈ [EmptyString; "cache/"]) as (pre & Hpre & Hpin).
    { destruct (TrimPrefix_cases p2 "cache/") as [E|E]; [exists "cache/"|exists EmptyString]; (split; [done|set_solver]). }
    exists lead, pre, n, tail. split; [|done]. rewrite Hl, Ht, Hpre, HC. done.
  - intros (Hns & Hk & lead & pre & n & tail & -> & <- & Hl & Hp & Ht). by apply parsePath_spelled.
Qed.

(** ** A backend that stores and cannot reach its peers, for the witnesses *)

Definition cut_off : Backend nat :=
  mkBackend (λ _ _ _ _ _ s, (S s, (no_outcome, None))) (λ _ key _ s, (s, Err (unreachable key Canceled)))
    (λ _ key _ s, (s, Err ErrNotFound)) (λ _ s, (s, Ok tt)) (λ _ s, s).

Definition front : CacheHandler := mkCacheHandler "node-a" 1024 true.

Definition fresh_rw : responseRecorder := mkRR (mkRW ∅ 0 ∅ None (mkWriter [] None)) 0 0.

Lemma put_status_is_truthful_witness :
  ∃ w' obs, ServeHTTP cut_off front
      (mkRequest MethodPut EmptyString ∅ (Some (mkReader abc_bytes None)) 3)
      ("/cache/ac/" +:+ action_key) fresh_rw 0%nat = Some (1%nat, w', obs) ∧ w_code (rr_w w') = 201.
Proof.
  destruct (put_status_is_truthful cut_off front
    (mkRequest MethodPut EmptyString ∅ (Some (mkReader abc_bytes None)) 3)
    ("/cache/ac/" +:+ action_key) NamespaceAC action_key fresh_rw 0%nat) as (s' & w' & obs & HS & _ & _ & -> & Hc).
  - vm_compute. reflexivity.
  - left. reflexivity.
  - split; reflexivity.
  - exists w', obs. split; [exact HS|exact Hc].
Defined.

Lemma get_status_is_truthful_witness :
  ∃ s' w' obs, ServeHTTP cut_off front (mkRequest MethodGet EmptyString ∅ None 0)
      ("/ac/" +:+ action_key) fresh_rw 0%nat = Some (s', w', obs) ∧ w_code (rr_w w') ∈ [404; 499; 503].
Proof.
  destruct (get_status_is_truthful cut_off front (mkRequest MethodGet EmptyString ∅ None 0)
    ("/ac/" +:+ action_key) NamespaceAC action_key fresh_rw 0%nat) as (s' & w' & obs & HS & _ & Hc).
  - vm_compute. reflexivity.
  - left. reflexivity.
  - split; reflexivity.
  - exists s', w', obs. split; [exact HS|exact Hc].
Defined.

(** ** Two findings *)

(** A forwarded request that names no hop is treated as a client's. *)
Example unnamed_hop_is_a_client :
  inboundHop (mkRequest MethodPut EmptyString {[HeaderForwardedBy := "node-b"]} None 0) = HopClient.
Proof. vm_compute. reflexivity. Qed.

(** A write the owner refuses as too large, sent through another node, is
    answered as a shortage of replicas. *)
Definition refusing_owner : PeerClient Coordinator :=
  mkPeerClient (λ m _ _ _ _ _ s, (s, Err (PeerError (Name m) "put" StatusRequestEntityTooLarge EmptyString None)))
    (λ _ _ _ _ s, (s, Err ErrPeerNotFound)) (λ _ _ _ _ s, (s, Err ErrPeerNotFound)).

Example proxied_refusal_is_503 :
  put_error_code <$> (coord_Put alone (Some refusing_owner) (node_fine 7 100) NamespaceAC action_key
    (mkReader abc_bytes None) 3 HopClient (trio_node "node-a")).2.2 = Some 503.
Proof. vm_compute. reflexivity. Qed.
