(* ===== verification/Metrics.v ===== *)
(** * Request metrics: internal/metrics/metrics.go

    The collectors the request path updates, [New] and the three observations
    of the interface RequestObserver, which [HttpApi.ServeHTTP] calls.  The
    vectors of counters, gauges and histograms are prometheus's: the classes
    [Vec] and [Hist] say what its documentation promises of them.  The derived
    metrics are in [Node]. *)

From S2P Require Import Prelude GoStrings Sha256 Errors GoFloat Strconv Key Config Ring Protocol Store Client Coordinator HttpApi.

#[local] Open Scope Z_scope.

(** ** Prometheus *)

(** A vector of counters or gauges: one number for each tuple of label values that
    was asked for.  [WithLabelValues] panics unless there is one value for each
    label name. *)
Class Vec (V : Type) := {
  vec_new : list string → V;
  vec_names : V → list string;
  vec_add : list string → Z → V → option V;
  vec_value : V → list string → Z;
  vec_series : V → gset (list string);
  vec_new_names l : vec_names (vec_new l) = l;
  vec_new_value l x : vec_value (vec_new l) x = 0;
  vec_new_series l : vec_series (vec_new l) = ∅;
  vec_add_Some x d v : length x = length (vec_names v) → is_Some (vec_add x d v);
  vec_add_spec x d v v' : vec_add x d v = Some v' →
    vec_names v' = vec_names v ∧ vec_series v' = {[x]} ∪ vec_series v ∧
    ∀ y, vec_value v' y = vec_value v y + if decide (y = x) then d else 0 }.

(** A vector of histograms: the number of observations up to every bound, and in
    all.  A histogram panics unless its bounds increase. *)
Class Hist (H : Type) := {
  hist_new : list string → list float64 → option H;
  hist_names : H → list string;
  hist_observe : list string → float64 → H → option H;
  hist_count : H → list string → Z;
  hist_series : H → gset (list string);
  hist_new_Some l b : Sorted (λ x y, flt x y = true) b → is_Some (hist_new l b);
  hist_new_spec l b h : hist_new l b = Some h →
    hist_names h = l ∧ hist_series h = ∅ ∧ ∀ x, hist_count h x = 0;
  hist_observe_Some x f h : length x = length (hist_names h) → is_Some (hist_observe x f h);
  hist_observe_spec x f h h' : hist_observe x f h = Some h' →
    hist_names h' = hist_names h ∧ hist_series h' = {[x]} ∪ hist_series h ∧
    ∀ y, hist_count h' y = hist_count h y + if decide (y = x) then 1 else 0 }.

(** ** The collectors *)

Section metrics.
Context {V H : Type} {HV : Vec V} {HH : Hist H}.

Record Metrics := mkMetrics {
  RequestsTotal : V; RequestDuration : H; RequestsInFlight : V; ForwardedTotal : V }.

(** The bounds of the latency histogram, in seconds. *)
Definition buckets : list float64 :=
  [constant 1 10000; constant 25 100000; constant 5 10000; constant 1 1000; constant 25 10000; constant 5 1000;
   constant 1 100; constant 25 1000; constant 5 100; constant 1 10; constant 25 100; constant 5 10;
   of_int 1; constant 25 10; of_int 5; of_int 10].

Definition metrics_New : option Metrics :=
  h ← hist_new ["op"; "ns"] buckets;
  Some (mkMetrics (vec_new ["op"; "ns"; "status"]) h (vec_new ["op"]) (vec_new ["hop"])).

(** The observations; [None] is a panic of the library. *)
Definition metrics_ObserveRequest (op ns : string) (status : Z) (d : Z) (m : Metrics) : option Metrics :=
  t ← vec_add [op; ns; pretty status] 1 (RequestsTotal m);
  h ← hist_observe [op; ns] (Seconds d) (RequestDuration m);
  Some (mkMetrics t h (RequestsInFlight m) (ForwardedTotal m)).

Definition metrics_InFlight (op : string) (delta : Z) (m : Metrics) : option Metrics :=
  g ← vec_add [op] delta (RequestsInFlight m);
  Some (mkMetrics (RequestsTotal m) (RequestDuration m) g (ForwardedTotal m)).

Definition hop_label (hop : string) : string := if String.eqb hop EmptyString then "client" else hop.

Definition metrics_ObserveForwarded (hop : string) (m : Metrics) : option Metrics :=
  f ← vec_add [hop_label hop] 1 (ForwardedTotal m);
  Some (mkMetrics (RequestsTotal m) (RequestDuration m) (RequestsInFlight m) f).

(** What the handler calls of RequestObserver; [d] is how long the request took. *)
Definition observe (d : Z) (o : observation) (m : Metrics) : option Metrics :=
  match o with
  | ObserveForwarded hop => metrics_ObserveForwarded hop m
  | InFlight op delta => metrics_InFlight op delta m
  | ObserveRequest op ns status => metrics_ObserveRequest op ns status d m
  end.

(** ** Requests in flight *)

(** A request with what the handler wrote to its client. *)
Record query := mkQuery { q_request : Request; q_path : string; q_answer : responseRecorder }.

(** Some handler with metrics, over some backend, answers so and makes these
    observations. *)
Definition served (q : query) (obs : list observation) : Prop :=
  ∃ (S : Type) (backend : Backend S) h w s s', ch_metrics h = true ∧ unwritten w ∧
    ServeHTTP backend h (q_request q) (q_path q) w s = Some (s', q_answer q, obs).

(** The metrics, the requests being served with the observations they have yet to
    make, and the requests that were served. *)
Record Watch := mkWatch { wt_metrics : Metrics; wt_open : list (query * list observation); wt_done : list query }.

(** Requests are served concurrently: one arrives, one of those in flight makes its
    next observation after it has taken [d], or one that has made them all leaves. *)
Inductive watch_step : Watch → Watch → Prop :=
  | ws_arrive q obs w :
      served q obs → watch_step w (mkWatch (wt_metrics w) ((q, obs) :: wt_open w) (wt_done w))
  | ws_observe d q o obs l m w :
      wt_open w ≡ₚ (q, o :: obs) :: l → observe d o (wt_metrics w) = Some m →
      watch_step w (mkWatch m ((q, obs) :: l) (wt_done w))
  | ws_leave q l w :
      wt_open w ≡ₚ (q, []) :: l → watch_step w (mkWatch (wt_metrics w) l (q :: wt_done w)).
End metrics.
Arguments Metrics : clear implicits.
Arguments Watch : clear implicits.

(** ** What is to be counted *)

(** The labels of a request whose path names an object; any other is not counted. *)
Definition total_label (q : query) : option (list string) :=
  '(ns, _) ← parsePath (q_path q); Some [opName (rq_Method (q_request q)); ns; pretty (rr_Status (q_answer q))].
Definition duration_label (q : query) : option (list string) :=
  '(ns, _) ← parsePath (q_path q); Some [opName (rq_Method (q_request q)); ns].
Definition in_flight_label (q : query) : option (list string) :=
  '(ns, _) ← parsePath (q_path q); Some [opName (rq_Method (q_request q))].
Definition forwarded_label (q : query) : option (list string) :=
  '(ns, _) ← parsePath (q_path q); Some [hop_label (inboundHop (q_request q))].

Definition how_many (f : query → option (list string)) (l : list query) (x : list string) : Z :=
  Z.of_nat (length (filter (λ q, f q = Some x) l)).

(** The handler has answered, or is about to: its status is the next thing it
    records. *)
Definition answering (e : query * list observation) : bool :=
  match e.2 with ObserveRequest _ _ _ :: _ => true | _ => false end.

(** ** Lemmas *)

(** *** The labels of a request *)

Definition op_labels : list string := ["get"; "head"; "put"; "other"].
Definition ns_labels : list string := [NamespaceCAS; NamespaceAC].
Definition hop_labels : list string := ["client"; HopCoordinator; HopReplica; HopRepair; HopRead].
Definition status_codes : list Z := [200; 201; 400; 404; 405; 413; 499; 500; 503; 507].

Lemma status_of w : layered w → w_code (rr_w (sr_r w)) ∈ status_codes → sr_Status w ∈ status_codes.
Proof.
  intros [H1 H2] Hc. unfold sr_Status. rewrite H1, H2.
  destruct (Z.eqb_spec (w_code (rr_w (sr_r w))) 0) as [E|]; [left|done].
Qed.

Lemma put_error_code_in e : put_error_code e ∈ status_codes.
Proof. unfold put_error_code. repeat case_match; unfold status_codes; set_solver. Qed.

Lemma get_error_code_in e : get_error_code e ∈ status_codes.
Proof. unfold get_error_code. repeat case_match; unfold status_codes; set_solver. Qed.

Lemma servePut_status {S} (backend : Backend S) h r ns key hop w s s' rec :
  unwritten w → servePut backend h r ns key hop (mkSR w 0) s = (s', rec) → sr_Status rec ∈ status_codes.
Proof.
  intros Hw HS. destruct (servePut_spec _ _ _ _ _ _ _ _ _ _ Hw HS) as (Hl & _ & Hc). apply status_of; [done|].
  destruct (rq_Body r) as [body|]; [|destruct Hc as [_ ->]; unfold status_codes; set_solver].
  destruct (_ && _); [destruct Hc as [_ ->]; unfold status_codes; set_solver|].
  destruct (be_Put _ _ _ _ _ _ _) as [s1 [out [e|]]]; destruct Hc as [_ Hc].
  - destruct Hc as [-> _]. apply put_error_code_in.
  - rewrite Hc. destruct (out_AlreadyStored out); unfold status_codes; set_solver.
Qed.

Lemma serveGet_status {S} (backend : Backend S) ns key hop b w s s' rec :
  unwritten w → serveGet backend ns key hop b (mkSR w 0) s = Some (s', rec) → sr_Status rec ∈ status_codes.
Proof.
  intros Hw. pose proof (layered_fresh w Hw) as Hl. assert (w_code (rr_w w) = 0) as H0 by apply Hw.
  assert (∀ e, sr_Status (writeGetError e (mkSR w 0)) ∈ status_codes) as Herr.
  { intros e. apply status_of; [by apply writeGetError_layered|]. rewrite writeGetError_code by done. apply get_error_code_in. }
  assert (∀ w', layered w' → w_code (rr_w (sr_r w')) = 0 → layered (sr_WriteHeader StatusOK w') ∧
    w_code (rr_w (sr_r (sr_WriteHeader StatusOK w'))) = 200) as Hok.
  { intros w' Hl' Hc. split; [by apply sr_WriteHeader_layered|by apply sr_WriteHeader_code]. }
  unfold serveGet. destruct b; cbn [negb].
  - destruct (be_Open _ _ _ _ _) as [s1 [obj|e]]; [|intros [= _ <-]; apply Herr].
    set (w1 := sr_WriteHeader StatusOK _). destruct (Hok (setObjectHeaders (obj_Size obj)
      (sr_Set HeaderSource (obj_Source obj) (mkSR w 0)))) as [Hl1 Hc1]; [done..|]. fold w1 in Hl1, Hc1.
    destruct (copy_object_spec obj w1) as (obj' & w' & e & -> & E1 & E2 & E3). cbn [mbind option_bind]. intros [= _ <-].
    apply status_of; [destruct Hl1; split; congruence|]. rewrite E3, Hc1. left.
  - destruct (be_Stat _ _ _ _ _) as [s1 [info|e]]; intros [= _ <-]; [|apply Herr].
    destruct (Hok (setObjectHeaders (info_Size info) (sr_Set HeaderSource (info_Source info) (mkSR w 0)))) as [Hl1 Hc1]; [done..|].
    apply status_of; [done|]. rewrite Hc1. left.
Qed.

Lemma dispatch_status {S} (backend : Backend S) h r ns key hop w s s' rec :
  unwritten w → dispatch backend h r ns key hop (mkSR w 0) s = Some (s', rec) → sr_Status rec ∈ status_codes.
Proof.
  intros Hw. unfold dispatch. destruct (String.eqb _ MethodGet); [by apply serveGet_status|].
  destruct (String.eqb _ MethodHead); [by apply serveGet_status|]. destruct (_ || _).
  - destruct (servePut _ _ _ _ _ _ _ _) as [s1 rec1] eqn:HS. intros [= _ <-]. by eapply servePut_status.
  - intros [= _ <-]. apply status_of; [by apply httpError_layered, sr_Set_layered, layered_fresh|].
    rewrite httpError_code; [unfold status_codes; set_solver|done|]. by rewrite sr_Set_code; apply Hw.
Qed.

Lemma parsePath_ns p ns key : parsePath p = Some (ns, key) → ns ∈ ns_labels.
Proof.
  unfold parsePath, ParseNamespace. repeat case_match; intros; simplify_eq; unfold ns_labels; set_solver.
Qed.

Lemma hop_label_in r : hop_label (inboundHop r) ∈ hop_labels.
Proof.
  assert (inboundHop r ∈ [HopClient; HopCoordinator; HopReplica; HopRepair; HopRead]) as Hin.
  { unfold inboundHop. case_match; [left|apply ParseHop_cases]. }
  rewrite !elem_of_cons in Hin. unfold hop_labels. rewrite !elem_of_cons.
  destruct Hin as [->|[->|[->|[->|[->|[]%elem_of_nil]]]]]; cbn; auto 10.
Qed.

(** The observations of a request. *)
Definition expected (q : query) : list observation :=
  match parsePath (q_path q) with
  | None => []
  | Some (ns, _) =>
      let op := opName (rq_Method (q_request q)) in
      [ObserveForwarded (inboundHop (q_request q)); InFlight op 1; ObserveRequest op ns (rr_Status (q_answer q)); InFlight op (-1)]
  end.

Lemma dispatch_layered {S} (backend : Backend S) h r ns key hop w s s' rec :
  unwritten w → dispatch backend h r ns key hop (mkSR w 0) s = Some (s', rec) → layered rec.
Proof.
  intros Hw. pose proof (layered_fresh w Hw) as Hl. unfold dispatch.
  assert (∀ b, serveGet backend ns key hop b (mkSR w 0) s = Some (s', rec) → layered rec) as Hget.
  { intros b. unfold serveGet. destruct b; cbn [negb].
    - destruct (be_Open _ _ _ _ _) as [s1 [obj|e]]; [|intros [= _ <-]; by apply writeGetError_layered].
      set (w1 := sr_WriteHeader StatusOK _). assert (layered w1) as Hl1 by (by apply sr_WriteHeader_layered).
      destruct (copy_object_spec obj w1) as (obj' & w' & e & -> & E1 & E2 & E3). cbn [mbind option_bind]. intros [= _ <-].
      destruct Hl1. split; congruence.
    - destruct (be_Stat _ _ _ _ _) as [s1 [info|e]]; intros [= _ <-]; [by apply sr_WriteHeader_layered|].
      by apply writeGetError_layered. }
  destruct (String.eqb _ MethodGet); [apply Hget|]. destruct (String.eqb _ MethodHead); [apply Hget|]. destruct (_ || _).
  - destruct (servePut _ _ _ _ _ _ _ _) as [s1 rec1] eqn:HS. intros [= _ <-].
    by destruct (servePut_spec _ _ _ _ _ _ _ _ _ _ Hw HS).
  - intros [= _ <-]. by apply httpError_layered, sr_Set_layered.
Qed.

Lemma layered_Status rec : layered rec → sr_Status rec = rr_Status (sr_r rec).
Proof. intros [H1 H2]. unfold sr_Status, rr_Status. by rewrite H1, H2. Qed.

(** Every request begins and ends what it is counted in, with the status that was
    sent. *)
Lemma served_spec q obs : served q obs → obs = expected q ∧ (is_Some (parsePath (q_path q)) → rr_Status (q_answer q) ∈ status_codes).
Proof.
  intros (S & backend & h & w & s & s' & Hm & Hw & HS). unfold ServeHTTP in HS. unfold expected.
  destruct (parsePath (q_path q)) as [[ns key]|]; [|injection HS as _ _ <-; split; [done|by intros []]].
  destruct (dispatch backend h (q_request q) ns key _ (mkSR w 0) s) as [[s1 rec]|] eqn:HD; cbn [mbind option_bind] in HS; [|done].
  rewrite Hm in HS. injection HS as _ Ha Ho. subst obs.
  pose proof (layered_Status _ (dispatch_layered _ _ _ _ _ _ _ _ _ _ Hw HD)) as E. rewrite Ha in E. rewrite E. split; [done|].
  intros _. rewrite <-E. by eapply dispatch_status.
Qed.

(** *** The series there can be: nothing is labelled by a key *)

Definition total_series : gset (list string) :=
  list_to_set (op ← op_labels; ns ← ns_labels; st ← status_codes; [[op; ns; pretty st]]).
Definition duration_series : gset (list string) := list_to_set (op ← op_labels; ns ← ns_labels; [[op; ns]]).
Definition in_flight_series : gset (list string) := list_to_set (op ← op_labels; [[op]]).
Definition forwarded_series : gset (list string) := list_to_set (hop ← hop_labels; [[hop]]).

Lemma series_sizes :
  size total_series = 80%nat ∧ size duration_series = 8%nat ∧ size in_flight_series = 4%nat ∧ size forwarded_series = 5%nat.
Proof. vm_compute. done. Qed.

Lemma grows (x : list string) (X Y : gset (list string)) : x ∈ Y → X ⊆ Y → {[x]} ∪ X ⊆ Y.
Proof. set_solver. Qed.

Lemma opName_in m : opName m ∈ op_labels.
Proof. unfold opName, op_labels. repeat case_match; set_solver. Qed.

Lemma label_series ns key q :
  parsePath (q_path q) = Some (ns, key) → rr_Status (q_answer q) ∈ status_codes →
  [opName (rq_Method (q_request q)); ns; pretty (rr_Status (q_answer q))] ∈ total_series ∧
  [opName (rq_Method (q_request q)); ns] ∈ duration_series ∧ [opName (rq_Method (q_request q))] ∈ in_flight_series ∧
  [hop_label (inboundHop (q_request q))] ∈ forwarded_series.
Proof.
  intros Hp%parsePath_ns Hs. pose proof (opName_in (rq_Method (q_request q))) as Ho.
  pose proof (hop_label_in (q_request q)) as Hh.
  unfold total_series, duration_series, in_flight_series, forwarded_series. rewrite !elem_of_list_to_set.
  split_and!; repeat (apply list_elem_of_bind; eexists; split; [|eassumption]); by apply list_elem_of_singleton.
Qed.

#[local] Opaque total_series duration_series in_flight_series forwarded_series.

(** *** Counting *)

(** Decide which of the counts a request is in. *)
Ltac settle :=
  repeat case_decide; destruct_and?; simplify_eq; try lia; try done;
  exfalso; match goal with H : ¬ (_ ∧ _) |- _ => by apply H; split; [lia|] end.

Lemma how_many_cons f q l x : how_many f (q :: l) x = how_many f l x + if decide (f q = Some x) then 1 else 0.
Proof. unfold how_many. rewrite filter_cons. repeat case_decide; cbn [length]; lia. Qed.

Lemma how_many_app f l1 l2 x : how_many f (l1 ++ l2) x = how_many f l1 x + how_many f l2 x.
Proof. unfold how_many. rewrite filter_app, length_app. lia. Qed.

Lemma how_many_nonneg f l x : 0 ≤ how_many f l x.
Proof. unfold how_many. lia. Qed.

(** The requests in flight that have between [a] and [b] observations to make. *)
Definition among (a b : nat) (l : list (query * list observation)) : list query :=
  (filter (λ e, (a ≤ length e.2 ≤ b)%nat) l).*1.

Lemma among_cons f a b q obs l x :
  how_many f (among a b ((q, obs) :: l)) x =
  how_many f (among a b l) x + if decide ((a ≤ length obs ≤ b)%nat ∧ f q = Some x) then 1 else 0.
Proof.
  unfold among. rewrite filter_cons. cbn [snd]. destruct (decide (a ≤ length obs ≤ b)%nat) as [Hl|Hl].
  - rewrite fmap_cons, how_many_cons. cbn [fst]. repeat case_decide; try tauto; lia.
  - rewrite decide_False by tauto. lia.
Qed.

Lemma among_perm f a b l l' x : l ≡ₚ l' → how_many f (among a b l) x = how_many f (among a b l') x.
Proof. intros Hl. unfold how_many, among. by rewrite Hl. Qed.

Lemma among_all f a b l x : how_many f (among a b l) x ≤ how_many f l.*1 x.
Proof.
  induction l as [|[q obs] l IH]; [done|]. rewrite among_cons, fmap_cons, how_many_cons. cbn [fst].
  repeat case_decide; try tauto; lia.
Qed.

Section invariant.
Context {V H : Type} {HV : Vec V} {HH : Hist H}.

(** How far a request in flight has come. *)
Definition under_way (e : query * list observation) : Prop :=
  (∃ k, e.2 = drop k (expected e.1)) ∧ (is_Some (parsePath (q_path e.1)) → rr_Status (q_answer e.1) ∈ status_codes).

Record watch_ok (w : Watch V H) : Prop := {
  wo_names : vec_names (RequestsTotal (wt_metrics w)) = ["op"; "ns"; "status"] ∧
    hist_names (RequestDuration (wt_metrics w)) = ["op"; "ns"] ∧
    vec_names (RequestsInFlight (wt_metrics w)) = ["op"] ∧ vec_names (ForwardedTotal (wt_metrics w)) = ["hop"];
  wo_total x : vec_value (RequestsTotal (wt_metrics w)) x =
    how_many total_label (wt_done w) x + how_many total_label (among 0 1 (wt_open w)) x;
  wo_duration x : hist_count (RequestDuration (wt_metrics w)) x =
    how_many duration_label (wt_done w) x + how_many duration_label (among 0 1 (wt_open w)) x;
  wo_in_flight x : vec_value (RequestsInFlight (wt_metrics w)) x = how_many in_flight_label (among 1 2 (wt_open w)) x;
  wo_forwarded x : vec_value (ForwardedTotal (wt_metrics w)) x =
    how_many forwarded_label (wt_done w) x + how_many forwarded_label (among 0 3 (wt_open w)) x;
  wo_series : vec_series (RequestsTotal (wt_metrics w)) ⊆ total_series ∧
    hist_series (RequestDuration (wt_metrics w)) ⊆ duration_series ∧
    vec_series (RequestsInFlight (wt_metrics w)) ⊆ in_flight_series ∧
    vec_series (ForwardedTotal (wt_metrics w)) ⊆ forwarded_series;
  wo_open : Forall under_way (wt_open w) }.

Lemma buckets_increase : Sorted (λ x y, flt x y = true) buckets.
Proof. vm_compute. repeat constructor. Qed.

Lemma metrics_New_ok : ∃ m : Metrics V H, metrics_New = Some m.
Proof. unfold metrics_New. destruct (hist_new_Some ["op"; "ns"] buckets buckets_increase) as [h ->]. by eexists. Qed.

Lemma watch_start (m : Metrics V H) : metrics_New = Some m → watch_ok (mkWatch m [] []).
Proof.
  unfold metrics_New. destruct (hist_new _ _) as [h|] eqn:Hh; cbn [mbind option_bind]; [|done]. intros [= <-].
  destruct (hist_new_spec _ _ _ Hh) as (Hn & Hs & Hc).
  split; cbn [wt_metrics wt_open wt_done RequestsTotal RequestDuration RequestsInFlight ForwardedTotal].
  - by rewrite !vec_new_names.
  - intros x. apply vec_new_value.
  - exact Hc.
  - intros x. apply vec_new_value.
  - intros x. apply vec_new_value.
  - rewrite !vec_new_series, Hs. split_and!; apply empty_subseteq.
  - constructor.
Qed.

(** A request that still has an observation to make is one of four kinds. *)
Lemma under_way_cons q o obs :
  under_way (q, o :: obs) →
  ∃ ns key, parsePath (q_path q) = Some (ns, key) ∧ rr_Status (q_answer q) ∈ status_codes ∧
    let op := opName (rq_Method (q_request q)) in
    (o = ObserveForwarded (inboundHop (q_request q)) ∧ length obs = 3%nat) ∨
    (o = InFlight op 1 ∧ length obs = 2%nat) ∨
    (o = ObserveRequest op ns (rr_Status (q_answer q)) ∧ length obs = 1%nat) ∨ (o = InFlight op (-1) ∧ length obs = 0%nat).
Proof.
  intros [[k Hk] Hs]. cbn [fst snd] in *. unfold expected in Hk.
  destruct (parsePath (q_path q)) as [[ns key]|]; [|by destruct k]. exists ns, key. split; [done|]. split; [by apply Hs|].
  destruct k as [|[|[|[|k]]]]; cbn in Hk; try (injection Hk as -> ->; cbn; tauto). by destruct k.
Qed.

Lemma under_way_next q o obs : under_way (q, o :: obs) → under_way (q, obs).
Proof.
  intros [[k Hk] Hs]. cbn [fst snd] in *. split; [|done]. exists (S k). cbn [fst snd].
  replace (S k) with (k + 1)%nat by lia. by rewrite <-drop_drop, <-Hk.
Qed.

(** No observation panics. *)
Lemma observe_fine d q o obs (w : Watch V H) : watch_ok w → under_way (q, o :: obs) → is_Some (observe d o (wt_metrics w)).
Proof.
  intros Hok. destruct (wo_names _ Hok) as (Hn1 & Hn2 & Hn3 & Hn4).
  intros (ns & key & _ & _ & [[-> _]|[[-> _]|[[-> _]|[-> _]]]])%under_way_cons; cbn [observe].
  - unfold metrics_ObserveForwarded.
    destruct (vec_add_Some [hop_label (inboundHop (q_request q))] 1 (ForwardedTotal (wt_metrics w))) as [f ->]; [by rewrite Hn4|by eexists].
  - unfold metrics_InFlight.
    destruct (vec_add_Some [opName (rq_Method (q_request q))] 1 (RequestsInFlight (wt_metrics w))) as [f ->]; [by rewrite Hn3|by eexists].
  - unfold metrics_ObserveRequest.
    destruct (vec_add_Some [opName (rq_Method (q_request q)); ns; pretty (rr_Status (q_answer q))] 1 (RequestsTotal (wt_metrics w)))
      as [t ->]; [by rewrite Hn1|]. cbn [mbind option_bind].
    destruct (hist_observe_Some [opName (rq_Method (q_request q)); ns] (Seconds d) (RequestDuration (wt_metrics w)))
      as [h ->]; [by rewrite Hn2|by eexists].
  - unfold metrics_InFlight.
    destruct (vec_add_Some [opName (rq_Method (q_request q))] (-1) (RequestsInFlight (wt_metrics w))) as [f ->]; [by rewrite Hn3|by eexists].
Qed.
(** What one observation does, by kind. *)
Lemma observe_spec d o (m m' : Metrics V H) :
  observe d o m = Some m' →
  (vec_names (RequestsTotal m') = vec_names (RequestsTotal m) ∧ hist_names (RequestDuration m') = hist_names (RequestDuration m) ∧
   vec_names (RequestsInFlight m') = vec_names (RequestsInFlight m) ∧ vec_names (ForwardedTotal m') = vec_names (ForwardedTotal m)) ∧
  match o with
  | ObserveRequest op ns st =>
      RequestsInFlight m' = RequestsInFlight m ∧ ForwardedTotal m' = ForwardedTotal m ∧
      vec_series (RequestsTotal m') = {[[op; ns; pretty st]]} ∪ vec_series (RequestsTotal m) ∧
      hist_series (RequestDuration m') = {[[op; ns]]} ∪ hist_series (RequestDuration m) ∧
      (∀ x, vec_value (RequestsTotal m') x = vec_value (RequestsTotal m) x + if decide (x = [op; ns; pretty st]) then 1 else 0) ∧
      ∀ x, hist_count (RequestDuration m') x = hist_count (RequestDuration m) x + if decide (x = [op; ns]) then 1 else 0
  | InFlight op k =>
      RequestsTotal m' = RequestsTotal m ∧ RequestDuration m' = RequestDuration m ∧ ForwardedTotal m' = ForwardedTotal m ∧
      vec_series (RequestsInFlight m') = {[[op]]} ∪ vec_series (RequestsInFlight m) ∧
      ∀ x, vec_value (RequestsInFlight m') x = vec_value (RequestsInFlight m) x + if decide (x = [op]) then k else 0
  | ObserveForwarded hop =>
      RequestsTotal m' = RequestsTotal m ∧ RequestDuration m' = RequestDuration m ∧ RequestsInFlight m' = RequestsInFlight m ∧
      vec_series (ForwardedTotal m') = {[[hop_label hop]]} ∪ vec_series (ForwardedTotal m) ∧
      ∀ x, vec_value (ForwardedTotal m') x = vec_value (ForwardedTotal m) x + if decide (x = [hop_label hop]) then 1 else 0
  end.
Proof.
  destruct o; cbn [observe].
  all: unfold metrics_ObserveRequest, metrics_InFlight, metrics_ObserveForwarded.
  all: destruct (vec_add _ _ _) as [t|] eqn:Ht; cbn [mbind option_bind]; [|done].
  all: try (destruct (hist_observe _ _ _) as [h|] eqn:Hh; cbn [mbind option_bind]; [|done]); intros [= <-];
    destruct (vec_add_spec _ _ _ _ Ht) as (? & ? & ?); try destruct (hist_observe_spec _ _ _ _ Hh) as (? & ? & ?); done.
Qed.

(** A count after one of the requests in flight has made an observation. *)
Lemma count_moves f a b q (o : observation) obs l l' x :
  l ≡ₚ (q, o :: obs) :: l' →
  how_many f (among a b ((q, obs) :: l')) x =
  how_many f (among a b l) x + (if decide ((a ≤ length obs ≤ b)%nat ∧ f q = Some x) then 1 else 0)
    - if decide ((a ≤ S (length obs) ≤ b)%nat ∧ f q = Some x) then 1 else 0.
Proof. intros Hl. rewrite (among_perm _ _ _ _ _ _ Hl), !among_cons. cbn [length]. lia. Qed.

Lemma observe_ok d q o obs l m (w : Watch V H) :
  wt_open w ≡ₚ (q, o :: obs) :: l → observe d o (wt_metrics w) = Some m → watch_ok w →
  watch_ok (mkWatch m ((q, obs) :: l) (wt_done w)).
Proof.
  intros Hl Hm [[N1 [N2 [N3 N4]]] Ht Hd Hi Hf [S1 [S2 [S3 S4]]] Ho]. rewrite Hl in Ho. apply Forall_cons in Ho as [Hq Ho].
  destruct (under_way_cons _ _ _ Hq) as (ns & key & Hp & Hs & Hk). destruct (label_series _ _ _ Hp Hs) as (L1 & L2 & L3 & L4).
  assert (total_label q = Some [opName (rq_Method (q_request q)); ns; pretty (rr_Status (q_answer q))] ∧
    duration_label q = Some [opName (rq_Method (q_request q)); ns] ∧ in_flight_label q = Some [opName (rq_Method (q_request q))] ∧
    forwarded_label q = Some [hop_label (inboundHop (q_request q))]) as (T1 & T2 & T3 & T4).
  { unfold total_label, duration_label, in_flight_label, forwarded_label. rewrite Hp. cbn [mbind option_bind]. repeat split. }
  destruct (observe_spec _ _ _ _ Hm) as [(M1 & M2 & M3 & M4) Hspec]. cbv zeta in Hk.
  assert (∀ f a b x, how_many f (among a b ((q, obs) :: l)) x = how_many f (among a b (wt_open w)) x
    + (if decide ((a ≤ length obs ≤ b)%nat ∧ f q = Some x) then 1 else 0)
    - if decide ((a ≤ S (length obs) ≤ b)%nat ∧ f q = Some x) then 1 else 0) as Hc by (intros; exact (count_moves _ _ _ _ _ _ _ _ _ Hl)).
  split; cbn [wt_metrics wt_open wt_done]; [rewrite M1, M2, M3, M4; by split_and!| | | | | |by constructor; [eapply under_way_next|]].
  5: { destruct Hk as [[-> _]|[[-> _]|[[-> _]|[-> _]]]]; destruct_and! Hspec;
       repeat match goal with E : _ m = _ |- _ => rewrite E; clear E | E : vec_series _ = _ |- _ => rewrite E; clear E
         | E : hist_series _ = _ |- _ => rewrite E; clear E end; 
       (split; [first [exact S1 | exact (grows _ _ _ L1 S1)]|]); (split; [first [exact S2 | exact (grows _ _ _ L2 S2)]|]);
       (split; [first [exact S3 | exact (grows _ _ _ L3 S3)]|first [exact S4 | exact (grows _ _ _ L4 S4)]]). }
  all: clear S1 S2 S3 S4 L1 L2 L3 L4 M1 M2 M3 M4 Hs Hp Hq Ho Hm.
  all: intros x; rewrite Hc; destruct Hk as [[-> E]|[[-> E]|[[-> E]|[-> E]]]]; rewrite E; destruct_and! Hspec;
    rewrite ?T1, ?T2, ?T3, ?T4;
    repeat match goal with E : RequestsTotal _ = _ |- _ => rewrite E; clear E | E : RequestDuration _ = _ |- _ => rewrite E; clear E
      | E : RequestsInFlight _ = _ |- _ => rewrite E; clear E | E : ForwardedTotal _ = _ |- _ => rewrite E; clear E
      | E : ∀ x, _ = _ + _ |- _ => rewrite E; clear E end;
    rewrite ?Ht, ?Hd, ?Hi, ?Hf; settle.
Qed.

Lemma watch_step_ok (w w' : Watch V H) : watch_step w w' → watch_ok w → watch_ok w'.
Proof.
  intros [q obs w1 Hs|d q o obs l m w1 Hl Hm|q l w1 Hl]; [|exact (observe_ok _ _ _ _ _ _ _ Hl Hm)|].
  - intros [HN Ht Hd Hi Hf HS Ho]. destruct (served_spec _ _ Hs) as [-> Hst].
    assert (∀ f a b x, (∀ q, parsePath (q_path q) = None → f q = None) → (b ≤ 3)%nat →
      how_many f (among a b ((q, expected q) :: wt_open w1)) x = how_many f (among a b (wt_open w1)) x) as Hc.
    { intros f a b x Hn Hb. rewrite among_cons. rewrite decide_False; [lia|]. unfold expected.
      destruct (parsePath (q_path q)) as [[ns key]|] eqn:Hp; [cbn [length]; lia|]. rewrite (Hn _ Hp). by intros [_ ?]. }
    split; cbn [wt_metrics wt_open wt_done]; [done|intros x; rewrite Hc; [apply Ht || apply Hd || apply Hi || apply Hf| |lia]..|done|].
    1-4: intros q' Hq'; unfold total_label, duration_label, in_flight_label, forwarded_label; by rewrite Hq'.
    constructor; [|done]. split; [by exists 0%nat|done].
  - intros [HN Ht Hd Hi Hf HS Ho]. rewrite Hl in Ho. apply Forall_cons in Ho as [_ Ho].
    split; cbn [wt_metrics wt_open wt_done]; try done; intros x; rewrite ?Ht, ?Hd, ?Hi, ?Hf, ?how_many_cons;
      rewrite (among_perm _ _ _ _ _ _ Hl), among_cons; cbn [length]; settle.
Qed.

Lemma watch_steps_ok (w w' : Watch V H) : rtc watch_step w w' → watch_ok w → watch_ok w'.
Proof. induction 1 as [|w1 w2 w3 Hs _ IH]; [done|]. intros Hok. by apply IH, (watch_step_ok w1). Qed.

(** Whoever is about to record a status has been announced and not yet signed off. *)
Lemma answering_inside f (l : list (query * list observation)) x :
  Forall under_way l → how_many f (filter (λ e, answering e = true) l).*1 x ≤ how_many f (among 1 2 l) x.
Proof.
  induction 1 as [|[q obs] l Hq _ IH]; [done|]. rewrite among_cons, filter_cons.
  destruct (decide (answering (q, obs) = true)) as [Ha|_].
  - rewrite fmap_cons, how_many_cons. cbn [fst]. unfold answering in Ha. cbn [snd] in Ha. destruct obs as [|o obs]; [done|].
    destruct (under_way_cons _ _ _ Hq) as (ns & key & _ & _ & [[-> _]|[[-> _]|[[-> E]|[-> _]]]]); try done.
    cbn [length]. rewrite E. settle.
  - case_decide; lia.
Qed.
End invariant.

(** ** Claims *)

(** C38: the registry can be built (its buckets increase), and at every moment of any
    interleaving of requests, over any handlers and backends: a request whose path
    names an object is counted, under its operation, namespace and the status its
    client was sent, exactly once when it has left and at most once before, in the
    request counter and in the latency histogram, and under the hop it arrived with
    in the forwarding counter; the gauge counts no operation it does not have in
    flight, counts each that is answering, and is 0 when none is; a path that names
    no object is counted nowhere; no observation panics; and there are never more
    than 80, 8, 4 and 5 series, none of them labelled by a key. *)
Theorem metrics_account_for_requests {V H} {HV : Vec V} {HH : Hist H} :
  ∃ m : Metrics V H, metrics_New = Some m ∧ ∀ w, rtc watch_step (mkWatch m [] []) w →
  let seen := wt_done w ++ (wt_open w).*1 in
  (∀ x, how_many total_label (wt_done w) x ≤ vec_value (RequestsTotal (wt_metrics w)) x ≤ how_many total_label seen x) ∧
  (∀ x, how_many duration_label (wt_done w) x ≤ hist_count (RequestDuration (wt_metrics w)) x ≤ how_many duration_label seen x) ∧
  (∀ x, how_many forwarded_label (wt_done w) x ≤ vec_value (ForwardedTotal (wt_metrics w)) x ≤ how_many forwarded_label seen x) ∧
  (∀ x, how_many in_flight_label (filter (λ e, answering e = true) (wt_open w)).*1 x
    ≤ vec_value (RequestsInFlight (wt_metrics w)) x ≤ how_many in_flight_label (wt_open w).*1 x) ∧
  (∀ d q o obs, (q, o :: obs) ∈ wt_open w → is_Some (observe d o (wt_metrics w))) ∧
  (size (vec_series (RequestsTotal (wt_metrics w))) ≤ 80)%nat ∧ (size (hist_series (RequestDuration (wt_metrics w))) ≤ 8)%nat ∧
  (size (vec_series (RequestsInFlight (wt_metrics w))) ≤ 4)%nat ∧ (size (vec_series (ForwardedTotal (wt_metrics w))) ≤ 5)%nat.
Proof.
  destruct metrics_New_ok as [m Hm]. exists m. split; [done|]. intros w Hs. cbv zeta.
  pose proof (watch_steps_ok _ _ Hs (watch_start m Hm)) as Hok. pose proof Hok as [_ Ht Hd Hi Hf (S1 & S2 & S3 & S4) Ho].
  destruct series_sizes as (Z1 & Z2 & Z3 & Z4). apply subseteq_size in S1, S2, S3, S4. rewrite Z1 in S1. rewrite Z2 in S2.
  rewrite Z3 in S3. rewrite Z4 in S4.
  assert (∀ f a b x, 0 ≤ how_many f (among a b (wt_open w)) x ≤ how_many f (wt_open w).*1 x) as Hb
    by (intros; split; [apply how_many_nonneg|apply among_all]).
  repeat match goal with |- _ ∧ _ => split end; [| | | | |exact S1|exact S2|exact S3|exact S4].
  - intros x. rewrite Ht, how_many_app. specialize (Hb total_label 0%nat 1%nat x). lia.
  - intros x. rewrite Hd, how_many_app. specialize (Hb duration_label 0%nat 1%nat x). lia.
  - intros x. rewrite Hf, how_many_app. specialize (Hb forwarded_label 0%nat 3%nat x). lia.
  - intros x. rewrite Hi. split; [exact (answering_inside _ _ _ Ho)|apply Hb].
  - intros d q o obs Hin. rewrite Forall_forall in Ho. exact (observe_fine _ _ _ _ _ Hok (Ho _ Hin)).
Qed.

(** ** Witness: vectors as finite maps *)

Definition map_vec : Type := list string * gmap (list string) Z.

Definition map_vec_add (x : list string) (d : Z) (v : map_vec) : option map_vec :=
  if (length x =? length v.1)%nat then Some (v.1, <[x := default 0 (v.2 !! x) + d]> v.2) else None.

Lemma map_vec_add_Some x d v : length x = length v.1 → is_Some (map_vec_add x d v).
Proof. intros Hl. unfold map_vec_add. apply Nat.eqb_eq in Hl. rewrite Hl. by eexists. Qed.

Lemma map_vec_add_spec x d v v' :
  map_vec_add x d v = Some v' →
  v'.1 = v.1 ∧ dom v'.2 = {[x]} ∪ dom v.2 ∧
  ∀ y, default 0 (v'.2 !! y) = default 0 (v.2 !! y) + if decide (y = x) then d else 0.
Proof.
  unfold map_vec_add. destruct (_ =? _)%nat; [|done]. intros [= <-]. cbn [fst snd]. split; [done|].
  split; [by rewrite dom_insert_L|]. intros y. case_decide as Hy; [subst; by rewrite lookup_insert_eq|].
  rewrite lookup_insert_ne by done. lia.
Qed.

#[export] Instance map_Vec : Vec map_vec := {
  vec_new l := (l, ∅);
  vec_names v := v.1;
  vec_add := map_vec_add;
  vec_value v x := default 0 (v.2 !! x);
  vec_series v := dom v.2;
  vec_new_names _ := eq_refl;
  vec_new_value _ _ := eq_refl;
  vec_new_series _ := eq_refl;
  vec_add_Some := map_vec_add_Some;
  vec_add_spec := map_vec_add_spec }.

Fixpoint increasing (l : list float64) : bool :=
  match l with x :: (y :: _) as l' => flt x y && increasing l' | _ => true end.

Lemma increasing_sorted l : Sorted (λ x y, flt x y = true) l → increasing l = true.
Proof.
  induction 1 as [|x [|y l] Hs IH Hx]; [done..|]. change (flt x y && increasing (y :: l) = true).
  rewrite IH, andb_true_r. by inversion Hx.
Qed.

(** A histogram that keeps only how many observations there were. *)
Definition map_hist_new (l : list string) (b : list float64) : option map_vec := if increasing b then Some (l, ∅) else None.

Lemma map_hist_new_Some l b : Sorted (λ x y, flt x y = true) b → is_Some (map_hist_new l b).
Proof. intros Hb%increasing_sorted. unfold map_hist_new. rewrite Hb. by eexists. Qed.

Lemma map_hist_new_spec l b h :
  map_hist_new l b = Some h → h.1 = l ∧ dom h.2 = ∅ ∧ ∀ x, default 0 (h.2 !! x) = 0.
Proof. unfold map_hist_new. destruct (increasing b); [|done]. by intros [= <-]. Qed.

#[export] Instance map_Hist : Hist map_vec := {
  hist_new := map_hist_new;
  hist_names v := v.1;
  hist_observe x _ v := map_vec_add x 1 v;
  hist_count v x := default 0 (v.2 !! x);
  hist_series v := dom v.2;
  hist_new_Some := map_hist_new_Some;
  hist_new_spec := map_hist_new_spec;
  hist_observe_Some x _ := map_vec_add_Some x 1;
  hist_observe_spec x _ := map_vec_add_spec x 1 }.

Definition empty_backend : Backend unit :=
  mkBackend (λ _ _ _ _ _ s, (s, (mkPutOutcome 0 false 0 0 [] false, Some ErrNotFound))) (λ _ _ _ s, (s, Err ErrNotFound))
    (λ _ _ _ s, (s, Err ErrNotFound)) (λ _ s, (s, Ok tt)) (λ _ s, s).

Definition miss_path : string := "/cas/" +:+ Sha.digest [].
Definition client_writer : responseRecorder := mkRR (mkRW ∅ 0 ∅ None (mkWriter [] None)) 0 0.
Definition miss_request : Request := mkRequest MethodGet miss_path ∅ None 0.
Definition miss_query : query :=
  mkQuery miss_request miss_path
    (from_option (λ x, x.1.2) client_writer (ServeHTTP empty_backend (mkCacheHandler "a" 0 true) miss_request miss_path client_writer tt)).

Definition miss_observations : list observation :=
  [ObserveForwarded EmptyString; InFlight "get" 1; ObserveRequest "get" "cas" 404; InFlight "get" (-1)].

Lemma miss_served : served miss_query miss_observations.
Proof.
  exists unit, empty_backend, (mkCacheHandler "a" 0 true), client_writer, tt, tt. split; [done|]. split; [done|].
  vm_compute. reflexivity.
Qed.

(** A request alone runs its course if no observation panics. *)
Lemma runs_alone {V H} {HV : Vec V} {HH : Hist H} (start : Watch V H) q obs m :
  (∀ w, rtc watch_step start w → ∀ q o obs, (q, o :: obs) ∈ wt_open w → is_Some (observe 0 o (wt_metrics w))) →
  rtc watch_step start (mkWatch m [(q, obs)] []) → ∃ m', rtc watch_step start (mkWatch m' [] [q]).
Proof.
  intros Hfine. revert m. induction obs as [|o obs IH]; intros m Hr.
  - exists m. eapply rtc_r; [exact Hr|]. by apply (ws_leave q [] (mkWatch m [(q, [])] [])).
  - destruct (Hfine _ Hr q o obs) as [m' Hm']; [by left|]. apply (IH m'). eapply rtc_r; [exact Hr|].
    by apply (ws_observe 0 q o obs [] m' (mkWatch m [(q, o :: obs)] [])).
Qed.

(** A request is counted once it has run its course. *)
Lemma metrics_account_for_requests_witness :
  ∃ (m : Metrics map_vec map_vec) w, metrics_New = Some m ∧ rtc watch_step (mkWatch m [] []) w ∧ wt_open w = [] ∧
    vec_value (RequestsTotal (wt_metrics w)) ["get"; "cas"; "404"] = 1.
Proof.
  destruct (@metrics_account_for_requests map_vec map_vec _ _) as (m & Hm & Hall).
  destruct (runs_alone (mkWatch m [] []) miss_query miss_observations m) as [m4 Hr].
  { intros w Hw. destruct (Hall w Hw) as (_ & _ & _ & _ & Hfine & _). exact (Hfine 0). }
  { apply rtc_once. exact (ws_arrive miss_query miss_observations (mkWatch m [] []) miss_served). }
  exists m, (mkWatch m4 [] [miss_query]). split; [exact Hm|]. split; [exact Hr|]. split; [reflexivity|].
  destruct (Hall _ Hr) as (Ht & _). specialize (Ht ["get"; "cas"; "404"]).
  assert (how_many total_label [miss_query] ["get"; "cas"; "404"] = 1) as E by (vm_compute; reflexivity).
  cbn [wt_done wt_open wt_metrics] in Ht |- *. change ([miss_query] ++ [].*1) with [miss_query] in Ht. rewrite E in Ht.
  apply Z.le_antisymm; apply Ht.
Defined.
