(* ===== verification/Cluster.v ===== *)
(** * A cluster of nodes

    The components put together: every node runs the front door of [HttpApi]
    over the coordinator of [Coordinator], whose [PeerClient] is the HTTP client
    of [Client], and a request a node sends to a peer is served by that peer.
    The network between them delivers, refuses, cuts or loses messages as
    [ce_net] says; [dial] stands for URL parsing and name resolution. *)

From S2P Require Import Prelude GoStrings Sha256 Errors Key Config Ring Protocol Index FileSystem Store StoreSpec Client Coordinator HttpApi.

#[local] Open Scope Z_scope.

(** ** The world *)

(** The nodes, by name. *)
Record World := mkWorld { nodes : string → Coordinator }.

Definition host_of (x : string) : Host World :=
  mkHost (λ w, nodes w x) (λ c w, mkWorld (λ y, if String.eqb y x then c else nodes w y)).

(** What the network does with one exchange: deliver it; refuse the connection;
    break it after [n] bytes of the request body; lose the response; break it
    after [n] bytes of the response body. *)
Inductive net_fault :=
  | NetOK | NetRefused (e : error) | NetReset (n : nat) (e : error) | NetLost (e : error)
  | NetCut (n : nat) (e : error).

(** Faults, by the chain of nodes that leads to the node they concern, innermost
    first: of the node's disk and scheduler, of the network in front of it, and
    of the connection it answers on. *)
Record ClusterEnv := mkClusterEnv {
  ce_node : list string → NodeEnv;
  ce_net : list string → net_fault;
  ce_conn : list string → option (nat * option error) }.

Definition cluster_fine (suffix : N) (now : Z) : ClusterEnv :=
  mkClusterEnv (λ _, node_fine suffix now) (λ _, NetOK) (λ _, None).

Definition io_ErrUnexpectedEOF : error := Errorf "unexpected EOF".
Definition no_such_host : error := OSError false "dial tcp: lookup: no such host".

(** net/http's framing of a request body: the length and the body the server
    sees, and whether the client sent what it declared.  A length of zero with a
    body to send is sent without a length. *)
Definition framed (r : Request) : Request * bool :=
  match rq_Body r with
  | None => (r, true)
  | Some b =>
      let n := Z.of_nat (length (rdata b)) in
      let len := if (rq_ContentLength r =? 0) && negb (n =? 0) then -1 else rq_ContentLength r in
      let sent := if len <? 0 then rdata b else take (Z.to_nat len) (rdata b) in
      let whole := if len <? 0 then bool_decide (rerr b = None) else len <=? n in
      let b' := mkReader sent (if whole then None else Some io_ErrUnexpectedEOF) in
      (mkRequest (rq_Method r) (rq_URL r) (rq_Header r) (Some b') len,
       whole && bool_decide (rerr b = None) && ((len <? 0) || (n =? len)))
  end.

(** The request as the server sees it when the connection breaks. *)
Definition cut_request (n : nat) (r : Request) : Request :=
  match rq_Body r with
  | None => r
  | Some b =>
      mkRequest (rq_Method r) (rq_URL r) (rq_Header r)
        (Some (mkReader (take n (rdata b)) (Some io_ErrUnexpectedEOF))) (rq_ContentLength r)
  end.

Definition cut_response (n : nat) (e : error) (r : Response) : Response :=
  mkResponse (rs_StatusCode r) (rs_Header r) (mkReader (take n (rdata (rs_Body r))) (Some e))
    (rs_ContentLength r).

(** What the client receives of what was written: no body for HEAD, and an
    error at the end of a body shorter than declared. *)
Definition response_of (method : string) (w : responseRecorder) : Response :=
  let rw := rr_w w in
  let out := if String.eqb method MethodHead then [] else w_out (w_conn rw) in
  let n := Z.of_nat (length (w_out (w_conn rw))) in
  let len := default n (w_length rw) in
  let short := negb (String.eqb method MethodHead) && (n <? len) in
  mkResponse (if w_code rw =? 0 then StatusOK else w_code rw)
    (if w_code rw =? 0 then w_header rw else w_sent rw)
    (mkReader out (if short then Some io_ErrUnexpectedEOF else None)) len.

Definition too_deep : error := Errorf "forwarding chain too long".

(** The backend a node's handler calls. *)
Definition node_backend (x : string) (env : NodeEnv) (peers : PeerClient World) : Backend World :=
  mkBackend (coord_Put (host_of x) (Some peers) env) (coord_Open (host_of x) (Some peers) env)
    (coord_Stat (host_of x) (Some peers) env) (obj_Verify (host_of x))
    (obj_Close (host_of x) (ne_close env x)).

Section cluster.
Context (dial : string → option (string * string)).
Context (bad_url : string → option error).

(** One exchange with a peer, served by [serve]; [chain] are the nodes the
    request came through. *)
Definition exchange (E : ClusterEnv) (chain : list string)
    (serve : list string → string → Request → string → World → World * result Response)
    (r : Request) (w : World) : World * result Response :=
  match dial (rq_URL r) with
  | None => (w, Err no_such_host)
  | Some (y, q) =>
      let '(fr, sent_all) := framed r in
      match ce_net E (y :: chain) with
      | NetRefused e => (w, Err e)
      | NetReset n e => ((serve (y :: chain) y (cut_request n fr) q w).1, Err e)
      | NetLost e => ((serve (y :: chain) y fr q w).1, Err e)
      | NetOK =>
          let '(w1, res) := serve (y :: chain) y fr q w in
          if sent_all then (w1, res) else (w1, Err (OSError false "http: wrong body length"))
      | NetCut n e =>
          let '(w1, res) := serve (y :: chain) y fr q w in
          if sent_all
          then (w1, match res with Ok resp => Ok (cut_response n e resp) | Err er => Err er end)
          else (w1, Err (OSError false "http: wrong body length"))
      end
  end.

(** Node [x] serves the request [r] for the path [p]; [depth] bounds the chain
    of nodes a request may go through. *)
Fixpoint serve (E : ClusterEnv) (depth : nat) (chain : list string) (x : string) (r : Request) (p : string)
    (w : World) : World * result Response :=
  match depth with
  | O => (w, Err too_deep)
  | S depth' =>
      let T : Transport World :=
        {| url_err := bad_url; Do := exchange E chain (serve E depth') |} in
      let c := nodes w x in
      let h := mkCacheHandler x (maxObjectBytes (local c)) true in
      let w0 := mkRR (rw_Set HeaderNode x (mkRW ∅ 0 ∅ None (mkWriter [] (ce_conn E chain)))) 0 0 in
      match ServeHTTP (node_backend x (ce_node E chain) (@HTTPPeerClient World T x)) h r p w0 w with
      | Some (w1, rr, _) => (w1, Ok (response_of (rq_Method r) rr))
      | None => (w, Err too_deep)
      end
  end.
End cluster.

(** ** The chain of nodes is bounded *)

Lemma framed_header r : rq_Header (framed r).1 = rq_Header r.
Proof. unfold framed. by destruct (rq_Body r). Qed.

Lemma cut_request_header n r : rq_Header (cut_request n r) = rq_Header r.
Proof. unfold cut_request. by destruct (rq_Body r). Qed.

(** A handler depends on its backend only at the role of the request. *)
Lemma ServeHTTP_agree {S} (B B' : Backend S) h r p w s :
  let hop := inboundHop r in
  (∀ ns key b n s, be_Put B ns key b n hop s = be_Put B' ns key b n hop s) →
  (∀ ns key s, be_Open B ns key hop s = be_Open B' ns key hop s) →
  (∀ ns key s, be_Stat B ns key hop s = be_Stat B' ns key hop s) →
  be_Verify B = be_Verify B' → be_Close B = be_Close B' →
  ServeHTTP B h r p w s = ServeHTTP B' h r p w s.
Proof.
  intros hop HP HO HS HV HC. unfold ServeHTTP. destruct (parsePath p) as [[ns key]|]; [|done].
  assert (dispatch B h r ns key hop (mkSR w 0) s = dispatch B' h r ns key hop (mkSR w 0) s) as Hd;
    [|by fold hop; rewrite Hd].
  unfold dispatch, serveGet, servePut. rewrite HO, HS, HV, HC.
  destruct (rq_Body r) as [b|]; [by rewrite HP|done].
Qed.

Section chain.
Context (dial : string → option (string * string)) (bad_url : string → option error).
Context (dial_named : ∀ url y q, dial url = Some (y, q) → y ≠ EmptyString).

Lemma exchange_agree E chain (f g : list string → string → Request → string → World → World * result Response) r w :
  (∀ y q r' w, y ≠ EmptyString → rq_Header r' = rq_Header r →
    f (y :: chain) y r' q w = g (y :: chain) y r' q w) →
  exchange dial E chain f r w = exchange dial E chain g r w.
Proof.
  intros Hfg. unfold exchange. destruct (dial (rq_URL r)) as [[y q]|] eqn:Hd; [|done].
  pose proof (framed_header r) as Hf. destruct (framed r) as [fr all]. simpl in Hf.
  apply dial_named in Hd.
  assert (f (y :: chain) y fr q w = g (y :: chain) y fr q w) as -> by auto.
  destruct (ce_net E (y :: chain)); try done. f_equal. rewrite Hfg; [done..|].
  by rewrite cut_request_header.
Qed.

(** The role a forwarded request arrives with. *)
Lemma newRequest_hop (S : Type) (T : Transport S) x method peer ns key b hop r n :
  x ≠ EmptyString → hop ∈ [HopClient; HopCoordinator; HopReplica; HopRepair; HopRead] →
  @newRequest S T x method peer ns key b hop = Ok r →
  inboundHop r = hop ∧ inboundHop (set_length n r) = hop.
Proof.
  intros Hx Hh. unfold newRequest. destruct (url_err _); [done|]. intros [= <-].
  assert (∀ H : Header, header_Get H HeaderForwardedBy = x → header_Get H HeaderHop = hop →
    ∀ m u b l, inboundHop (mkRequest m u H b l) = hop) as Hin.
  { intros H Hf Hp m u b' l. unfold inboundHop. simpl. rewrite Hf, Hp.
    destruct (String.eqb_spec x EmptyString); [done|]. by apply ParseHop_known. }
  split; apply Hin; unfold header_Get; simpl; try case_match;
    rewrite ?(lookup_insert_ne _ "Content-Type"), ?lookup_insert_eq by done; try done;
    rewrite ?(lookup_insert_ne _ HeaderHop), ?lookup_insert_eq by done; done.
Qed.

Lemma may_forward_known hop h :
  may_forward hop h → h ∈ [HopClient; HopCoordinator; HopReplica; HopRepair; HopRead].
Proof. rewrite !elem_of_cons. intros [[-> [->|[->| ->]]]|[-> [->| ->]]]; auto 10. Qed.

(** Two clients over transports that agree on forwarded requests. *)
Lemma client_agree (T T' : Transport World) x hop :
  x ≠ EmptyString → @url_err World T = @url_err World T' →
  (∀ r w, may_forward hop (inboundHop r) → @Do World T r w = @Do World T' r w) →
  agree (may_forward hop) (@HTTPPeerClient World T x) (@HTTPPeerClient World T' x).
Proof.
  intros Hx Hu HD.
  assert (∀ method peer ns key b h, @newRequest World T x method peer ns key b h =
    @newRequest World T' x method peer ns key b h) as Hnr.
  { intros. unfold newRequest. by rewrite Hu. }
  split; [|split]; intros m ns key.
  - intros b n h s Hh. simpl. unfold http_Put. rewrite <-Hnr.
    destruct (newRequest x MethodPut m ns key (Some b) h) as [r|e] eqn:Hr; [|done].
    apply (newRequest_hop _ _ _ _ _ _ _ _ _ _ n Hx (may_forward_known _ _ Hh)) in Hr as [_ Hr].
    mrun. rewrite HD by (by rewrite Hr). done.
  - intros h s Hh. simpl. unfold http_Get. rewrite <-Hnr.
    destruct (newRequest x MethodGet m ns key None h) as [r|e] eqn:Hr; [|done].
    apply (newRequest_hop _ _ _ _ _ _ _ _ _ _ 0 Hx (may_forward_known _ _ Hh)) in Hr as [Hr _].
    mrun. rewrite HD by (by rewrite Hr). done.
  - intros h s Hh. simpl. unfold http_Stat. rewrite <-Hnr.
    destruct (newRequest x MethodHead m ns key None h) as [r|e] eqn:Hr; [|done].
    apply (newRequest_hop _ _ _ _ _ _ _ _ _ _ 0 Hx (may_forward_known _ _ Hh)) in Hr as [Hr _].
    mrun. rewrite HD by (by rewrite Hr). done.
Qed.

Lemma inboundHop_known r : inboundHop r ∈ [HopClient; HopCoordinator; HopReplica; HopRepair; HopRead].
Proof. unfold inboundHop. case_match; [left|apply ParseHop_cases]. Qed.

Lemma serve_depth E n m chain x r p w :
  x ≠ EmptyString → (hop_rank (inboundHop r) < n)%nat → (hop_rank (inboundHop r) < m)%nat →
  serve dial bad_url E n chain x r p w = serve dial bad_url E m chain x r p w.
Proof.
  revert m chain x r p w. induction n as [|n IH]; intros [|m] chain x r p w Hx Hn Hm; [lia..|].
  cbn [serve]. set (T := Build_Transport World bad_url (exchange dial E chain (serve dial bad_url E n))).
  set (T' := Build_Transport World bad_url (exchange dial E chain (serve dial bad_url E m))).
  assert (HA : agree (may_forward (inboundHop r)) (@HTTPPeerClient World T x) (@HTTPPeerClient World T' x)).
  { apply client_agree; [done..|]. intros r' w' Hf%may_forward_down. apply exchange_agree.
    intros y q r'' w'' Hy Hh. assert (inboundHop r'' = inboundHop r') as Hi by (unfold inboundHop; by rewrite Hh).
    apply IH; [done|rewrite Hi; lia|rewrite Hi; lia]. }
  pose proof (λ ns key b sz s, hops_only_go_down (host_of x) _ _ (ce_node E chain) ns key b sz (inboundHop r) s
    (inboundHop_known r) HA) as Hc.
  rewrite (ServeHTTP_agree _ (node_backend x (ce_node E chain) (@HTTPPeerClient World T' x))); [done|..|done|done].
  - intros ns key b sz s. apply (Hc ns key b sz s).
  - intros ns key s. apply (Hc ns key (mkReader [] None) 0 s).
  - intros ns key s. apply (Hc ns key (mkReader [] None) 0 s).
Qed.
End chain.

(** ** What one node's operations leave alone *)

(** Only node [y] changed. *)
Definition touches (y : string) (w w' : World) : Prop := ∀ z, z ≠ y → nodes w' z = nodes w z.

Definition node_ok (c : Coordinator) : Prop := store_ok (local c) ∧ sane_limit (local c).

(** The node kept its membership and its invariant. *)
Definition keeps (c c' : Coordinator) : Prop :=
  ring c' = ring c ∧ replicaCount c' = replicaCount c ∧ (node_ok c → node_ok c').

Definition same_view (c c' : Coordinator) : Prop :=
  ∀ ns key, view (local c') ns key = view (local c) ns key.

(** The store holds an object for the reference: the uploaded bytes for an
    action result, bytes with the right digest for a content-addressed object. *)
Definition stored (ns key : string) (b : bytes) (s : Store) : Prop :=
  ∃ c, view s ns key = Some c ∧ if ContentAddressed ns then Sha.digest c = key else c = b.

Lemma touches_refl y w : touches y w w.
Proof. by intros z. Qed.

Lemma touches_trans y w1 w2 w3 : touches y w1 w2 → touches y w2 w3 → touches y w1 w3.
Proof. intros H1 H2 z Hz. by rewrite H2, H1. Qed.

Lemma keeps_refl c : keeps c c.
Proof. split; [done|]. split; [done|]. auto. Qed.

Lemma keeps_trans c1 c2 c3 : keeps c1 c2 → keeps c2 c3 → keeps c1 c3.
Proof. intros (?&?&?) (?&?&?). split; [congruence|]. split; [congruence|]. auto. Qed.

Lemma stored_same_view ns key b c c' : same_view c c' → stored ns key b (local c) → stored ns key b (local c').
Proof. intros Hv (x & Hx & Hc). exists x. by rewrite Hv. Qed.

Lemma host_set_get y c w : nodes (h_set (host_of y) c w) y = c.
Proof. simpl. by rewrite String.eqb_refl. Qed.

Lemma host_set_touches y c w : touches y w (h_set (host_of y) c w).
Proof. intros z Hz. simpl. by rewrite (proj2 (String.eqb_neq _ _) Hz). Qed.

(** A counter changes nothing else. *)
Lemma count_node y k n w :
  touches y w (count (host_of y) k n w) ∧
  keeps (nodes w y) (nodes (count (host_of y) k n w) y) ∧
  same_view (nodes w y) (nodes (count (host_of y) k n w) y).
Proof.
  unfold count. split; [apply host_set_touches|]. rewrite host_set_get.
  split; [|done]. split; [done|]. split; [done|]. auto.
Qed.

Lemma same_disk_node c s' :
  same_disk (local c) s' → keeps c (set_local s' c) ∧ same_view c (set_local s' c).
Proof.
  intros Hsd. split.
  - split; [done|]. split; [done|]. intros [Hok Hl]. split; [by eapply same_disk_ok|].
    destruct Hsd as ((_&_&Hm&_)&_). unfold sane_limit in *. simpl. by rewrite Hm.
  - intros ns key. destruct Hsd as ((Hr & _) & _ & _ & Ht). unfold view. simpl. by rewrite Ht, Hr.
Qed.

Lemma on_local_node {A} y (m : M Store A) w w' r :
  on_local (host_of y) m w = (w', r) →
  ∃ s', m (local (nodes w y)) = (s', r) ∧ touches y w w' ∧ nodes w' y = set_local s' (nodes w y).
Proof.
  unfold on_local. simpl. destruct (m (local (nodes w y))) as [s' r'] eqn:Hm. intros [= <- <-].
  exists s'. split; [done|]. split; [apply host_set_touches|apply host_set_get].
Qed.

(** Opening and closing a handle. *)
Lemma on_local_Get y env ns key w w' r :
  on_local (host_of y) (Get env ns key) w = (w', r) →
  touches y w w' ∧ keeps (nodes w y) (nodes w' y) ∧ same_view (nodes w y) (nodes w' y) ∧
  ∀ obj, r = Ok obj → ∃ c, view (local (nodes w y)) ns key = Some c ∧
    o_rest obj `prefix_of` c ∧ (o_readerr obj = None → o_rest obj = c) ∧
    st_Size (o_stat obj) = Z.of_nat (length c).
Proof.
  intros (s' & HG & Ht & ->)%on_local_node. apply Get_spec in HG as [Hsd Hr].
  destruct (same_disk_node _ _ Hsd) as [Hk Hv]. split; [done|]. split; [done|]. split; [done|].
  intros obj ->. destruct Hr as (_ & _ & _ & _ & c & t & Hf & ->). exists c. unfold view. rewrite Hf.
  simpl. split; [done|]. destruct (ge_read env) as [[n e]|]; simpl; [|done].
  split; [apply prefix_take|]. by split.
Qed.

Lemma on_local_Close y f obj w :
  let w' := (on_local (host_of y) (Object_Close f obj) w).1 in
  touches y w w' ∧ keeps (nodes w y) (nodes w' y) ∧ same_view (nodes w y) (nodes w' y).
Proof.
  destruct (on_local (host_of y) (Object_Close f obj) w) as [w' r] eqn:H. simpl.
  apply on_local_node in H as (s' & HC & Ht & ->). split; [done|].
  apply same_disk_node. pose proof (Object_Close_same f obj (local (nodes w y))) as Hsd. by rewrite HC in Hsd.
Qed.

(** A local write, on every branch. *)
Lemma on_local_Put y env ns key r dsz w w' res :
  node_ok (nodes w y) → on_local (host_of y) (Put env ns key r dsz) w = (w', res) →
  touches y w w' ∧ keeps (nodes w y) (nodes w' y) ∧
  ∀ pr, res = Ok pr →
    ns_Valid ns = true ∧ valid_key key = true ∧
    ∃ c, view (local (nodes w' y)) ns key = Some c ∧ pr_Size pr = Z.of_nat (length c) ∧
      if ContentAddressed ns then Sha.digest c = key else c = rdata r ∧ rerr r = None.
Proof.
  intros [Hok Hl] (s' & HP & Ht & Hn)%on_local_node.
  pose proof (Put_ok env ns key r dsz (local (nodes w y)) Hok) as Hok'. rewrite HP in Hok'.
  destruct (Put_spec _ _ _ _ _ _ _ _ (ok_wf _ Hok) HP) as (_ & Hcfg & _ & Heff).
  split; [done|]. rewrite Hn. split.
  { split; [done|]. split; [done|]. intros _. split; [done|]. destruct Hcfg as (_&_&Hm&_).
    unfold sane_limit in *. simpl. by rewrite Hm. }
  intros pr ->. destruct (put_ok_view _ _ _ _ _ _ _ _ Hcfg Heff) as [(c & Hc & Hs & Hst) _].
  destruct Heff as (_ & Hns & Hk & _). split; [done|]. split; [done|]. exists c. split; [done|].
  split; [done|]. destruct (pr_AlreadyStored pr).
  - destruct Hst as [Hca Hv]. rewrite Hca. apply String.eqb_eq in Hca. subst ns.
    by apply (ok_cas _ Hok).
  - destruct Hst as [Hacc _]. destruct (accepted_whole _ _ _ _ _ _ Hl Hacc) as [Hc' He'].
    destruct Hacc as (_ & _ & _ & _ & Hd). destruct (ContentAddressed ns); [by apply Hd|done].
Qed.

(** ** A replica write *)

Definition object_path (ns key : string) : string := "/" +:+ ns +:+ "/" +:+ key.

(** A status that acknowledges a write. *)
Definition acked (resp : Response) : bool := (200 <=? rs_StatusCode resp) && (rs_StatusCode resp <? 300).

(** A write under a role that stays on the node. *)
Lemma putLocalOnly_node y env ns key body size w w' out err :
  node_ok (nodes w y) → putLocalOnly (host_of y) env ns key body size w = (w', (out, err)) →
  touches y w w' ∧ keeps (nodes w y) (nodes w' y) ∧
  (err = None → stored ns key (rdata body) (local (nodes w' y))).
Proof.
  intros Hok. unfold putLocalOnly.
  destruct (on_local (host_of y) (Put (ne_put env) ns key body size) w) as [w1 [pr|e]] eqn:HP;
    destruct (on_local_Put _ _ _ _ _ _ _ _ _ Hok HP) as (Ht & Hk & Hres); intros [= <- <- <-]; [|done].
  destruct (count_node y ReplicaWrites 1 w1) as (Ht' & Hk' & Hv').
  split; [by eapply touches_trans|]. split; [by eapply keeps_trans|]. intros _.
  eapply stored_same_view; [done|]. destruct (Hres pr eq_refl) as (_ & _ & c & Hc & _ & Hd).
  exists c. split; [done|]. by destruct (ContentAddressed ns); [|destruct Hd].
Qed.

Lemma response_code method w : w_code (rr_w w) ≠ 0 → rs_StatusCode (response_of method w) = w_code (rr_w w).
Proof. intros H. unfold response_of. simpl. by destruct (Z.eqb_spec (w_code (rr_w w)) 0). Qed.

(** [serve] on a write: the node's [Put] under the role of the request, and a
    status that acknowledges exactly its success. *)
Lemma serve_put dial bad_url E n chain x r p ns key body w w' res :
  parsePath p = Some (ns, key) → rq_Method r = MethodPut → rq_Body r = Some body →
  serve dial bad_url E (S n) chain x r p w = (w', res) →
  ∃ resp, res = Ok resp ∧
    ((w' = w ∧ acked resp = false) ∨
     ∃ out err, coord_Put (host_of x)
       (Some (@HTTPPeerClient World (Build_Transport World bad_url
          (exchange dial E chain (serve dial bad_url E n))) x)) (ce_node E chain) ns key body
       (rq_ContentLength r) (inboundHop r) w = (w', (out, err)) ∧
       (acked resp = true ↔ err = None)).
Proof.
  intros Hp Hm Hb. cbn [serve]. unfold ServeHTTP. rewrite Hp.
  assert (Hd : ∀ B h rec s, dispatch B h r ns key (inboundHop r) rec s =
    Some (@servePut World B h r ns key (inboundHop r) rec s)) by (intros; unfold dispatch; by rewrite Hm).
  rewrite Hd. match goal with |- context [servePut ?B ?h r ns key _ ?rec w] =>
    destruct (servePut B h r ns key (inboundHop r) rec w) as [w1 rec1] eqn:HS end.
  apply servePut_spec in HS as (_ & Hne & HS); [|done]. simpl. intros [= <- <-]. eexists. split; [done|].
  unfold acked. rewrite response_code by done. rewrite Hb in HS. simpl in HS.
  destruct (_ && _) in HS; [left; by destruct HS as [-> ->]|].
  right. destruct (coord_Put _ _ _ _ _ _ _ _ _) as [w2 [out err]]. destruct HS as [-> HS].
  exists out, err. split; [done|]. destruct err as [e|].
  - destruct HS as [_ Hge]. split; [|done]. intros Hs. boolify. lia.
  - rewrite HS. by destruct (out_AlreadyStored out).
Qed.

Lemma serve_replica dial bad_url E n chain y r p ns key body w w' res :
  parsePath p = Some (ns, key) → rq_Method r = MethodPut → rq_Body r = Some body →
  inboundHop r ∈ [HopReplica; HopRepair] → node_ok (nodes w y) →
  serve dial bad_url E (S n) chain y r p w = (w', res) →
  touches y w w' ∧ keeps (nodes w y) (nodes w' y) ∧
  ∀ resp, res = Ok resp → acked resp = true → stored ns key (rdata body) (local (nodes w' y)).
Proof.
  intros Hp Hm Hb Hh Hok Hs.
  destruct (serve_put _ _ _ _ _ _ _ _ _ _ _ _ _ _ Hp Hm Hb Hs) as (resp & -> & [[-> Ha]|(out & err & HP & Ha)]).
  { split; [apply touches_refl|]. split; [apply keeps_refl|]. intros ? [= ->]. congruence. }
  rewrite !elem_of_cons, elem_of_nil in Hh.
  assert (putLocalOnly (host_of y) (ce_node E chain) ns key body (rq_ContentLength r) w = (w', (out, err)) ∨
    (w' = count (host_of y) RepairDeclined 1 w ∧ err ≠ None)) as [HL|[-> Herr]].
  { destruct Hh as [Hh|[Hh|[]]]; rewrite Hh in HP; unfold coord_Put in HP; simpl in HP; [by left|].
    destruct (overHighWater _).1.1; [|by left]. right. by injection HP as <- _ <-. }
  2: { destruct (count_node y RepairDeclined 1 w) as (? & ? & _). split; [done|]. split; [done|].
       intros ? [= <-] Hacked. by apply Ha in Hacked. }
  destruct (putLocalOnly_node _ _ _ _ _ _ _ _ _ _ Hok HL) as (Ht & Hk & Hst).
  split; [done|]. split; [done|]. intros ? [= <-] Hacked. by apply Hst, Ha.
Qed.

Lemma framed_whole r fr b :
  rq_Body r = Some b → framed r = (fr, true) →
  rq_Body fr = Some (mkReader (rdata b) None) ∧ rq_Method fr = rq_Method r ∧ rerr b = None.
Proof.
  intros Hb. unfold framed. rewrite Hb.
  set (len := if _ && _ then -1 else rq_ContentLength r). intros [= <- Hall]. simpl.
  apply andb_true_iff in Hall as [Hall Hlen]. apply andb_true_iff in Hall as [-> He].
  apply bool_decide_eq_true in He. split; [|done]. f_equal. f_equal.
  destruct (len <? 0) eqn:E; [done|]. simpl in Hlen. boolify. rewrite <-Hlen.
  apply take_ge. lia.
Qed.

Lemma framed_body r fr all b :
  rq_Body r = Some b → framed r = (fr, all) → ∃ b', rq_Body fr = Some b' ∧ rq_Method fr = rq_Method r.
Proof. intros Hb. unfold framed. rewrite Hb. intros [= <- _]. by eexists. Qed.

Section replicate.
Context (dial : string → option (string * string)) (bad_url : string → option error).
Context (ms : list Member).
Context (dial_ok : ∀ m q, m ∈ ms → dial (URL m +:+ "/" +:+ q) = Some (Name m, "/" +:+ q)).

Lemma parsePath_object ns key :
  ns_Valid ns = true → valid_key key = true → parsePath (object_path ns key) = Some (ns, key).
Proof.
  intros Hns Hk. pose proof (parsePath_complete ns key Hns Hk "/" EmptyString EmptyString) as H.
  rewrite append_empty_r in H. apply H; rewrite !elem_of_cons; auto.
Qed.

Lemma exchange_replica E n chain t r b ns key q w w1 res1 :
  dial (rq_URL r) = Some (Name t, q) → parsePath q = Some (ns, key) → rq_Method r = MethodPut →
  rq_Body r = Some b → inboundHop r ∈ [HopReplica; HopRepair] → node_ok (nodes w (Name t)) →
  exchange dial E chain (serve dial bad_url E (S n)) r w = (w1, res1) →
  touches (Name t) w w1 ∧ keeps (nodes w (Name t)) (nodes w1 (Name t)) ∧
  ∀ resp, res1 = Ok resp → acked resp = true →
    stored ns key (rdata b) (local (nodes w1 (Name t))) ∧ rerr b = None.
Proof.
  intros Hd Hp Hm Hb Hh Hok. unfold exchange. rewrite Hd.
  destruct (framed r) as [fr all] eqn:Hf. pose proof (framed_header r) as Hhd. rewrite Hf in Hhd. simpl in Hhd.
  destruct (framed_body r fr all b Hb Hf) as (b' & Hb' & Hm'). rewrite Hm in Hm'.
  assert (Hserve : ∀ r' b1 w2 res2, rq_Header r' = rq_Header r → rq_Method r' = MethodPut → rq_Body r' = Some b1 →
    serve dial bad_url E (S n) (Name t :: chain) (Name t) r' q w = (w2, res2) →
    touches (Name t) w w2 ∧ keeps (nodes w (Name t)) (nodes w2 (Name t)) ∧
    ∀ resp, res2 = Ok resp → acked resp = true → stored ns key (rdata b1) (local (nodes w2 (Name t)))).
  { intros r' b1 w2 res2 Hh' Hm1 Hb1. apply serve_replica; try done. unfold inboundHop in *. by rewrite Hh'. }
  assert (Hnone : touches (Name t) w w ∧ keeps (nodes w (Name t)) (nodes w (Name t)))
    by (split; [apply touches_refl|apply keeps_refl]).
  destruct (serve dial bad_url E (S n) (Name t :: chain) (Name t) fr q w) as [w2 res2] eqn:HS.
  destruct (Hserve fr b' w2 res2 Hhd Hm' Hb' HS) as (H1 & H2 & H3).
  assert (Hfull : all = true → ∀ resp, res2 = Ok resp → acked resp = true →
    stored ns key (rdata b) (local (nodes w2 (Name t))) ∧ rerr b = None).
  { intros ->. destruct (framed_whole r fr b Hb Hf) as (Hb2 & _ & He). rewrite Hb' in Hb2. injection Hb2 as ->.
    split; [by eapply H3|done]. }
  destruct (ce_net E (Name t :: chain)) as [|e|k e|e|k e].
  - destruct all; intros [= <- <-]; (split; [done|]); (split; [done|]); [by apply Hfull|done].
  - intros [= <- <-]. by destruct Hnone.
  - destruct (serve _ _ _ _ _ _ (cut_request k fr) q w) as [w3 res3] eqn:HS3. intros [= <- <-].
    eapply Hserve in HS3 as (? & ? & _); [by split; [|split]|by rewrite cut_request_header|..];
      unfold cut_request; rewrite Hb'; [by rewrite <-Hm'|done].
  - intros [= <- <-]. by split; [|split].
  - destruct all; intros [= <- <-]; (split; [done|]); (split; [done|]); [|done].
    intros resp Hr Ha. destruct res2 as [resp2|]; [|done]. injection Hr as <-. by apply (Hfull eq_refl resp2).
Qed.

(** A replica write sent to member [t]. *)
Lemma peer_replica E n chain x t ns key b size hop w w' res :
  hop ∈ [HopReplica; HopRepair] → x ≠ EmptyString → t ∈ ms → ns_Valid ns = true → valid_key key = true → node_ok (nodes w (Name t)) →
  @http_Put World (Build_Transport World bad_url (exchange dial E chain (serve dial bad_url E (S n))))
    x t ns key b size hop w = (w', res) →
  touches (Name t) w w' ∧ keeps (nodes w (Name t)) (nodes w' (Name t)) ∧
  (res = Ok tt → stored ns key (rdata b) (local (nodes w' (Name t))) ∧ rerr b = None).
Proof.
  intros Hhop Hx Ht Hns Hk Hok. unfold http_Put.
  set (T := Build_Transport World bad_url _).
  destruct (newRequest x MethodPut t ns key (Some b) hop) as [r|e] eqn:Hr.
  2: { mrun. intros [= <- <-]. split; [apply touches_refl|]. by split; [apply keeps_refl|]. }
  assert (Hin : inboundHop (set_length size r) ∈ [HopReplica; HopRepair]).
  { apply (newRequest_hop _ _ _ _ _ _ _ _ _ _ size Hx) in Hr as [_ ->]; [done|].
    rewrite !elem_of_cons in *. naive_solver. }
  revert Hr. unfold newRequest. destruct (url_err _); [done|]. intros [= <-]. mrun.
  destruct (Do _ w) as [w1 [resp|e]] eqn:HE; mrun;
    (eapply exchange_replica in HE as (H1 & H2 & H3);
      [|by apply (dial_ok t (ns +:+ "/" +:+ key))|by apply parsePath_object|done|done|done|done]).
  - destruct (_ && _) eqn:Ha; mrun; intros [= <- <-]; (split; [done|]); (split; [done|]); [|done].
    intros _. by apply (H3 resp).
  - intros [= <- <-]. by split; [|split].
Qed.

Context (E : ClusterEnv) (n : nat) (chain : list string) (y : string).
Context (y_named : y ≠ EmptyString).

Abbreviation peers := (@HTTPPeerClient World
  (Build_Transport World bad_url (exchange dial E chain (serve dial bad_url E (S n)))) y).

Lemma replicateOne_cluster env ns key size t c w w' res :
  t ∈ ms → Name t ≠ y → ns_Valid ns = true → valid_key key = true →
  node_ok (nodes w (Name t)) → view (local (nodes w y)) ns key = Some c →
  replicateOne (host_of y) peers env ns key size t w = (w', res) →
  (∀ z, z ≠ y → z ≠ Name t → nodes w' z = nodes w z) ∧
  keeps (nodes w y) (nodes w' y) ∧ same_view (nodes w y) (nodes w' y) ∧
  keeps (nodes w (Name t)) (nodes w' (Name t)) ∧
  (res = Ok tt → stored ns key c (local (nodes w' (Name t)))).
Proof.
  intros Ht Hne Hns Hk Hok Hc. unfold replicateOne. mrun.
  destruct (on_local (host_of y) (Get (ne_get env (Name t)) ns key) w) as [w1 [obj|e]] eqn:HG;
    apply on_local_Get in HG as (Ht1 & Hk1 & Hv1 & Hobj); mrun.
  2: { intros [= <- <-]. split; [auto|]. split; [done|]. split; [done|]. split; [|done].
       rewrite Ht1 by done. apply keeps_refl. }
  destruct (Hobj obj eq_refl) as (c' & Hc' & _ & Hrest & _). rewrite Hc in Hc'. injection Hc' as <-.
  destruct (peer_Put _ _ _ _ _ _ _ w1) as [w2 res2] eqn:HP.
  apply peer_replica in HP as (Ht2 & Hk2 & Hst2); [|left|done..|by rewrite Ht1]. simpl in Hst2.
  destruct (on_local_Close y (ne_close env (Name t)) obj w2) as (Ht3 & Hk3 & Hv3).
  intros [= <- <-].
  assert (Hy2 : nodes w2 y = nodes w1 y) by (by apply Ht2).
  split; [intros z Hzy Hzt; by rewrite Ht3, Ht2, Ht1|].
  split; [eapply keeps_trans; [exact Hk1|]; rewrite <-Hy2; exact Hk3|].
  split; [intros ns' key'; rewrite Hv3, Hy2; apply Hv1|].
  rewrite Ht3 by done. rewrite <-(Ht1 (Name t)) by done. split; [done|].
  intros [Hs2 He2]%Hst2. by rewrite (Hrest He2) in Hs2.
Qed.

Lemma run_targets_cluster env ns key size ts c w w' rs :
  NoDup (Name <$> ts) → y ∉ (Name <$> ts) → (∀ t, t ∈ ts → t ∈ ms) →
  ns_Valid ns = true → valid_key key = true → (∀ t, t ∈ ts → node_ok (nodes w (Name t))) →
  view (local (nodes w y)) ns key = Some c →
  run_targets (host_of y) peers env ns key size ts w = (w', rs) →
  (∀ z, z ≠ y → z ∉ (Name <$> ts) → nodes w' z = nodes w z) ∧
  keeps (nodes w y) (nodes w' y) ∧ same_view (nodes w y) (nodes w' y) ∧
  (Forall (λ r, r.2 = None) rs → ∀ t, t ∈ ts → stored ns key c (local (nodes w' (Name t)))).
Proof.
  revert w rs. induction ts as [|t ts IH]; intros w rs Hnd Hny Hms Hns Hk Hok Hc;
    cbn [run_targets].
  { intros [= <- <-]. split; [done|]. split; [apply keeps_refl|]. split; [done|].
    intros _ t Ht. by apply elem_of_nil in Ht. }
  rewrite fmap_cons in Hnd, Hny. apply NoDup_cons in Hnd as [Hni Hnd].
  apply not_elem_of_cons in Hny as [Hne Hny].
  destruct (replicateOne (host_of y) peers env ns key size t w) as [w1 r] eqn:HR.
  destruct (run_targets (host_of y) peers env ns key size ts w1) as [w2 rs2] eqn:HT. intros [= -> <-].
  destruct (replicateOne_cluster env ns key size t c w w1 r) as (Hz1 & Hk1 & Hv1 & _ & Hst1);
    [apply Hms; left|done|done|done|apply Hok; left|done|done|].
  assert (Hoth : ∀ t', t' ∈ ts → Name t' ≠ y ∧ Name t' ≠ Name t).
  { intros t' Ht'%(list_elem_of_fmap_2 Name). split; intros He; [apply Hny|apply Hni]; by rewrite <-He. }
  apply IH in HT as (Hz2 & Hk2 & Hv2 & Hst2); [|done|done|intros; apply Hms; by right|done|done| |].
  2: { intros t' Ht'. destruct (Hoth t' Ht'). rewrite Hz1 by done. apply Hok. by right. }
  2: { by rewrite Hv1. }
  split; [intros z Hzy Hzn; rewrite fmap_cons, not_elem_of_cons in Hzn; destruct Hzn; by rewrite Hz2, Hz1|].
  split; [by eapply keeps_trans|]. split; [intros ns' key'; by rewrite Hv2|].
  intros Hall t' [->|Ht']%elem_of_cons; apply Forall_cons in Hall as [Hr Hall]; [|by apply Hst2].
  rewrite Hz2 by (done || congruence). simpl in Hr. destruct r as [[]|]; [by apply Hst1|done].
Qed.

Lemma fanOut_cluster env ns key size ts c w w' rs :
  NoDup (Name <$> ts) → y ∉ (Name <$> ts) → (∀ t, t ∈ ts → t ∈ ms) →
  ns_Valid ns = true → valid_key key = true → (∀ t, t ∈ ts → node_ok (nodes w (Name t))) →
  view (local (nodes w y)) ns key = Some c →
  fanOut (host_of y) peers env ns key size ts w = (w', rs) →
  same_view (nodes w y) (nodes w' y) ∧
  (Forall (λ r, r.2 = None) rs → ∀ t, t ∈ ts → stored ns key c (local (nodes w' (Name t)))).
Proof.
  intros Hnd Hny Hms Hns Hk Hok Hc. unfold fanOut.
  destruct (run_targets (host_of y) peers env ns key size (schedule env ts) w) as [w1 done_] eqn:HR.
  intros [= -> <-]. pose proof (schedule_perm env ts) as Hp.
  pose proof (run_targets_spec _ _ _ _ _ _ _ _ _ _ HR) as Hfst.
  assert (Hnames : done_.*1 = Name <$> schedule env ts).
  { clear -Hfst. induction Hfst as [|t r ts' rs' [Hr _] _ IH]; [done|]. csimpl. by rewrite Hr, IH. }
  assert (Hnd' : NoDup (Name <$> schedule env ts)) by (by rewrite (fmap_Permutation Name _ _ Hp)).
  apply (run_targets_cluster _ _ _ _ _ c) in HR as (_ & _ & Hv & Hst);
    [|done|by rewrite (fmap_Permutation Name _ _ Hp)|intros t Ht; rewrite Hp in Ht; auto|done|done
     |intros t Ht; rewrite Hp in Ht; auto|done].
  split; [done|]. intros Hall t Ht. apply Hst; [|by rewrite Hp].
  apply Forall_forall. intros [x o] Hin.
  assert (x ∈ Name <$> schedule env ts) as (t' & -> & Ht')%list_elem_of_fmap.
  { rewrite <-Hnames. by apply (list_elem_of_fmap_2 fst _ (x, o)). }
  rewrite Hp in Ht'. rewrite Forall_fmap, Forall_forall in Hall. specialize (Hall t' Ht'). simpl in *.
  rewrite (elem_of_list_to_map_1 done_ (Name t') o) in Hall; [done|by rewrite Hnames|done].
Qed.

(** A coordinated write that was acknowledged is on every holder. *)
Lemma coordinate_cluster env ns key body size w w' out :
  let c := nodes w y in
  members (ring c) = ms → NoDup (Name <$> ms) → self (ring c) = y →
  selfIn c (Holders (ring c) key (replicaCount c)) = true →
  node_ok c → (∀ m, m ∈ ms → node_ok (nodes w (Name m))) →
  coordinate (host_of y) (Some peers) env ns key body size w = (w', (out, None)) →
  ∀ m, m ∈ Holders (ring c) key (replicaCount c) →
    stored ns key (rdata body) (local (nodes w' (Name m))).
Proof.
  intros c Hmem Hnd Hself Hin Hokc Hok. set (hs := Holders (ring c) key (replicaCount c)) in *.
  unfold coordinate. simpl. fold c hs. rewrite Hself.
  destruct (on_local (host_of y) (Put (ne_put env) ns key body size) w) as [w1 [pr|e]] eqn:HP; [|done].
  apply on_local_Put in HP as (Ht1 & Hk1 & Hput); [|done].
  destruct (Hput pr eq_refl) as (Hns & Hvk & x & Hx & _ & Hd).
  assert (Hstx : stored ns key (rdata body) (local (nodes w1 y))).
  { exists x. split; [done|]. by destruct (ContentAddressed ns); [|destruct Hd]. }
  destruct (count_node y CoordinatedPuts 1 w1) as (Ht2 & Hk2 & Hv2).
  set (w2 := count (host_of y) CoordinatedPuts 1 w1) in *.
  set (ts := filter (λ m, Name m ≠ y) hs).
  assert (Hnh : NoDup (Name <$> hs)).
  { unfold hs. rewrite Holders_take, fmap_take. apply NoDup_take.
    by rewrite (fmap_Permutation Name _ _ (Owners_perm (ring c) key)), Hmem. }
  assert (Hperm : Name <$> hs ≡ₚ y :: (Name <$> ts)).
  { rewrite <-Hself at 1. unfold ts. rewrite <-Hself. by apply names_without, selfIn_spec. }
  assert (Hsub : ∀ m, m ∈ hs → m ∈ ms).
  { intros m Hm. unfold hs in Hm. rewrite Holders_take in Hm. apply take_elem_of in Hm.
    by rewrite Owners_perm, Hmem in Hm. }
  pose proof Hnh as Hnt. rewrite Hperm in Hnt. apply NoDup_cons in Hnt as [Hyt Hnt].
  destruct (if bool_decide (ts = []) then _ else _) as [w3 results] eqn:HF.
  destruct (tally results) as [[got ak] causes] eqn:HT.
  pose proof (Permutation_length Hperm) as Hlen. simpl in Hlen. rewrite !length_fmap in Hlen.
  destruct (Z.ltb_spec (1 + got) (Z.of_nat (length hs))) as [|Hge]; [done|]. intros [= <- _].
  assert (Hrun : same_view (nodes w2 y) (nodes w3 y) ∧ (length results ≤ length ts)%nat ∧
    (Forall (λ r, r.2 = None) results → ∀ t, t ∈ ts → stored ns key x (local (nodes w3 (Name t))))).
  { case_bool_decide as Hts.
    - injection HF as <- <-. split; [done|]. split; [simpl; lia|]. intros _ t Ht. rewrite Hts in Ht.
      by apply elem_of_nil in Ht.
    - assert (length results = length ts) as Hl.
      { unfold fanOut in HF. destruct (run_targets _ _ _ _ _ _ _ _). injection HF as _ <-. apply length_fmap. }
      apply (fanOut_cluster _ _ _ _ _ x) in HF as [? ?]; [split; [done|]; split; [lia|done]|done|done|..|done|done| |].
      + intros t [_ Ht]%list_elem_of_filter. by apply Hsub.
      + intros t Ht. assert (Name t ≠ y) by (by apply list_elem_of_filter in Ht as [? _]).
        rewrite Ht2, Ht1 by done. apply Hok, Hsub. by apply list_elem_of_filter in Ht as [_ ?].
      + by rewrite Hv2. }
  destruct Hrun as (Hv3 & Hle & Hst).
  destruct (tally_all _ _ _ _ HT) as (Hall & _ & _ & _); [lia|].
  destruct (count_node y ReplicaFailures (Z.of_nat (length causes)) w3) as (Ht4 & _ & Hv4).
  intros m Hm. destruct (decide (Name m = y)) as [->|Hne].
  - eapply stored_same_view; [exact Hv4|]. eapply stored_same_view; [exact Hv3|].
    eapply stored_same_view; [exact Hv2|done].
  - rewrite Ht4 by done. destruct (Hst Hall m) as (z & Hz & Hzd); [by apply list_elem_of_filter|].
    exists z. split; [done|]. destruct (ContentAddressed ns); [done|]. destruct Hd as [-> _]. done.
Qed.
End replicate.

(** ** A write through any node *)

(** All nodes know the same members and replication factor, and each one's
    store is in order. *)
Record cluster_ok (ms : list Member) (rc : Z) (w : World) : Prop := {
  co_names : NoDup (Name <$> ms);
  co_ring : ∀ m, m ∈ ms → let c := nodes w (Name m) in
    members (ring c) = ms ∧ self (ring c) = Name m ∧ replicaCount c = rc ∧ Name m ≠ EmptyString;
  co_store : ∀ m, m ∈ ms → node_ok (nodes w (Name m)) }.

Lemma Holders_members r r' key n : members r = members r' → Holders r key n = Holders r' key n.
Proof. intros H. unfold Holders, Owners. by rewrite H. Qed.

Lemma cluster_ok_keeps ms rc w x w' :
  touches x w w' → keeps (nodes w x) (nodes w' x) → cluster_ok ms rc w → cluster_ok ms rc w'.
Proof.
  intros Ht (Hr & Hc & Hok) [Hn Hring Hst]. split; [done|..]; intros m Hm; cbv zeta.
  - destruct (decide (Name m = x)) as [<-|Hne]; [rewrite Hr, Hc|rewrite Ht by done]; by apply Hring.
  - destruct (decide (Name m = x)) as [<-|Hne]; [by apply Hok, Hst|rewrite Ht by done]. by apply Hst.
Qed.

Section anywhere.
Context (dial : string → option (string * string)) (bad_url : string → option error).
Context (ms : list Member) (rc : Z).
Context (dial_ok : ∀ m q, m ∈ ms → dial (URL m +:+ "/" +:+ q) = Some (Name m, "/" +:+ q)).

(** A node that coordinates a write, for a client or for the node that sent it
    the write. *)
Lemma coordinator_cluster E n chain y ns key body size hop w w' out :
  cluster_ok ms rc w → y ∈ ms →
  y ∈ Holders (ring (nodes w (Name y))) key rc →
  hop = HopClient ∨ hop = HopCoordinator →
  coord_Put (host_of (Name y)) (Some (@HTTPPeerClient World (Build_Transport World bad_url
      (exchange dial E chain (serve dial bad_url E (S n)))) (Name y)))
    (ce_node E chain) ns key body size hop w = (w', (out, None)) →
  ∀ m, m ∈ Holders (ring (nodes w (Name y))) key rc →
    stored ns key (rdata body) (local (nodes w' (Name m))).
Proof.
  intros [Hn Hring Hst] Hy Hin Hhop HP. destruct (Hring y Hy) as (Hmem & Hself & Hrc & Hne).
  assert (Hselfin : selfIn (nodes w (Name y)) (Holders (ring (nodes w (Name y))) key rc) = true).
  { apply selfIn_spec. rewrite Hself. by apply list_elem_of_fmap_2. }
  rewrite <-Hrc in Hselfin |- *.
  apply (coordinate_cluster dial bad_url ms dial_ok E n chain (Name y) Hne (ce_node E chain) ns key body size w w' out);
    [done..|by apply Hst|done|].
  revert HP. unfold coord_Put. simpl. rewrite Hselfin. by destruct Hhop as [->| ->].
Qed.

(** A write forwarded to its coordinator. *)
Lemma peer_coordinator E n chain x t ns key b size w w' :
  x ≠ EmptyString → cluster_ok ms rc w → t ∈ ms → ns_Valid ns = true → valid_key key = true →
  t ∈ Holders (ring (nodes w (Name t))) key rc →
  @http_Put World (Build_Transport World bad_url (exchange dial E chain (serve dial bad_url E (S (S n)))))
    x t ns key b size HopCoordinator w = (w', Ok tt) →
  ∀ m, m ∈ Holders (ring (nodes w (Name t))) key rc →
    stored ns key (rdata b) (local (nodes w' (Name m))).
Proof.
  intros Hx Hok Ht Hns Hk Hin. unfold http_Put. set (T := Build_Transport World bad_url _).
  destruct (newRequest x MethodPut t ns key (Some b) HopCoordinator) as [r|e] eqn:Hr; [|done].
  assert (Hhop : inboundHop (set_length size r) = HopCoordinator).
  { apply (newRequest_hop _ _ _ _ _ _ _ _ _ _ size Hx) in Hr as [_ ?]; [done|]. rewrite !elem_of_cons; auto. }
  revert Hr. unfold newRequest. destruct (url_err _); [done|]. intros [= <-]. mrun.
  destruct (Do _ w) as [w1 [resp|e]] eqn:HE; mrun; [|done].
  destruct (_ && _) eqn:Ha; mrun; [|done]. intros [= <-].
  revert HE. set (r := set_length _ _) in *. assert (Hb : rq_Body r = Some b) by done.
  assert (Hm : rq_Method r = MethodPut) by done.
  assert (Hd : dial (rq_URL r) = Some (Name t, object_path ns key)) by apply (dial_ok t (ns +:+ "/" +:+ key) Ht).
  clearbody r. change (Do r w) with (exchange dial E chain (serve dial bad_url E (S (S n))) r w).
  unfold exchange. rewrite Hd. destruct (framed r) as [fr all] eqn:Hf.
  pose proof (framed_header r) as Hhd. rewrite Hf in Hhd. simpl in Hhd.
  assert (Hserve : all = true → ∀ w2 resp2,
    serve dial bad_url E (S (S n)) (Name t :: chain) (Name t) fr (object_path ns key) w = (w2, Ok resp2) →
    acked resp2 = true → ∀ m, m ∈ Holders (ring (nodes w (Name t))) key rc →
      stored ns key (rdata b) (local (nodes w2 (Name m)))).
  { intros -> w2 resp2 HS Ha2. destruct (framed_whole r fr b Hb Hf) as (Hb' & Hm' & _). rewrite Hm in Hm'.
    eapply serve_put in HS as (resp3 & [= <-] & [[_ Hno]|(out & err & HP & Hiff)]);
      [congruence| |by apply parsePath_object|done|done].
    apply Hiff in Ha2 as ->.
    assert (Hh : inboundHop fr = HopCoordinator) by (unfold inboundHop in *; by rewrite Hhd).
    rewrite Hh in HP.
    apply (coordinator_cluster E n (Name t :: chain) t ns key (mkReader (rdata b) None)
      (rq_ContentLength fr) HopCoordinator w w2 out); auto. }
  destruct (serve dial bad_url E (S (S n)) (Name t :: chain) (Name t) fr (object_path ns key) w) as [w2 res2] eqn:HS.
  destruct (ce_net E (Name t :: chain)) as [|e|k e|e|k e]; try discriminate; destruct all; try discriminate.
  - intros [= <- ->]. by eapply Hserve.
  - destruct res2 as [resp2|]; [|discriminate]. intros [= <- <-]. by eapply Hserve.
Qed.
End anywhere.

(** A write acknowledged to a client, through a holder or not. *)
Lemma acked_write_stored dial bad_url ms rc E x r ns key body w w' resp :
  (∀ m q, m ∈ ms → dial (URL m +:+ "/" +:+ q) = Some (Name m, "/" +:+ q)) →
  cluster_ok ms rc w → x ∈ ms → ns_Valid ns = true → valid_key key = true →
  rq_Method r = MethodPut → rq_Body r = Some body →
  header_Get (rq_Header r) HeaderForwardedBy = EmptyString →
  serve dial bad_url E 3 [Name x] (Name x) r (object_path ns key) w = (w', Ok resp) →
  acked resp = true →
  ∀ m, m ∈ Holders (ring (nodes w (Name x))) key rc →
    stored ns key (rdata body) (local (nodes w' (Name m))).
Proof.
  intros dial_ok Hok Hx Hns Hk Hm Hb Hf HS Ha.
  destruct (co_ring _ _ _ Hok x Hx) as (Hmem & Hself & Hrc & Hne).
  assert (Hhop : inboundHop r = HopClient) by (unfold inboundHop; by rewrite Hf).
  eapply serve_put in HS as (? & [= <-] & [[_ Hno]|(out & err & HP & Hiff)]);
    [congruence| |by apply parsePath_object|done|done].
  apply Hiff in Ha as ->. rewrite Hhop in HP.
  set (hs := Holders (ring (nodes w (Name x))) key rc).
  destruct (selfIn (nodes w (Name x)) hs) eqn:Hin.
  { apply selfIn_spec in Hin. rewrite Hself in Hin. apply list_elem_of_fmap in Hin as (x' & Hnx & Hx').
    assert (x' = x) as ->.
    { assert (x' ∈ ms) as Hx'ms.
      { unfold hs in Hx'. rewrite Holders_take in Hx'. apply take_elem_of in Hx'.
        by rewrite Owners_perm, Hmem in Hx'. }
      apply (NoDup_fmap_inj_in Name ms); [|done..]. apply Hok. }
    by apply (coordinator_cluster dial bad_url ms rc dial_ok E 1 [Name x] x ns key body (rq_ContentLength r)
      HopClient w w' out); auto. }
  revert HP. unfold coord_Put. simpl. rewrite Hrc. fold hs. rewrite Hin.
  unfold proxyPut. destruct hs as [|t ts] eqn:Hhs; [done|].
  destruct (count_node (Name x) ForwardedPuts 1 w) as (Ht1 & Hk1 & _).
  set (w1 := count (host_of (Name x)) ForwardedPuts 1 w) in *.
  assert (Hts : t ∈ ms).
  { assert (t ∈ hs) as Hin' by (rewrite Hhs; left). unfold hs in Hin'. rewrite Holders_take in Hin'.
    apply take_elem_of in Hin'. by rewrite Owners_perm, Hmem in Hin'. }
  assert (Hsame : Holders (ring (nodes w1 (Name t))) key rc = hs).
  { apply Holders_members. pose proof (cluster_ok_keeps ms rc w _ w1 Ht1 Hk1 Hok) as Hok1.
    destruct (co_ring _ _ _ Hok1 t Hts) as (-> & _). done. }
  destruct (peer_Put _ _ _ _ _ _ _ w1) as [w2 [[]|e]] eqn:HPut; [|done]. intros [= <- _] m Hmin.
  rewrite <-Hhs, <-Hsame in Hmin.
  eapply (peer_coordinator dial bad_url ms rc dial_ok E 0 [Name x] (Name x) t); [done|..|exact HPut|done].
  - by eapply cluster_ok_keeps.
  - done.
  - done.
  - done.
  - rewrite Hsame, Hhs. left.
Qed.

(** ** Claims *)

(** C1: a write acknowledged to a client is on every holder.  In a cluster whose
    nodes agree on the membership, a PUT a client sends to any node, a holder or
    not, that is answered with a success status has left an object on every
    holder of its key: for an action result exactly the uploaded bytes, for a
    content-addressed object bytes with the right digest.  The network may
    refuse, cut or lose any message, disks and databases may fail, and the
    fan-out may run in any order. *)
Theorem acknowledged_write_is_on_every_holder dial bad_url ms rc E x r ns key body w w' resp :
  (∀ m q, m ∈ ms → dial (URL m +:+ "/" +:+ q) = Some (Name m, "/" +:+ q)) →
  cluster_ok ms rc w → x ∈ ms → ns_Valid ns = true → valid_key key = true →
  rq_Method r = MethodPut → rq_Body r = Some body →
  header_Get (rq_Header r) HeaderForwardedBy = EmptyString →
  serve dial bad_url E 3 [Name x] (Name x) r (object_path ns key) w = (w', Ok resp) →
  acked resp = true →
  ∀ m, m ∈ Holders (ring (nodes w (Name x))) key rc →
    stored ns key (rdata body) (local (nodes w' (Name m))).
Proof. apply acked_write_stored. Qed.

(** C7: forwarding cannot loop.  However the nodes disagree about the
    membership, and whatever they and the network do, a client's request is
    served through a chain of at most three nodes and a forwarded request
    through fewer: allowing longer chains changes nothing. *)
Theorem forwarding_is_bounded dial bad_url E n chain x r p w :
  (∀ url y q, dial url = Some (y, q) → y ≠ EmptyString) → x ≠ EmptyString →
  let hops := S (hop_rank (inboundHop r)) in
  (hops ≤ 3)%nat ∧
  serve dial bad_url E (hops + n) chain x r p w = serve dial bad_url E hops chain x r p w.
Proof.
  intros Hd Hx hops. split.
  - unfold hops, hop_rank. repeat case_match; lia.
  - apply serve_depth; [done..|lia|lia].
Qed.

(** ** Three nodes, for the witnesses *)

Definition trio_world : World :=
  mkWorld trio_node.

Fixpoint trio_dial_from (ms : list Member) (url : string) : option (string * string) :=
  match ms with
  | [] => None
  | m :: ms' =>
      if HasPrefix url (URL m +:+ "/") then Some (Name m, "/" +:+ TrimPrefix url (URL m +:+ "/"))
      else trio_dial_from ms' url
  end.

Definition trio_dial : string → option (string * string) := trio_dial_from trio.

Lemma trio_dial_ok m q : m ∈ trio → trio_dial (URL m +:+ "/" +:+ q) = Some (Name m, "/" +:+ q).
Proof.
  unfold trio at 1. rewrite !elem_of_cons, elem_of_nil.
  intros [->|[->|[->|[]]]]; unfold trio_dial; simpl;
    rewrite ?prefix_append; unfold TrimPrefix, HasPrefix; simpl; by destruct q.
Qed.

Lemma trio_dial_named url y q : trio_dial url = Some (y, q) → y ≠ EmptyString.
Proof. unfold trio_dial. simpl. repeat case_match; intros; by simplify_eq. Qed.

Lemma trio_ok : cluster_ok trio 2 trio_world.
Proof.
  split.
  - exact trio_NoDup.
  - intros m Hm. do 3 (split; [done|]). unfold trio in Hm.
    rewrite !elem_of_cons, elem_of_nil in Hm. by destruct Hm as [->|[->|[->|[]]]].
  - intros m _. split; [apply fresh_store_ok|done].
Qed.

(** An upload of an action result. *)
Definition upload : Request :=
  mkRequest MethodPut EmptyString ∅ (Some (mkReader abc_bytes None)) 3.

Definition trio_env : ClusterEnv := cluster_fine 7 100.

Definition trio_run := serve trio_dial (λ _, None) trio_env 3 ["node-a"] "node-a" upload
  (object_path NamespaceAC action_key) trio_world.

Lemma trio_run_acked : match trio_run.2 with Ok resp => acked resp | Err _ => false end = true.
Proof. vm_compute. reflexivity. Qed.

Lemma acknowledged_write_is_on_every_holder_witness :
  stored NamespaceAC action_key abc_bytes (local (nodes trio_run.1 "node-b")).
Proof.
  pose proof trio_run_acked as H. destruct trio_run.2 as [resp|e] eqn:E; [|discriminate].
  apply (acknowledged_write_is_on_every_holder trio_dial (λ _, None) trio 2 trio_env
    (mkMember "node-a" "http://node-a" 1) upload NamespaceAC action_key (mkReader abc_bytes None)
    trio_world trio_run.1 resp trio_dial_ok trio_ok) with (m := mkMember "node-b" "http://node-b" 2).
  - left.
  - reflexivity.
  - vm_compute. reflexivity.
  - reflexivity.
  - reflexivity.
  - reflexivity.
  - rewrite <-E. exact (surjective_pairing trio_run).
  - exact H.
  - apply (bool_decide_unpack _). vm_compute. exact I.
Defined.

Lemma forwarding_is_bounded_witness :
  serve trio_dial (λ _, None) trio_env 8 ["node-a"] "node-a" upload (object_path NamespaceAC action_key) trio_world
  = trio_run.
Proof.
  apply (forwarding_is_bounded trio_dial (λ _, None) trio_env 5 ["node-a"] "node-a" upload
    (object_path NamespaceAC action_key) trio_world trio_dial_named). discriminate.
Defined.
