(* ===== verification/Repair.v ===== *)
(** * The repair worker: internal/repair/repair.go

    The [Worker] pages through the local index, queues the objects this node is
    a holder of, and its pool sends a copy to every other holder that answers
    that it has none.  [rstep] is the pool under [Run]: audit passes, the
    goroutines of the pool, cancellation and shutdown, in any order.  A panic is
    [None]. *)

From S2P Require Import Prelude GoStrings Sha256 Errors Key Config Ring Protocol Index FileSystem Store StoreSpec Evict Client Coordinator HttpApi Cluster.

#[local] Open Scope Z_scope.

(** ** State *)

Record Task := mkTask { t_Namespace : string; t_Key : string; t_Size : Z }.

Inductive rcounter :=
  | AuditRuns | ObjectsAudited | Enqueued | DroppedFullQueue | Repaired | AlreadyPresent | Failed
  | BytesRepaired | NotOurs | DeclinedOverQuota.

#[export] Instance rcounter_eq_dec : EqDecision rcounter.
Proof. solve_decision. Defined.

(** The counters of [Stats], as a function. *)
Definition RepairStats : Type := rcounter → Z.

(** [queue] is a channel: its buffer, its capacity and whether it is closed;
    [w_done] is whether the channel [done] is closed, [w_once] whether [once]
    has run. *)
Record Worker := mkWorker {
  queue : list Task;
  queue_cap : Z;
  queue_closed : bool;
  nWorkers : Z;
  auditBudget : Z;
  cursor : string * string;
  rstats : RepairStats;
  started : bool;
  w_done : bool;
  w_once : bool }.

Definition defaultWorkers : Z := 4.
Definition defaultQueueSize : Z := 1024.
Definition defaultAuditBudget : Z := 5000.

Definition New (coord : option Coordinator) (workers queueSize budget : Z) : result Worker :=
  match coord with
  | None => Err (Errorf "repair: coordinator is required")
  | Some _ =>
      Ok (mkWorker [] (if queueSize <=? 0 then defaultQueueSize else queueSize) false
            (if workers <=? 0 then defaultWorkers else workers)
            (if budget <=? 0 then defaultAuditBudget else budget)
            (EmptyString, EmptyString) (λ _, 0) false false false)
  end.

Definition set_queue (q : list Task) (w : Worker) : Worker :=
  mkWorker q (queue_cap w) (queue_closed w) (nWorkers w) (auditBudget w) (cursor w) (rstats w)
    (started w) (w_done w) (w_once w).

Definition close_queue (w : Worker) : Worker :=
  mkWorker (queue w) (queue_cap w) true (nWorkers w) (auditBudget w) (cursor w) (rstats w)
    (started w) (w_done w) (w_once w).

Definition setCursor (c : string * string) (w : Worker) : Worker :=
  mkWorker (queue w) (queue_cap w) (queue_closed w) (nWorkers w) (auditBudget w) c (rstats w)
    (started w) (w_done w) (w_once w).

Definition radd (k : rcounter) (n : Z) (w : Worker) : Worker :=
  mkWorker (queue w) (queue_cap w) (queue_closed w) (nWorkers w) (auditBudget w) (cursor w)
    (λ k', if decide (k' = k) then rstats w k' + n else rstats w k') (started w) (w_done w) (w_once w).

Definition set_life (st dn on : bool) (w : Worker) : Worker :=
  mkWorker (queue w) (queue_cap w) (queue_closed w) (nWorkers w) (auditBudget w) (cursor w) (rstats w)
    st dn on.

(** [Snapshot]: the counters, the depth and the capacity of the queue. *)
Definition Snapshot (w : Worker) : RepairStats * Z * Z :=
  (rstats w, Z.of_nat (length (queue w)), queue_cap w).

(** [close(w.done)], which panics on a closed channel. *)
Definition close_done (w : Worker) : option Worker :=
  if w_done w then None else Some (set_life (started w) true (w_once w) w).

Definition Close (w : Worker) : option Worker :=
  if w_once w then Some w
  else
    let w := set_life (started w) (w_done w) true w in
    if negb (started w) then close_done w else Some w.

(** ** The queue *)

(** A send that never blocks; on a closed channel it panics. *)
Definition enqueue (t : Task) (w : Worker) : option (Worker * bool) :=
  if queue_closed w then None
  else if Z.of_nat (length (queue w)) <? queue_cap w
       then Some (radd Enqueued 1 (set_queue (queue w ++ [t]) w), true)
       else Some (radd DroppedFullQueue 1 w, false).

Definition Enqueue (t : Task) (w : Worker) : option (Worker * bool) := enqueue t w.

(** The pool takes the first [n] tasks. *)
Definition receive (n : nat) (w : Worker) : Worker * list Task :=
  (set_queue (drop n (queue w)) w, take n (queue w)).

Definition pendingAfterFullSweep (w : Worker) : bool := 0 <? Z.of_nat (length (queue w)).

(** ** Auditing *)

Definition auditPageSize : Z := 512.

(** What a pass meets, by the number of objects examined: its context, the
    database, and how many tasks the pool took from the queue. *)
Record AuditEnv := mkAuditEnv {
  ae_ctx : nat → option error;
  ae_db : nat → option error;
  ae_taken : nat → nat }.

Definition audit_fine : AuditEnv := mkAuditEnv (λ _, None) (λ _, None) (λ _, 0%nat).

Definition task_of (e : Entry) : Task := mkTask (e_ref e).1 (e_ref e).2 (row_size (e_row e)).

(** The loop over one page: the worker, the tasks the pool took, the cursor and
    whether the page was finished. *)
Fixpoint audit_page (E : AuditEnv) (r : Ring) (rf : Z) (page : list Entry) (examined : nat)
    (cur : string * string) (w : Worker) (got : list Task)
    : option (Worker * list Task * (string * string) * bool) :=
  match page with
  | [] => Some (w, got, cur, true)
  | e :: page' =>
      let '(w, g) := receive (ae_taken E examined) w in
      let w := radd ObjectsAudited 1 w in
      if negb (SelfHolds r (e_ref e).2 rf) then
        audit_page E r rf page' (S examined) (e_ref e) (radd NotOurs 1 w) (got ++ g)
      else
        '(w, ok) ← enqueue (task_of e) w;
        if (ok : bool) then audit_page E r rf page' (S examined) (e_ref e) w (got ++ g)
        else Some (w, got ++ g, cur, false)
  end.

(** The loop over the pages; [left] is the budget that is left. *)
Fixpoint audit_loop {Scan : SqlScan} (E : AuditEnv) (r : Ring) (rf : Z) (idx : Index) (left examined : nat)
    (cur : string * string) (w : Worker) (got : list Task) : option (Worker * list Task * result bool) :=
  match left with
  | O => Some (setCursor cur w, got, Ok true)
  | S left' =>
      match ae_ctx E examined with
      | Some e => Some (w, got, Err e)
      | None =>
          match (PageAfter (ae_db E examined) cur.1 cur.2 auditPageSize idx).2 with
          | Err e => Some (w, got, Err e)
          | Ok [] =>
              let w := setCursor (EmptyString, EmptyString) w in
              Some (w, got, Ok (pendingAfterFullSweep w))
          | Ok page =>
              '(w, got, cur, all) ← audit_page E r rf page examined cur w got;
              if (all : bool)
              then audit_loop E r rf idx (left' - (length page - 1)) (examined + length page) cur w got
              else Some (setCursor cur w, got, Ok true)
          end
      end
  end.

Definition auditPass {Scan : SqlScan} (E : AuditEnv) (c : Coordinator) (w : Worker)
    : option (Worker * list Task * result bool) :=
  match index (local c) with
  | None => Some (w, [], Ok false)
  | Some idx =>
      if (Size (ring c) <? 2) || (replicaCount c <? 2) then Some (w, [], Ok false)
      else audit_loop E (ring c) (replicaCount c) idx (Z.to_nat (auditBudget w)) 0 (cursor w)
             (radd AuditRuns 1 w) []
  end.

Definition Audit {Scan : SqlScan} (E : AuditEnv) (c : Coordinator) (w : Worker)
    : option (Worker * list Task * option error) :=
  '(w, got, r) ← auditPass E c w;
  Some (w, got, match r with Ok _ => None | Err e => Some e end).

(** ** Repairing *)

Definition StatusInsufficientStorage : Z := 507.

Definition isOverQuota (e : error) : bool :=
  match errors_AsPeerError e with
  | Some st => st =? StatusInsufficientStorage
  | None => errors_Is e IsOverQuota
  end.

(** What a repair meets: its context before each holder, and the local disk. *)
Record RepairEnv := mkRepairEnv {
  rp_ctx : string → option error;
  rp_stat : option error * Z;
  rp_get : string → GetEnv;
  rp_close : string → option error }.

Definition repair_fine (now : Z) : RepairEnv :=
  mkRepairEnv (λ _, None) (None, now) (λ _, get_fine now) (λ _, None).

(** What became of one holder. *)
Inductive copy_outcome :=
  | Present | Unreachable (e : error) | Declined | NotCopied (e : error) | Recreated.

Section repair.
Context {S : Type} (host : Host S) (peers : PeerClient S).

Definition sendCopy (env : RepairEnv) (target : Member) (t : Task) (size : Z) : M S unit :=
  r ← attempt (on_local host (Get (rp_get env (Name target)) (t_Namespace t) (t_Key t)));
  match r with
  | Err e => fail (Wrap "reopen local copy" e)
  | Ok obj =>
      deferred (peer_Put peers target (t_Namespace t) (t_Key t)
                  (mkReader (o_rest obj) (o_readerr obj)) size HopRepair)
        (λ _ s, (on_local host (Object_Close (rp_close env (Name target)) obj) s).1)
  end.

(** The body of the loop over the holders. *)
Definition repair_one (env : RepairEnv) (t : Task) (size : Z) (m : Member) (s : S) : S * copy_outcome :=
  let '(s1, r) := peer_Stat peers m (t_Namespace t) (t_Key t) HopRead s in
  match r with
  | Ok _ => (s1, Present)
  | Err e =>
      if negb (errors_Is e IsPeerNotFound) then (s1, Unreachable e)
      else
        let '(s2, r) := sendCopy env m t size s1 in
        (s2, match r with
             | Err e => if isOverQuota e then Declined else NotCopied e
             | Ok _ => Recreated
             end)
  end.

Definition record_outcome (size : Z) (o : copy_outcome) (w : Worker) : Worker :=
  match o with
  | Present => radd AlreadyPresent 1 w
  | Unreachable _ => w
  | Declined => radd DeclinedOverQuota 1 w
  | NotCopied _ => radd Failed 1 w
  | Recreated => radd BytesRepaired size (radd Repaired 1 w)
  end.

(** The loop over the holders, with what became of each one asked. *)
Fixpoint repair_loop (env : RepairEnv) (me : string) (t : Task) (size : Z) (ms : list Member) (w : Worker)
    (s : S) : S * Worker * list (Member * copy_outcome) :=
  match ms with
  | [] => (s, w, [])
  | m :: ms' =>
      if String.eqb (Name m) me then repair_loop env me t size ms' w s
      else
        match rp_ctx env (Name m) with
        | Some _ => (s, w, [])
        | None =>
            let '(s1, o) := repair_one env t size m s in
            let '(s2, w2, os) := repair_loop env me t size ms' (record_outcome size o w) s1 in
            (s2, w2, (m, o) :: os)
        end
  end.

Definition repair (env : RepairEnv) (t : Task) (w : Worker) (s : S)
    : S * Worker * list (Member * copy_outcome) :=
  let c := h_get host s in
  let '(s1, r) := on_local host (Stat_ (rp_stat env).1 (rp_stat env).2 (t_Namespace t) (t_Key t)) s in
  match r with
  | Err _ => (s1, w, [])
  | Ok st =>
      repair_loop env (self (ring c)) t (st_Size st) (Holders (ring c) (t_Key t) (replicaCount c)) w s1
  end.

(** ** The pool *)

(** One iteration of [workerLoop]: a task received after cancellation is
    dropped. *)
Definition work (env : RepairEnv) (cancelled : bool) (t : Task) (ws : Worker * S) : Worker * S :=
  if cancelled then ws
  else let '(s, w, _) := repair env t ws.1 ws.2 in (w, s).

Definition backlogInterval : Z := 250 * 1000000.

(** [Run]: waiting for its timer, waiting for the pool after closing the queue,
    or returned. *)
Inductive run_phase := Waiting (wait : Z) | Closing | Returned.

Record Pool := mkPool {
  pool_worker : Worker;
  pool_world : S;
  pool_interval : Z;
  pool_cancelled : bool;
  pool_alive : nat;
  pool_phase : run_phase }.

(** The start of [Run]; a second call returns at once. *)
Definition start (interval : Z) (w : Worker) (s : S) : option Pool :=
  if started w then None
  else
    let interval := if interval <=? 0 then 60 * 1000000000 else interval in
    Some (mkPool (set_life true (w_done w) (w_once w) w) s interval false
            (Z.to_nat (nWorkers w)) (Waiting interval)).

(** The timer fires: a pass runs, and the pool works off what it took. *)
Definition tick {Scan : SqlScan} (E : AuditEnv) (env : RepairEnv) (p : Pool) : option Pool :=
  '(w, got, r) ← auditPass E (h_get host (pool_world p)) (pool_worker p);
  let '(w, s) := fold_left (λ ws t, work env (pool_cancelled p) t ws) got (w, pool_world p) in
  let pending := match r with Ok b => b | Err _ => false end in
  Some (mkPool w s (pool_interval p) (pool_cancelled p) (pool_alive p)
          (Waiting (if pending then backlogInterval else pool_interval p))).

(** Run's timer fires.  A pass that begins after the cancellation finds its
    context's error. *)
Inductive rpass {Scan : SqlScan} : Pool → Pool → Prop :=
  | r_tick E env p p' wait :
      pool_phase p = Waiting wait → (pool_cancelled p = true → ∀ n, is_Some (ae_ctx E n)) →
      tick E env p = Some p' → rpass p p'.

(** Everything else that happens: the cancellation, a task taken, the queue closed,
    a goroutine leaving its loop, and [Run] returning. *)
Inductive rmove : Pool → Pool → Prop :=
  | r_cancel p :
      pool_cancelled p = false →
      rmove p (mkPool (pool_worker p) (pool_world p) (pool_interval p) true (pool_alive p) (pool_phase p))
  | r_work env p t q w s :
      (0 < pool_alive p)%nat → queue (pool_worker p) = t :: q →
      work env (pool_cancelled p) t (set_queue q (pool_worker p), pool_world p) = (w, s) →
      rmove p (mkPool w s (pool_interval p) (pool_cancelled p) (pool_alive p) (pool_phase p))
  | r_close p wait :
      pool_cancelled p = true → pool_phase p = Waiting wait →
      rmove p (mkPool (close_queue (pool_worker p)) (pool_world p) (pool_interval p) true
                 (pool_alive p) Closing)
  | r_exit p n :
      pool_alive p = Datatypes.S n → queue (pool_worker p) = [] → queue_closed (pool_worker p) = true →
      rmove p (mkPool (pool_worker p) (pool_world p) (pool_interval p) (pool_cancelled p) n (pool_phase p))
  | r_return p w :
      pool_phase p = Closing → pool_alive p = 0%nat → close_done (pool_worker p) = Some w →
      rmove p (mkPool w (pool_world p) (pool_interval p) (pool_cancelled p) 0 Returned).

Definition rstep {Scan : SqlScan} (p p' : Pool) : Prop := rpass p p' ∨ rmove p p'.

(** An execution with [n] steps that are not the timer's. *)
Inductive execution {Scan : SqlScan} : nat → Pool → Pool → Prop :=
  | ex_nil p : execution 0 p p
  | ex_pass n p1 p2 p3 : rpass p1 p2 → execution n p2 p3 → execution n p1 p3
  | ex_move n p1 p2 p3 : rmove p1 p2 → execution n p2 p3 → execution (Datatypes.S n) p1 p3.
End repair.

(** ** The quota probe: internal/node/node.go *)

(** The probe [node.New] installs with [SetQuotaProbe]: usage the index cannot
    tell counts as room. *)
Definition quota_probe (fault : option error) (q : Quota) (st : Store) : bool * Z * Z :=
  match index st with
  | None => (false, 0, 0)
  | Some idx =>
      match (Totals fault idx).2 with
      | Err _ => (false, 0, 0)
      | Ok (_, used) => (HighBytes q <? used, used, HighBytes q)
      end
  end.

(** ** Lemmas on a pass *)

Section audit.
Context {Scan : SqlScan}.

(** The rows after a cursor, in the order of the index. *)
Definition rows_after (after : string * string) (t : Table) : list Entry :=
  sort_Slice ref_before (filter (λ e, ref_lt after (e_ref e) = true) (entry_of <$> scan t)).

Lemma page_after_take after limit t : page_after after limit t = take (Z.to_nat limit) (rows_after after t).
Proof. done. Qed.

Lemma rows_after_NoDup after t : NoDup (e_ref <$> rows_after after t).
Proof.
  unfold rows_after. rewrite sort_Slice_perm. eapply (sublist_NoDup _ (e_ref <$> (entry_of <$> scan t))).
  - apply scan_refs_NoDup.
  - apply fmap_sublist, sublist_filter.
Qed.

Lemma rows_after_elem after t e : e ∈ rows_after after t ↔ ref_lt after (e_ref e) = true ∧ e ∈ entry_of <$> scan t.
Proof. unfold rows_after. by rewrite sort_Slice_perm, list_elem_of_filter. Qed.

Lemma rows_after_sorted after t : sorted_by_less ref_before (rows_after after t).
Proof. apply sort_Slice_sorted; apply _. Qed.

(** The rows after a row are those that follow it. *)
Lemma rows_after_split cur t pre e post :
  rows_after cur t = pre ++ e :: post → rows_after (e_ref e) t = post.
Proof.
  intros H. pose proof (rows_after_NoDup cur t) as Hnd. pose proof (rows_after_sorted cur t) as Hs.
  assert (He : ref_lt cur (e_ref e) = true).
  { apply (rows_after_elem cur t). rewrite H. apply elem_of_app. right. left. }
  assert (Hmem : ∀ x, x ∈ rows_after cur t → ref_lt (e_ref e) (e_ref x) = true ↔ x ∈ post).
  { rewrite H in Hnd, Hs |- *. unfold sorted_by_less in Hs. apply StronglySorted_app in Hs as (Hlt & _ & Hs).
    inv Hs. rewrite fmap_app, fmap_cons in Hnd. apply NoDup_app in Hnd as (_ & Hdis & Hnd).
    apply NoDup_cons in Hnd as [Hne _]. intros x [Hx|[->|Hx]%elem_of_cons]%elem_of_app.
    - specialize (Hlt x e Hx ltac:(left)). unfold not_after, ref_before in Hlt. rewrite Hlt. split; [done|].
      intros Hp. exfalso. apply (Hdis (e_ref x)); [by apply list_elem_of_fmap_2|].
      right. by apply list_elem_of_fmap_2.
    - rewrite ref_lt_irrefl. split; [done|]. intros Hp. destruct Hne. by apply list_elem_of_fmap_2.
    - split; [done|]. intros _. rewrite Forall_forall in H3. specialize (H3 x Hx).
      unfold not_after, ref_before in H3. apply ref_lt_false in H3 as [E|E]; [|done].
      exfalso. apply Hne. rewrite <-E. by apply list_elem_of_fmap_2. }
  symmetry. unfold rows_after. apply sort_Slice_unique; [apply _..| | |].
  - intros x y Hx Hy. unfold not_after, ref_before. rewrite !ref_lt_false. intros Hxy Hyx.
    apply list_elem_of_filter in Hx as [_ Hx]. apply list_elem_of_filter in Hy as [_ Hy].
    apply (NoDup_fmap_inj_in e_ref (entry_of <$> scan t)); [apply scan_refs_NoDup|done..|].
    destruct Hxy as [?|Hxy], Hyx as [?|Hyx]; try done.
    pose proof (ref_lt_trans _ _ _ Hxy Hyx) as E. by rewrite ref_lt_irrefl in E.
  - apply NoDup_Permutation.
    + rewrite H, fmap_app in Hnd. apply NoDup_app in Hnd as (_ & _ & Hnd).
      apply NoDup_cons in Hnd as [_ Hnd]. by eapply NoDup_fmap_1.
    + apply NoDup_filter. eapply NoDup_fmap_1, scan_refs_NoDup.
    + intros x. rewrite list_elem_of_filter. split.
      * intros Hx. assert (x ∈ rows_after cur t) as Hx' by (rewrite H; apply elem_of_app; right; by right).
        split; [by apply Hmem|]. by apply rows_after_elem in Hx' as [_ ?].
      * intros [Hlt Hx]. apply Hmem; [|done]. apply rows_after_elem. split; [|done].
        by eapply ref_lt_trans.
  - unfold sorted_by_less in *. rewrite H in Hs. apply StronglySorted_app in Hs as (_ & _ & Hs). by inv Hs.
Qed.

(** The cursor after the entries of [pre]. *)
Definition last_ref (cur : string * string) (pre : list Entry) : string * string :=
  default cur (e_ref <$> last pre).

Lemma last_ref_cons cur e pre : last_ref cur (e :: pre) = last_ref (e_ref e) pre.
Proof. unfold last_ref. destruct pre as [|x pre]; [done|]. rewrite last_cons_cons. by destruct (last (x :: pre)) eqn:E; [|apply last_None in E]. Qed.

Lemma last_ref_app cur pre pre' : last_ref cur (pre ++ pre') = last_ref (last_ref cur pre) pre'.
Proof. revert cur. induction pre as [|e pre IH]; intros cur; [done|]. simpl. by rewrite !last_ref_cons, IH. Qed.

Lemma rows_after_last cur t pre post : rows_after cur t = pre ++ post → rows_after (last_ref cur pre) t = post.
Proof.
  destruct pre as [|e pre _] using rev_ind; [done|]. rewrite last_ref_app, <-app_assoc.
  apply rows_after_split.
Qed.
End audit.

(** The entry is this node's responsibility. *)
Definition ours (r : Ring) (rf : Z) (e : Entry) : Prop := SelfHolds r (e_ref e).2 rf = true.

#[export] Instance ours_dec r rf e : Decision (ours r rf e).
Proof. unfold ours. apply _. Defined.

(** The worker kept what a pass does not change. *)
Definition same_worker (w w' : Worker) : Prop :=
  queue_cap w' = queue_cap w ∧ queue_closed w' = queue_closed w ∧ auditBudget w' = auditBudget w ∧
  nWorkers w' = nWorkers w ∧ started w' = started w ∧ w_done w' = w_done w ∧ w_once w' = w_once w.

Lemma same_worker_trans w1 w2 w3 : same_worker w1 w2 → same_worker w2 w3 → same_worker w1 w3.
Proof. unfold same_worker. intuition congruence. Qed.

Definition bounded (w : Worker) : Prop := Z.of_nat (length (queue w)) ≤ queue_cap w.

Lemma enqueue_open t w :
  queue_closed w = false →
  enqueue t w = if Z.of_nat (length (queue w)) <? queue_cap w
                then Some (radd Enqueued 1 (set_queue (queue w ++ [t]) w), true)
                else Some (radd DroppedFullQueue 1 w, false).
Proof. unfold enqueue. by intros ->. Qed.

Lemma audit_page_spec E r rf page i cur w got :
  queue_closed w = false →
  ∃ w' got' pre post all, audit_page E r rf page i cur w got = Some (w', got', last_ref cur pre, all) ∧
    page = pre ++ post ∧ same_worker w w' ∧ cursor w' = cursor w ∧ (bounded w → bounded w') ∧
    got' ++ queue w' = got ++ queue w ++ (task_of <$> filter (ours r rf) pre) ∧
    if all : bool then post = [] else
      ∃ e post', post = e :: post' ∧ ours r rf e ∧ queue_cap w ≤ Z.of_nat (length (queue w')).
Proof.
  revert i cur w got. induction page as [|e page IH]; intros i cur w got Hcl; simpl.
  { exists w, got, [], [], true. split_and!; try done. by rewrite app_nil_r. }
  set (g := take _ (queue w)). set (w1 := radd ObjectsAudited 1 _).
  assert (Hq1 : g ++ queue w1 = queue w) by apply take_drop.
  assert (Hb1 : bounded w → bounded w1).
  { unfold bounded. simpl. rewrite length_drop. lia. }
  destruct (SelfHolds r (e_ref e).2 rf) eqn:Ho; simpl.
  2: { destruct (IH (S i) (e_ref e) (radd NotOurs 1 w1) (got ++ g) Hcl)
         as (w' & got' & pre & post & all & -> & -> & Hw & Hc & Hb & Hq & Hall).
       exists w', got', (e :: pre), post, all. rewrite last_ref_cons, filter_cons_False by (unfold ours; congruence).
       split; [done|]. split; [done|]. split; [done|]. split; [done|]. split; [auto|].
       split; [|done]. rewrite Hq, <-app_assoc. simpl. rewrite (app_assoc g). unfold g. by rewrite take_drop. }
  rewrite (enqueue_open _ w1 Hcl).
  destruct (Z.ltb_spec (Z.of_nat (length (queue w1))) (queue_cap w1)) as [Hlt|Hge]; cbn [mbind option_bind].
  - match goal with |- context [audit_page E r rf page (S i) (e_ref e) ?w2 ?g2] =>
      destruct (IH (S i) (e_ref e) w2 g2 Hcl)
        as (w' & got' & pre & post & all & -> & -> & Hw & Hc & Hb & Hq & Hall) end.
    exists w', got', (e :: pre), post, all. rewrite last_ref_cons, filter_cons_True by done.
    split; [done|]. split; [done|]. split; [done|]. split; [done|]. split.
    { intros _. apply Hb. unfold bounded. simpl in *. rewrite length_app. simpl. lia. }
    split; [|done]. rewrite Hq. simpl. rewrite <-!app_assoc. simpl. unfold g. by rewrite (app_assoc (take _ _)), take_drop.
  - exists (radd DroppedFullQueue 1 w1), (got ++ g), [], (e :: page), false.
    split; [done|]. split; [done|]. split; [done|]. split; [done|]. split; [done|].
    split; [by rewrite app_nil_r, <-app_assoc; simpl; unfold g; rewrite take_drop|].
    exists e, page. done.
Qed.

(** No cancellation and no database failure during the pass. *)
Definition undisturbed (E : AuditEnv) (idx : Index) : Prop :=
  (∀ k, ae_ctx E k = None) ∧ (∀ k, ae_db E k = None) ∧ r_open idx = true.

(** How a pass that examined [pre] and left [post] ends: with an error the
    cursor stays; at the end of the index it goes back to the start; otherwise
    it is on the last row examined, and the pass stopped because its budget was
    used up or the queue was full. *)
Definition pass_end (r : Ring) (rf : Z) (budget : nat) (cur : string * string) (pre post : list Entry)
    (w w' : Worker) (res : result bool) : Prop :=
  match res with
  | Err _ => cursor w' = cursor w
  | Ok pending =>
      (post = [] ∧ cursor w' = (EmptyString, EmptyString) ∧ pending = bool_decide (queue w' ≠ [])) ∨
      (pending = true ∧ cursor w' = last_ref cur pre ∧
       ((budget ≤ length pre)%nat ∨
        ∃ e post', post = e :: post' ∧ ours r rf e ∧ queue_cap w ≤ Z.of_nat (length (queue w'))))
  end.

Section pass.
Context {Scan : SqlScan}.

Lemma PageAfter_result fault a b limit i page :
  0 < limit → (PageAfter fault a b limit i).2 = Ok page → page = page_after (a, b) limit (objects i).
Proof.
  intros Hl. unfold PageAfter. destruct (Z.leb_spec limit 0); [lia|]. unfold query_r. mrun.
  destruct (_ ≫= _); mrun; [done|]. by intros [= <-].
Qed.

Lemma PageAfter_undisturbed E k a b idx :
  undisturbed E idx → (PageAfter (ae_db E k) a b auditPageSize idx).2 = Ok (page_after (a, b) auditPageSize (objects idx)).
Proof. intros (_ & Hd & Ho). unfold PageAfter. simpl. unfold query_r. mrun. rewrite Hd, Ho. done. Qed.

Lemma pending_spec w : pendingAfterFullSweep w = bool_decide (queue w ≠ []).
Proof. unfold pendingAfterFullSweep. by destruct (queue w). Qed.

Lemma audit_loop_spec E r rf idx budget i cur w got :
  queue_closed w = false →
  ∃ w' got' res pre post, audit_loop E r rf idx budget i cur w got = Some (w', got', res) ∧
    rows_after cur (objects idx) = pre ++ post ∧ (length pre ≤ budget + 511 * Nat.min 1 budget)%nat ∧
    same_worker w w' ∧ (bounded w → bounded w') ∧
    got' ++ queue w' = got ++ queue w ++ (task_of <$> filter (ours r rf) pre) ∧
    pass_end r rf budget cur pre post w w' res ∧ (undisturbed E idx → ∃ b, res = Ok b).
Proof.
  revert i cur w got. induction (lt_wf budget) as [budget _ IH]. intros i cur w got Hcl.
  destruct budget as [|left]; simpl.
  { exists (setCursor cur w), got, (Ok true), [], (rows_after cur (objects idx)).
    split_and!; try done; try (simpl; lia); try (by rewrite app_nil_r); [|eauto]. right. split_and!; try done. left. simpl. lia. }
  destruct (ae_ctx E i) as [e|] eqn:Hx.
  { exists w, got, (Err e), [], (rows_after cur (objects idx)).
    split_and!; try done; try (simpl; lia); try (by rewrite app_nil_r). intros (H & _). by rewrite H in Hx. }
  destruct (PageAfter _ _ _ _ _).2 as [page|e] eqn:HP.
  2: { exists w, got, (Err e), [], (rows_after cur (objects idx)).
       split_and!; try done; try (simpl; lia); try (by rewrite app_nil_r).
       intros H. by rewrite (PageAfter_undisturbed _ _ _ _ _ H) in HP. }
  apply PageAfter_result in HP; [|done]. rewrite <-surjective_pairing, page_after_take in HP.
  destruct page as [|e0 page0].
  { exists (setCursor (EmptyString, EmptyString) w), got, (Ok (pendingAfterFullSweep (setCursor (EmptyString, EmptyString) w))), [], [].
    assert (rows_after cur (objects idx) = []) as ->.
    { by destruct (rows_after cur (objects idx)). }
    split_and!; try done; try (simpl; lia); try (by rewrite app_nil_r); [|eauto]. left. by rewrite pending_spec. }
  set (page := e0 :: page0) in *.
  assert (Hrows : rows_after cur (objects idx) = page ++ drop (Z.to_nat auditPageSize) (rows_after cur (objects idx))).
  { rewrite HP at 1. symmetry. apply take_drop. }
  set (rest := drop _ _) in *.
  assert (Hplen : (0 < length page ≤ 512)%nat).
  { split; [simpl; lia|]. rewrite HP, length_take. unfold auditPageSize. lia. }
  destruct (audit_page_spec E r rf page i cur w got Hcl) as (w1 & got1 & pre & post & all & -> & Hpage & Hw1 & Hc1 & Hb1 & Hq1 & Hall).
  cbn [mbind option_bind]. destruct all.
  - subst post. rewrite app_nil_r in Hpage. subst pre.
    destruct (IH (left - (length page - 1))%nat ltac:(lia) (i + length page)%nat (last_ref cur page) w1 got1)
      as (w2 & got2 & res & pre2 & post2 & -> & Hr2 & Hl2 & Hw2 & Hb2 & Hq2 & He2 & Hok2).
    { destruct Hw1 as (_ & -> & _). done. }
    assert (rows_after (last_ref cur page) (objects idx) = rest) as Hrest by by apply rows_after_last.
    rewrite Hrest in Hr2. exists w2, got2, res, (page ++ pre2), post2.
    rewrite Hrows, Hr2, app_assoc, filter_app, fmap_app, length_app.
    split_and!; try done; [lia|by eapply same_worker_trans|auto| |].
    + by rewrite Hq2, app_assoc, Hq1, <-!app_assoc.
    + unfold pass_end in *. destruct res as [b|]; [|congruence].
      destruct He2 as [?|(Hb & Hc & Hwhy)]; [by left|right]. split; [done|]. split; [by rewrite last_ref_app|].
      rewrite length_app. destruct Hwhy as [?|(e & post' & He & Ho & Hcap)]; [left; lia|right].
      exists e, post'. destruct Hw1 as (<- & _). done.
  - destruct Hall as (e & post' & -> & Ho & Hcap).
    exists (setCursor (last_ref cur pre) w1), got1, (Ok true), pre, ((e :: post') ++ rest).
    rewrite Hrows, Hpage, app_assoc.
    split_and!; try done; [|eauto|].
    + assert (length pre ≤ length page)%nat; [|lia]. rewrite Hpage, length_app. lia.
    + right. split_and!; try done. right. by exists e, (post' ++ rest).
    + eauto.
Qed.
End pass.

(** Passes one after the other on a quiet index; between two passes the pool
    takes what is queued.  The tasks are those the pool took, in order. *)
Fixpoint sweep {Scan : SqlScan} (Es : nat → AuditEnv) (n : nat) (c : Coordinator) (w : Worker)
    : option (Worker * list Task) :=
  match n with
  | O => Some (w, [])
  | S n =>
      '(w, got, _) ← auditPass (Es 0%nat) c w;
      let '(w, g) := receive (length (queue w)) w in
      '(w, gs) ← sweep (λ k, Es (S k)) n c w;
      Some (w, got ++ g ++ gs)
  end.

Section sweep.
Context {Scan : SqlScan}.

Lemma auditPass_spec E c idx w :
  index (local c) = Some idx → 2 ≤ Size (ring c) → 2 ≤ replicaCount c → queue_closed w = false →
  let rf := replicaCount c in
  ∃ w' got res pre post, auditPass E c w = Some (w', got, res) ∧
    rows_after (cursor w) (objects idx) = pre ++ post ∧
    (length pre ≤ Z.to_nat (auditBudget w) + 511)%nat ∧ same_worker w w' ∧ (bounded w → bounded w') ∧
    got ++ queue w' = queue w ++ (task_of <$> filter (ours (ring c) rf) pre) ∧
    pass_end (ring c) rf (Z.to_nat (auditBudget w)) (cursor w) pre post w w' res ∧
    (undisturbed E idx → ∃ b, res = Ok b).
Proof.
  intros Hi Hs Hr Hc. unfold auditPass. rewrite Hi.
  destruct (Z.ltb_spec (Size (ring c)) 2), (Z.ltb_spec (replicaCount c) 2); [lia..|]. cbn [orb].
  destruct (audit_loop_spec E (ring c) (replicaCount c) idx (Z.to_nat (auditBudget w)) 0 (cursor w)
    (radd AuditRuns 1 w) [] Hc) as (w' & got & res & pre & post & HL & Hrows & Hl & Hw & Hb & Hq & He & Hok).
  exists w', got, res, pre, post. split_and!; try done. lia.
Qed.

(** Progress from any cursor: what is left of the index is handed to the pool. *)
Lemma sweep_rest Es c idx w m :
  index (local c) = Some idx → (∀ k, undisturbed (Es k) idx) → 2 ≤ Size (ring c) → 2 ≤ replicaCount c →
  queue_closed w = false → 0 < queue_cap w → 0 < auditBudget w → queue w = [] →
  length (rows_after (cursor w) (objects idx)) = m →
  ∃ n w', (n ≤ S m)%nat ∧ cursor w' = (EmptyString, EmptyString) ∧
    sweep Es n c w =
      Some (w', task_of <$> filter (ours (ring c) (replicaCount c)) (rows_after (cursor w) (objects idx))).
Proof.
  intros Hi HE Hs Hr. revert Es w HE. induction (lt_wf m) as [m _ IH]. intros Es w HE Hcl Hcap Hbud Hq Hm.
  assert (Hstep : ∀ E, undisturbed E idx → ∃ w1 got b pre post, auditPass E c w = Some (w1, got, Ok b) ∧
    rows_after (cursor w) (objects idx) = pre ++ post ∧ same_worker w w1 ∧
    got ++ queue w1 = task_of <$> filter (ours (ring c) (replicaCount c)) pre ∧
    ((post = [] ∧ cursor w1 = (EmptyString, EmptyString)) ∨
     (rows_after (cursor w1) (objects idx) = post ∧ pre ≠ []))).
  { intros E HEu. destruct (auditPass_spec E c idx w Hi Hs Hr Hcl)
      as (w1 & got & res & pre & post & HA & Hrows & _ & Hw & _ & Hgot & He & Hok).
    destruct (Hok HEu) as [b ->]. exists w1, got, b, pre, post. split_and!; try done; [by rewrite Hgot, Hq|].
    destruct He as [(-> & ? & _)|(_ & Hc & Hwhy)]; [by left|right]. rewrite Hc.
    split; [by apply rows_after_last|]. intros ->. destruct Hwhy as [Hb|(e & post' & _ & _ & Hful)]; [simpl in Hb; lia|].
    rewrite Hq in Hgot. apply app_eq_nil in Hgot as [_ Hq1]. rewrite Hq1 in Hful. simpl in Hful. lia. }
  destruct (Hstep (Es 0%nat) (HE 0%nat)) as (w1 & got & b & pre & post & HA & Hrows & Hw & Hgot & [[-> Hc]|[Hpost Hpre]]).
  - exists 1%nat, (receive (length (queue w1)) w1).1. split; [lia|]. split; [done|]. simpl. rewrite HA. simpl.
    rewrite firstn_all, app_nil_r, Hgot, Hrows, app_nil_r. done.
  - destruct Hw as (Hcap1 & Hcl1 & Hbud1 & _).
    destruct (IH (length post)) with (Es := λ k, Es (S k)) (w := (receive (length (queue w1)) w1).1)
      as (n & w' & Hn & Hc & HS).
    + rewrite <-Hm, Hrows, length_app. destruct pre; [done|]. simpl. lia.
    + intros k. apply HE.
    + by rewrite <-Hcl1 in Hcl.
    + simpl. lia.
    + simpl. lia.
    + apply drop_all.
    + simpl. by rewrite Hpost.
    + exists (S n), w'. split; [|split; [done|]].
      { rewrite <-Hm, Hrows, length_app. destruct pre; [done|]. simpl. lia. }
      cbn [sweep]. rewrite HA. cbn [mbind option_bind receive]. cbn [receive fst] in HS. rewrite HS.
      cbn [mbind option_bind cursor set_queue]. rewrite Hpost, Hrows, filter_app, fmap_app, <-Hgot, firstn_all.
      by rewrite app_assoc.
Qed.
End sweep.

(** ** Claims on auditing *)

(** An audit pass skips nothing.  A pass examines the rows that follow its
    cursor, in order and without a gap, and hands the pool exactly those this
    node is a holder of, each once and in order.  It stops at the end of the
    index, when its budget is used up, or at a row the full queue refused; the
    cursor then is where the next pass meets exactly the rows that are left, the
    refused one included.  A pass that fails leaves the cursor, and no pass
    examines more than one page beyond its budget. *)
Theorem audit_pass_skips_nothing {Scan : SqlScan} E c idx w :
  index (local c) = Some idx → 2 ≤ Size (ring c) → 2 ≤ replicaCount c → queue_closed w = false →
  ∃ w' got res pre post, auditPass E c w = Some (w', got, res) ∧
    rows_after (cursor w) (objects idx) = pre ++ post ∧
    (length pre ≤ Z.to_nat (auditBudget w) + 511)%nat ∧
    got ++ queue w' = queue w ++ (task_of <$> filter (ours (ring c) (replicaCount c)) pre) ∧
    match res with
    | Err _ => cursor w' = cursor w
    | Ok pending =>
        (post = [] ∧ cursor w' = (EmptyString, EmptyString) ∧ pending = bool_decide (queue w' ≠ [])) ∨
        (rows_after (cursor w') (objects idx) = post ∧ pending = true ∧
         ((Z.to_nat (auditBudget w) ≤ length pre)%nat ∨
          ∃ e post', post = e :: post' ∧ ours (ring c) (replicaCount c) e ∧
            queue_cap w ≤ Z.of_nat (length (queue w'))))
    end.
Proof.
  intros Hi Hs Hr Hc. destruct (auditPass_spec E c idx w Hi Hs Hr Hc)
    as (w' & got & res & pre & post & HA & Hrows & Hl & _ & _ & Hq & He & _).
  exists w', got, res, pre, post. split_and!; try done.
  destruct res as [pending|]; [|done]. destruct He as [?|(? & -> & ?)]; [by left|right].
  split; [by apply rows_after_last|done].
Qed.

(** C10: auditing covers the whole index.  On a quiet index, whatever the
    audit budget, the capacity of the queue and the speed of the pool, passes
    that follow each other hand the pool every object this node is a holder of,
    each exactly once and in index order, and then start over; at most one pass
    per row is needed, and one more. *)
Theorem audit_covers_index {Scan : SqlScan} Es c idx w :
  index (local c) = Some idx → (∀ k, undisturbed (Es k) idx) → 2 ≤ Size (ring c) → 2 ≤ replicaCount c →
  queue_closed w = false → 0 < queue_cap w → 0 < auditBudget w → queue w = [] →
  cursor w = (EmptyString, EmptyString) →
  let rows := rows_after (EmptyString, EmptyString) (objects idx) in
  ∃ n w', (n ≤ S (length rows))%nat ∧ cursor w' = (EmptyString, EmptyString) ∧
    sweep Es n c w = Some (w', task_of <$> filter (ours (ring c) (replicaCount c)) rows).
Proof.
  intros Hi HE Hs Hr Hc Hcap Hb Hq Hcur. 
  pose proof (sweep_rest Es c idx w _ Hi HE Hs Hr Hc Hcap Hb Hq eq_refl) as H. by rewrite Hcur in H.
Qed.

(** ** Lemmas on the pool *)

Section pool.
Context {Scan : SqlScan} {S : Type} (host : Host S) (peers : PeerClient S).

Abbreviation step := (rstep host peers).

Lemma auditPass_keeps E c w :
  queue_closed w = false →
  ∃ w' got res, auditPass E c w = Some (w', got, res) ∧ same_worker w w' ∧ (bounded w → bounded w').
Proof.
  intros Hc. unfold auditPass. destruct (index (local c)) as [idx|]; [|by exists w, [], (Ok false)].
  destruct (_ || _); [by exists w, [], (Ok false)|].
  destruct (audit_loop_spec E (ring c) (replicaCount c) idx (Z.to_nat (auditBudget w)) 0 (cursor w)
    (radd AuditRuns 1 w) [] Hc) as (w' & got & res & pre & post & HL & _ & _ & Hw & Hb & _).
  exists w', got, res. done.
Qed.

(** Repairing counts and sends; it leaves the queue alone. *)
Definition counts_only (w w' : Worker) : Prop := queue w' = queue w ∧ same_worker w w'.

Lemma record_counts size o w : counts_only w (record_outcome size o w).
Proof. by destruct o. Qed.

Lemma repair_loop_counts env me t size ms w s : counts_only w (repair_loop host peers env me t size ms w s).1.2.
Proof.
  revert w s. induction ms as [|m ms IH]; intros w s; simpl; [done|]. destruct (String.eqb _ _); [apply IH|].
  destruct (rp_ctx env (Name m)); [done|]. destruct (repair_one host peers env t size m s) as [s1 o].
  pose proof (IH (record_outcome size o w) s1) as H.
  destruct (repair_loop _ _ _ _ _ _ ms _ s1) as [[s2 w2] os]. simpl in *.
  destruct (record_counts size o w) as [Hq1 Hw1], H as [Hq2 Hw2].
  split; [congruence|by eapply same_worker_trans].
Qed.

Lemma work_counts env b t w s : counts_only w (work host peers env b t (w, s)).1.
Proof.
  unfold work. destruct b; [done|]. unfold repair. simpl.
  destruct (on_local host _ s) as [s1 [st|e]]; simpl; [|done].
  pose proof (repair_loop_counts env (self (ring (h_get host s))) t (st_Size st)
    (Holders (ring (h_get host s)) (t_Key t) (replicaCount (h_get host s))) w s1) as H.
  by destruct (repair_loop _ _ _ _ _ _ _ _ _) as [[s2 w2] os].
Qed.

Lemma work_all_counts env b ts w s :
  counts_only w (fold_left (λ ws t, work host peers env b t ws) ts (w, s)).1.
Proof.
  revert w s. induction ts as [|t ts IH]; intros w s; simpl; [done|].
  pose proof (work_counts env b t w s) as [Hq1 Hw1]. destruct (work host peers env b t (w, s)) as [w1 s1].
  destruct (IH w1 s1) as [Hq2 Hw2]. simpl in *. split; [congruence|by eapply same_worker_trans].
Qed.

(** The pool under [Run]: the queue is bounded; it is closed exactly when [Run]
    has seen the cancellation, and no goroutine has left before; [done] is closed
    exactly when [Run] has returned. *)
Record pool_ok (p : Pool (S := S)) : Prop := {
  po_bounded : bounded (pool_worker p);
  po_some : (0 < Z.to_nat (nWorkers (pool_worker p)))%nat;
  po_budget : (0 < Z.to_nat (auditBudget (pool_worker p)))%nat;
  po_closed : queue_closed (pool_worker p) = match pool_phase p with Waiting _ => false | _ => true end;
  po_cancelled : match pool_phase p with Waiting _ => True | _ => pool_cancelled p = true end;
  po_done : w_done (pool_worker p) = match pool_phase p with Returned => true | _ => false end;
  po_alive : pool_alive p = Z.to_nat (nWorkers (pool_worker p)) ∨
    (queue (pool_worker p) = [] ∧ queue_closed (pool_worker p) = true);
  po_returned : match pool_phase p with Returned => pool_alive p = 0%nat | _ => True end }.

Lemma tick_ok E env p wait :
  pool_ok p → pool_phase p = Waiting wait → ∃ p', tick host peers E env p = Some p' ∧ pool_ok p'.
Proof.
  intros [Hb Hs Hbu Hcl Hca Hd Ha Hr] Hph. unfold tick. rewrite Hph in Hcl, Hd.
  destruct (auditPass_keeps E (h_get host (pool_world p)) (pool_worker p) Hcl) as (w1 & got & res & -> & Hw & Hb1).
  simpl. destruct (work_all_counts env (pool_cancelled p) got w1 (pool_world p)) as [Hq2 Hw2].
  destruct (fold_left _ _ _) as [w2 s2]. simpl in *. eexists. split; [done|].
  destruct Hw as (Hcap & Hclo & Hbud & Hn & _ & Hdn & _), Hw2 as (Hcap2 & Hclo2 & Hbud2 & Hn2 & _ & Hdn2 & _).
  split; simpl; rewrite ?Hn2, ?Hn, ?Hclo2, ?Hclo, ?Hdn2, ?Hdn, ?Hbud2, ?Hbud; try done.
  - unfold bounded in *. rewrite Hq2, Hcap2. auto.
  - destruct Ha as [?|[_ ?]]; [by left|congruence].
Qed.

Lemma rpass_ok p p' : rpass host peers p p' → pool_ok p → pool_ok p'.
Proof. intros [E env p1 p2 wait Hph _ Ht] Hok. destruct (tick_ok E env p1 wait Hok Hph) as (p3 & Ht3 & ?). congruence. Qed.

Lemma rmove_ok p p' : rmove host peers p p' → pool_ok p → pool_ok p'.
Proof.
  intros Hst Hok. pose proof Hok as [Hb Hs Hbu Hcl Hca Hd Ha Hr].
  destruct Hst as [p Hc|env p t q w s Hal Hq Hwk|p wait Hc Hph|p n Hal Hq Hc|p w Hph Hal Hcd].
  - split; simpl; try done. by destruct (pool_phase p).
  - pose proof (work_counts env (pool_cancelled p) t (set_queue q (pool_worker p)) (pool_world p)) as [Hq1 Hw1].
    rewrite Hwk in Hq1, Hw1. simpl in *. destruct Hw1 as (Hcap & Hclo & Hbud & Hn & _ & Hdn & _). simpl in *.
    split; simpl; rewrite ?Hn, ?Hclo, ?Hdn, ?Hbud; try done.
    + unfold bounded in *. rewrite Hq in Hb. rewrite Hq1, Hcap. simpl in *. lia.
    + destruct Ha as [?|[Hnil _]]; [by left|congruence].
  - rewrite Hph in *. split; simpl; try done. destruct Ha as [?|[? ?]]; [by left|by right].
  - split; simpl; try done; [by right|]. destruct (pool_phase p); [done..|]. congruence.
  - rewrite Hph in *. unfold close_done in Hcd. rewrite Hd in Hcd. injection Hcd as <-.
    split; simpl; try done. destruct Ha as [?|?]; [|by right]. lia.
Qed.

Lemma rstep_ok p p' : step p p' → pool_ok p → pool_ok p'.
Proof. intros [H|H]; [by apply rpass_ok|by apply rmove_ok]. Qed.

Lemma start_ok coord nw qs budget interval w s p :
  New coord nw qs budget = Ok w → start interval w s = Some p → pool_ok p.
Proof.
  unfold New, start. destruct coord; [|done]. intros [= <-] [= <-].
  split; simpl; try done; [| | |by left].
  - unfold bounded. simpl. destruct (Z.leb_spec qs 0); unfold defaultQueueSize; lia.
  - destruct (Z.leb_spec nw 0); unfold defaultWorkers; lia.
  - destruct (Z.leb_spec budget 0); unfold defaultAuditBudget; lia.
Qed.

Lemma rsteps_ok p p' : rtc step p p' → pool_ok p → pool_ok p'.
Proof. induction 1; eauto using rstep_ok. Qed.

(** What is left to do after the cancellation: the tasks to drop, the goroutines to
    leave, the queue to close and [Run] to return. *)
Definition remaining (p : Pool (S := S)) : nat :=
  length (queue (pool_worker p)) + pool_alive p
    + match pool_phase p with Waiting _ => 2 | Closing => 1 | Returned => 0 end.

(** A pass that begins cancelled neither queues nor takes a task. *)
Lemma cancelled_pass p p' :
  rpass host peers p p' → pool_ok p → pool_cancelled p = true →
  pool_cancelled p' = true ∧ remaining p' = remaining p ∧ queue (pool_worker p') = queue (pool_worker p) ∧
  pool_world p' = pool_world p ∧ pool_phase p' = Waiting (pool_interval p).
Proof.
  intros [E env p1 p2 wait Hph Hx Ht] Hok Hc. pose proof (po_budget _ Hok) as Hbu. unfold tick in Ht.
  assert (∃ w r, auditPass E (h_get host (pool_world p1)) (pool_worker p1) = Some (w, [], r) ∧
    queue w = queue (pool_worker p1) ∧ r ≠ Ok true) as (w & r & HA & Hq & Hr).
  { unfold auditPass. destruct (index _) as [idx|]; [|by eexists _, _].
    destruct (_ || _); [by eexists _, _|]. destruct (Z.to_nat _) as [|n]; [lia|]. cbn [audit_loop].
    destruct (Hx Hc 0%nat) as [e ->]. by eexists _, _. }
  rewrite HA in Ht. cbn in Ht. injection Ht as <-. cbn. unfold remaining. cbn. rewrite Hq, Hph, Hc.
  destruct r as [[]|e]; done.
Qed.

Lemma cancelled_move p p' :
  rmove host peers p p' → pool_cancelled p = true →
  pool_cancelled p' = true ∧ (remaining p = Datatypes.S (remaining p'))%nat.
Proof.
  intros [p1 Hc|env p1 t q w s Hal Hq Hwk|p1 wait Hc Hph|p1 n Hal Hq Hc|p1 w Hph Hal Hcd] Hca; unfold remaining; cbn.
  - congruence.
  - pose proof (work_counts env (pool_cancelled p1) t (set_queue q (pool_worker p1)) (pool_world p1)) as [Hq1 _].
    rewrite Hwk in Hq1. cbn in Hq1. rewrite Hq1, Hq. cbn. split; [done|lia].
  - rewrite Hph. split; [done|lia].
  - rewrite Hal. split; [done|lia].
  - rewrite Hph. unfold close_done in Hcd. destruct (w_done _); [done|]. injection Hcd as <-. cbn. split; [done|lia].
Qed.

(** After the cancellation every step but a pass is one less to go. *)
Lemma cancelled_execution n p p' :
  execution host peers n p p' → pool_ok p → pool_cancelled p = true →
  pool_ok p' ∧ pool_cancelled p' = true ∧ (remaining p = n + remaining p')%nat.
Proof.
  induction 1 as [p|n p1 p2 p3 Hp _ IH|n p1 p2 p3 Hm _ IH]; intros Hok Hc; [done|..].
  - destruct (cancelled_pass _ _ Hp Hok Hc) as (Hc2 & Hr & _). rewrite <-Hr. eauto using rpass_ok.
  - destruct (cancelled_move _ _ Hm Hc) as [Hc2 Hr]. destruct IH as (? & ? & ?); eauto using rmove_ok.
    split_and!; [done..|lia].
Qed.

Lemma cancelled_progress p :
  pool_ok p → pool_cancelled p = true → pool_phase p ≠ Returned → ∃ p', rmove host peers p p'.
Proof.
  intros [_ Hs _ Hcl _ Hd Ha _] Hc Hr. destruct (pool_phase p) as [wait| |] eqn:Hph; [eexists; by eapply r_close| |done].
  destruct (pool_alive p) as [|n] eqn:Hal.
  - eexists. eapply r_return; [done..|]. unfold close_done. by rewrite Hd.
  - destruct (queue (pool_worker p)) as [|t q] eqn:Hq; [eexists; by eapply r_exit|].
    destruct (work host peers (repair_fine 0) (pool_cancelled p) t (set_queue q (pool_worker p), pool_world p))
      as [w s] eqn:Hw.
    eexists. eapply r_work; [lia|done..].
Qed.

Lemma returned_empty p : pool_ok p → pool_phase p = Returned →
  pool_alive p = 0%nat ∧ queue (pool_worker p) = [] ∧ w_done (pool_worker p) = true.
Proof.
  intros [_ Hs _ _ _ Hd Ha Hal] Hph. rewrite Hph in *. split_and!; try done. destruct Ha as [?|[? _]]; [lia|done].
Qed.

(** Nothing is left to do exactly when [Run] has returned. *)
Lemma nothing_remaining p : pool_ok p → remaining p = 0%nat ↔ pool_phase p = Returned.
Proof.
  intros Hok. unfold remaining. split.
  - destruct (pool_phase p); [lia..|done].
  - intros Hph. destruct (returned_empty p Hok Hph) as (-> & -> & _). by rewrite Hph.
Qed.
End pool.

(** ** Claims on the pool *)

(** C17: the repair pool is bounded and shuts down.  Under every schedule of audit
    passes, goroutines and cancellation the queue stays within its capacity and no
    send hits the closed queue.  Once cancelled, a pass the timer still starts
    queues nothing, takes nothing and sends nothing; every execution makes at most
    as many other steps as there are tasks queued and goroutines alive, and two, and
    until [Run] has returned one of them can be made; and it has made them all
    exactly when [Run] has returned, with [done] closed, no goroutine left and no
    task in the queue.  So only a select that took the timer for ever, with the
    context done, would keep [Run] from returning, and once the queue is closed there
    is no timer to take. *)
Theorem repair_pool_shuts_down {Scan : SqlScan} {S : Type} (host : Host S) (peers : PeerClient S)
    coord nw qs budget interval w s p0 p :
  New coord nw qs budget = Ok w → start interval w s = Some p0 → rtc (rstep host peers) p0 p →
  Z.of_nat (length (queue (pool_worker p))) ≤ queue_cap (pool_worker p) ∧
  (∀ wait, pool_phase p = Waiting wait → ∀ E env, is_Some (tick host peers E env p)) ∧
  (pool_cancelled p = true →
    (∀ p', rpass host peers p p' → queue (pool_worker p') = queue (pool_worker p) ∧ pool_world p' = pool_world p) ∧
    (pool_phase p ≠ Returned → ∃ p', rmove host peers p p') ∧
    ∀ n p', execution host peers n p p' →
      let total := (length (queue (pool_worker p)) + pool_alive p
        + match pool_phase p with Waiting _ => 2 | Closing => 1 | Returned => 0 end)%nat in
      (n ≤ total)%nat ∧ (n = total ↔ pool_phase p' = Returned) ∧
      (pool_phase p' = Returned → pool_alive p' = 0%nat ∧ queue (pool_worker p') = [] ∧ w_done (pool_worker p') = true)) ∧
  (pool_phase p = Closing ∨ pool_phase p = Returned → pool_cancelled p = true ∧ ∀ p', ¬ rpass host peers p p').
Proof.
  intros HN Hst Hp. assert (pool_ok p) as Hok by (eapply rsteps_ok; [done|]; by eapply start_ok).
  split; [apply Hok|]. split; [|split].
  - intros wait Hph E env. destruct (tick_ok host peers E env p wait Hok Hph) as (p' & -> & _). by eexists.
  - intros Hc. split; [|split; [by apply cancelled_progress|]].
    + intros p' Hp'. by destruct (cancelled_pass _ _ _ _ Hp' Hok Hc) as (_ & _ & ? & ? & _).
    + intros n p' He. destruct (cancelled_execution _ _ _ _ _ He Hok Hc) as (Hok' & _ & Hr).
      fold (remaining p). cbv zeta. split; [lia|]. split; [|by apply returned_empty].
      rewrite <-nothing_remaining by done. lia.
  - intros Hph. split; [|intros p' Hps; inversion Hps; destruct Hph; congruence].
    pose proof (po_cancelled _ Hok) as Hc. by destruct Hph as [E|E]; rewrite E in Hc.
Qed.

(** ** Repair in a cluster *)

(** The node answered without changing what it stores. *)
Definition idle (c c' : Coordinator) : Prop :=
  keeps c c' ∧ same_view c c' ∧ quotaProbe c' = quotaProbe c ∧
  ∀ f q, quota_probe f q (local c') = quota_probe f q (local c).

Lemma idle_refl c : idle c c.
Proof. split; [apply keeps_refl|]. split; [done|]. by split. Qed.

Lemma idle_trans c1 c2 c3 : idle c1 c2 → idle c2 c3 → idle c1 c3.
Proof.
  intros (Hk1 & Hv1 & Hq1 & Hp1) (Hk2 & Hv2 & Hq2 & Hp2). split; [by eapply keeps_trans|].
  split; [intros ns key; by rewrite Hv2|]. split; [congruence|]. intros f q. by rewrite Hp2.
Qed.

Lemma probe_touch f q now ns key s : quota_probe f q (on_index (Touch now ns key) s) = quota_probe f q s.
Proof.
  unfold quota_probe, on_index. destruct (index s) as [i|] eqn:Hi; [|by rewrite Hi]. cbn [index set_index].
  assert (Ht : objects (Touch now ns key i) = objects i ∧ r_open (Touch now ns key i) = r_open i).
  { unfold Touch. by repeat case_match. }
  assert ((Totals f (Touch now ns key i)).2 = (Totals f i).2) as ->; [|done].
  unfold Totals, query_r. mrun. destruct Ht as [-> ->].
  destruct (_ ≫= _); mrun; [done|]. by destruct (_ || _).
Qed.

Lemma Stat_probe f q fault now ns key s : quota_probe f q (Stat_ fault now ns key s).1 = quota_probe f q s.
Proof.
  unfold Stat_. mrun. destruct (check_ref_cases ns key s) as [(e & -> & _)|(_ & _ & ->)]; [done|].
  mrun. destruct (lookup_node _ _ _) as [x|e]; mrun.
  - destruct (negb _); mrun; [done|]. apply probe_touch.
  - by destruct (os_IsNotExist e).
Qed.

Lemma Stat_view fault now ns key s s' st :
  Stat_ fault now ns key s = (s', Ok st) → ∃ c, view s ns key = Some c.
Proof.
  unfold Stat_. mrun. destruct (check_ref_cases ns key s) as [(e & -> & _)|(_ & _ & ->)]; [done|].
  mrun. unfold lookup_node, view. destruct fault; mrun; [by destruct (os_IsNotExist e)|].
  destruct (object_file (root s) ns key) as [|d p] eqn:Hp; [by mrun|].
  destruct (tree s !! (d :: p)) as [[c t| |]|]; mrun; [by exists c|done|done|].
  by destruct (os_IsNotExist _).
Qed.

Lemma on_local_Stat y f now ns key w :
  let w' := (on_local (host_of y) (Stat_ f now ns key) w).1 in
  touches y w w' ∧ idle (nodes w y) (nodes w' y).
Proof.
  destruct (on_local (host_of y) (Stat_ f now ns key) w) as [w' r] eqn:H. simpl.
  apply on_local_node in H as (s' & HC & Ht & ->). split; [done|].
  pose proof (Stat_same f now ns key (local (nodes w y))) as Hsd.
  pose proof (λ a b, Stat_probe a b f now ns key (local (nodes w y))) as Hp. rewrite HC in Hsd, Hp.
  destruct (same_disk_node _ _ Hsd). by split.
Qed.

Lemma count_idle y k n w :
  touches y w (count (host_of y) k n w) ∧ idle (nodes w y) (nodes (count (host_of y) k n w) y).
Proof.
  destruct (count_node y k n w) as (Ht & Hk & Hv). split; [done|]. split; [done|]. split; [done|].
  unfold count. rewrite host_set_get. done.
Qed.

(** What an exchange leaves behind is what serving some form of the request
    leaves behind, or nothing. *)
Lemma exchange_post dial E chain f r w (Q : World → Prop) y q :
  dial (rq_URL r) = Some (y, q) → Q w →
  (∀ r', rq_Header r' = rq_Header r → rq_Method r' = rq_Method r →
    (is_Some (rq_Body r) → is_Some (rq_Body r')) → Q (f (y :: chain) y r' q w).1) →
  Q (exchange dial E chain f r w).1.
Proof.
  intros Hd HQ Hf. unfold exchange. rewrite Hd. destruct (framed r) as [fr all] eqn:Hfr.
  pose proof (framed_header r) as Hh. rewrite Hfr in Hh. simpl in Hh.
  assert (Hm : rq_Method fr = rq_Method r ∧ (is_Some (rq_Body r) → is_Some (rq_Body fr))).
  { unfold framed in Hfr. destruct (rq_Body r) eqn:Hb; injection Hfr as <- _; [done|]. by rewrite Hb. }
  destruct Hm as [Hm Hb]. pose proof (Hf fr Hh Hm Hb) as HF.
  destruct (ce_net E (y :: chain)) as [|e|n e|e|n e]; try done.
  - destruct (f (y :: chain) y fr q w) as [w1 res]. by destruct all.
  - apply Hf; [by rewrite cut_request_header|unfold cut_request; by case_match|].
    intros H%Hb. unfold cut_request. destruct H as [b ->]. by eexists.
  - destruct (f (y :: chain) y fr q w) as [w1 res]. by destruct all.
Qed.

Lemma serve_stat dial bad_url E n chain y r p ns key w :
  parsePath p = Some (ns, key) → rq_Method r = MethodHead → inboundHop r = HopRead →
  let w' := (serve dial bad_url E (S n) chain y r p w).1 in
  touches y w w' ∧ idle (nodes w y) (nodes w' y).
Proof.
  intros Hp Hm Hh. cbn [serve]. unfold ServeHTTP. rewrite Hp, Hh.
  assert (Hd : ∀ B h rec s, dispatch B h r ns key HopRead rec s =
    @serveGet World B ns key HopRead false rec s) by (intros; unfold dispatch; by rewrite Hm).
  rewrite Hd. unfold serveGet. cbn [negb]. cbn [node_backend be_Stat]. unfold coord_Stat.
  destruct (on_local_Stat y (ne_stat (ce_node E chain)).1 (ne_stat (ce_node E chain)).2 ns key w) as [Ht Hi].
  destruct (on_local _ _ w) as [w1 [st|e]]; cbn [fst] in *.
  - destruct (count_idle y LocalHits 1 w1) as [Ht' Hi']. cbn.
    split; [by eapply touches_trans|by eapply idle_trans].
  - destruct (negb (errors_Is e IsNotFound)); [done|]. cbn [Terminal].
    destruct (count_idle y Misses 1 w1) as [Ht' Hi'].
    split; [by eapply touches_trans|by eapply idle_trans].
Qed.

(** The node is over the high-water mark of its quota. *)
Definition over_quota (c : Coordinator) : Prop :=
  ∃ f q, quotaProbe c = Some (quota_probe f q) ∧ (quota_probe f q (local c)).1.1 = true.

Lemma over_quota_idle c c' : idle c c' → over_quota c → over_quota c'.
Proof. intros (_ & _ & Hq & Hp) (f & q & Hc & Ho). exists f, q. by rewrite Hq, Hp. Qed.

Lemma over_quota_declines c : over_quota c → (overHighWater c).1.1 = true.
Proof. intros (f & q & Hc & Ho). unfold overHighWater. by rewrite Hc. Qed.

Lemma serve_over dial bad_url E n chain y r p ns key w :
  parsePath p = Some (ns, key) → rq_Method r = MethodPut → is_Some (rq_Body r) → inboundHop r = HopRepair →
  over_quota (nodes w y) →
  let w' := (serve dial bad_url E (S n) chain y r p w).1 in
  touches y w w' ∧ idle (nodes w y) (nodes w' y).
Proof.
  intros Hp Hm [b Hb] Hh Ho. destruct (serve dial bad_url E (S n) chain y r p w) as [w' res] eqn:HS. cbn [fst].
  destruct (serve_put _ _ _ _ _ _ _ _ _ _ _ _ _ _ Hp Hm Hb HS) as (resp & _ & [[-> _]|(out & err & HP & _)]).
  { split; [apply touches_refl|apply idle_refl]. }
  rewrite Hh in HP. unfold coord_Put in HP. simpl in HP. rewrite (over_quota_declines _ Ho) in HP.
  injection HP as <- _ _. apply count_idle.
Qed.

Section cluster_repair.
Context (dial : string → option (string * string)) (bad_url : string → option error).
Context (ms : list Member).
Context (dial_ok : ∀ m q, m ∈ ms → dial (URL m +:+ "/" +:+ q) = Some (Name m, "/" +:+ q)).
Context (E : ClusterEnv) (n : nat) (chain : list string) (y : string).
Context (y_named : y ≠ EmptyString).

Abbreviation T := (Build_Transport World bad_url (exchange dial E chain (serve dial bad_url E (S n)))).
Abbreviation peers := (@HTTPPeerClient World T y).

Lemma newRequest_shape method t ns key b hop r size :
  @newRequest World T y method t ns key b hop = Ok r →
  rq_URL (set_length size r) = URL t +:+ "/" +:+ (ns +:+ "/" +:+ key) ∧
  rq_Method (set_length size r) = method ∧ rq_Body (set_length size r) = b ∧
  rq_URL r = URL t +:+ "/" +:+ (ns +:+ "/" +:+ key) ∧ rq_Method r = method.
Proof. unfold newRequest. destruct (url_err _); [done|]. intros [= <-]. done. Qed.

Lemma peer_stat_idle t ns key w :
  t ∈ ms → ns_Valid ns = true → valid_key key = true →
  let w' := (@http_Stat World T y t ns key HopRead w).1 in
  touches (Name t) w w' ∧ idle (nodes w (Name t)) (nodes w' (Name t)).
Proof.
  intros Ht Hns Hk. unfold http_Stat.
  assert (Hself : touches (Name t) w w ∧ idle (nodes w (Name t)) (nodes w (Name t)))
    by (split; [apply touches_refl|apply idle_refl]).
  destruct (newRequest y MethodHead t ns key None HopRead) as [r|e] eqn:Hr; [|by mrun].
  destruct (newRequest_shape _ _ _ _ _ _ _ 0 Hr) as (_ & _ & _ & Hu & Hm).
  apply (newRequest_hop _ _ _ _ _ _ _ _ _ _ 0 y_named) in Hr as [Hh _]; [|rewrite !elem_of_cons; auto 9].
  assert (HX : touches (Name t) w (@Do _ T r w).1 ∧ idle (nodes w (Name t)) (nodes (@Do _ T r w).1 (Name t))).
  { apply (exchange_post dial E chain (serve dial bad_url E (S n)) r w
      (λ w', touches (Name t) w w' ∧ idle (nodes w (Name t)) (nodes w' (Name t))) (Name t) (object_path ns key));
      [rewrite Hu; by apply dial_ok|done|].
    intros r' Hh' Hm' _. apply (serve_stat _ _ _ _ _ _ _ _ ns key); [by apply parsePath_object|by rewrite Hm'|].
    unfold inboundHop in *. by rewrite Hh'. }
  mrun. destruct (@Do _ T r w) as [w1 [resp|e]]; cbn [fst] in HX; mrun; [|done].
  destruct (_ =? _); mrun; [done|]. by destruct (_ =? _).
Qed.

Lemma peer_over_idle t ns key b size w :
  t ∈ ms → ns_Valid ns = true → valid_key key = true → over_quota (nodes w (Name t)) →
  let w' := (@http_Put World T y t ns key b size HopRepair w).1 in
  touches (Name t) w w' ∧ idle (nodes w (Name t)) (nodes w' (Name t)).
Proof.
  intros Ht Hns Hk Ho. unfold http_Put.
  assert (Hself : touches (Name t) w w ∧ idle (nodes w (Name t)) (nodes w (Name t)))
    by (split; [apply touches_refl|apply idle_refl]).
  destruct (newRequest y MethodPut t ns key (Some b) HopRepair) as [r|e] eqn:Hr; [|by mrun].
  destruct (newRequest_shape _ _ _ _ _ _ _ size Hr) as (Hu & Hm & Hb & _ & _).
  apply (newRequest_hop _ _ _ _ _ _ _ _ _ _ size y_named) in Hr as [_ Hh]; [|rewrite !elem_of_cons; auto 9].
  assert (HX : touches (Name t) w (@Do _ T (set_length size r) w).1 ∧
    idle (nodes w (Name t)) (nodes (@Do _ T (set_length size r) w).1 (Name t))).
  { apply (exchange_post dial E chain (serve dial bad_url E (S n)) (set_length size r) w
      (λ w', touches (Name t) w w' ∧ idle (nodes w (Name t)) (nodes w' (Name t))) (Name t) (object_path ns key));
      [rewrite Hu; by apply dial_ok|done|].
    intros r' Hh' Hm' Hb'. apply (serve_over _ _ _ _ _ _ _ _ ns key); [by apply parsePath_object|by rewrite Hm'|..].
    - apply Hb'. rewrite Hb. by eexists.
    - unfold inboundHop in *. by rewrite Hh'.
    - done. }
  mrun. destruct (@Do _ T (set_length size r) w) as [w1 [resp|e]]; cbn [fst] in HX; mrun; [|done].
  by destruct (_ && _).
Qed.
(** What a repair did to the two nodes it concerns: the sender keeps what it
    stores, and an over-quota target is left alone. *)
Definition repaired_to (c : bytes) (t : Task) (m : Member) (w w' : World) : Prop :=
  (∀ z, z ≠ y → z ≠ Name m → nodes w' z = nodes w z) ∧
  keeps (nodes w y) (nodes w' y) ∧ same_view (nodes w y) (nodes w' y) ∧
  keeps (nodes w (Name m)) (nodes w' (Name m)) ∧
  (over_quota (nodes w (Name m)) → idle (nodes w (Name m)) (nodes w' (Name m))).

Lemma sendCopy_cluster env t m size c w w' res :
  m ∈ ms → Name m ≠ y → ns_Valid (t_Namespace t) = true → valid_key (t_Key t) = true →
  node_ok (nodes w (Name m)) → view (local (nodes w y)) (t_Namespace t) (t_Key t) = Some c →
  sendCopy (host_of y) peers env m t size w = (w', res) →
  repaired_to c t m w w' ∧
  (res = Ok tt → stored (t_Namespace t) (t_Key t) c (local (nodes w' (Name m)))).
Proof.
  intros Hm Hne Hns Hk Hok Hc. unfold sendCopy. mrun.
  destruct (on_local (host_of y) (Get (rp_get env (Name m)) (t_Namespace t) (t_Key t)) w) as [w1 [obj|e]] eqn:HG;
    apply on_local_Get in HG as (Ht1 & Hk1 & Hv1 & Hobj); mrun.
  2: { intros [= <- <-]. split; [|done]. split; [auto|]. rewrite (Ht1 (Name m)) by done.
       split; [done|]. split; [done|]. split; [apply keeps_refl|]. intros _. apply idle_refl. }
  destruct (Hobj obj eq_refl) as (c' & Hc' & _ & Hrest & _). rewrite Hc in Hc'. injection Hc' as <-.
  pose proof (peer_over_idle m (t_Namespace t) (t_Key t) (mkReader (o_rest obj) (o_readerr obj)) size w1 Hm Hns Hk) as Hov.
  cbn [peer_Put HTTPPeerClient].
  destruct (http_Put y m _ _ _ size HopRepair w1) as [w2 res2] eqn:HP.
  apply (peer_replica dial bad_url ms dial_ok) in HP as (Ht2 & Hk2 & Hst2); [|by right; left|done..|by rewrite Ht1].
  simpl in Hst2. destruct (on_local_Close y (rp_close env (Name m)) obj w2) as (Ht3 & Hk3 & Hv3).
  intros [= <- <-]. assert (Hy2 : nodes w2 y = nodes w1 y) by (by apply Ht2).
  rewrite !(Ht1 (Name m)) in * by done.
  split; [|rewrite Ht3 by done; intros [Hs2 He2]%Hst2; by rewrite (Hrest He2) in Hs2].
  split; [intros z Hzy Hzt; by rewrite Ht3, Ht2, Ht1|].
  split; [eapply keeps_trans; [exact Hk1|]; rewrite <-Hy2; exact Hk3|].
  split; [intros ns' key'; rewrite Hv3, Hy2; apply Hv1|]. rewrite Ht3 by done. split; [done|].
  intros Ho. by apply Hov.
Qed.

Lemma repaired_to_trans c t m w1 w2 w3 :
  repaired_to c t m w1 w2 → repaired_to c t m w2 w3 → repaired_to c t m w1 w3.
Proof.
  intros (Hz1 & Hk1 & Hv1 & Hm1 & Ho1) (Hz2 & Hk2 & Hv2 & Hm2 & Ho2).
  split; [intros; rewrite Hz2, Hz1; done|]. split; [by eapply keeps_trans|].
  split; [intros ??; by rewrite Hv2|]. split; [by eapply keeps_trans|]. intros Ho.
  eapply idle_trans; [by apply Ho1|]. apply Ho2. eapply over_quota_idle; [by apply Ho1|done].
Qed.

Lemma repair_one_cluster env t m size c w w' o :
  m ∈ ms → Name m ≠ y → ns_Valid (t_Namespace t) = true → valid_key (t_Key t) = true →
  node_ok (nodes w (Name m)) → view (local (nodes w y)) (t_Namespace t) (t_Key t) = Some c →
  repair_one (host_of y) peers env t size m w = (w', o) →
  repaired_to c t m w w' ∧
  (o = Recreated → stored (t_Namespace t) (t_Key t) c (local (nodes w' (Name m)))).
Proof.
  intros Hm Hne Hns Hk Hok Hc. unfold repair_one. cbn [peer_Stat HTTPPeerClient].
  destruct (peer_stat_idle m (t_Namespace t) (t_Key t) w Hm Hns Hk) as [Ht1 Hi1].
  destruct (http_Stat y m _ _ HopRead w) as [w1 r1]. cbn [fst] in *.
  assert (H1 : repaired_to c t m w w1).
  { split; [intros z Hzy Hzm; by apply Ht1|]. rewrite (Ht1 y) by done. split; [apply keeps_refl|].
    split; [done|]. by split; [destruct Hi1|]. }
  destruct r1 as [info|e]; [by intros [= <- <-]|]. destruct (negb _); [by intros [= <- <-]|].
  destruct (sendCopy _ _ env m t size w1) as [w2 r2] eqn:HS.
  apply (sendCopy_cluster _ _ _ _ c) in HS as [H2 Hst]; [|done..| |by rewrite (Ht1 y)].
  2: { destruct Hi1 as ((_ & _ & Hk1) & _). by apply Hk1. }
  intros [= <- <-]. split; [by eapply repaired_to_trans|].
  destruct r2 as [[]|e2]; [by intros _; apply Hst|]. by destruct (isOverQuota e2).
Qed.

Lemma repair_loop_cluster env t size c hs wk w w' wk' os :
  NoDup (Name <$> hs) → (∀ m, m ∈ hs → m ∈ ms) →
  ns_Valid (t_Namespace t) = true → valid_key (t_Key t) = true → (∀ m, m ∈ hs → node_ok (nodes w (Name m))) →
  view (local (nodes w y)) (t_Namespace t) (t_Key t) = Some c →
  repair_loop (host_of y) peers env y t size hs wk w = (w', wk', os) →
  (∀ z, z ≠ y → z ∉ (Name <$> hs) → nodes w' z = nodes w z) ∧ same_view (nodes w y) (nodes w' y) ∧
  (∀ m o, (m, o) ∈ os → m ∈ hs ∧ Name m ≠ y ∧
    (o = Recreated → stored (t_Namespace t) (t_Key t) c (local (nodes w' (Name m))))) ∧
  (∀ m, m ∈ hs → Name m ≠ y → over_quota (nodes w (Name m)) → same_view (nodes w (Name m)) (nodes w' (Name m))).
Proof.
  revert wk w os. induction hs as [|m hs IH]; intros wk w os Hnd Hms Hns Hk Hok Hc; cbn [repair_loop].
  { intros [= <- <- <-]. split; [done|]. split; [done|].
    split; [intros m o|intros m]; by rewrite elem_of_nil. }
  rewrite fmap_cons in Hnd. apply NoDup_cons in Hnd as [Hni Hnd].
  assert (Hms' : ∀ m', m' ∈ hs → m' ∈ ms) by (intros; apply Hms; by right).
  destruct (String.eqb_spec (Name m) y) as [Hy|Hne].
  { intros HR. apply IH in HR as (Hz & Hv & Ho & Hq); [|done..|intros; apply Hok; by right|done].
    split; [intros z Hzy Hzn; rewrite fmap_cons, not_elem_of_cons in Hzn; apply Hz; by destruct Hzn|].
    split; [done|]. split; [intros m' o Hin; destruct (Ho m' o Hin) as (? & ?); split; [by right|done]|].
    intros m' [->|Hm']%elem_of_cons; [done|by apply Hq]. }
  destruct (rp_ctx env (Name m)).
  { intros [= <- <- <-]. split; [done|]. split; [done|]. split; [intros m' o; by rewrite elem_of_nil|done]. }
  destruct (repair_one _ _ env t size m w) as [w1 o1] eqn:H1.
  apply (repair_one_cluster _ _ _ _ c) in H1 as [(Hz1 & Hk1 & Hv1 & Hm1 & Ho1) Hst1];
    [|apply Hms; left|done..|apply Hok; left|done].
  destruct (repair_loop _ _ _ _ _ _ hs _ w1) as [[w2 wk2] os2] eqn:HR. intros [= <- <- <-].
  assert (Hoth : ∀ m', m' ∈ hs → Name m' ≠ Name m).
  { intros m' Hm'%(list_elem_of_fmap_2 Name) He. apply Hni. by rewrite <-He. }
  apply IH in HR as (Hz & Hv & Ho & Hq); [|done..| |by rewrite Hv1].
  2: { intros m' Hm'. destruct (decide (Name m' = y)) as [Hy|Hny].
       - rewrite Hy. apply Hk1. rewrite <-Hy. apply Hok. by right.
       - rewrite Hz1 by auto. apply Hok. by right. }
  split; [intros z Hzy Hzn; rewrite fmap_cons, not_elem_of_cons in Hzn; destruct Hzn; by rewrite Hz, Hz1|].
  split; [intros ??; by rewrite Hv|]. split.
  - intros m' o [[= -> ->]|Hin]%elem_of_cons.
    + split; [left|]. split; [done|]. intros He. rewrite Hz by done. by apply Hst1.
    + destruct (Ho m' o Hin) as (? & ?). split; [by right|done].
  - intros m' [->|Hm']%elem_of_cons Hny Hov.
    + rewrite Hz by done. by apply Ho1.
    + rewrite <-(Hz1 (Name m')) in Hov |- * by auto. by apply Hq.
Qed.
End cluster_repair.

(** ** Claims on repair *)

(** C5: repair restores the missing copies and nothing else.  When a node of a
    cluster repairs an object, whatever the network, the disks and the databases
    do: it asks only the other holders of the object; a holder for which a
    recreated copy is counted stores the object, an action result with exactly
    the bytes of this node's copy; no node outside the holders changes; and a
    holder above the high-water mark of its quota is left with what it stores. *)
Theorem repair_restores_holders dial bad_url ms rc E n x env t wk w w' wk' os :
  (∀ m q, m ∈ ms → dial (URL m +:+ "/" +:+ q) = Some (Name m, "/" +:+ q)) →
  cluster_ok ms rc w → x ∈ ms → ns_Valid (t_Namespace t) = true → valid_key (t_Key t) = true →
  let peers := @HTTPPeerClient World (Build_Transport World bad_url
    (exchange dial E [Name x] (serve dial bad_url E (S n)))) (Name x) in
  let hs := Holders (ring (nodes w (Name x))) (t_Key t) rc in
  repair (host_of (Name x)) peers env t wk w = (w', wk', os) →
  (∀ m o, (m, o) ∈ os → m ∈ hs ∧ Name m ≠ Name x) ∧
  (∀ m, (m, Recreated) ∈ os →
    ∃ c, view (local (nodes w (Name x))) (t_Namespace t) (t_Key t) = Some c ∧
      stored (t_Namespace t) (t_Key t) c (local (nodes w' (Name m)))) ∧
  (∀ z, z ≠ Name x → z ∉ (Name <$> hs) → nodes w' z = nodes w z) ∧
  (∀ m, m ∈ hs → Name m ≠ Name x → over_quota (nodes w (Name m)) →
    same_view (nodes w (Name m)) (nodes w' (Name m))).
Proof.
  intros Hd Hok Hx Hns Hk peers hs. unfold repair. cbn [h_get host_of].
  destruct (co_ring _ _ _ Hok x Hx) as (Hmem & Hself & Hrc & Hne). rewrite Hself, Hrc. fold hs.
  destruct (on_local_Stat (Name x) (rp_stat env).1 (rp_stat env).2 (t_Namespace t) (t_Key t) w) as [Ht1 Hi1].
  destruct (on_local _ _ w) as [w1 r] eqn:HS. cbn [fst] in *.
  destruct r as [st|e].
  2: { intros [= <- <- <-]. split; [intros ??; by rewrite elem_of_nil|]. split; [intros ?; by rewrite elem_of_nil|].
       split; [auto|]. intros m _ Hm _. by rewrite Ht1. }
  apply on_local_node in HS as (s1 & HS & _ & _). destruct (Stat_view _ _ _ _ _ _ _ HS) as [c Hc].
  assert (Hsub : ∀ m, m ∈ hs → m ∈ ms).
  { intros m Hm. unfold hs in Hm. rewrite Holders_take in Hm. apply take_elem_of in Hm.
    by rewrite Owners_perm, Hmem in Hm. }
  pose proof (cluster_ok_keeps ms rc w (Name x) w1 Ht1 ltac:(apply Hi1) Hok) as Hok1. intros HR.
  eapply (repair_loop_cluster dial bad_url ms Hd E n [Name x] (Name x) Hne env t _ c) in HR
    as (Hz & Hv & Ho & Hq).
  - split; [intros m o Hin; by destruct (Ho m o Hin) as (? & ? & _)|].
    split; [intros m Hin; exists c; split; [done|]; by apply (Ho m Recreated)|].
    split; [intros z Hzx Hzn; by rewrite Hz, Ht1|].
    intros m Hm Hmx Hov. rewrite <-(Ht1 (Name m)) in Hov |- * by done. by apply Hq.
  - unfold hs. rewrite Holders_take, fmap_take. apply NoDup_take.
    rewrite (fmap_Permutation Name _ _ (Owners_perm (ring (nodes w (Name x))) (t_Key t))), Hmem. apply Hok.
  - done.
  - done.
  - done.
  - intros m Hm. apply Hok1. auto.
  - destruct Hi1 as (_ & Hv1 & _). by rewrite Hv1.
Qed.

(** ** The three nodes again, for the witnesses *)

(** [node-b] holds two action results, the other nodes hold nothing. *)
Definition uneven_node (x : string) : Coordinator :=
  mkCoordinator (mkRing trio x) (if String.eqb x "node-b" then full_store else fresh_store 1024) 2 None (λ _, 0).

Definition uneven : World := mkWorld uneven_node.

Definition small_worker : Worker :=
  mkWorker [] 1 false 4 1 (EmptyString, EmptyString) (λ _, 0) false false false.

Definition lost_copy : Task := mkTask NamespaceAC key_a 3.

Lemma uneven_ok : cluster_ok trio 2 uneven.
Proof.
  split.
  - exact trio_NoDup.
  - intros m Hm. do 3 (split; [done|]). unfold trio in Hm.
    rewrite !elem_of_cons, elem_of_nil in Hm. by destruct Hm as [->|[->|[->|[]]]].
  - intros m _. split.
    + simpl. unfold uneven_node. simpl. destruct (String.eqb _ _); [apply full_store_ok|apply fresh_store_ok].
    + simpl. unfold uneven_node. simpl. by destruct (String.eqb _ _).
Qed.

Lemma audit_pass_skips_nothing_witness :
  ∃ w' got res pre post, auditPass audit_fine (uneven_node "node-b") small_worker = Some (w', got, res) ∧
    rows_after (EmptyString, EmptyString) (objects full_index) = pre ++ post ∧ (length pre ≤ 512)%nat.
Proof.
  destruct (audit_pass_skips_nothing audit_fine (uneven_node "node-b") full_index small_worker)
    as (w' & got & res & pre & post & HA & Hrows & Hl & _).
  - reflexivity.
  - vm_compute. discriminate.
  - vm_compute. discriminate.
  - reflexivity.
  - exists w', got, res, pre, post. split; [exact HA|]. split; [exact Hrows|exact Hl].
Defined.

Lemma audit_covers_index_witness :
  ∃ n w', sweep (λ _, audit_fine) n (uneven_node "node-b") small_worker =
    Some (w', task_of <$> filter (ours (mkRing trio "node-b") 2)
                (rows_after (EmptyString, EmptyString) (objects full_index))).
Proof.
  destruct (audit_covers_index (λ _, audit_fine) (uneven_node "node-b") full_index small_worker)
    as (n & w' & _ & _ & H).
  - reflexivity.
  - intros k. split; [reflexivity|]. split; reflexivity.
  - vm_compute. discriminate.
  - vm_compute. discriminate.
  - reflexivity.
  - reflexivity.
  - reflexivity.
  - reflexivity.
  - reflexivity.
  - exists n, w'. exact H.
Defined.

Definition trio_peers : PeerClient World :=
  @HTTPPeerClient World (Build_Transport World (λ _, None)
    (exchange trio_dial trio_env ["node-b"] (serve trio_dial (λ _, None) trio_env 1))) "node-b".

Definition new_worker : Worker :=
  mkWorker [] 8 false 2 100 (EmptyString, EmptyString) (λ _, 0) false false false.

Definition new_pool : Pool :=
  mkPool (set_life true false false new_worker) uneven 5 false 2 (Waiting 5).

Definition cancelled_pool : Pool :=
  mkPool (set_life true false false new_worker) uneven 5 true 2 (Waiting 5).

(** Cancelled with two goroutines waiting: four steps later [Run] has returned. *)
Lemma repair_pool_shuts_down_witness :
  ∃ p', execution (host_of "node-b") trio_peers 4 cancelled_pool p' ∧ pool_phase p' = Returned ∧
    w_done (pool_worker p') = true.
Proof.
  destruct (repair_pool_shuts_down (host_of "node-b") trio_peers (Some (uneven_node "node-b")) 2 8 100 5
    new_worker uneven new_pool cancelled_pool) as (_ & _ & H & _).
  - reflexivity.
  - reflexivity.
  - apply rtc_once. right. exact (r_cancel _ _ new_pool eq_refl).
  - eassert (execution (host_of "node-b") trio_peers 4 cancelled_pool _) as He.
    { eapply ex_move; [eapply r_close; reflexivity|]. eapply ex_move; [eapply r_exit; reflexivity|].
      eapply ex_move; [eapply r_exit; reflexivity|]. eapply ex_move; [eapply r_return; reflexivity|]. apply ex_nil. }
    destruct (H eq_refl) as (_ & _ & Hall). destruct (Hall _ _ He) as (_ & Hret & Hdone).
    eexists. split; [exact He|]. split; [apply Hret; reflexivity|]. apply Hdone, Hret. reflexivity.
Defined.

Definition uneven_repair := repair (host_of "node-b") trio_peers (repair_fine 100) lost_copy new_worker uneven.

Lemma uneven_repair_recreates : uneven_repair.2 = [(mkMember "node-c" "http://node-c" 3, Recreated)].
Proof. vm_compute. reflexivity. Qed.

Lemma repair_restores_holders_witness :
  ∃ c, stored NamespaceAC key_a c (local (nodes uneven_repair.1.1 "node-c")).
Proof.
  destruct (repair_restores_holders trio_dial (λ _, None) trio 2 trio_env 0
    (mkMember "node-b" "http://node-b" 2) (repair_fine 100) lost_copy new_worker uneven
    uneven_repair.1.1 uneven_repair.1.2 uneven_repair.2 trio_dial_ok uneven_ok) as (_ & H & _).
  - right. left.
  - reflexivity.
  - vm_compute. reflexivity.
  - change (repair _ _ _ _ _ _) with uneven_repair. rewrite <-!surjective_pairing. reflexivity.
  - destruct (H (mkMember "node-c" "http://node-c" 3)) as (c & _ & Hc).
    + rewrite uneven_repair_recreates. left.
    + exists c. exact Hc.
Defined.
