(* ===== verification/Reads.v ===== *)
(** * Reading through the cluster

    What a client that sends a GET to any node receives, when the answer may come
    from the node's own disk or be streamed through it from another node: safety
    under every fault of the network, the disks and the connections, and
    completeness when nothing fails.  The components are those of [Cluster]. *)

From S2P Require Import Prelude GoStrings Sha256 Errors Key Config Ring Protocol Index FileSystem Store StoreSpec Evict Client Coordinator HttpApi Cluster Repair.

#[local] Open Scope Z_scope.

(** ** What reading leaves alone *)

(** The nodes changed no object, no membership and no lifecycle state. *)
Definition reads_only (w w' : World) : Prop :=
  ∀ z, keeps (nodes w z) (nodes w' z) ∧ same_view (nodes w z) (nodes w' z) ∧
    closed (local (nodes w' z)) = closed (local (nodes w z)) ∧
    tree (local (nodes w' z)) = tree (local (nodes w z)) ∧ root (local (nodes w' z)) = root (local (nodes w z)).

Lemma reads_only_refl w : reads_only w w.
Proof. intros z. split; [apply keeps_refl|]. done. Qed.

Lemma reads_only_trans w1 w2 w3 : reads_only w1 w2 → reads_only w2 w3 → reads_only w1 w3.
Proof.
  intros H1 H2 z. destruct (H1 z) as (Hk1 & Hv1 & Hc1 & Ht1 & Hr1), (H2 z) as (Hk2 & Hv2 & Hc2 & Ht2 & Hr2).
  split; [by eapply keeps_trans|]. split; [intros ns key; by rewrite Hv2|]. split_and!; congruence.
Qed.

Lemma reads_only_ok ms rc w w' : reads_only w w' → cluster_ok ms rc w → cluster_ok ms rc w'.
Proof.
  intros Hr [Hn Hring Hst]. split; [done|..]; intros m Hm; cbv zeta;
    destruct (Hr (Name m)) as ((Hrg & Hrc & Hok) & _).
  - rewrite Hrg, Hrc. by apply Hring.
  - by apply Hok, Hst.
Qed.

(** One node changed, and only as reading changes it. *)
Lemma reads_only_one y w w' :
  touches y w w' → (∃ s', same_disk (local (nodes w y)) s' ∧ local (nodes w' y) = s') →
  keeps (nodes w y) (nodes w' y) → same_view (nodes w y) (nodes w' y) → reads_only w w'.
Proof.
  intros Ht (s' & ((Hroot & _) & Hcl & _ & Htree) & Hs) Hk Hv z. destruct (decide (z = y)) as [->|Hne].
  - rewrite Hs. by split_and!.
  - rewrite Ht by done. split; [apply keeps_refl|]. done.
Qed.

Lemma count_reads y k n w : reads_only w (count (host_of y) k n w).
Proof.
  destruct (count_node y k n w) as (Ht & Hk & Hv). eapply reads_only_one; [done| |done..].
  exists (local (nodes w y)). split; [apply same_disk_refl|]. unfold count. by rewrite host_set_get.
Qed.

Lemma on_local_reads {A} y (m : M Store A) w :
  (∀ s, same_disk s (m s).1) → reads_only w (on_local (host_of y) m w).1.
Proof.
  intros Hm. destruct (on_local (host_of y) m w) as [w' r] eqn:H. simpl.
  apply on_local_node in H as (s' & Hs & Ht & Hn). pose proof (Hm (local (nodes w y))) as Hd. rewrite Hs in Hd.
  destruct (same_disk_node _ _ Hd) as [Hk Hv].
  eapply reads_only_one; [done|exists s'; by rewrite Hn|by rewrite Hn..].
Qed.

Lemma Get_same env ns key s : same_disk s (Get env ns key s).1.
Proof. destruct (Get env ns key s) as [s' r] eqn:H. by apply Get_spec in H as [? _]. Qed.

(** ** A reader and the object behind it *)

Definition obj_body (o : ObjectReader) : bytes :=
  match o with LocalObject o => o_rest o | PeerObject p => p_body p end.

Definition obj_err (o : ObjectReader) : option error :=
  match o with LocalObject o => o_readerr o | PeerObject p => p_bodyerr p end.

(** The reader serves a prefix of [c] and declares the length of [c]. *)
Definition reads_from (c : bytes) (o : ObjectReader) : Prop :=
  obj_body o `prefix_of` c ∧ obj_Size o = Z.of_nat (length c).

Lemma peer_copy_spec n fuel p w k p' w' k' err :
  peer_copy fuel n p w k = Some (p', w', (k', err)) →
  ∃ q, w_out w' = w_out w ++ q ∧ q `prefix_of` p_body p ∧
    (w_limit w = None → q = p_body p).
Proof.
  revert p w k. induction fuel as [|fuel IH]; intros p w k; [done|]. cbn [peer_copy].
  destruct (p_body p) as [|x rest] eqn:Hr.
  { intros [= <- <- <- <-]. exists []. by rewrite app_nil_r. }
  destruct (Write w (take n (x :: rest))) as [[w1 nw] werr] eqn:Hw.
  destruct (Write_spec _ _ _ _ _ Hw) as (Hout & Hnw & Hlim).
  assert (Hpre : take nw (take n (x :: rest)) `prefix_of` x :: rest)
    by (etrans; [apply prefix_take|apply prefix_take]).
  assert (Hall : w_limit w = None → werr = None ∧ nw = length (take n (x :: rest))).
  { intros Hn. unfold Write in Hw. rewrite Hn in Hw. by injection Hw as _ <- <-. }
  destruct werr as [e|]; [|destruct (negb _) eqn:Hne].
  - intros [= _ <- _ _]. eexists. split; [done|]. split; [done|]. by intros [? _]%Hall.
  - intros [= _ <- _ _]. eexists. split; [done|]. split; [done|]. intros [_ Hl]%Hall.
    rewrite Hl, Nat.eqb_refl in Hne. done.
  - boolify. intros H. destruct (IH _ _ _ H) as (q & Hq & Hp & Hf). simpl in Hp, Hf.
    exists (take n (x :: rest) ++ q). rewrite Hq, Hout, Hne, firstn_all, (assoc_L (++)). split; [done|].
    rewrite <-(take_drop n (x :: rest)) at 2 4. split; [by apply prefix_app|]. intros Hl. f_equal. apply Hf.
    by rewrite Hlim.
Qed.

(** What reaches the connection is a prefix of what the reader has; all of it
    when neither fails. *)
Lemma obj_WriteTo_spec o w o' w' n err :
  obj_WriteTo o w = Some (o', w', (n, err)) →
  ∃ q, w_out w' = w_out w ++ q ∧ q `prefix_of` obj_body o ∧
    (w_limit w = None → obj_err o = None → q = obj_body o).
Proof.
  destruct o as [o|p]; simpl; unfold WriteTo, peer_WriteTo.
  - destruct (o_verify o).
    + destruct (copyVerified _ _ _ _ _) as [[[o1 w1] [n1 e1]]|] eqn:HC; [|done]. simpl. intros [= _ <- _ _].
      destruct (copyVerified_spec _ _ _ _ _ _ _ _ _ HC) as (h & q & Hh & _ & Hq & _ & Hp & _ & _ & _ & Hn).
      exists q. split; [done|]. rewrite Hh. split; [etrans; [done|by apply prefix_app_r]|].
      intros Hl He. destruct Hn as (-> & -> & _); [by eapply copyVerified_fine|]. by rewrite app_nil_r.
    + unfold copy_plain. destruct (Write w (o_rest o)) as [[w1 nw] werr] eqn:Hw. simpl. intros [= _ <- _ _].
      destruct (Write_spec _ _ _ _ _ Hw) as (Hout & _ & _). exists (take nw (o_rest o)). split; [done|].
      split; [apply prefix_take|]. intros Hl _. unfold Write in Hw. rewrite Hl in Hw. injection Hw as _ <- _.
      by rewrite firstn_all.
  - destruct (peer_copy _ _ _ _ _) as [[[p1 w1] [n1 e1]]|] eqn:HC; [|done]. simpl. intros [= _ <- _ _].
    destruct (peer_copy_spec _ _ _ _ _ _ _ _ _ HC) as (q & Hq & Hp & Hf). exists q. auto.
Qed.

(** ** One node's answer *)

(** The response is a prefix of [c], declares the length of [c], and ends
    without an error only if it is all of [c]. *)
Definition answers_with (c : bytes) (resp : Response) : Prop :=
  rdata (rs_Body resp) `prefix_of` c ∧ rs_ContentLength resp = Z.of_nat (length c) ∧
  (rerr (rs_Body resp) = None → rdata (rs_Body resp) = c).

Lemma whole_prefix (q c : bytes) : q `prefix_of` c → (length c ≤ length q)%nat → q = c.
Proof.
  intros [k ->] Hl. rewrite length_app in Hl. destruct k; [by rewrite app_nil_r|simpl in Hl; lia].
Qed.

Lemma answers_with_cut c resp n e : answers_with c resp → answers_with c (cut_response n e resp).
Proof.
  intros (Hp & Hl & _). split; [|by split]. simpl. etrans; [apply prefix_take|done].
Qed.

(** The writer a request starts with. *)
Definition fresh_conn (x : string) (limit : option (nat * option error)) : responseRecorder :=
  mkRR (rw_Set HeaderNode x (mkRW ∅ 0 ∅ None (mkWriter [] limit))) 0 0.

(** A GET, on every branch: what [Open] returned decides the answer. *)
Lemma serveGet_answers {S} (B : Backend S) ns key hop x limit s :
  let '(s1, r) := be_Open B ns key hop s in
  ∃ s' rec, serveGet B ns key hop true (mkSR (fresh_conn x limit) 0) s = Some (s', rec) ∧
    let resp := response_of MethodGet (sr_r rec) in
    match r with
    | Err e => s' = s1 ∧ rs_StatusCode resp = get_error_code e ∧ rs_StatusCode resp ≠ StatusOK
    | Ok obj =>
        (∃ obj', s' = be_Close B obj' (be_Verify B obj' s1).1 ∨ s' = be_Close B obj' s1) ∧
        rs_StatusCode resp = StatusOK ∧
        ∀ c, reads_from c obj → answers_with c resp ∧
          (limit = None → obj_err obj = None → obj_body obj = c → rerr (rs_Body resp) = None)
    end.
Proof.
  destruct (be_Open B ns key hop s) as [s1 [obj|e]] eqn:HO; unfold serveGet; cbn [negb]; rewrite HO.
  2: { eexists _, _. split; [done|]. split; [done|].
       assert (rs_StatusCode (response_of MethodGet (sr_r (writeGetError e (mkSR (fresh_conn x limit) 0)))) =
         get_error_code e) as ->.
       { assert (w_code (rr_w (sr_r (writeGetError e (mkSR (fresh_conn x limit) 0)))) = get_error_code e) as H
           by (by apply writeGetError_code).
         rewrite response_code; rewrite H; [done|]. unfold get_error_code. by repeat case_match. }
       split; [done|]. unfold get_error_code. by repeat case_match. }
  set (w1 := sr_WriteHeader StatusOK _). unfold copy_object.
  destruct (obj_WriteTo_total obj (w_conn (rr_w (sr_r w1)))) as [[[o c1] [n e]] HW]. rewrite HW. simpl.
  eexists _, _. split; [done|]. split; [destruct e; eauto|]. split; [done|].
  intros c [Hp Hs]. destruct (obj_WriteTo_spec _ _ _ _ _ _ HW) as (q & Hq & Hpq & Hfull).
  change (w_out (w_conn (rr_w (sr_r w1)))) with (@nil Byte.byte) in Hq. simpl in Hq.
  change (w_limit (w_conn (rr_w (sr_r w1)))) with limit in Hfull.
  unfold answers_with, response_of. simpl. rewrite Hq. rewrite Hs.
  assert (Hqc : q `prefix_of` c) by (by etrans).
  split; [split; [done|]; split; [done|]|].
  - destruct (Z.ltb_spec (Z.of_nat (length q)) (Z.of_nat (length c))); [done|]. intros _.
    apply whole_prefix; [done|lia].
  - intros Hlim He Hb. rewrite Hfull, Hb, Z.ltb_irrefl by done. done.
Qed.

(** ** Reading through any node *)

Lemma obj_Verify_reads y o w : reads_only w (obj_Verify (host_of y) o w).1.
Proof.
  destruct o as [o|p]; [|apply reads_only_refl]. apply on_local_reads. intros s. apply Verify_same.
Qed.

Lemma obj_Close_reads y f o w : reads_only w (obj_Close (host_of y) f o w).
Proof.
  destruct o as [o|p]; [|apply reads_only_refl]. apply on_local_reads. intros s. apply Object_Close_same.
Qed.

Section reading.
Context (dial : string → option (string * string)) (bad_url : string → option error).
Context (ms : list Member) (rc : Z).
Context (dial_ok : ∀ m q, m ∈ ms → dial (URL m +:+ "/" +:+ q) = Some (Name m, "/" +:+ q)).
Context (ns key : string) (ns_ok : ns_Valid ns = true) (key_ok : valid_key key = true).

(** [c] is what some member stores. *)
Definition held (w : World) (c : bytes) : Prop :=
  ∃ m, m ∈ ms ∧ view (local (nodes w (Name m))) ns key = Some c.

Lemma held_reads w w' c : reads_only w w' → held w' c → held w c.
Proof. intros Hr (m & Hm & Hv). exists m. split; [done|]. destruct (Hr (Name m)) as (_ & H & _). by rewrite <-H. Qed.

(** What a node expects of the client it reads its peers with. *)
Definition reads_well (P : PeerClient World) : Prop :=
  ∀ m w w' r, cluster_ok ms rc w → m ∈ ms → peer_Get P m ns key HopRead w = (w', r) →
    reads_only w w' ∧ ∀ p, r = Ok p → ∃ c, held w c ∧ reads_from c (PeerObject p).

Lemma ask_reads P hs e0 w w' found lastErr :
  reads_well P → cluster_ok ms rc w → (∀ m, m ∈ hs → m ∈ ms) →
  ask (λ m, peer_Get P m ns key HopRead) hs e0 w = (w', (found, lastErr)) →
  reads_only w w' ∧ ∀ p, found = Some p → ∃ c, held w c ∧ reads_from c (PeerObject p).
Proof.
  intros HP. revert e0 w. induction hs as [|m hs IH]; intros e0 w Hok Hms; cbn [ask].
  { intros [= <- <- <-]. split; [apply reads_only_refl|done]. }
  destruct (peer_Get P m ns key HopRead w) as [w1 r] eqn:HG.
  destruct (HP m w w1 r Hok (Hms m (list_elem_of_here _ _)) HG) as [Hr1 Hp1].
  destruct r as [p|e]; [intros [= <- <- <-]; split; [done|]; by intros ? [= <-]; apply Hp1|].
  intros HA. apply IH in HA as [Hr2 Hp2]; [|by eapply reads_only_ok|intros; apply Hms; by right].
  split; [by eapply reads_only_trans|]. intros p Hf. destruct (Hp2 p Hf) as (c & Hc & Hrd).
  exists c. split; [by eapply held_reads|done].
Qed.

Lemma readOrder_members x w m :
  cluster_ok ms rc w → x ∈ ms → m ∈ readOrder (nodes w (Name x)) key → m ∈ ms.
Proof.
  intros Hok Hx Hm. apply list_elem_of_filter in Hm as [_ Hm].
  rewrite Owners_perm in Hm. by destruct (co_ring _ _ _ Hok x Hx) as (<- & _).
Qed.

Lemma coord_Open_reads P x env hop w w' r :
  reads_well P → cluster_ok ms rc w → x ∈ ms →
  coord_Open (host_of (Name x)) (Some P) env ns key hop w = (w', r) →
  reads_only w w' ∧ ∀ o, r = Ok o → ∃ c, held w c ∧ reads_from c o.
Proof.
  intros HP Hok Hx. unfold coord_Open. cbn [h_get host_of].
  pose proof (on_local_reads (Name x) (Get (ne_get env (self (ring (nodes w (Name x))))) ns key) w
    (Get_same _ _ _)) as Hr1.
  destruct (on_local _ _ w) as [w1 [obj|e]] eqn:HG; cbn [fst] in Hr1.
  { apply on_local_Get in HG as (_ & _ & _ & Hobj). intros [= <- <-].
    split; [eapply reads_only_trans; [done|apply count_reads]|]. intros o [= <-].
    destruct (Hobj obj eq_refl) as (c & Hc & Hp & _ & Hs). exists c. split; [by exists x|]. by split. }
  destruct (negb _); [by intros [= <- <-]|]. destruct (if Terminal hop then None else Some P) as [P'|] eqn:HT.
  2: { intros [= <- <-]. split; [eapply reads_only_trans; [done|apply count_reads]|done]. }
  assert (P' = P) as -> by (by destruct (Terminal hop); simplify_eq).
  destruct (ask _ _ _ w1) as [w2 [found lastErr]] eqn:HA.
  apply ask_reads in HA as [Hr2 Hp2]; [|done|by eapply reads_only_ok|intros m; by apply readOrder_members].
  assert (Hr : reads_only w w2) by (by eapply reads_only_trans).
  destruct found as [p|]; intros [<- <-]%pair_eq.
  - split; [do 2 (eapply reads_only_trans; [|apply count_reads]); done|]. intros o [= <-].
    destruct (Hp2 p eq_refl) as (c & Hc & Hrd). exists c. split; [by apply (held_reads w w1)|done].
  - split; [eapply reads_only_trans; [done|apply count_reads]|]. by destruct lastErr.
Qed.

(** A GET served by a node whose client reads well. *)
Lemma serve_reads E n chain x r p w w' res :
  reads_well (@HTTPPeerClient World (Build_Transport World bad_url
    (exchange dial E chain (serve dial bad_url E n))) (Name x)) →
  cluster_ok ms rc w → x ∈ ms → parsePath p = Some (ns, key) → rq_Method r = MethodGet →
  serve dial bad_url E (S n) chain (Name x) r p w = (w', res) →
  reads_only w w' ∧ ∀ resp, res = Ok resp → rs_StatusCode resp = StatusOK →
    ∃ c, held w c ∧ answers_with c resp.
Proof.
  intros HP Hok Hx Hp Hm. cbn [serve]. unfold ServeHTTP. rewrite Hp.
  match goal with |- context [dispatch ?B ?h r ns key ?hop ?rec w] =>
    assert (dispatch B h r ns key hop rec w = serveGet B ns key hop true rec w) as -> by
      (unfold dispatch; by rewrite Hm); set (be := B); set (hp := hop) end.
  pose proof (serveGet_answers be ns key hp (Name x) (ce_conn E chain) w) as HS.
  assert (HO : be_Open be ns key hp w = coord_Open (host_of (Name x)) (Some (@HTTPPeerClient World
    (Build_Transport World bad_url (exchange dial E chain (serve dial bad_url E n))) (Name x)))
    (ce_node E chain) ns key hp w) by done.
  destruct (be_Open be ns key hp w) as [w1 o]. symmetry in HO.
  apply coord_Open_reads in HO as [Hr1 Ho]; [|done..].
  destruct HS as (w2 & rec & Hrun & Hans). fold (fresh_conn (Name x) (ce_conn E chain)). rewrite Hrun, Hm. simpl.
  intros [= <- <-]. destruct o as [obj|e].
  - destruct Hans as ([obj' Hw2] & Hcode & Hc). split.
    + destruct Hw2 as [->| ->]; (eapply reads_only_trans; [|apply obj_Close_reads]); [|done].
      eapply reads_only_trans; [done|apply obj_Verify_reads].
    + intros resp [= <-] _. destruct (Ho obj eq_refl) as (c & Hheld & Hrd). exists c. split; [done|].
      by apply Hc.
  - destruct Hans as (-> & _ & Hne). split; [done|]. by intros resp [= <-] ?.
Qed.

(** A function that serves GETs well. *)
Definition serves_reads (chain : list string)
    (f : list string → string → Request → string → World → World * result Response) : Prop :=
  ∀ m r p w w' res, cluster_ok ms rc w → m ∈ ms → parsePath p = Some (ns, key) → rq_Method r = MethodGet →
    f (Name m :: chain) (Name m) r p w = (w', res) →
    reads_only w w' ∧ ∀ resp, res = Ok resp → rs_StatusCode resp = StatusOK →
      ∃ c, held w c ∧ answers_with c resp.

Lemma exchange_reads E chain f m rq w w1 res :
  serves_reads chain f → cluster_ok ms rc w → m ∈ ms →
  rq_URL rq = URL m +:+ "/" +:+ (ns +:+ "/" +:+ key) → rq_Method rq = MethodGet → rq_Body rq = None →
  exchange dial E chain f rq w = (w1, res) →
  reads_only w w1 ∧ ∀ resp, res = Ok resp → rs_StatusCode resp = StatusOK →
    ∃ c, held w c ∧ answers_with c resp.
Proof.
  intros Hf Hok Hm Hu Hget Hb. unfold exchange, framed. rewrite Hu, dial_ok, Hb by done.
  assert (Hcut : ∀ k, cut_request k rq = rq) by (intros k; unfold cut_request; by rewrite Hb).
  destruct (f (Name m :: chain) (Name m) rq _ w) as [w2 res2] eqn:HF.
  destruct (Hf m rq _ w w2 res2 Hok Hm (parsePath_object ns key ns_ok key_ok) Hget HF) as [Hr Hans].
  destruct (ce_net E _) as [|e|k e|e|k e]; rewrite ?Hcut, ?HF; intros [= <- <-];
    (split; [done || apply reads_only_refl|]); try done. intros resp. destruct res2 as [resp2|]; [|done]. intros [= <-] Hc.
  destruct (Hans resp2 eq_refl Hc) as (c & Hh & Ha). exists c. split; [done|]. by apply answers_with_cut.
Qed.

(** The HTTP client over a transport that serves GETs well. *)
Lemma client_reads_well E chain x f :
  serves_reads chain f →
  reads_well (@HTTPPeerClient World (Build_Transport World bad_url (exchange dial E chain f)) x).
Proof.
  intros Hf m w w' r Hok Hm. cbn [peer_Get HTTPPeerClient]. unfold http_Get, newRequest. cbn [url_err].
  destruct (bad_url _); mrun; [intros [= <- <-]; split; [apply reads_only_refl|done]|].
  set (rq := mkRequest _ _ _ _ _). pose proof (exchange_reads E chain f m rq w) as HD.
  cbn [Do]. destruct (exchange dial E chain f rq w) as [w1 [resp|e]];
    destruct (HD _ _ Hf Hok Hm eq_refl eq_refl eq_refl eq_refl) as [Hr Ha]; mrun; [|by intros [= <- <-]].
  destruct (_ =? StatusNotFound); mrun; [by intros [= <- <-]|].
  destruct (rs_StatusCode resp =? StatusOK) eqn:Hc; simpl negb; cbv iota; mrun; [|by intros [= <- <-]].
  intros [= <- <-]. split; [done|]. intros p [= <-]. boolify.
  destruct (Ha resp eq_refl Hc) as (c & Hh & Hp & Hl & _). exists c. split; [done|]. by split.
Qed.

Lemma serve_reads_any E n chain x r p w w' res :
  cluster_ok ms rc w → x ∈ ms → parsePath p = Some (ns, key) → rq_Method r = MethodGet →
  serve dial bad_url E n chain (Name x) r p w = (w', res) →
  reads_only w w' ∧ ∀ resp, res = Ok resp → rs_StatusCode resp = StatusOK →
    ∃ c, held w c ∧ answers_with c resp.
Proof.
  revert chain x r p w w' res. induction n as [|n IH]; intros chain x r p w w' res Hok Hx Hp Hm.
  { intros [= <- <-]. split; [apply reads_only_refl|done]. }
  apply serve_reads; try done. apply client_reads_well. intros m r' p' w1 w1' res'. apply IH.
Qed.

(** ** When nothing fails *)

(** Nothing but the object itself can make looking for it fail on this node. *)
Definition clear_path (c : Coordinator) : Prop :=
  closed (local c) = false ∧
  os_IsNotExist (missing (tree (local c)) (object_file (root (local c)) ns key)) = true.

Lemma clear_path_reads w w' z : reads_only w w' → clear_path (nodes w z) → clear_path (nodes w' z).
Proof. intros Hr. destruct (Hr z) as (_ & _ & Hc & Ht & Hrt). unfold clear_path. by rewrite Hc, Ht, Hrt. Qed.

(** A complete reader of [c]. *)
Definition complete (c : bytes) (o : ObjectReader) : Prop :=
  obj_body o = c ∧ obj_err o = None ∧ obj_Size o = Z.of_nat (length c).

Lemma Get_fine_local now y w w' r :
  clear_path (nodes w y) → on_local (host_of y) (Get (get_fine now) ns key) w = (w', r) →
  match view (local (nodes w y)) ns key with
  | Some c => ∃ o, r = Ok o ∧ complete c (LocalObject o)
  | None => r = Err ErrNotFound
  end.
Proof.
  intros [Hcl Hmiss] (s' & HG & _ & _)%on_local_node. set (s := local (nodes w y)) in *. unfold view.
  assert (HL : lookup_node None (tree s) (object_file (root s) ns key) =
    match tree s !! object_file (root s) ns key with
    | Some x => Ok x | None => Err (missing (tree s) (object_file (root s) ns key)) end).
  { unfold lookup_node. pose proof (object_file_nonempty (root s) ns key ns_ok key_ok).
    by destruct (object_file (root s) ns key). }
  destruct (tree s !! object_file (root s) ns key) as [[c t| |]|] eqn:Hx.
  { destruct (Get_found (get_fine now) ns key s c t) as [s1 Hs1]; [done..|].
    rewrite HG in Hs1. injection Hs1 as -> ->. by eexists. }
  all: revert HG; unfold Get; mrun; rewrite Hcl; mrun;
    destruct (check_ref_cases ns key s) as [(e & _ & Hno)|(_ & _ & ->)]; [by destruct Hno|];
    mrun; cbn [get_fine ge_open]; rewrite HL; mrun; rewrite ?Hmiss; mrun; by intros [= _ <-].
Qed.

Section fine.
Context (suffix : N) (now : Z).
Abbreviation E := (cluster_fine suffix now).
Abbreviation client chain n x := (@HTTPPeerClient World (Build_Transport World bad_url
  (exchange dial E chain (serve dial bad_url E n))) x).

(** A complete answer. *)
Definition whole (c : bytes) (resp : Response) : Prop :=
  rs_StatusCode resp = StatusOK ∧ rs_Body resp = mkReader c None ∧ rs_ContentLength resp = Z.of_nat (length c).

Lemma serve_fine n chain x r p w w1 o :
  parsePath p = Some (ns, key) → rq_Method r = MethodGet →
  coord_Open (host_of x) (Some (client chain n x)) (node_fine suffix now) ns key (inboundHop r) w = (w1, o) →
  ∃ w' resp, serve dial bad_url E (S n) chain x r p w = (w', Ok resp) ∧
    match o with
    | Ok obj => ∀ c, complete c obj → whole c resp
    | Err e => rs_StatusCode resp = get_error_code e
    end.
Proof.
  intros Hp Hm HO. cbn [serve]. unfold ServeHTTP. rewrite Hp.
  match goal with |- context [dispatch ?B ?h r ns key ?hop ?rec w] =>
    assert (dispatch B h r ns key hop rec w = serveGet B ns key hop true rec w) as -> by
      (unfold dispatch; by rewrite Hm); set (be := B) end.
  pose proof (serveGet_answers be ns key (inboundHop r) x None w) as HS.
  assert (be_Open be ns key (inboundHop r) w = (w1, o)) as HB by exact HO. rewrite HB in HS.
  destruct HS as (w2 & rec & Hrun & Hans). change (ce_conn E chain) with (@None (nat * option error)).
  fold (fresh_conn x None). rewrite Hrun, Hm. simpl.
  eexists _, _. split; [done|]. destruct o as [obj|e]; [|by destruct Hans as (_ & -> & _)].
  destruct Hans as (_ & Hcode & Hc). intros c (Hb & He & Hs).
  destruct (Hc c) as [(_ & Hlen & Hw) Hnone]; [by rewrite <-Hb; split; [|by rewrite Hb]|].
  specialize (Hnone eq_refl He Hb). specialize (Hw Hnone). split; [done|]. split; [|done].
  destruct (rs_Body _); simpl in *; congruence.
Qed.

(** A peer asked for its own copy. *)
Lemma peer_fine chain n x m w w' r :
  (∀ u, bad_url u = None) → x ≠ EmptyString → m ∈ ms → clear_path (nodes w (Name m)) →
  peer_Get (client chain (S n) x) m ns key HopRead w = (w', r) →
  match view (local (nodes w (Name m))) ns key with
  | Some c => ∃ p, r = Ok p ∧ complete c (PeerObject p)
  | None => r = Err ErrPeerNotFound
  end.
Proof.
  intros Hurl Hx Hm Hcp. cbn [peer_Get HTTPPeerClient]. unfold http_Get.
  destruct (newRequest x MethodGet m ns key None HopRead) as [rq|e] eqn:Hrq.
  2: { unfold newRequest in Hrq. cbn [url_err] in Hrq. by rewrite Hurl in Hrq. }
  assert (Hh : inboundHop rq = HopRead).
  { eapply (newRequest_hop _ _ _ _ _ _ _ _ _ _ 0 Hx) in Hrq as [? _]; [done|rewrite !elem_of_cons; auto 9]. }
  unfold newRequest in Hrq. cbn [url_err] in Hrq. rewrite Hurl in Hrq. injection Hrq as Hrq.
  mrun. cbn [Do]. unfold exchange.
  assert (rq_URL rq = URL m +:+ "/" +:+ (ns +:+ "/" +:+ key)) as -> by (by rewrite <-Hrq).
  rewrite dial_ok by done. assert (framed rq = (rq, true)) as -> by (by rewrite <-Hrq).
  cbv iota beta. cbn [cluster_fine ce_net].
  destruct (coord_Open (host_of (Name m)) (Some (client (Name m :: chain) n (Name m))) (node_fine suffix now) ns key
    (inboundHop rq) w) as [w1 o] eqn:HO.
  destruct (serve_fine n (Name m :: chain) (Name m) rq (object_path ns key) w w1 o) as (w2 & resp & Hs & Hres);
    [by apply parsePath_object|by rewrite <-Hrq|done|].
  unfold object_path in Hs. rewrite Hs. mrun. revert HO. rewrite Hh. unfold coord_Open.
  destruct (on_local _ _ w) as [w3 g] eqn:HG. apply Get_fine_local in HG; [|done].
  destruct (view (local (nodes w (Name m))) ns key) as [c|].
  - destruct HG as (obj & -> & Hobj). intros [= _ <-]. destruct (Hres c Hobj) as (-> & Hb & Hl). simpl. mrun.
    intros [= _ <-]. eexists. split; [done|]. unfold complete. simpl. by rewrite Hb, Hl.
  - subst g. simpl. intros [= _ <-]. rewrite Hres. simpl. mrun. by intros [= _ <-].
Qed.

(** The first copy there is on these members, in this order. *)
Fixpoint first_copy (w : World) (hs : list Member) : option bytes :=
  match hs with
  | [] => None
  | m :: hs' => match view (local (nodes w (Name m))) ns key with Some c => Some c | None => first_copy w hs' end
  end.

Lemma first_copy_reads w w' hs : reads_only w w' → first_copy w' hs = first_copy w hs.
Proof.
  intros Hr. induction hs as [|m hs IH]; cbn; [done|]. destruct (Hr (Name m)) as (_ & Hsv & _). by rewrite Hsv, IH.
Qed.

Lemma ask_fine chain n x hs e0 w w' found lastErr :
  (∀ u, bad_url u = None) → x ≠ EmptyString → cluster_ok ms rc w → (∀ m, m ∈ hs → m ∈ ms) →
  (∀ m, m ∈ ms → clear_path (nodes w (Name m))) →
  ask (λ m, peer_Get (client chain (S n) x) m ns key HopRead) hs e0 w = (w', (found, lastErr)) →
  match found with
  | Some p => ∃ c, held w c ∧ complete c (PeerObject p) ∧ first_copy w hs = Some c
  | None => lastErr = e0 ∧ ∀ m, m ∈ hs → view (local (nodes w (Name m))) ns key = None
  end.
Proof.
  intros Hurl Hx. revert w. induction hs as [|m hs IH]; intros w Hok Hms Hcp; cbn [ask].
  { intros [= <- <- <-]. split; [done|]. intros m. by rewrite elem_of_nil. }
  assert (Hm : m ∈ ms) by (apply Hms; left).
  destruct (peer_Get _ m ns key HopRead w) as [w1 r] eqn:HG.
  assert (Hr : reads_only w w1).
  { eapply client_reads_well in HG as [? _]; [done| |done..]. intros m' r' p' w2 w2' res'. apply serve_reads_any. }
  apply peer_fine in HG; [|by auto..]. destruct (view (local (nodes w (Name m))) ns key) as [c|] eqn:Hv.
  { destruct HG as (p & -> & Hp). intros [= <- <- <-]. exists c. split; [by exists m|]. cbn. by rewrite Hv. }
  subst r. cbn [errors_Is]. intros HA.
  apply IH in HA; [|by eapply reads_only_ok|intros; apply Hms; by right
    |intros m' Hm'; eapply clear_path_reads; [done|by apply Hcp]].
  destruct found as [p|].
  - destruct HA as (c & Hc & Hp & Hf). exists c. split; [by eapply held_reads|]. split; [done|].
    cbn. by rewrite Hv, <-(first_copy_reads _ _ _ Hr).
  - destruct HA as [-> Hnone]. split; [done|]. intros m' [->|Hm']%elem_of_cons; [done|].
    specialize (Hnone m' Hm'). destruct (Hr (Name m')) as (_ & Hsv & _). by rewrite Hsv in Hnone.
Qed.

Lemma coord_Open_fine chain n x w w' r :
  (∀ u, bad_url u = None) → cluster_ok ms rc w → x ∈ ms → (∀ m, m ∈ ms → clear_path (nodes w (Name m))) →
  coord_Open (host_of (Name x)) (Some (client chain (S n) (Name x))) (node_fine suffix now) ns key HopClient w
    = (w', r) →
  match r with
  | Ok o => ∃ c, held w c ∧ complete c o ∧ first_copy w (x :: readOrder (nodes w (Name x)) key) = Some c
  | Err e => e = ErrNotFound ∧ ∀ c, ¬ held w c
  end.
Proof.
  intros Hurl Hok Hx Hcp. destruct (co_ring _ _ _ Hok x Hx) as (Hmem & Hself & _ & Hne).
  unfold coord_Open. cbn [h_get host_of Terminal].
  destruct (on_local _ _ w) as [w1 g] eqn:HG.
  assert (Hr1 : reads_only w w1).
  { pose proof (on_local_reads (Name x) _ w (Get_same (ne_get (node_fine suffix now) (self (ring (nodes w (Name x))))) ns key)).
    by rewrite HG in H. }
  apply Get_fine_local in HG; [|by apply Hcp].
  destruct (view (local (nodes w (Name x))) ns key) as [c|] eqn:Hv.
  { destruct HG as (o & -> & Ho). intros [= <- <-]. exists c. split; [by exists x|]. cbn. by rewrite Hv. }
  subst g. cbn [errors_Is negb]. change (Terminal HopClient) with false. cbv iota.
  destruct (ask _ _ _ w1) as [w2 [found lastErr]] eqn:HA.
  apply ask_fine in HA; [|done..|by eapply reads_only_ok|intros m; by apply readOrder_members
    |intros m Hm; eapply clear_path_reads; [done|by apply Hcp]].
  destruct found as [p|].
  { destruct HA as (c & Hc & Hp & Hf). intros [= <- <-]. exists c. split; [by eapply held_reads|]. split; [done|].
    cbn [first_copy]. by rewrite Hv, <-(first_copy_reads _ _ _ Hr1). }
  destruct HA as [-> Hnone]. intros [= <- <-]. split; [done|]. intros c (m & Hm & Hc).
  destruct (decide (Name m = Name x)) as [He|Hmx]; [congruence|].
  assert (m ∈ readOrder (nodes w (Name x)) key) as Hin.
  { apply list_elem_of_filter. split; [by rewrite Hself|]. by rewrite Owners_perm, Hmem. }
  specialize (Hnone m Hin). destruct (Hr1 (Name m)) as (_ & Hsv & _). rewrite Hsv in Hnone. congruence.
Qed.
End fine.
End reading.

(** A fault-free read through any node. *)
Lemma read_finds dial bad_url ms rc suffix now x r ns key w :
  (∀ m q, m ∈ ms → dial (URL m +:+ "/" +:+ q) = Some (Name m, "/" +:+ q)) → (∀ u, bad_url u = None) →
  cluster_ok ms rc w → x ∈ ms → ns_Valid ns = true → valid_key key = true →
  rq_Method r = MethodGet → header_Get (rq_Header r) HeaderForwardedBy = EmptyString →
  (∀ m, m ∈ ms → clear_path ns key (nodes w (Name m))) →
  ∃ w' resp, serve dial bad_url (cluster_fine suffix now) 3 [Name x] (Name x) r (object_path ns key) w
      = (w', Ok resp) ∧
    ((∃ m c, m ∈ ms ∧ view (local (nodes w (Name m))) ns key = Some c ∧ whole c resp ∧
        first_copy ns key w (x :: readOrder (nodes w (Name x)) key) = Some c) ∨
     (rs_StatusCode resp = StatusNotFound ∧ ∀ m, m ∈ ms → view (local (nodes w (Name m))) ns key = None)).
Proof.
  intros Hd Hurl Hok Hx Hns Hk Hm Hf Hcp.
  destruct (coord_Open (host_of (Name x)) (Some (@HTTPPeerClient World (Build_Transport World bad_url
    (exchange dial (cluster_fine suffix now) [Name x] (serve dial bad_url (cluster_fine suffix now) 2))) (Name x)))
    (node_fine suffix now) ns key HopClient w) as [w1 o] eqn:HO.
  assert (Hh : inboundHop r = HopClient) by (unfold inboundHop; by rewrite Hf).
  destruct (serve_fine dial bad_url ns key suffix now 2 [Name x] (Name x) r (object_path ns key) w w1 o)
    as (w' & resp & HS & Hres); [by apply parsePath_object|done|by rewrite Hh|].
  exists w', resp. split; [done|].
  apply (coord_Open_fine dial bad_url ms rc Hd ns key Hns Hk) in HO; [|done..].
  destruct o as [o|e].
  - destruct HO as (c & (m & Hms & Hv) & Hc & Hf1). left. exists m, c. auto.
  - destruct HO as [-> Hno]. right. split; [done|]. intros m Hms.
    destruct (view (local (nodes w (Name m))) ns key) as [c|] eqn:Hv; [|done]. destruct (Hno c). by exists m.
Qed.

(** ** Claims *)

(** C8: a read never delivers wrong bytes as a success.  In a cluster whose
    nodes agree on the membership, a GET a client sends to any node that is
    answered with 200, whether from the node's own disk or streamed from another
    node, declares the size of the object some member stores under the
    reference, delivers a prefix of it, and ends without an error only if it
    delivered all of it; a content-addressed object then hashes to its key.
    Disks may fail in the middle of a file, the network may refuse, lose or cut
    any message, and connections may break; no read changes what any node
    stores. *)
Theorem read_is_intact dial bad_url ms rc E x r ns key w w' resp :
  (∀ m q, m ∈ ms → dial (URL m +:+ "/" +:+ q) = Some (Name m, "/" +:+ q)) →
  cluster_ok ms rc w → x ∈ ms → ns_Valid ns = true → valid_key key = true →
  rq_Method r = MethodGet →
  serve dial bad_url E 3 [Name x] (Name x) r (object_path ns key) w = (w', Ok resp) →
  rs_StatusCode resp = StatusOK →
  (∀ z, same_view (nodes w z) (nodes w' z)) ∧
  ∃ m c, m ∈ ms ∧ view (local (nodes w (Name m))) ns key = Some c ∧
    rs_ContentLength resp = Z.of_nat (length c) ∧ rdata (rs_Body resp) `prefix_of` c ∧
    (rerr (rs_Body resp) = None →
      rdata (rs_Body resp) = c ∧ (ContentAddressed ns = true → Sha.digest (rdata (rs_Body resp)) = key)).
Proof.
  intros Hd Hok Hx Hns Hk Hm HS Hc.
  apply (serve_reads_any dial bad_url ms rc Hd ns key Hns Hk) in HS as [Hr Hans];
    [|done..|by apply parsePath_object|done].
  split; [intros z; by destruct (Hr z) as (_ & ? & _)|].
  destruct (Hans resp eq_refl Hc) as (c & (m & Hms & Hv) & Hp & Hl & Hw). exists m, c.
  do 4 (split; [done|]). intros He. specialize (Hw He). split; [done|]. rewrite Hw. intros Hca.
  apply String.eqb_eq in Hca. subst ns. destruct (co_store _ _ _ Hok m Hms) as [Hso _]. by apply (ok_cas _ Hso).
Qed.

(** C13: a read finds any copy.  When nothing fails, a GET a client sends to any
    node is answered completely, from a copy of the object on some member, if
    any member has one, a holder of the key or not; and with 404 exactly when no
    member has it. *)
Theorem read_finds_any_copy dial bad_url ms rc suffix now x r ns key w :
  (∀ m q, m ∈ ms → dial (URL m +:+ "/" +:+ q) = Some (Name m, "/" +:+ q)) → (∀ u, bad_url u = None) →
  cluster_ok ms rc w → x ∈ ms → ns_Valid ns = true → valid_key key = true →
  rq_Method r = MethodGet → header_Get (rq_Header r) HeaderForwardedBy = EmptyString →
  (∀ m, m ∈ ms → clear_path ns key (nodes w (Name m))) →
  ∃ w' resp, serve dial bad_url (cluster_fine suffix now) 3 [Name x] (Name x) r (object_path ns key) w
      = (w', Ok resp) ∧
    ((∃ m c, m ∈ ms ∧ view (local (nodes w (Name m))) ns key = Some c ∧ whole c resp) ∨
     (rs_StatusCode resp = StatusNotFound ∧ ∀ m, m ∈ ms → view (local (nodes w (Name m))) ns key = None)).
Proof.
  intros Hd Hurl Hok Hx Hns Hk Hm Hf Hcp.
  destruct (read_finds dial bad_url ms rc suffix now x r ns key w Hd Hurl Hok Hx Hns Hk Hm Hf Hcp)
    as (w' & resp & HS & [(m & c & Hms & Hv & Hc & _)|Hno]); exists w', resp; split; [done| |done|]; [|by right].
  left. by exists m, c.
Qed.

(** ** Witnesses: [node-b] alone holds the object, and [node-a] is asked *)

Definition download : Request := mkRequest MethodGet EmptyString ∅ None 0.

Definition uneven_read := serve trio_dial (λ _, None) trio_env 3 ["node-a"] "node-a" download
  (object_path NamespaceAC key_a) uneven.

Lemma uneven_read_ok :
  match uneven_read.2 with Ok resp => (rs_StatusCode resp =? 200) && bool_decide (rerr (rs_Body resp) = None)
  | Err _ => false end = true.
Proof. vm_compute. reflexivity. Qed.

Lemma read_is_intact_witness :
  ∃ resp m c, uneven_read.2 = Ok resp ∧ m ∈ trio ∧ view (local (nodes uneven (Name m))) NamespaceAC key_a = Some c ∧
    rdata (rs_Body resp) = c.
Proof.
  pose proof uneven_read_ok as H. destruct uneven_read.2 as [resp|e] eqn:E; [|discriminate].
  apply andb_true_iff in H as [Hc He]. apply Z.eqb_eq in Hc. apply bool_decide_eq_true in He.
  destruct (read_is_intact trio_dial (λ _, None) trio 2 trio_env (mkMember "node-a" "http://node-a" 1) download
    NamespaceAC key_a uneven uneven_read.1 resp trio_dial_ok uneven_ok) as (_ & m & c & Hm & Hv & _ & _ & Hw).
  - left.
  - reflexivity.
  - vm_compute. reflexivity.
  - reflexivity.
  - rewrite <-E. exact (surjective_pairing uneven_read).
  - exact Hc.
  - exists resp, m, c. split; [reflexivity|]. split; [exact Hm|]. split; [exact Hv|]. exact (proj1 (Hw He)).
Defined.

Lemma read_finds_any_copy_witness :
  ∃ w' resp, serve trio_dial (λ _, None) (cluster_fine 7 100) 3 ["node-a"] "node-a" download
      (object_path NamespaceAC key_a) uneven = (w', Ok resp) ∧
    ((∃ m c, m ∈ trio ∧ view (local (nodes uneven (Name m))) NamespaceAC key_a = Some c ∧ whole c resp) ∨
     (rs_StatusCode resp = StatusNotFound ∧
      ∀ m, m ∈ trio → view (local (nodes uneven (Name m))) NamespaceAC key_a = None)).
Proof.
  apply (read_finds_any_copy trio_dial (λ _, None) trio 2 7 100 (mkMember "node-a" "http://node-a" 1) download
    NamespaceAC key_a uneven trio_dial_ok (λ _, eq_refl) uneven_ok).
  - left.
  - reflexivity.
  - vm_compute. reflexivity.
  - reflexivity.
  - reflexivity.
  - intros m Hm. unfold trio in Hm. rewrite !elem_of_cons, elem_of_nil in Hm.
    destruct Hm as [->|[->|[->|[]]]]; split; vm_compute; reflexivity.
Defined.
