(* ===== verification/ClusterSpec.v ===== *)
(** * What the cluster does, as steps of its stores

    Whatever a node does for a request or a repair, and whatever the network and
    the disks do meanwhile, is a sequence of operations of the stores of single
    nodes and of updates of their counters.  Invariants of the stores are
    therefore invariants of the cluster, and the properties of writing and of
    reading compose. *)

From S2P Require Import Prelude GoStrings Sha256 Errors Key Config Ring Protocol Index FileSystem Store StoreSpec Evict Client Coordinator HttpApi Cluster Repair Reads.

#[local] Open Scope Z_scope.

(** One operation of one node's store, or one counter. *)
Inductive world_step {Scan : SqlScan} : World → World → Prop :=
  | ws_store y s w :
      store_step (local (nodes w y)) s → world_step w (h_set (host_of y) (set_local s (nodes w y)) w)
  | ws_count y k n w : world_step w (count (host_of y) k n w).

Section steps.
Context {Scan : SqlScan}.

Abbreviation steps := (rtc world_step).

Lemma on_local_steps {A} y (m : M Store A) w :
  store_step (local (nodes w y)) (m (local (nodes w y))).1 → steps w (on_local (host_of y) m w).1.
Proof.
  intros Hs. apply rtc_once. unfold on_local. cbn [h_get host_of].
  destruct (m (local (nodes w y))) as [s r]. cbn [fst] in *. by apply ws_store.
Qed.

Lemma count_steps y k n w : steps w (count (host_of y) k n w).
Proof. apply rtc_once, ws_count. Qed.

(** A client whose calls are such steps. *)
Definition stepping (P : PeerClient World) : Prop :=
  ∀ m ns key w, (∀ b size hop, steps w (peer_Put P m ns key b size hop w).1) ∧
    (∀ hop, steps w (peer_Get P m ns key hop w).1) ∧ (∀ hop, steps w (peer_Stat P m ns key hop w).1).

(** ** The coordinator *)

Section coordinator_steps.
Context (x : string) (P : PeerClient World) (HP : stepping P) (env : NodeEnv).

Lemma replicateOne_steps ns key size t w : steps w (replicateOne (host_of x) P env ns key size t w).1.
Proof.
  unfold replicateOne. mrun.
  pose proof (on_local_steps x (Get (ne_get env (Name t)) ns key) w (do_get _ _ _ _)) as H1.
  destruct (on_local _ _ w) as [w1 [obj|e]]; cbn [fst] in H1; mrun; [|done].
  destruct (HP t ns key w1) as [H2 _]. specialize (H2 (mkReader (o_rest obj) (o_readerr obj)) size HopReplica).
  destruct (peer_Put _ _ _ _ _ _ _ w1) as [w2 r2]. cbn [fst] in *.
  etrans; [done|]. etrans; [done|]. apply on_local_steps, do_object_close.
Qed.

Lemma run_targets_steps ns key size ts w : steps w (run_targets (host_of x) P env ns key size ts w).1.
Proof.
  revert w. induction ts as [|t ts IH]; intros w; cbn [run_targets]; [done|].
  pose proof (replicateOne_steps ns key size t w) as H1. destruct (replicateOne _ _ _ _ _ _ t w) as [w1 r1].
  specialize (IH w1). destruct (run_targets _ _ _ _ _ _ ts w1) as [w2 r2]. cbn [fst] in *. by etrans.
Qed.

Lemma putLocalOnly_steps ns key body size w : steps w (putLocalOnly (host_of x) env ns key body size w).1.
Proof.
  unfold putLocalOnly.
  pose proof (on_local_steps x (Put (ne_put env) ns key body size) w (do_put _ _ _ _ _ _)) as H1.
  destruct (on_local _ _ w) as [w1 [pr|e]]; cbn [fst] in *; [|done]. etrans; [done|apply count_steps].
Qed.

Lemma coordinate_steps ns key body size w :
  steps w (coordinate (host_of x) (Some P) env ns key body size w).1.
Proof.
  unfold coordinate.
  pose proof (on_local_steps x (Put (ne_put env) ns key body size) w (do_put _ _ _ _ _ _)) as H1.
  destruct (on_local _ _ w) as [w1 [pr|e]]; cbn [fst] in *; [|done].
  set (w2 := count (host_of x) CoordinatedPuts 1 w1). assert (H2 : steps w w2) by (etrans; [done|apply count_steps]).
  set (hs := filter _ _). destruct (if bool_decide (hs = []) then _ else _) as [w3 results] eqn:HF.
  assert (H3 : steps w w3).
  { case_bool_decide; [by injection HF as <- _|]. unfold fanOut in HF.
    pose proof (run_targets_steps ns key (pr_Size pr) (schedule env hs) w2) as HR.
    destruct (run_targets _ _ _ _ _ _ _ w2) as [w4 rs]. injection HF as <- _. by etrans. }
  destruct (tally results) as [[got ak] causes].
  assert (H4 : steps w (count (host_of x) ReplicaFailures (Z.of_nat (length causes)) w3))
    by (etrans; [done|apply count_steps]).
  destruct (_ <? _); cbn [fst]; [|done]. etrans; [done|apply count_steps].
Qed.

Lemma coord_Put_steps ns key body size hop w :
  steps w (coord_Put (host_of x) (Some P) env ns key body size hop w).1.
Proof.
  unfold coord_Put. destruct (String.eqb hop HopRepair).
  { destruct (overHighWater _).1.1; [apply count_steps|apply putLocalOnly_steps]. }
  destruct (String.eqb hop HopReplica); [apply putLocalOnly_steps|].
  destruct (String.eqb hop HopCoordinator); [apply coordinate_steps|].
  destruct (String.eqb hop HopRead); [apply putLocalOnly_steps|].
  destruct (selfIn _ _); [apply coordinate_steps|]. unfold proxyPut. destruct (Holders _ _ _) as [|t hs]; [done|].
  set (w1 := count (host_of x) ForwardedPuts 1 w). destruct (HP t ns key w1) as [H1 _].
  specialize (H1 body size HopCoordinator).
  destruct (peer_Put _ _ _ _ _ _ _ w1) as [w2 [r|e]]; cbn [fst] in *;
    (etrans; [apply (count_steps x ForwardedPuts 1)|]; fold w1); [done|]. etrans; [done|apply count_steps].
Qed.

Lemma ask_steps {A} (call : Member → M World A) hs e0 w :
  (∀ m w, steps w (call m w).1) → steps w (ask call hs e0 w).1.
Proof.
  intros Hc. revert e0 w. induction hs as [|m hs IH]; intros e0 w; cbn [ask]; [done|].
  pose proof (Hc m w) as H1. destruct (call m w) as [w1 [a|e]]; cbn [fst] in *; [done|]. by etrans.
Qed.

Lemma coord_Open_steps ns key hop w : steps w (coord_Open (host_of x) (Some P) env ns key hop w).1.
Proof.
  unfold coord_Open. cbn [h_get host_of].
  pose proof (on_local_steps x (Get (ne_get env (self (ring (nodes w x)))) ns key) w (do_get _ _ _ _)) as H1.
  destruct (on_local _ _ w) as [w1 [o|e]]; cbn [fst] in *; [etrans; [done|apply count_steps]|].
  destruct (negb _); [done|]. destruct (Terminal hop); [etrans; [done|apply count_steps]|].
  pose proof (ask_steps (λ m, peer_Get P m ns key HopRead) (readOrder (nodes w x) key) None w1
    (λ m w, proj1 (proj2 (HP m ns key w)) HopRead)) as H2.
  destruct (ask _ _ _ w1) as [w2 [[p|] le]]; cbn [fst] in *;
    (etrans; [exact H1|]); (etrans; [exact H2|]).
  - etrans; [apply (count_steps x PeerHits 1)|apply count_steps].
  - apply count_steps.
Qed.

Lemma coord_Stat_steps ns key hop w : steps w (coord_Stat (host_of x) (Some P) env ns key hop w).1.
Proof.
  unfold coord_Stat. cbn [h_get host_of].
  pose proof (on_local_steps x (Stat_ (ne_stat env).1 (ne_stat env).2 ns key) w (do_stat _ _ _ _ _)) as H1.
  destruct (on_local _ _ w) as [w1 [o|e]]; cbn [fst] in *; [etrans; [done|apply count_steps]|].
  destruct (negb _); [done|]. destruct (Terminal hop); [etrans; [done|apply count_steps]|].
  pose proof (ask_steps (λ m, peer_Stat P m ns key HopRead) (readOrder (nodes w x) key) None w1
    (λ m w, proj2 (proj2 (HP m ns key w)) HopRead)) as H2.
  destruct (ask _ _ _ w1) as [w2 [[i|] le]]; cbn [fst] in *;
    (etrans; [exact H1|]); (etrans; [exact H2|apply count_steps]).
Qed.
End coordinator_steps.

(** ** A node and its peers *)

Lemma ServeHTTP_steps x P env h r p w0 w :
  stepping P →
  match ServeHTTP (node_backend x env P) h r p w0 w with Some (w1, _, _) => steps w w1 | None => True end.
Proof.
  intros HP. unfold ServeHTTP. destruct (parsePath p) as [[ns key]|]; [|done]. cbv zeta.
  set (hop := inboundHop r).
  assert (Hd : match dispatch (node_backend x env P) h r ns key hop (mkSR w0 0) w with
    Some (w1, _) => steps w w1 | None => True end).
  2: { destruct (dispatch _ _ _ _ _ _ _ w) as [[w1 rec]|]; done. }
  unfold dispatch, serveGet, servePut. cbn [node_backend be_Open be_Stat be_Put be_Verify be_Close negb].
  destruct (String.eqb (rq_Method r) MethodGet).
  { pose proof (coord_Open_steps x P HP env ns key hop w) as H1.
    destruct (coord_Open _ _ _ _ _ _ w) as [w1 [obj|e]]; cbn [fst] in *; [|done].
    destruct (copy_object _ _) as [[[obj' w2] ce]|]; simpl; [|done]. etrans; [done|].
    assert (H2 : ∀ w, steps w (obj_Close (host_of x) (ne_close env x) obj' w)).
    { intros w3. destruct obj'; [apply on_local_steps, do_object_close|done]. }
    destruct ce; [apply H2|]. etrans; [|apply H2]. destruct obj'; [apply on_local_steps, do_verify|done]. }
  destruct (String.eqb (rq_Method r) MethodHead).
  { pose proof (coord_Stat_steps x P HP env ns key hop w) as H1. by destruct (coord_Stat _ _ _ _ _ _ w) as [w1 [i|e]]. }
  destruct (_ || _); [|done]. destruct (rq_Body r) as [b|]; [|done]. destruct (_ && _); [done|].
  pose proof (coord_Put_steps x P HP env ns key b (rq_ContentLength r) hop w) as H1.
  by destruct (coord_Put _ _ _ _ _ _ _ _ w) as [w1 [out [e|]]].
Qed.

Context (dial : string → option (string * string)) (bad_url : string → option error).

Lemma exchange_steps E chain f r w :
  (∀ c y r q w, steps w (f c y r q w).1) → steps w (exchange dial E chain f r w).1.
Proof.
  intros Hf. destruct (dial (rq_URL r)) as [[y q]|] eqn:Hd.
  - eapply exchange_post; [done|done|auto].
  - unfold exchange. by rewrite Hd.
Qed.

Lemma client_steps (D : Request → M World Response) x :
  (∀ r w, steps w (D r w).1) → stepping (@HTTPPeerClient World (Build_Transport World bad_url D) x).
Proof.
  intros HD m ns key w. cbn [peer_Put peer_Get peer_Stat HTTPPeerClient].
  unfold http_Put, http_Get, http_Stat, newRequest. cbn [url_err].
  split; [intros b size hop|split; intros hop]; destruct (bad_url _); mrun; try done; cbn [Do];
    match goal with |- context [D ?q w] => pose proof (HD q w) as H; destruct (D q w) as [w1 [resp|e]] end;
    cbn [fst] in H; mrun; try done; repeat case_match; mrun; done.
Qed.

Lemma serve_steps E n chain x r p w : steps w (serve dial bad_url E n chain x r p w).1.
Proof.
  revert chain x r p w. induction n as [|n IH]; intros chain x r p w; [done|]. cbn [serve].
  match goal with |- context [ServeHTTP (node_backend x ?env ?P) ?h r p ?w0 w] =>
    pose proof (ServeHTTP_steps x P env h r p w0 w) as H end.
  destruct (ServeHTTP _ _ _ _ _ _) as [[[w1 rr] obs]|]; [|done]. apply H, client_steps.
  intros r' w'. by apply exchange_steps.
Qed.

(** ** Repair *)

Lemma repair_loop_steps x P env me t size hs wk w :
  stepping P → steps w (repair_loop (host_of x) P env me t size hs wk w).1.1.
Proof.
  intros HP. revert wk w. induction hs as [|m hs IH]; intros wk w; cbn [repair_loop]; [done|].
  destruct (String.eqb _ _); [done|]. destruct (rp_ctx _ _); [done|].
  assert (H1 : steps w (repair_one (host_of x) P env t size m w).1).
  { unfold repair_one. pose proof (proj2 (proj2 (HP m (t_Namespace t) (t_Key t) w)) HopRead) as H1.
    destruct (peer_Stat _ _ _ _ _ w) as [w1 [i|e]]; cbn [fst] in *; [done|]. destruct (negb _); [done|].
    assert (H2 : steps w1 (sendCopy (host_of x) P env m t size w1).1).
    { unfold sendCopy. mrun.
      pose proof (on_local_steps x (Get (rp_get env (Name m)) (t_Namespace t) (t_Key t)) w1 (do_get _ _ _ _)) as H2.
      destruct (on_local _ _ w1) as [w2 [obj|e2]]; cbn [fst] in *; mrun; [|done].
      pose proof (proj1 (HP m (t_Namespace t) (t_Key t) w2)
        (mkReader (o_rest obj) (o_readerr obj)) size HopRepair) as H3.
      destruct (peer_Put _ _ _ _ _ _ _ w2) as [w3 r3]. cbn [fst] in *.
      etrans; [done|]. etrans; [done|]. apply on_local_steps, do_object_close. }
    destruct (sendCopy _ _ _ _ _ _ w1) as [w2 r2]. cbn [fst] in *. by etrans. }
  destruct (repair_one _ _ _ _ _ m w) as [w1 o1]. cbn [fst] in H1. specialize (IH (record_outcome size o1 wk) w1).
  destruct (repair_loop _ _ _ _ _ _ hs _ w1) as [[w2 wk2] os2]. cbn [fst] in *. by etrans.
Qed.

Lemma repair_steps x P env t wk w : stepping P → steps w (repair (host_of x) P env t wk w).1.1.
Proof.
  intros HP. unfold repair.
  pose proof (on_local_steps x (Stat_ (rp_stat env).1 (rp_stat env).2 (t_Namespace t) (t_Key t)) w
    (do_stat _ _ _ _ _)) as H1.
  destruct (on_local _ _ w) as [w1 [st|e]]; cbn [fst] in *; [|done].
  etrans; [done|]. by apply repair_loop_steps.
Qed.
End steps.

(** ** The cluster's invariant *)

Lemma step_limit {Scan : SqlScan} s s' : store_step s s' → store_ok s → maxObjectBytes s' = maxObjectBytes s.
Proof.
  intros Hs Hok. destruct Hs.
  - destruct (Put env ns key r dsz s) eqn:H. by apply Put_spec in H as (_ & (_ & _ & ? & _) & _); [|apply Hok].
  - by destruct (Get_same env ns key s) as ((_ & _ & ? & _) & _).
  - by destruct (Stat_same f now ns key s) as ((_ & _ & ? & _) & _).
  - destruct (Delete a b c ns key s) eqn:H. by apply Delete_spec in H as (_ & (_ & _ & ? & _) & _); [|apply Hok].
  - destruct (DeleteFile a b ns key s) eqn:H.
    by apply DeleteFile_spec in H as (_ & (_ & _ & ? & _) & _); [|apply Hok].
  - by destruct (Verify_same o s) as ((_ & _ & ? & _) & _).
  - by destruct (Object_Close_same f o s) as ((_ & _ & ? & _) & _).
  - by destruct (Reconcile_same env s) as ((_ & _ & ? & _) & _).
  - by destruct (on_index_same f s) as ((_ & _ & ? & _) & _).
  - done.
  - unfold Store.Close. mrun. destruct (closed s); [done|]. destruct (index s); [|done].
    unfold lift_index. by destruct (Index.Close _ _ _ _).
Qed.

Lemma world_step_keeps {Scan : SqlScan} w w' z : world_step w w' → keeps (nodes w z) (nodes w' z).
Proof.
  intros [y s w1 Hs|y k n w1].
  - destruct (decide (z = y)) as [->|Hne]; [|rewrite host_set_touches by done; apply keeps_refl].
    rewrite host_set_get. split; [done|]. split; [done|]. intros [Hok Hl]. split; [by eapply step_ok|].
    unfold sane_limit in *. simpl. by rewrite (step_limit _ _ Hs).
  - destruct (count_node y k n w1) as (Ht & Hk & _).
    destruct (decide (z = y)) as [->|Hne]; [done|]. rewrite Ht by done. apply keeps_refl.
Qed.

Lemma steps_keep {Scan : SqlScan} w w' z : rtc world_step w w' → keeps (nodes w z) (nodes w' z).
Proof.
  induction 1 as [|w1 w2 w3 Hs _ IH]; [apply keeps_refl|]. eapply keeps_trans; [by apply world_step_keeps|done].
Qed.

Lemma steps_ok {Scan : SqlScan} ms rc w w' : rtc world_step w w' → cluster_ok ms rc w → cluster_ok ms rc w'.
Proof.
  intros Hs [Hn Hring Hst]. split; [done|..]; intros m Hm; cbv zeta;
    destruct (steps_keep w w' (Name m) Hs) as (Hr & Hc & Hok).
  - rewrite Hr, Hc. by apply Hring.
  - by apply Hok, Hst.
Qed.

(** What can happen in a cluster: a node serves a request, forwarding it as it
    sees fit; a node repairs an object; a node's store does something of its
    own, as evicting, reconciling or closing. *)
Inductive cluster_step {Scan : SqlScan} (dial : string → option (string * string))
    (bad_url : string → option error) : World → World → Prop :=
  | cs_request E n chain x r p w : cluster_step dial bad_url w (serve dial bad_url E n chain x r p w).1
  | cs_repair E n chain x env t wk w :
      cluster_step dial bad_url w
        (repair (host_of x) (@HTTPPeerClient World (Build_Transport World bad_url
           (exchange dial E chain (serve dial bad_url E n))) x) env t wk w).1.1
  | cs_store y s w :
      store_step (local (nodes w y)) s →
      cluster_step dial bad_url w (h_set (host_of y) (set_local s (nodes w y)) w).

Lemma cluster_steps {Scan : SqlScan} dial bad_url w w' :
  rtc (cluster_step dial bad_url) w w' → rtc world_step w w'.
Proof.
  induction 1 as [|w1 w2 w3 Hs _ IH]; [done|]. etrans; [|done]. destruct Hs as [| |y s w Hs].
  - apply serve_steps.
  - apply repair_steps, client_steps. intros r w4. apply exchange_steps. intros. apply serve_steps.
  - by apply rtc_once, ws_store.
Qed.

(** ** Claims *)

(** C3: the cluster never holds wrong content.  From a cluster whose nodes
    agree on the membership and whose stores are in order, every sequence of
    requests to any nodes, repairs, and operations of the nodes' own stores,
    under every combination of network, disk, database and cancellation errors,
    leads to such a cluster; in particular every content-addressed object on
    every node hashes to its key. *)
Theorem cluster_integrity {Scan : SqlScan} dial bad_url ms rc w w' :
  cluster_ok ms rc w → rtc (cluster_step dial bad_url) w w' →
  cluster_ok ms rc w' ∧
  ∀ m key c, m ∈ ms → valid_key key = true →
    view (local (nodes w' (Name m))) NamespaceCAS key = Some c → Sha.digest c = key.
Proof.
  intros Hok Hs%cluster_steps. pose proof (steps_ok ms rc w w' Hs Hok) as Hok'. split; [done|].
  intros m key c Hm Hk Hv. destruct (co_store _ _ _ Hok' m Hm) as [Hso _]. by apply (ok_cas _ Hso).
Qed.

(** After an acknowledged write every holder has the upload, so the first copy a
    read meets is one, unless the node asked is no holder and has a copy itself. *)
Lemma first_copy_upload ms rc ns key (y : Member) (c body : bytes) w r :
  members (ring (nodes w (Name y))) = ms → self (ring (nodes w (Name y))) = Name y → NoDup (Name <$> ms) →
  members r = ms → y ∈ ms →
  (∀ m, m ∈ Holders r key rc → view (local (nodes w (Name m))) ns key = Some body) →
  first_copy ns key w (y :: readOrder (nodes w (Name y)) key) = Some c →
  c = body ∨ ((y ∉ Holders r key rc) ∧ view (local (nodes w (Name y))) ns key = Some c).
Proof.
  intros Hmem Hself Hnd Hr Hy Hall. cbn [first_copy].
  destruct (decide (y ∈ Holders r key rc)) as [Hin|Hout]; [rewrite (Hall y Hin); by intros [= <-]; left|].
  destruct (view (local (nodes w (Name y))) ns key) as [c'|]; [intros [= <-]; by right|]. intros Hf. left.
  assert (Owners r key = Owners (ring (nodes w (Name y))) key) as Ho.
  { unfold Owners. by rewrite Hr, Hmem. }
  assert (Hp : Owners r key ≡ₚ ms) by (by rewrite Owners_perm, Hr).
  unfold readOrder in Hf. rewrite <-Ho in Hf. rewrite Holders_take in Hall, Hout.
  destruct (Owners r key) as [|h os]; [by rewrite <-Hp in Hy; apply elem_of_nil in Hy|].
  destruct (Z.to_nat (Z.max 1 rc)) as [|n] eqn:Hn; [lia|]. cbn [take] in *.
  rewrite filter_cons, decide_True in Hf.
  - cbn [first_copy] in Hf. rewrite (Hall h) in Hf by left. by injection Hf.
  - rewrite Hself. intros He. apply Hout. rewrite <-(NoDup_fmap_inj_in Name ms h y); [left|done|rewrite <-Hp; left|done|done].
Qed.

(** C2: an acknowledged write can be read through every node.  In a cluster whose
    nodes agree on the membership and whose stores are in order, after a PUT a
    client sent to any node was acknowledged, under whatever faults, a GET to any
    node when nothing fails is answered completely: for a content-addressed
    object with bytes that hash to the key; for an action result with the bytes
    that were uploaded, with one exception: a node that is not among the holders of
    the key but has a copy of its own serves that one. *)
Theorem acknowledged_write_is_readable dial bad_url ms rc E suffix now x y r r' ns key body w w1 resp :
  (∀ m q, m ∈ ms → dial (URL m +:+ "/" +:+ q) = Some (Name m, "/" +:+ q)) → (∀ u, bad_url u = None) →
  cluster_ok ms rc w → x ∈ ms → y ∈ ms → ns_Valid ns = true → valid_key key = true →
  rq_Method r = MethodPut → rq_Body r = Some body → header_Get (rq_Header r) HeaderForwardedBy = EmptyString →
  serve dial bad_url E 3 [Name x] (Name x) r (object_path ns key) w = (w1, Ok resp) → acked resp = true →
  rq_Method r' = MethodGet → header_Get (rq_Header r') HeaderForwardedBy = EmptyString →
  (∀ m, m ∈ ms → clear_path ns key (nodes w1 (Name m))) →
  ∃ w2 resp' c,
    serve dial bad_url (cluster_fine suffix now) 3 [Name y] (Name y) r' (object_path ns key) w1 = (w2, Ok resp') ∧
    whole c resp' ∧
    if ContentAddressed ns then Sha.digest c = key
    else c = rdata body ∨
      ((y ∉ Holders (ring (nodes w (Name x))) key rc) ∧ view (local (nodes w1 (Name y))) ns key = Some c).
Proof.
  intros Hd Hurl Hok Hx Hy Hns Hk Hm Hb Hf HS Ha Hm' Hf' Hcp.
  pose proof (serve_steps dial bad_url E 3 [Name x] (Name x) r (object_path ns key) w) as Hst.
  rewrite HS in Hst. pose proof (steps_ok ms rc w w1 Hst Hok) as Hok1.
  pose proof (acked_write_stored dial bad_url ms rc E x r ns key body w w1 resp Hd Hok Hx Hns Hk Hm Hb Hf HS Ha) as Hall.
  set (hs := Holders (ring (nodes w (Name x))) key rc) in *.
  destruct (co_ring _ _ _ Hok x Hx) as (Hmem & _).
  assert (Hhs : ∃ h, h ∈ hs ∧ h ∈ ms).
  { unfold hs. rewrite Holders_take. pose proof (Owners_perm (ring (nodes w (Name x))) key) as Hp.
    rewrite Hmem in Hp. destruct (Owners (ring (nodes w (Name x))) key) as [|h os].
    - apply Permutation_nil in Hp. rewrite Hp in Hx. by apply elem_of_nil in Hx.
    - exists h. destruct (Z.to_nat (Z.max 1 rc)) eqn:Hn; [lia|]. split; [left|]. rewrite <-Hp. left. }
  destruct Hhs as (h & Hh & Hhm).
  destruct (read_finds dial bad_url ms rc suffix now y r' ns key w1 Hd Hurl Hok1 Hy Hns Hk Hm' Hf' Hcp)
    as (w2 & resp' & HG & [(m & c & Hms & Hv & Hw & Hfc)|[_ Hnone]]).
  2: { destruct (Hall h Hh) as (c & Hc & _). by rewrite Hnone in Hc. }
  exists w2, resp', c. split; [done|]. split; [done|]. destruct (ContentAddressed ns) eqn:Hca.
  - apply String.eqb_eq in Hca. subst ns. destruct (co_store _ _ _ Hok1 m Hms) as [Hso _]. by apply (ok_cas _ Hso).
  - destruct (co_ring _ _ _ Hok1 y Hy) as (Hmem1 & Hself1 & _).
    apply (first_copy_upload ms rc ns key y c (rdata body) w1 (ring (nodes w (Name x)))); try done; [apply Hok|].
    intros m' Hm1. destruct (Hall m' Hm1) as (c' & Hc' & Hbody). rewrite Hca in Hbody. congruence.
Qed.

(** ** Witnesses: an upload to the three nodes, then a download *)

Lemma cluster_integrity_witness :
  cluster_ok trio 2 trio_run.1 ∧
  ∀ m key c, m ∈ trio → valid_key key = true →
    view (local (nodes trio_run.1 (Name m))) NamespaceCAS key = Some c → Sha.digest c = key.
Proof.
  apply (cluster_integrity trio_dial (λ _, None) trio 2 trio_world trio_run.1 trio_ok).
  apply rtc_once. exact (cs_request trio_dial (λ _, None) trio_env 3 ["node-a"] "node-a" upload
    (object_path NamespaceAC action_key) trio_world).
Defined.

Lemma upload_copies : view (local (nodes trio_run.1 "node-c")) NamespaceAC action_key = Some abc_bytes.
Proof. vm_compute. reflexivity. Qed.

Lemma acknowledged_write_is_readable_witness :
  ∃ w2 resp' c,
    serve trio_dial (λ _, None) (cluster_fine 8 200) 3 ["node-c"] "node-c" download
      (object_path NamespaceAC action_key) trio_run.1 = (w2, Ok resp') ∧ whole c resp' ∧ c = abc_bytes.
Proof.
  pose proof trio_run_acked as H. destruct trio_run.2 as [resp|e] eqn:E; [|discriminate].
  destruct (acknowledged_write_is_readable trio_dial (λ _, None) trio 2 trio_env 8 200
    (mkMember "node-a" "http://node-a" 1) (mkMember "node-c" "http://node-c" 3) upload download
    NamespaceAC action_key (mkReader abc_bytes None) trio_world trio_run.1 resp trio_dial_ok (λ _, eq_refl) trio_ok)
    as (w2 & resp' & c & HG & Hw & Hc).
  - left.
  - right. right. left.
  - reflexivity.
  - vm_compute. reflexivity.
  - reflexivity.
  - reflexivity.
  - reflexivity.
  - rewrite <-E. exact (surjective_pairing trio_run).
  - exact H.
  - reflexivity.
  - reflexivity.
  - intros m Hm. unfold trio in Hm. rewrite !elem_of_cons, elem_of_nil in Hm.
    destruct Hm as [->|[->|[->|[]]]]; split; vm_compute; reflexivity.
  - exists w2, resp', c. split; [exact HG|]. split; [exact Hw|]. destruct Hc as [Hc|[_ Hv]]; [exact Hc|].
    cbn [Name] in Hv. rewrite upload_copies in Hv. injection Hv as <-. reflexivity.
Defined.
