(* ===== verification/Chaos.v ===== *)
(** * The chaos runner: cmd/chaos

    The tool that drives traffic against a cluster while stopping nodes, and
    judges what it saw: its ledger of acknowledged and refused writes, its
    workers, the convergence and final checks, the fault injector and the
    verdict.  The HTTP client is the [Transport] of [Client], and docker compose
    is a parameter.  [math/rand] is the sequence of numbers it draws.  The
    statistics of the nodes are read in [StatsPage], and the report is written in
    [ChaosReport]. *)

From S2P Require Import Prelude GoStrings Sha256 Errors Key Config Ring Protocol Index FileSystem Store StoreSpec GoFloat Strconv Evict Client Coordinator HttpApi Cluster Repair Reads ClusterSpec.

#[local] Open Scope Z_scope.

(** ** Targets: main.go *)

Record target := mkTarget { tg_Name : string; tg_URL : string }.

Fixpoint parse_node_parts (parts : list string) (acc : list target) : result (list target) :=
  match parts with
  | [] => Ok acc
  | part :: parts' =>
      let part := TrimSpace part in
      if String.eqb part EmptyString then parse_node_parts parts' acc
      else
        let '(name, url, ok) := Cut part "="%char in
        if negb ok then Err (Errorf ("node " +:+ part +:+ " is not in name=url form"))
        else parse_node_parts parts'
               (acc ++ [mkTarget (TrimSpace name) (TrimRight (TrimSpace url) "/"%char)])
  end.

(** [parseNodes]: the new [nodeOrder] and the names. *)
Definition parseNodes (s : string) : result (list target * list string) :=
  match parse_node_parts (Split s ","%char) [] with
  | Err e => Err e
  | Ok ts => Ok (ts, tg_Name <$> ts)
  end.

(** The options a run looks at. *)
Record options := mkOptions {
  op_readRatio : float64; op_objectMin : Z; op_objectMax : Z; op_faultDown : Z;
  op_convergeWait : Z; op_noFaults : bool }.

(** ** The ledger *)

Record ledger := mkLedger {
  l_keys : list string; l_want : gmap string string; l_size : gmap string Z;
  l_refused : list string; l_refusedSet : gset string }.

Definition newLedger : ledger := mkLedger [] ∅ ∅ [] ∅.

Definition addRefused (key : string) (l : ledger) : ledger :=
  if bool_decide (key ∈ l_refusedSet l) then l
  else if bool_decide (is_Some (l_want l !! key)) then l
  else mkLedger (l_keys l) (l_want l) (l_size l) (l_refused l ++ [key]) ({[key]} ∪ l_refusedSet l).

Definition refusedKeys (l : ledger) : list string :=
  filter (λ k, l_want l !! k = None) (l_refused l).

Definition ledger_add (key : string) (size : Z) (l : ledger) : ledger :=
  if bool_decide (is_Some (l_want l !! key)) then l
  else mkLedger (l_keys l ++ [key]) (<[key := key]> (l_want l)) (<[key := size]> (l_size l))
         (l_refused l) (l_refusedSet l).

(** [r.Intn(n)] from a drawn number; it panics when [n] is not positive. *)
Definition Intn (d n : Z) : option Z := if 0 <? n then Some (d mod n) else None.

(** [random]; the outer option is a panic of [Intn], which cannot happen. *)
Definition ledger_random (d : Z) (l : ledger) : option (option (string * Z)) :=
  if bool_decide (l_keys l = []) then Some None
  else
    i ← Intn d (Z.of_nat (length (l_keys l)));
    k ← l_keys l !! Z.to_nat i;
    Some (Some (k, default 0 (l_size l !! k))).

Definition ledger_all (l : ledger) : list string := l_keys l.
Definition ledger_count (l : ledger) : Z := Z.of_nat (length (l_keys l)).

(** ** Counters *)

Inductive kcounter :=
  | Writes | WriteOK | WriteRefused | WriteError | Reads | ReadHits | ReadMisses | ReadErrors
  | ReadsVerified | CorruptedReads | BytesWritten | BytesRead | ConnRefused | Timeouts | ServerErrors.

#[export] Instance kcounter_eq_dec : EqDecision kcounter.
Proof. solve_decision. Defined.

(** The state of a run: the cluster it talks to, its ledger and its counters. *)
Record Run (S : Type) := mkRun { rn_world : S; rn_ledger : ledger; rn_count : kcounter → Z }.
Arguments mkRun {S}.
Arguments rn_world {S}.
Arguments rn_ledger {S}.
Arguments rn_count {S}.

Definition classify_class (e : error) : option kcounter :=
  let msg := ToLower (Error e) in
  if Contains msg "connection refused" || Contains msg "no such host" || Contains msg "connection reset"
  then Some ConnRefused
  else if Contains msg "timeout" || Contains msg "deadline exceeded" then Some Timeouts
  else None.

Section traffic.
Context {S : Type} {T : Transport S}.
Context (nodeOrder : list target).

Definition bump (k : kcounter) (n : Z) (s : Run S) : Run S :=
  mkRun (rn_world s) (rn_ledger s) (λ k', rn_count s k' + if bool_decide (k' = k) then n else 0).

Definition on_ledger (f : ledger → ledger) (s : Run S) : Run S :=
  mkRun (rn_world s) (f (rn_ledger s)) (rn_count s).

Definition set_world (w : S) (s : Run S) : Run S := mkRun w (rn_ledger s) (rn_count s).

Definition classify (e : error) (s : Run S) : Run S :=
  match classify_class e with Some k => bump k 1 s | None => s end.

(** [byte(r.Uint32())]. *)
Definition random_byte (d : Z) : Byte.byte :=
  default Byte.x00 (Byte.of_N (Z.to_N (d mod 256))).

(** The object a worker writes, and the number of draws it took; [None] is
    slicing the buffer out of range. *)
Definition random_object (opts : options) (rnd : nat → Z) : option (bytes * nat) :=
  '(size, k) ← (if op_objectMin opts <? op_objectMax opts
                then d ← Intn (rnd 0%nat) (op_objectMax opts - op_objectMin opts);
                     Some (op_objectMin opts + d, 1%nat)
                else Some (op_objectMin opts, 0%nat));
  if (0 <=? size) && (size <=? op_objectMax opts)
  then let n := Z.to_nat size in Some ((λ i, random_byte (rnd (k + i)%nat)) <$> seq 0 n, (k + n)%nat)
  else None.

Definition cas_url (base key : string) : string := base +:+ "/cas/" +:+ key.

Definition doWrite (opts : options) (rnd : nat → Z) (s : Run S) : option (Run S) :=
  '(content, k) ← random_object opts rnd;
  let size := Z.of_nat (length content) in
  let key := Sha.digest content in
  i ← Intn (rnd k) (Z.of_nat (length nodeOrder));
  base ← tg_URL <$> nodeOrder !! Z.to_nat i;
  Some (match url_err (cas_url base key) with
  | Some _ => s
  | None =>
      let s := bump Writes 1 s in
      let '(w, r) := Do (mkRequest MethodPut (cas_url base key) ∅ (Some (mkReader content None)) size)
                       (rn_world s) in
      let s := set_world w s in
      match r with
      | Err e => bump WriteError 1 (classify e s)
      | Ok resp =>
          let code := rs_StatusCode resp in
          if (200 <=? code) && (code <? 300) then
            on_ledger (ledger_add key size) (bump BytesWritten size (bump WriteOK 1 s))
          else if code =? StatusServiceUnavailable then
            on_ledger (addRefused key) (bump WriteRefused 1 s)
          else
            let s := bump WriteError 1 s in
            if 500 <=? code then bump ServerErrors 1 s else s
      end
  end).

Definition doRead (rnd : nat → Z) (s : Run S) : option (Run S) :=
  picked ← ledger_random (rnd 0%nat) (rn_ledger s);
  match picked with
  | None => Some s
  | Some (key, size) =>
      i ← Intn (rnd 1%nat) (Z.of_nat (length nodeOrder));
      base ← tg_URL <$> nodeOrder !! Z.to_nat i;
      Some (match url_err (cas_url base key) with
      | Some _ => s
      | None =>
          let s := bump Reads 1 s in
          let '(w, r) := Do (mkRequest MethodGet (cas_url base key) ∅ None 0) (rn_world s) in
          let s := set_world w s in
          match r with
          | Err e => bump ReadErrors 1 (classify e s)
          | Ok resp =>
              let code := rs_StatusCode resp in
              if code =? StatusOK then
                let body := rs_Body resp in
                match rerr body with
                | Some _ => bump ReadErrors 1 s
                | None =>
                    let n := Z.of_nat (length (rdata body)) in
                    let s := bump ReadsVerified 1 (bump BytesRead n (bump ReadHits 1 s)) in
                    if negb (String.eqb (Sha.digest (rdata body)) key) || negb (n =? size)
                    then bump CorruptedReads 1 s else s
                end
              else if code =? StatusNotFound then bump ReadMisses 1 s
              else
                let s := bump ReadErrors 1 s in
                if 500 <=? code then bump ServerErrors 1 s else s
          end
      end)
  end.

(** One iteration of [worker]. *)
Definition worker_iteration (opts : options) (f : float64) (rnd : nat → Z) (s : Run S) : option (Run S) :=
  if flt f (op_readRatio opts) then doRead rnd s else doWrite opts rnd s.
End traffic.

(** ** After the traffic: faults.go *)

(** [sort.Strings]. *)
Definition sort_Strings : list string → list string := sort_Slice str_lt.

(** The loop of [subsample] from index [i]; [None] is running out of fuel. *)
Fixpoint sample_loop {A} (fuel : nat) (keys : list A) (i step room : nat) : option (list A) :=
  match fuel with
  | O => None
  | S fuel' =>
      match room with
      | O => Some []
      | S room' =>
          match keys !! i with
          | None => Some []
          | Some k => rest ← sample_loop fuel' keys (i + step) step room'; Some (k :: rest)
          end
      end
  end.

Definition subsample (keys : list string) (n : Z) : option (list string) :=
  if (n <=? 0) || bool_decide (keys = []) then Some []
  else if Z.of_nat (length keys) <=? n then Some keys
  else sample_loop (S (length keys)) keys 0 (length keys / Z.to_nat n) (Z.to_nat n).

(** The numbers of objects fully replicated, under-replicated, absent and
    unreadable. *)
Record replica_counts := mkReplicaCounts { full : Z; under : Z; absent : Z; unreadable : Z }.

Record Convergence := mkConvergence {
  cv_Attempted : bool; cv_ObjectsChecked : Z; cv_FromRefusedWrites : Z; cv_FromAckedWrites : Z;
  cv_AtStartReplicated : Z; cv_counts : replica_counts; cv_Converged : bool }.

Definition no_convergence : Convergence := mkConvergence false 0 0 0 0 (mkReplicaCounts 0 0 0 0) false.

Record FinalVerification := mkFinalVerification {
  fv_ObjectsChecked : Z; fv_Correct : Z; fv_Corrupted : Z; fv_Missing : Z; fv_Unreadable : Z }.

Section checks.
Context {S : Type} {T : Transport S}.
Context (nodeOrder : list target).

(** The inner loop of [countReplicas] for one key: copies and errors. *)
Fixpoint probe_nodes (ts : list target) (key : string) (copies errs : Z) (w : S) : S * (Z * Z) :=
  match ts with
  | [] => (w, (copies, errs))
  | n :: ts' =>
      let url := cas_url (tg_URL n) key in
      match url_err url with
      | Some _ => probe_nodes ts' key copies (errs + 1) w
      | None =>
          let '(w1, r) := Do (mkRequest MethodHead url
                                (<[HeaderHop := HopRead]> (<[HeaderForwardedBy := "kilnchaos"]> ∅)) None 0) w in
          match r with
          | Err _ => probe_nodes ts' key copies (errs + 1) w1
          | Ok resp =>
              probe_nodes ts' key (if rs_StatusCode resp =? StatusOK then copies + 1 else copies) errs w1
          end
      end
  end.

Definition tally_key (copies errs : Z) (c : replica_counts) : replica_counts :=
  if errs =? Z.of_nat (length nodeOrder) then mkReplicaCounts (full c) (under c) (absent c) (unreadable c + 1)
  else if 2 <=? copies then mkReplicaCounts (full c + 1) (under c) (absent c) (unreadable c)
  else if copies =? 0 then mkReplicaCounts (full c) (under c) (absent c + 1) (unreadable c)
  else mkReplicaCounts (full c) (under c + 1) (absent c) (unreadable c).

(** [ctx] is what [ctx.Err] returns before each key. *)
Fixpoint count_loop (ctx : nat → option error) (i : nat) (keys : list string) (c : replica_counts) (w : S)
    : S * replica_counts :=
  match keys with
  | [] => (w, c)
  | key :: keys' =>
      match ctx i with
      | Some _ => (w, c)
      | None =>
          let '(w1, (copies, errs)) := probe_nodes nodeOrder key 0 0 w in
          count_loop ctx (i + 1)%nat keys' (tally_key copies errs c) w1
      end
  end.

Definition countReplicas (ctx : nat → option error) (keys : list string) (w : S) : S * replica_counts :=
  count_loop ctx 0 keys (mkReplicaCounts 0 0 0 0) w.

Definition set_counts (first : bool) (n : replica_counts) (conv : bool) (c : Convergence) : Convergence :=
  mkConvergence (cv_Attempted c) (cv_ObjectsChecked c) (cv_FromRefusedWrites c) (cv_FromAckedWrites c)
    (if first then full n else cv_AtStartReplicated c) n conv.

(** The loop of [measureConvergence]; [late k] is whether the deadline has passed
    after the [k]-th count, which five seconds of sleep precede.  [None] is
    running out of fuel. *)
Fixpoint converge_loop (fuel k : nat) (late : nat → bool) (sample : list string) (c : Convergence) (w : S)
    : option (S * Convergence) :=
  match fuel with
  | O => None
  | Datatypes.S fuel' =>
      let '(w1, n) := countReplicas (λ _, None) sample w in
      let done := (under n =? 0) && (unreadable n =? 0) in
      let c1 := set_counts (k =? 0)%nat n done c in
      if done then Some (w1, c1)
      else if late k then Some (w1, c1)
      else converge_loop fuel' (k + 1)%nat late sample c1 w1
  end.

Definition maxSample : Z := 3000.

Definition measureConvergence (fuel : nat) (late : nat → bool) (l : ledger) (w : S)
    : option (S * Convergence) :=
  let acked := ledger_all l in
  let refused := refusedKeys l in
  if bool_decide (acked = []) && bool_decide (refused = []) then Some (w, no_convergence)
  else
    from_refused ← subsample (sort_Strings refused) (maxSample * 2 / 3);
    from_acked ← subsample (sort_Strings acked) (maxSample - Z.of_nat (length from_refused));
    let sample := from_refused ++ from_acked in
    converge_loop fuel 0 late sample
      (mkConvergence true (Z.of_nat (length sample)) (Z.of_nat (length from_refused))
         (Z.of_nat (length from_acked)) 0 (mkReplicaCounts 0 0 0 0) false) w.

(** *** The final verification *)

Definition verifySample : Z := 5000.

(** The objects that are checked; [None] is running out of fuel. *)
Definition final_sample (keys : list string) : option (list string) :=
  let n := Z.of_nat (length keys) in
  if verifySample <? n
  then sample_loop (Datatypes.S (length keys)) keys 0 (Z.to_nat (n / verifySample)) (length keys)
  else Some keys.

Inductive final_outcome := FCorrect | FCorrupted | FMissing | FUnreadable.

(** What one key turns out to be. *)
Definition verify_key (base key : string) (w : S) : S * final_outcome :=
  match url_err (cas_url base key) with
  | Some _ => (w, FUnreadable)
  | None =>
      let '(w1, r) := Do (mkRequest MethodGet (cas_url base key) ∅ None 0) w in
      (w1, match r with
           | Err _ => FUnreadable
           | Ok resp =>
               if rs_StatusCode resp =? StatusNotFound then FMissing
               else if negb (rs_StatusCode resp =? StatusOK) then FUnreadable
               else
                 match rerr (rs_Body resp) with
                 | Some _ => FUnreadable
                 | None => if String.eqb (Sha.digest (rdata (rs_Body resp))) key then FCorrect else FCorrupted
                 end
           end)
  end.

Definition note_final (o : final_outcome) (f : FinalVerification) : FinalVerification :=
  match o with
  | FCorrect => mkFinalVerification (fv_ObjectsChecked f) (fv_Correct f + 1) (fv_Corrupted f) (fv_Missing f)
                  (fv_Unreadable f)
  | FCorrupted => mkFinalVerification (fv_ObjectsChecked f) (fv_Correct f) (fv_Corrupted f + 1) (fv_Missing f)
                    (fv_Unreadable f)
  | FMissing => mkFinalVerification (fv_ObjectsChecked f) (fv_Correct f) (fv_Corrupted f) (fv_Missing f + 1)
                  (fv_Unreadable f)
  | FUnreadable => mkFinalVerification (fv_ObjectsChecked f) (fv_Correct f) (fv_Corrupted f) (fv_Missing f)
                     (fv_Unreadable f + 1)
  end.

Definition note_read (o : final_outcome) (s : Run S) : Run S :=
  match o with
  | FCorrect => bump ReadsVerified 1 s
  | FCorrupted => bump CorruptedReads 1 (bump ReadsVerified 1 s)
  | _ => s
  end.

Fixpoint verify_loop (i : nat) (sample : list string) (f : FinalVerification) (s : Run S)
    : option (Run S * FinalVerification) :=
  match sample with
  | [] => Some (s, f)
  | key :: sample' =>
      base ← tg_URL <$> nodeOrder !! (i mod length nodeOrder)%nat;
      let '(w1, o) := verify_key base key (rn_world s) in
      verify_loop (i + 1) sample' (note_final o f) (note_read o (set_world w1 s))
  end.

Definition finalVerify (s : Run S) : option (Run S * FinalVerification) :=
  sample ← final_sample (ledger_all (rn_ledger s));
  verify_loop 0 sample (mkFinalVerification (Z.of_nat (length sample)) 0 0 0 0) s.
End checks.

(** *** Waiting for the nodes *)

Section ready.
Context {S : Type} {T : Transport S}.

(** Polling one node; [before k] is whether the deadline is still ahead at the
    [k]-th poll.  The result is the number of polls so far and whether the node
    answered; [None] is running out of fuel. *)
Fixpoint wait_node (fuel k : nat) (before : nat → bool) (ctx : nat → option error) (url : string) (w : S)
    : option (S * nat * result bool) :=
  match fuel with
  | O => None
  | Datatypes.S fuel' =>
      if negb (before k) then Some (w, k, Ok false)
      else
        match ctx k with
        | Some e => Some (w, k, Err e)
        | None =>
            match url_err (url +:+ "/readyz") with
            | Some e => Some (w, k, Err e)
            | None =>
                let '(w1, r) := Do (mkRequest MethodGet (url +:+ "/readyz") ∅ None 0) w in
                let ok := match r with Ok resp => rs_StatusCode resp =? StatusOK | Err _ => false end in
                if (ok : bool) then Some (w1, (k + 1)%nat, Ok true)
                else wait_node fuel' (k + 1)%nat before ctx url w1
            end
        end
  end.

(** [within] is the text of the time the nodes are given. *)
Fixpoint waitAllReady (within : string) (fuel k : nat) (before : nat → bool) (ctx : nat → option error) (ts : list target) (w : S)
    : option (S * option error) :=
  match ts with
  | [] => Some (w, None)
  | n :: ts' =>
      '(w1, k1, r) ← wait_node fuel k before ctx (tg_URL n) w;
      match r with
      | Err e => Some (w1, Some e)
      | Ok false =>
          Some (w1, Some (Errorf ("node " +:+ tg_Name n +:+ " at " +:+ tg_URL n +:+ " did not become ready within " +:+ within)))
      | Ok true => waitAllReady within fuel k1 before ctx ts' w1
      end
  end.
End ready.

(** *** Fault injection *)

Inductive compose_cmd := ComposeStop (name : string) | ComposeStart (name : string).

(** A fault, without its clock readings. *)
Record faultEvent := mkFaultEvent { fe_Node : string; fe_StopErr : option error; fe_StartErr : option error }.

(** docker compose, over the state [D] of the containers: what a command does,
    and which nodes are down.  A command that succeeds did what it says; one
    that fails may have stopped or started the node it names, and no other. *)
Class Compose (D : Type) := {
  compose : compose_cmd → M D unit;
  down : D → gset string;
  stop_ok v d d' : compose (ComposeStop v) d = (d', Ok tt) → down d' = {[v]} ∪ down d;
  stop_err v d d' e : compose (ComposeStop v) d = (d', Err e) → down d' = down d ∨ down d' = {[v]} ∪ down d;
  start_ok v d d' : compose (ComposeStart v) d = (d', Ok tt) → down d' = down d ∖ {[v]};
  start_err v d d' e : compose (ComposeStart v) d = (d', Err e) → down d' = down d ∨ down d' = down d ∖ {[v]} }.

Section faults.
Context {D : Type} {C : Compose D}.

Definition err_of {A} (r : result A) : option error := match r with Ok _ => None | Err e => Some e end.

(** One tick of [injectFaults]: the event, and the state of the containers after
    each command. *)
Definition inject_one (victim : string) (d : D) : list D * faultEvent :=
  let '(d1, stopped) := compose (ComposeStop victim) d in
  match stopped with
  | Err e => ([d1], mkFaultEvent victim (Some e) None)
  | Ok _ =>
      let '(d2, started) := compose (ComposeStart victim) d1 in
      ([d1; d2], mkFaultEvent victim None (err_of started))
  end.

(** [injectFaults]: each tick is a drawn number and whether the context is done
    once the victim has been restarted. *)
Fixpoint injectFaults (nodeOrder : list target) (ticks : list (Z * bool)) (d : D) : option (list D * list faultEvent) :=
  match ticks with
  | [] => Some ([], [])
  | (draw, stop) :: ticks' =>
      i ← Intn draw (Z.of_nat (length nodeOrder));
      victim ← tg_Name <$> nodeOrder !! Z.to_nat i;
      let '(ds, ev) := inject_one victim d in
      if bool_decide (fe_StopErr ev = None) && stop then Some (ds, [ev])
      else
        '(ds', evs) ← injectFaults nodeOrder ticks' (default d (last ds));
        Some (ds ++ ds', ev :: evs)
  end.

Fixpoint restore_loop (ts : list target) (firstErr : option error) (d : D) : D * option error :=
  match ts with
  | [] => (d, firstErr)
  | n :: ts' =>
      let '(d1, r) := compose (ComposeStart (tg_Name n)) d in
      restore_loop ts' (match firstErr with Some e => Some e | None => err_of r end) d1
  end.

Definition restoreAll (opts : options) (nodeOrder : list target) (d : D) : D * option error :=
  if op_noFaults opts then (d, None) else restore_loop nodeOrder None d.
End faults.

(** ** The report *)

Record Traffic := mkTraffic { tr_count : kcounter → Z; tr_OpsPerSecond : float64; tr_ErrorRate : float64 }.

(** The traffic section of [buildReport]. *)
Definition build_traffic (count : kcounter → Z) (elapsed : Z) : Traffic :=
  let ops := i64 (count Writes + count Reads) in
  mkTraffic count
    (if 0 <? elapsed then fdiv (of_int ops) (Seconds elapsed) else of_int 0)
    (if 0 <? ops then fdiv (of_int (i64 (count WriteError + count ReadErrors))) (of_int ops) else of_int 0).

(** What the nodes say about evictions. *)
Record Eviction := mkEviction {
  ec_Observed : bool; ec_ObjectsEvicted : Z; ec_BytesReclaimed : Z; ec_AnyNodeOverHighWater : bool }.

(** The measured parts of the report; the copy of the options, the host and the
    time of the report are added in [ChaosReport]. *)
Record report := mkReport {
  rp_FaultsEnabled : bool; rp_Traffic : Traffic; rp_ReadsVerified : Z; rp_CorruptedReads : Z; rp_Faults : list faultEvent;
  rp_Convergence : Convergence; rp_Final : FinalVerification; rp_Eviction : Eviction }.

Inductive Verdict :=
  | FailCorrupted | FailGone (missing : Z) | FailUnderReplicated (under : Z) | Inconclusive | Pass.

Definition verdict (rep : report) : Verdict :=
  if (0 <? rp_CorruptedReads rep) || (0 <? fv_Corrupted (rp_Final rep)) then FailCorrupted
  else if (0 <? fv_Missing (rp_Final rep)) && negb (ec_Observed (rp_Eviction rep))
  then FailGone (fv_Missing (rp_Final rep))
  else if cv_Attempted (rp_Convergence rep) && negb (cv_Converged (rp_Convergence rep))
  then FailUnderReplicated (under (cv_counts (rp_Convergence rep)))
  else if rp_FaultsEnabled rep && feq (tr_ErrorRate (rp_Traffic rep)) (of_int 0) &&
    negb (bool_decide (rp_Faults rep = []))
  then Inconclusive
  else Pass.

(** The error [runChaos] returns after it has written the report. *)
Definition run_error (rep : report) : option error :=
  if (0 <? rp_CorruptedReads rep) || (0 <? fv_Corrupted (rp_Final rep))
  then Some (Errorf ("chaos run found " +:+ pretty (rp_CorruptedReads rep) +:+ " corrupted reads during traffic and " +:+
         pretty (fv_Corrupted (rp_Final rep)) +:+ " corrupted objects at the end"))
  else None.

(** ** The bookkeeping *)

(** The ledger's five fields agree, and every recorded size is that of some
    content with the recorded key. *)
Record ledger_ok (l : ledger) : Prop := {
  lo_keys : NoDup (l_keys l);
  lo_want : ∀ k v, l_want l !! k = Some v ↔ k ∈ l_keys l ∧ v = k;
  lo_size : ∀ k, is_Some (l_size l !! k) ↔ k ∈ l_keys l;
  lo_refused : NoDup (l_refused l);
  lo_set : ∀ k, k ∈ l_refusedSet l ↔ k ∈ l_refused l;
  lo_content : ∀ k n, l_size l !! k = Some n → ∃ a, Sha.digest a = k ∧ n = Z.of_nat (length a) }.

Lemma want_keys l k : ledger_ok l → is_Some (l_want l !! k) ↔ k ∈ l_keys l.
Proof.
  intros Hl. split; [intros [v Hv]; by apply (lo_want _ Hl) in Hv as [? _]|].
  intros Hk. exists k. by apply (lo_want _ Hl).
Qed.

Lemma newLedger_ok : ledger_ok newLedger.
Proof.
  split; simpl.
  - constructor.
  - intros k v. rewrite lookup_empty, elem_of_nil. naive_solver.
  - intros k. rewrite lookup_empty, elem_of_nil. split; [by intros []|done].
  - constructor.
  - set_solver.
  - intros k n. by rewrite lookup_empty.
Qed.

Lemma addRefused_ok key l : ledger_ok l → ledger_ok (addRefused key l).
Proof.
  intros Hl. unfold addRefused. case_bool_decide as H1; [done|]. case_bool_decide as H2; [done|].
  rewrite (lo_set _ Hl) in H1. destruct Hl. split; simpl; try done.
  - apply NoDup_app. split; [done|]. split; [|by apply NoDup_singleton]. intros k Hk Hk'. set_solver.
  - set_solver.
Qed.

Lemma ledger_add_ok a l : ledger_ok l → ledger_ok (ledger_add (Sha.digest a) (Z.of_nat (length a)) l).
Proof.
  intros Hl. unfold ledger_add. set (key := Sha.digest a). case_bool_decide as H1; [done|].
  rewrite (want_keys _ _ Hl) in H1. destruct Hl as [Hk Hw Hs Hr Hset Hc]. split; simpl; try done.
  - apply NoDup_app. split; [done|]. split; [|by apply NoDup_singleton]. intros k Hin Hk'. set_solver.
  - intros k v. rewrite lookup_insert_Some, elem_of_app, list_elem_of_singleton, Hw. naive_solver.
  - intros k. rewrite lookup_insert_is_Some, elem_of_app, list_elem_of_singleton, Hs. naive_solver.
  - intros k n. rewrite lookup_insert_Some. intros [[<- <-]|[_ Hn]]; [by exists a|by apply Hc].
Qed.

(** The counters add up, and the ledger is in order. *)
Record run_ok {S} (s : Run S) : Prop := {
  ro_ledger : ledger_ok (rn_ledger s);
  ro_writes : rn_count s Writes = rn_count s WriteOK + rn_count s WriteRefused + rn_count s WriteError;
  ro_reads : rn_count s Reads = rn_count s ReadHits + rn_count s ReadMisses + rn_count s ReadErrors;
  ro_verified : rn_count s ReadsVerified = rn_count s ReadHits;
  ro_corrupted : 0 ≤ rn_count s CorruptedReads ≤ rn_count s ReadsVerified;
  ro_acked : Z.of_nat (length (l_keys (rn_ledger s))) ≤ rn_count s WriteOK;
  ro_classes : rn_count s ConnRefused + rn_count s Timeouts + rn_count s ServerErrors
    ≤ rn_count s WriteError + rn_count s ReadErrors }.

Definition new_run {S} (w : S) : Run S := mkRun w newLedger (λ _, 0).

Lemma new_run_ok {S} (w : S) : run_ok (new_run w).
Proof. split; simpl; try lia. apply newLedger_ok. Qed.

Lemma ledger_add_length key n l :
  (length (l_keys l) ≤ length (l_keys (ledger_add key n l)) ≤ S (length (l_keys l)))%nat.
Proof. unfold ledger_add. case_bool_decide; simpl; rewrite ?length_app; simpl; lia. Qed.

Lemma addRefused_keys key l : l_keys (addRefused key l) = l_keys l.
Proof. unfold addRefused. by repeat case_bool_decide. Qed.

Ltac run_arith :=
  repeat match goal with H : run_ok _ |- _ => destruct H end;
  split; cbn [rn_ledger rn_count rn_world bump set_world on_ledger] in *;
  repeat match goal with |- context [bool_decide (?a = ?b)] =>
    first [rewrite (bool_decide_eq_true_2 (a = b)) by reflexivity
          |rewrite (bool_decide_eq_false_2 (a = b)) by discriminate] end; try lia.

Lemma set_world_ok {S} (w : S) s : run_ok s → run_ok (set_world w s).
Proof. intros H. by run_arith. Qed.

Section accounting.
Context {S : Type} {T : Transport S} (nodeOrder : list target).

Lemma doWrite_ok opts rnd (s s' : Run S) :
  run_ok s → doWrite nodeOrder opts rnd s = Some s' → run_ok s'.
Proof.
  intros Hs. unfold doWrite. destruct (random_object opts rnd) as [[content k]|]; simpl; [|done].
  destruct (Intn _ _) as [i|]; simpl; [|done]. destruct (nodeOrder !! _) as [t|]; simpl; [|done].
  destruct (url_err _); [by intros [= <-]|]. destruct (Do _ _) as [w r]. intros [= <-].
  destruct r as [resp|e].
  2: { unfold classify. destruct (classify_class e) as [c|] eqn:Hc; [|by run_arith].
       unfold classify_class in Hc. destruct (_ || _) in Hc; [injection Hc as <-|
       destruct (_ || _) in Hc; simplify_eq]; by run_arith. }
  destruct (_ && _); [|destruct (_ =? _); [|destruct (500 <=? _)]]; [| |by run_arith..].
  - pose proof (ledger_add_length (Sha.digest content) (Z.of_nat (length content)) (rn_ledger s)).
    run_arith. by apply ledger_add_ok.
  - run_arith; [by apply addRefused_ok|]. rewrite addRefused_keys. lia.
Qed.

Lemma doRead_ok rnd (s s' : Run S) : run_ok s → doRead nodeOrder rnd s = Some s' → run_ok s'.
Proof.
  intros Hs. unfold doRead. destruct (ledger_random _ _) as [[[key size]|]|]; simpl; [|by intros [= <-]|done].
  destruct (Intn _ _) as [i|]; simpl; [|done]. destruct (nodeOrder !! _) as [t|]; simpl; [|done].
  destruct (url_err _); [by intros [= <-]|]. destruct (Do _ _) as [w r]. intros [= <-].
  destruct r as [resp|e].
  2: { unfold classify. destruct (classify_class e) as [c|] eqn:Hc; [|by run_arith].
       unfold classify_class in Hc. destruct (_ || _) in Hc; [injection Hc as <-|
       destruct (_ || _) in Hc; simplify_eq]; by run_arith. }
  destruct (_ =? StatusOK); [|destruct (_ =? StatusNotFound); [|destruct (500 <=? _)]]; [|by run_arith..].
  destruct (rerr _); [by run_arith|]. destruct (_ || _); by run_arith.
Qed.
End accounting.

(** What happens during a run: a worker does one operation, over any of the
    transports [usable]; or the cluster moves on by itself. *)
Inductive chaos_step {S} (opts : options) (nodeOrder : list target) (usable : Transport S → Prop)
    (moves : S → S → Prop) : Run S → Run S → Prop :=
  | ch_worker (T : Transport S) f rnd s s' :
      usable T → worker_iteration nodeOrder opts f rnd s = Some s' → chaos_step opts nodeOrder usable moves s s'
  | ch_world w s : moves (rn_world s) w → chaos_step opts nodeOrder usable moves s (set_world w s).

Lemma chaos_step_ok {S} opts nodeOrder usable moves (s s' : Run S) :
  chaos_step opts nodeOrder usable moves s s' → run_ok s → run_ok s'.
Proof.
  intros [T f rnd s1 s2 _ Hw|w s1 _] Hs; [|by apply set_world_ok].
  unfold worker_iteration in Hw. destruct (flt _ _); [by eapply doRead_ok|by eapply doWrite_ok].
Qed.

Lemma chaos_steps_ok {S} opts nodeOrder usable moves (s s' : Run S) :
  rtc (chaos_step opts nodeOrder usable moves) s s' → run_ok s → run_ok s'.
Proof. induction 1; eauto using chaos_step_ok. Qed.

Lemma Intn_Some d n : 0 < n → ∃ i, Intn d n = Some i ∧ 0 ≤ i < n.
Proof.
  intros Hn. unfold Intn. destruct (Z.ltb_spec 0 n); [|lia]. eexists. split; [done|]. by apply Z.mod_pos_bound.
Qed.

Lemma pick_Some {A} d (l : list A) : l ≠ [] → ∃ i x, Intn d (Z.of_nat (length l)) = Some i ∧ l !! Z.to_nat i = Some x.
Proof.
  intros Hl. assert (0 < Z.of_nat (length l)) by (destruct l; [done|simpl; lia]).
  destruct (Intn_Some d (Z.of_nat (length l))) as (i & Hi & Hr); [done|].
  destruct (lookup_lt_is_Some_2 l (Z.to_nat i)) as [x Hx]; [lia|]. eauto.
Qed.

(** No iteration panics. *)
Lemma worker_iteration_total {S} {T : Transport S} opts nodeOrder f rnd (s : Run S) :
  nodeOrder ≠ [] → 0 ≤ op_objectMin opts ≤ op_objectMax opts →
  is_Some (worker_iteration nodeOrder opts f rnd s).
Proof.
  intros Hn Hb. unfold worker_iteration. destruct (flt _ _).
  - unfold doRead, ledger_random. case_bool_decide as He; [by eexists|].
    destruct (pick_Some (rnd 0%nat) (l_keys (rn_ledger s)) He) as (i & k & -> & Hk). simpl. rewrite Hk. simpl.
    destruct (pick_Some (rnd 1%nat) nodeOrder Hn) as (j & t & -> & Ht). simpl. rewrite Ht. by eexists.
  - unfold doWrite, random_object. destruct (Z.ltb_spec (op_objectMin opts) (op_objectMax opts)) as [Hlt|Hge].
    + destruct (Intn_Some (rnd 0%nat) (op_objectMax opts - op_objectMin opts)) as (d & -> & Hd); [lia|]. simpl.
      destruct (Z.leb_spec 0 (op_objectMin opts + d)); [|lia].
      destruct (Z.leb_spec (op_objectMin opts + d) (op_objectMax opts)); [|lia]. simpl.
      match goal with |- context [Intn (rnd ?k) (Z.of_nat (length nodeOrder))] =>
        destruct (pick_Some (rnd k) nodeOrder Hn) as (j & t & -> & Ht) end. simpl. rewrite Ht. by eexists.
    + simpl. destruct (Z.leb_spec 0 (op_objectMin opts)); [|lia].
      destruct (Z.leb_spec (op_objectMin opts) (op_objectMax opts)); [|lia]. simpl.
      match goal with |- context [Intn (rnd ?k) (Z.of_nat (length nodeOrder))] =>
        destruct (pick_Some (rnd k) nodeOrder Hn) as (j & t & -> & Ht) end. simpl. rewrite Ht. by eexists.
Qed.

(** ** Sampling *)

Lemma sample_loop_spec {A} fuel (keys : list A) i step room :
  (0 < step)%nat → (room < fuel)%nat →
  ∃ l, sample_loop fuel keys i step room = Some l ∧ (length l ≤ room)%nat ∧
    (∀ j, (j < length l)%nat → l !! j = keys !! (i + j * step)%nat ∧ is_Some (l !! j)) ∧
    (length l = room ∨ (length keys ≤ i + length l * step)%nat).
Proof.
  intros Hs. revert i room. induction fuel as [|fuel IH]; intros i room Hf; [lia|]. simpl.
  destruct room as [|room]; [exists []; split; [done|]; split; [done|]; split; [simpl; lia|by left]|].
  destruct (keys !! i) as [k|] eqn:Hk.
  2: { exists []. split; [done|]. split; [simpl; lia|]. split; [simpl; lia|]. right. simpl.
       apply lookup_ge_None in Hk. lia. }
  destruct (IH (i + step)%nat room) as (l & -> & Hl & Hj & He); [lia|]. simpl. exists (k :: l).
  split; [done|]. split; [simpl; lia|]. split.
  - intros [|j] Hlt; simpl in *; [by rewrite Nat.add_0_r, Hk|]. destruct (Hj j) as [He' ?]; [lia|].
    split; [rewrite He'; f_equal; lia|done].
  - simpl. destruct He as [->|He]; [by left|right]. lia.
Qed.

(** The sample of the final verification. *)
Lemma final_sample_spec keys :
  ∃ l, final_sample keys = Some l ∧ Z.of_nat (length l) ≤ 9999 ∧ (length l ≤ length keys)%nat ∧
    (∀ k, k ∈ l → k ∈ keys) ∧ (Z.of_nat (length keys) ≤ verifySample → l = keys).
Proof.
  unfold final_sample, verifySample. set (n := Z.of_nat (length keys)).
  destruct (Z.ltb_spec 5000 n) as [Hlt|Hge]; [|exists keys; split; [done|]; split; [lia|done]].
  pose proof (Z.div_mod n 5000) as Hdm. pose proof (Z.mod_pos_bound n 5000) as Hm.
  set (st := n / 5000) in *. assert (1 ≤ st) by (apply Z.div_le_lower_bound; lia).
  destruct (sample_loop_spec (S (length keys)) keys 0 (Z.to_nat st) (length keys)) as (l & Hl & Hle & Hj & _); [lia..|].
  exists l. split; [done|]. split; [|split; [done|split]].
  - destruct (Nat.eq_0_gt_0_cases (length l)); [lia|]. destruct (Hj (length l - 1)%nat) as [He Hs]; [lia|].
    rewrite He in Hs. apply lookup_lt_is_Some in Hs. simpl in Hs.
    assert (Z.of_nat (length l - 1) * st < n) by nia. nia.
  - intros k [j Hk]%list_elem_of_lookup. pose proof (lookup_lt_Some _ _ _ Hk) as Hlt'.
    destruct (Hj j Hlt') as [He _]. rewrite Hk in He. symmetry in He. by eapply list_elem_of_lookup_2.
  - lia.
Qed.

(** ** The final verification adds up *)

Lemma verify_loop_total {S} {T : Transport S} nodeOrder i sample f (s : Run S) :
  nodeOrder ≠ [] → ∃ s' f', verify_loop nodeOrder i sample f s = Some (s', f') ∧
    fv_ObjectsChecked f' = fv_ObjectsChecked f ∧
    fv_Correct f' + fv_Corrupted f' + fv_Missing f' + fv_Unreadable f' =
      fv_Correct f + fv_Corrupted f + fv_Missing f + fv_Unreadable f + Z.of_nat (length sample) ∧
    rn_count s' CorruptedReads - rn_count s CorruptedReads = fv_Corrupted f' - fv_Corrupted f ∧
    rn_count s' ReadsVerified - rn_count s ReadsVerified =
      (fv_Correct f' + fv_Corrupted f') - (fv_Correct f + fv_Corrupted f).
Proof.
  intros Hn. revert i f s. induction sample as [|key sample IH]; intros i f s; cbn [verify_loop].
  { exists s, f. split; [done|]. split; [done|]. simpl. lia. }
  assert (length nodeOrder ≠ 0)%nat as Hlen by (by destruct nodeOrder).
  destruct (lookup_lt_is_Some_2 nodeOrder (i mod length nodeOrder)) as [t Ht]; [by apply Nat.mod_upper_bound|].
  rewrite Ht. simpl. destruct (verify_key (tg_URL t) key (rn_world s)) as [w1 o].
  destruct (IH (i + 1)%nat (note_final o f) (note_read o (set_world w1 s))) as (s' & f' & -> & H1 & H2 & H3 & H4).
  exists s', f'. split; [done|]. destruct o; simpl in *; lia.
Qed.

(** ** Claims on the bookkeeping *)

(** The chaos runner's books balance.  Whatever the servers answer and
    whatever happens to the cluster, after any interleaving of the workers'
    operations every write is counted as exactly one of acknowledged, refused or
    failed, every read as exactly one of hit, miss or error, every hit was
    verified, no more reads are corrupted than were verified, and no more errors
    are classified than occurred.  The ledger holds each acknowledged object
    once, no more of them than acknowledgements, and no object that was refused
    first and acknowledged later counts as refused.  No operation panics, and the
    final verification ends, having put each object it checked into exactly one
    class. *)
Theorem chaos_books_balance {S} {T : Transport S} opts nodeOrder usable moves (w : S) s f rnd :
  nodeOrder ≠ [] → 0 ≤ op_objectMin opts ≤ op_objectMax opts →
  rtc (chaos_step opts nodeOrder usable moves) (new_run w) s →
  let n := rn_count s in
  n Writes = n WriteOK + n WriteRefused + n WriteError ∧
  n Reads = n ReadHits + n ReadMisses + n ReadErrors ∧
  n ReadsVerified = n ReadHits ∧ 0 ≤ n CorruptedReads ≤ n ReadsVerified ∧
  n ConnRefused + n Timeouts + n ServerErrors ≤ n WriteError + n ReadErrors ∧
  NoDup (ledger_all (rn_ledger s)) ∧ ledger_count (rn_ledger s) ≤ n WriteOK ∧
  (∀ k, k ∈ refusedKeys (rn_ledger s) → k ∉ ledger_all (rn_ledger s)) ∧
  is_Some (worker_iteration nodeOrder opts f rnd s) ∧
  ∃ s' fin, finalVerify nodeOrder s = Some (s', fin) ∧
    fv_Correct fin + fv_Corrupted fin + fv_Missing fin + fv_Unreadable fin = fv_ObjectsChecked fin ∧
    fv_ObjectsChecked fin ≤ ledger_count (rn_ledger s) ∧
    rn_count s' CorruptedReads = n CorruptedReads + fv_Corrupted fin.
Proof.
  intros Hn Hb Hr. assert (run_ok s) as Hs by (eapply chaos_steps_ok; [done|apply new_run_ok]). intros n.
  destruct (final_sample_spec (ledger_all (rn_ledger s))) as (l & Hl & _ & Hle & _ & _).
  destruct (verify_loop_total nodeOrder 0 l (mkFinalVerification (Z.of_nat (length l)) 0 0 0 0) s Hn)
    as (s' & fin & Hv & H1 & H2 & H3 & _).
  split; [apply Hs|]. split; [apply Hs|]. split; [apply Hs|]. split; [apply Hs|]. split; [apply Hs|].
  split; [apply Hs|]. split; [apply Hs|]. split; [|split; [by apply worker_iteration_total|]].
  - intros k [Hk _]%list_elem_of_filter Hin. apply (want_keys _ _ (ro_ledger _ Hs)) in Hin as [v Hv']. congruence.
  - exists s', fin. unfold finalVerify. rewrite Hl. simpl. split; [done|]. simpl in *. unfold ledger_count, ledger_all in *.
    subst n. simpl. lia.
Qed.

(** ** Against the modelled cluster *)

Section against.
Context (dial : string → option (string * string)) (bad_url : string → option error).
Context (ms : list Member) (rc : Z) (nodeOrder : list target).
Context (dial_ok : ∀ m q, m ∈ ms → dial (URL m +:+ "/" +:+ q) = Some (Name m, "/" +:+ q)).
Context (targets_ok : ∀ t, t ∈ nodeOrder → ∃ m, m ∈ ms ∧ tg_URL t = URL m).

(** The runner's HTTP client on a network with the faults [E]. *)
Definition cluster_client (E : ClusterEnv) : Transport World :=
  Build_Transport World bad_url (exchange dial E [] (serve dial bad_url E 3)).

Definition cluster_transport (T : Transport World) : Prop := ∃ E, T = cluster_client E.

(** A member holds an object under a key of the ledger whose length is not the
    recorded one, although both contents hash to the key. *)
Definition clash (s : Run World) : Prop :=
  ∃ m key c a, m ∈ ms ∧ view (local (nodes (rn_world s) (Name m))) NamespaceCAS key = Some c ∧
    l_size (rn_ledger s) !! key = Some (Z.of_nat (length a)) ∧
    Sha.digest a = key ∧ Sha.digest c = key ∧ length a ≠ length c.

Lemma client_do_ok E r w : cluster_ok ms rc w → cluster_ok ms rc (@Do _ (cluster_client E) r w).1.
Proof.
  apply steps_ok. cbn [Do cluster_client]. apply exchange_steps. intros. apply serve_steps.
Qed.

(** A read of a CAS object that succeeds delivers bytes with the right digest. *)
Lemma client_get E t key w w' resp :
  cluster_ok ms rc w → t ∈ nodeOrder → valid_key key = true →
  @Do _ (cluster_client E) (mkRequest MethodGet (cas_url (tg_URL t) key) ∅ None 0) w = (w', Ok resp) →
  rs_StatusCode resp = StatusOK → rerr (rs_Body resp) = None →
  ∃ m, m ∈ ms ∧ view (local (nodes w (Name m))) NamespaceCAS key = Some (rdata (rs_Body resp)) ∧
    Sha.digest (rdata (rs_Body resp)) = key.
Proof.
  intros Hok Ht Hk HD Hc He. destruct (targets_ok t Ht) as (m & Hm & Hu).
  apply (exchange_reads dial ms rc dial_ok NamespaceCAS key eq_refl Hk E [] (serve dial bad_url E 3) m) in HD
    as [_ Hans]; [|intros m' r p w1 w1' res; by apply serve_reads_any|done|done|by rewrite <-Hu|done|done].
  destruct (Hans resp eq_refl Hc) as (c & (m' & Hm' & Hv) & _ & _ & Hw). rewrite (Hw He).
  exists m'. split; [done|]. split; [done|].
  destruct (co_store _ _ _ Hok m' Hm') as [Hso _]. by apply (ok_cas _ Hso).
Qed.

Lemma ledger_random_spec d l key size :
  ledger_ok l → ledger_random d l = Some (Some (key, size)) →
  valid_key key = true ∧ ∃ a, Sha.digest a = key ∧ size = Z.of_nat (length a) ∧ l_size l !! key = Some size.
Proof.
  intros Hl. unfold ledger_random. case_bool_decide; [done|]. destruct (Intn _ _) as [i|]; simpl; [|done].
  destruct (l_keys l !! _) as [k|] eqn:Hk; simpl; [|done]. intros [= <- <-].
  apply list_elem_of_lookup_2, (lo_size _ Hl) in Hk as [n Hn]. rewrite Hn. simpl.
  destruct (lo_content _ Hl k n Hn) as (a & Ha & Hna). split; [rewrite <-Ha; apply digest_valid_key|by exists a].
Qed.

Lemma bump_other {S} k k' n (s : Run S) : k ≠ k' → rn_count (bump k n s) k' = rn_count s k'.
Proof. intros H. simpl. rewrite bool_decide_eq_false_2 by done. lia. Qed.

Lemma classify_other {S} e k' (s : Run S) :
  k' ≠ ConnRefused → k' ≠ Timeouts → rn_count (classify e s) k' = rn_count s k' ∧ rn_world (classify e s) = rn_world s.
Proof.
  intros H1 H2. unfold classify, classify_class. repeat case_match; simplify_eq; (split; [|done]);
    by rewrite ?bump_other.
Qed.

Ltac uncount := repeat first [rewrite bump_other by done | progress cbn [set_world on_ledger rn_count rn_world]]; try done.

Lemma read_cluster E rnd s s' :
  cluster_ok ms rc (rn_world s) → ledger_ok (rn_ledger s) →
  @doRead _ (cluster_client E) nodeOrder rnd s = Some s' →
  cluster_ok ms rc (rn_world s') ∧ (rn_count s' CorruptedReads = rn_count s CorruptedReads ∨ clash s).
Proof.
  intros Hok Hl. unfold doRead. destruct (ledger_random _ _) as [[[key size]|]|] eqn:HR; simpl; [| |done].
  2: { intros [= <-]. auto. }
  destruct (Intn _ _) as [i|]; simpl; [|done]. destruct (nodeOrder !! _) as [t|] eqn:Ht; simpl; [|done].
  apply list_elem_of_lookup_2 in Ht. destruct (bad_url _); [intros [= <-]; auto|].
  destruct (ledger_random_spec _ _ _ _ Hl HR) as (Hk & a & Ha & Hsz & Hls).
  pose proof (client_do_ok E (mkRequest MethodGet (cas_url (tg_URL t) key) ∅ None 0) (rn_world s) Hok) as Hok'.
  pose proof (client_get E t key (rn_world s)) as HG. cbn [Do cluster_client] in *.
  destruct (exchange _ _ _ _ _ _) as [w r]. cbn [fst] in Hok'. intros [= <-].
  destruct r as [resp|e].
  2: { set (s1 := set_world w (bump Reads 1 s)). destruct (classify_other e CorruptedReads s1) as [H1 H2]; [done..|].
       rewrite bump_other, H1 by done. split; [by cbn [rn_world bump]; rewrite H2|]. left. by apply bump_other. }
  destruct (rs_StatusCode resp =? StatusOK) eqn:Hc; [|destruct (_ =? StatusNotFound); [|destruct (500 <=? _)]];
    [|by (split; [done|left; uncount])..].
  boolify. destruct (rerr (rs_Body resp)) eqn:He; [split; [done|left; uncount]|].
  destruct (HG w resp Hok Ht Hk eq_refl Hc He) as (m & Hm & Hv & Hd).
  destruct (String.eqb_spec (Sha.digest (rdata (rs_Body resp))) key); [|done]. simpl negb. cbn [orb].
  destruct (Z.eqb_spec (Z.of_nat (length (rdata (rs_Body resp)))) size) as [Hn|Hn]; simpl negb; cbv iota;
    (split; [done|]).
  - left. uncount.
  - right. exists m, key, (rdata (rs_Body resp)), a. rewrite Hls. split_and!; try done; congruence || lia.
Qed.

Lemma write_cluster E opts rnd s s' :
  cluster_ok ms rc (rn_world s) → @doWrite _ (cluster_client E) nodeOrder opts rnd s = Some s' →
  cluster_ok ms rc (rn_world s') ∧ rn_count s' CorruptedReads = rn_count s CorruptedReads.
Proof.
  intros Hok. unfold doWrite. destruct (random_object opts rnd) as [[content k]|]; simpl; [|done].
  destruct (Intn _ _) as [i|]; simpl; [|done]. destruct (nodeOrder !! _) as [t|]; simpl; [|done].
  destruct (bad_url _); [by intros [= <-]|].
  match goal with |- context [exchange _ _ _ _ ?rq _] => pose proof (client_do_ok E rq (rn_world s) Hok) as Hok' end.
  cbn [Do cluster_client] in Hok'. destruct (exchange _ _ _ _ _ _) as [w r]. cbn [fst] in Hok'. intros [= <-].
  destruct r as [resp|e].
  2: { set (s1 := set_world w (bump Writes 1 s)). destruct (classify_other e CorruptedReads s1) as [H1 H2]; [done..|].
       rewrite bump_other, H1 by done. split; [by cbn [rn_world bump]; rewrite H2|]. by apply bump_other. }
  destruct (_ && _); [|destruct (_ =? _); [|destruct (500 <=? _)]]; (split; [done|]); uncount.
Qed.

(** The invariant of a run against the cluster. *)
Lemma run_cluster opts s0 s :
  let step := chaos_step opts nodeOrder cluster_transport (cluster_step dial bad_url) in
  rtc step s0 s → run_ok s0 → cluster_ok ms rc (rn_world s0) →
  run_ok s ∧ cluster_ok ms rc (rn_world s) ∧
  (rn_count s CorruptedReads = rn_count s0 CorruptedReads ∨ ∃ s1, rtc step s0 s1 ∧ rtc step s1 s ∧ clash s1).
Proof.
  intros step Hr Hs0 Hok0. revert s Hr. refine (rtc_ind_r _ s0 _ _); [by auto|].
  intros s1 s2 Hr H1 (Hs1 & Hok1 & Hc1). split; [by eapply chaos_step_ok|].
  assert (cluster_ok ms rc (rn_world s2) ∧
    (rn_count s2 CorruptedReads = rn_count s1 CorruptedReads ∨ clash s1)) as [Hok2 Hc2].
  { destruct H1 as [T f rnd s1 s2 [E ->] Hw|w s1 Hm].
    - unfold worker_iteration in Hw. destruct (flt _ _).
      + by eapply read_cluster; [..|apply Hs1|].
      + apply write_cluster in Hw as [? ?]; auto.
    - split; [|by left]. eapply steps_ok; [|done]. eapply cluster_steps. by apply rtc_once. }
  split; [done|]. destruct Hc1 as [Hc1|(s3 & H3 & H3' & Hcl)].
  - destruct Hc2 as [Hc2|Hcl]; [left; congruence|]. right. exists s1. split; [done|]. split; [by apply rtc_once|done].
  - right. exists s3. split; [done|]. split; [by eapply rtc_r|done].
Qed.

(** The final verification never finds a corrupted object. *)
Lemma verify_cluster E i sample f s s' f' :
  cluster_ok ms rc (rn_world s) → (∀ k, k ∈ sample → valid_key k = true) →
  @verify_loop _ (cluster_client E) nodeOrder i sample f s = Some (s', f') → fv_Corrupted f' = fv_Corrupted f.
Proof.
  revert i f s. induction sample as [|key sample IH]; intros i f s Hok Hv; cbn [verify_loop]; [by intros [= _ <-]|].
  destruct (nodeOrder !! _) as [t|] eqn:Ht; simpl; [|done]. apply list_elem_of_lookup_2 in Ht.
  destruct (verify_key (tg_URL t) key (rn_world s)) as [w1 o] eqn:HV.
  assert (Ho : cluster_ok ms rc w1 ∧ o ≠ FCorrupted).
  { revert HV. unfold verify_key. cbn [url_err cluster_client]. destruct (bad_url _); [by intros [= <- <-]|].
    pose proof (client_do_ok E (mkRequest MethodGet (cas_url (tg_URL t) key) ∅ None 0) (rn_world s) Hok) as Hok'.
    pose proof (client_get E t key (rn_world s)) as HG. destruct (Do _ _) as [w2 r]. intros [= <- <-].
    split; [done|]. destruct r as [resp|]; [|done]. destruct (_ =? StatusNotFound); [done|].
    destruct (Z.eqb_spec (rs_StatusCode resp) StatusOK) as [Hc|]; [|done]. simpl negb. cbv iota.
    destruct (rerr (rs_Body resp)) eqn:He; [done|].
    destruct (HG w2 resp Hok Ht (Hv key (list_elem_of_here _ _)) eq_refl Hc He) as (_ & _ & _ & ->).
    by rewrite String.eqb_refl. }
  destruct Ho as [Hok1 Ho]. intros HL. apply IH in HL; [|by destruct o|intros; apply Hv; by right].
  rewrite HL. by destruct o.
Qed.
End against.

(** C24: the chaos runner accuses a correct cluster of corruption only on the
    evidence of a hash collision.  Over any run against the modelled cluster, in
    which workers read and write through any nodes, nodes repair, evict and
    reconcile, and the network, the disks and the databases fail in any way, the
    runner counts no corrupted read, unless at some moment a member held, under a
    key of the ledger, a content of another length with the same SHA-256 digest
    as the one that was written; and the final verification counts none at all. *)
Theorem chaos_reports_no_false_corruption dial bad_url ms rc nodeOrder opts w s :
  (∀ m q, m ∈ ms → dial (URL m +:+ "/" +:+ q) = Some (Name m, "/" +:+ q)) →
  (∀ t, t ∈ nodeOrder → ∃ m, m ∈ ms ∧ tg_URL t = URL m) →
  cluster_ok ms rc w →
  let step := chaos_step opts nodeOrder (cluster_transport dial bad_url) (cluster_step dial bad_url) in
  rtc step (new_run w) s →
  (rn_count s CorruptedReads = 0 ∨ ∃ s1, rtc step (new_run w) s1 ∧ rtc step s1 s ∧ clash ms s1) ∧
  ∀ E s' fin, @finalVerify _ (cluster_client dial bad_url E) nodeOrder s = Some (s', fin) → fv_Corrupted fin = 0.
Proof.
  intros Hd Ht Hok step Hr.
  destruct (run_cluster dial bad_url ms rc nodeOrder Hd Ht opts (new_run w) s Hr (new_run_ok w) Hok)
    as (Hs & Hok' & Hc). split; [done|].
  intros E s' fin. unfold finalVerify.
  destruct (final_sample_spec (ledger_all (rn_ledger s))) as (l & -> & _ & _ & Hin & _). simpl.
  intros HV. apply (verify_cluster dial bad_url ms rc nodeOrder Hd Ht) in HV; [done..|].
  intros k Hk. apply Hin in Hk. apply (lo_size _ (ro_ledger _ Hs)) in Hk as [n Hn].
  destruct (lo_content _ (ro_ledger _ Hs) _ _ Hn) as (a & <- & _). apply digest_valid_key.
Qed.

(** ** Counting replicas *)

(** How many members hold the object. *)
Definition copies_of (ms : list Member) (w : World) (key : string) : nat :=
  length (filter (λ m, is_Some (view (local (nodes w (Name m))) NamespaceCAS key)) ms).

Definition held_by (n : nat) (ms : list Member) (w : World) (keys : list string) : Z :=
  Z.of_nat (length (filter (λ k, copies_of ms w k = n) keys)).

(** The reference: the objects on at least two, exactly one and no member. *)
Definition exact_counts (ms : list Member) (w : World) (keys : list string) : replica_counts :=
  mkReplicaCounts (Z.of_nat (length keys) - held_by 1 ms w keys - held_by 0 ms w keys) (held_by 1 ms w keys)
    (held_by 0 ms w keys) 0.

Lemma copies_reads ms w w' key : reads_only w w' → copies_of ms w' key = copies_of ms w key.
Proof.
  intros Hr. unfold copies_of. f_equal. induction ms as [|m ms IH]; [done|]. rewrite !filter_cons.
  destruct (Hr (Name m)) as (_ & Hv & _). rewrite (Hv NamespaceCAS key). by rewrite IH.
Qed.

Lemma counts_reads ms w w' keys : reads_only w w' → exact_counts ms w' keys = exact_counts ms w keys.
Proof.
  intros Hr. unfold exact_counts, held_by.
  assert (∀ n, filter (λ k, copies_of ms w' k = n) keys = filter (λ k, copies_of ms w k = n) keys) as H.
  { intros n. apply list_filter_iff. intros k. by rewrite (copies_reads _ w w'). }
  by rewrite !H.
Qed.

Section counting.
Context (dial : string → option (string * string)) (bad_url : string → option error).
Context (ms : list Member) (rc : Z) (suffix : N) (now : Z).
Context (dial_ok : ∀ m q, m ∈ ms → dial (URL m +:+ "/" +:+ q) = Some (Name m, "/" +:+ q)).
Context (url_ok : ∀ u, bad_url u = None).

Abbreviation E := (cluster_fine suffix now).
#[local] Instance probe_client : Transport World := cluster_client dial bad_url E.

(** The targets are the members. *)
Definition all_targets : list target := (λ m, mkTarget (Name m) (URL m)) <$> ms.

Lemma Stat_fine s key s' r :
  valid_key key = true →
  os_IsNotExist (missing (tree s) (object_file (root s) NamespaceCAS key)) = true →
  Stat_ None now NamespaceCAS key s = (s', r) →
  match view s NamespaceCAS key with Some _ => ∃ st, r = Ok st | None => r = Err ErrNotFound end.
Proof.
  intros Hk Hmiss. unfold Stat_. mrun.
  destruct (check_ref_cases NamespaceCAS key s) as [(e & _ & Hno)|(_ & _ & ->)]; [by destruct Hno|]. mrun.
  assert (HL : lookup_node None (tree s) (object_file (root s) NamespaceCAS key) =
    match tree s !! object_file (root s) NamespaceCAS key with
    | Some x => Ok x | None => Err (missing (tree s) (object_file (root s) NamespaceCAS key)) end).
  { unfold lookup_node. pose proof (object_file_nonempty (root s) NamespaceCAS key eq_refl Hk).
    by destruct (object_file (root s) NamespaceCAS key). }
  rewrite HL. unfold view. destruct (tree s !! _) as [[c t| |]|]; mrun; simpl negb; cbv iota; rewrite ?Hmiss; mrun;
    intros [= _ <-]; by try eexists.
Qed.

(** One node asked for its own copy. *)
Lemma probe_one m key w :
  m ∈ ms → valid_key key = true → clear_path NamespaceCAS key (nodes w (Name m)) →
  ∃ w' resp, Do (mkRequest MethodHead (cas_url (URL m) key)
      (<[HeaderHop := HopRead]> (<[HeaderForwardedBy := "kilnchaos"]> ∅)) None 0) w = (w', Ok resp) ∧
    reads_only w w' ∧
    (rs_StatusCode resp =? StatusOK) = bool_decide (is_Some (view (local (nodes w (Name m))) NamespaceCAS key)).
Proof.
  intros Hm Hk [_ Hmiss]. cbn [Do probe_client cluster_client]. set (rq := mkRequest _ _ _ _ _).
  unfold exchange. change (rq_URL rq) with (URL m +:+ "/" +:+ ("cas/" +:+ key)). rewrite dial_ok by done.
  change (framed rq) with (rq, true). cbv iota beta. cbn [cluster_fine ce_net].
  change ("/" +:+ ("cas/" +:+ key)) with (object_path NamespaceCAS key). cbn [serve]. unfold ServeHTTP.
  rewrite (parsePath_object NamespaceCAS key eq_refl Hk). unfold dispatch, serveGet.
  change (rq_Method rq) with MethodHead. change (inboundHop rq) with HopRead. cbn [String.eqb].
  change (String.eqb MethodHead MethodGet) with false. change (String.eqb MethodHead MethodHead) with true.
  cbv iota. cbn [negb node_backend be_Stat]. unfold coord_Stat. cbn [ce_node cluster_fine node_fine ne_stat fst snd].
  pose proof (on_local_reads (Name m) (Stat_ None now NamespaceCAS key) w (Stat_same _ _ _ _)) as Hr.
  destruct (on_local _ _ w) as [w1 r] eqn:HL. cbn [fst] in Hr.
  apply on_local_node in HL as (s' & HS & _ & _). apply Stat_fine in HS; [|done..].
  destruct (view (local (nodes w (Name m))) NamespaceCAS key) as [c|].
  - destruct HS as [st ->]. eexists _, _. split; [reflexivity|].
    split; [eapply reads_only_trans; [done|apply count_reads]|]. by rewrite bool_decide_eq_true_2.
  - subst r. cbn [errors_Is negb Terminal]. eexists _, _. split; [reflexivity|].
    split; [eapply reads_only_trans; [done|apply count_reads]|]. by rewrite bool_decide_eq_false_2 by (by intros []).
Qed.

Lemma probe_nodes_fine hs key copies w :
  (∀ m, m ∈ hs → m ∈ ms) → valid_key key = true → (∀ m, m ∈ ms → clear_path NamespaceCAS key (nodes w (Name m))) →
  ∃ w', probe_nodes ((λ m, mkTarget (Name m) (URL m)) <$> hs) key copies 0 w =
      (w', (copies + Z.of_nat (copies_of hs w key), 0)) ∧ reads_only w w'.
Proof.
  revert copies w. induction hs as [|m hs IH]; intros copies w Hms Hk Hcp.
  { exists w. split; [by rewrite Z.add_0_r|apply reads_only_refl]. }
  assert (Hm : m ∈ ms) by (apply Hms; left). rewrite fmap_cons. cbn [probe_nodes tg_URL].
  change (@url_err World probe_client ?u) with (bad_url u). rewrite url_ok.
  destruct (probe_one m key w Hm Hk (Hcp m Hm)) as (w1 & resp & HD & Hr & Hc).
  rewrite HD, Hc.
  destruct (IH (if bool_decide (is_Some (view (local (nodes w (Name m))) NamespaceCAS key)) then copies + 1 else copies) w1)
    as (w2 & Hp & Hr2).
  { intros; apply Hms; by right. }
  { done. }
  { intros m' Hm'. eapply clear_path_reads; [done|by apply Hcp]. }
  exists w2. rewrite Hp.
  split; [|by eapply reads_only_trans]. f_equal. f_equal. rewrite (copies_reads hs w w1) by done.
  unfold copies_of. rewrite filter_cons. case_bool_decide; case_decide; try done; simpl; lia.
Qed.

Lemma held_by_cons n w k keys :
  held_by n ms w (k :: keys) = (if decide (copies_of ms w k = n) then 1 else 0) + held_by n ms w keys.
Proof. unfold held_by. rewrite filter_cons. case_decide; simpl; lia. Qed.

Definition add_counts (a b : replica_counts) : replica_counts :=
  mkReplicaCounts (full a + full b) (under a + under b) (absent a + absent b) (unreadable a + unreadable b).

Lemma exact_counts_cons w k keys c :
  ms ≠ [] → add_counts (tally_key all_targets (Z.of_nat (copies_of ms w k)) 0 c) (exact_counts ms w keys) =
    add_counts c (exact_counts ms w (k :: keys)).
Proof.
  intros Hms. unfold tally_key, exact_counts, add_counts. rewrite !held_by_cons.
  destruct (Z.eqb_spec 0 (Z.of_nat (length all_targets))) as [H0|_].
  { unfold all_targets in H0. rewrite length_fmap in H0. by destruct ms. }
  destruct (Z.leb_spec 2 (Z.of_nat (copies_of ms w k))), (Z.eqb_spec (Z.of_nat (copies_of ms w k)) 0);
    repeat case_decide; try lia; simpl; f_equal; lia.
Qed.

Lemma count_loop_fine i keys c w :
  ms ≠ [] → (∀ k, k ∈ keys → valid_key k = true) →
  (∀ k m, k ∈ keys → m ∈ ms → clear_path NamespaceCAS k (nodes w (Name m))) →
  ∃ w', count_loop all_targets (λ _, None) i keys c w = (w', add_counts c (exact_counts ms w keys)) ∧ reads_only w w'.
Proof.
  intros Hms. revert i c w. induction keys as [|k keys IH]; intros i c w Hv Hcp; cbn [count_loop].
  { exists w. split; [|apply reads_only_refl]. destruct c. unfold add_counts, exact_counts, held_by. simpl.
    f_equal. f_equal; lia. }
  assert (Hk : k ∈ k :: keys) by left.
  destruct (probe_nodes_fine ms k 0 w) as (w1 & Hp & Hr); [done|by apply Hv|by intros m; apply Hcp|].
  fold all_targets in Hp. rewrite Hp. rewrite Z.add_0_l.
  destruct (IH (i + 1)%nat (tally_key all_targets (Z.of_nat (copies_of ms w k)) 0 c) w1) as (w2 & Hw2 & Hr2).
  { intros; apply Hv; by right. }
  { intros k' m Hk' Hm. eapply clear_path_reads; [done|]. apply Hcp; [by right|done]. }
  exists w2. rewrite Hw2. split; [|by eapply reads_only_trans]. f_equal.
  rewrite (counts_reads ms w w1) by done. by apply exact_counts_cons.
Qed.

Lemma countReplicas_fine keys w :
  ms ≠ [] → (∀ k, k ∈ keys → valid_key k = true) →
  (∀ k m, k ∈ keys → m ∈ ms → clear_path NamespaceCAS k (nodes w (Name m))) →
  ∃ w', countReplicas all_targets (λ _, None) keys w = (w', exact_counts ms w keys) ∧ reads_only w w'.
Proof.
  intros Hms Hv Hcp. destruct (count_loop_fine 0 keys (mkReplicaCounts 0 0 0 0) w Hms Hv Hcp) as (w' & H & Hr).
  exists w'. split; [|done]. unfold countReplicas. rewrite H. f_equal.
Qed.

(** The waiting loop on a cluster at rest. *)
Lemma converge_loop_fine fuel k late sample c w n :
  ms ≠ [] → (∀ k, k ∈ sample → valid_key k = true) →
  (∀ k m, k ∈ sample → m ∈ ms → clear_path NamespaceCAS k (nodes w (Name m))) →
  late (k + n)%nat = true → (n < fuel)%nat →
  ∃ w' c', converge_loop all_targets fuel k late sample c w = Some (w', c') ∧
    reads_only w w' ∧ cv_counts c' = exact_counts ms w sample ∧
    cv_Attempted c' = cv_Attempted c ∧ cv_ObjectsChecked c' = cv_ObjectsChecked c ∧
    cv_Converged c' = (under (exact_counts ms w sample) =? 0).
Proof.
  intros Hms. revert k c w n. induction fuel as [|fuel IH]; intros k c w n Hv Hcp Hl Hn; [lia|]. cbn [converge_loop].
  destruct (countReplicas_fine sample w Hms Hv Hcp) as (w1 & -> & Hr). rewrite andb_true_r.
  set (cs := exact_counts ms w sample).
  destruct (under cs =? 0) eqn:Hu.
  { eexists _, _. split; [done|]. by split. }
  destruct (late k) eqn:Hlk; [eexists _, _; split; [done|]; by split|].
  destruct n as [|n]; [rewrite Nat.add_0_r in Hl; congruence|].
  destruct (IH (k + 1)%nat (set_counts (k =? 0)%nat cs false c) w1 n) as (w2 & c2 & HL & Hr2 & Hc & Ha & Ho & Hcv).
  { done. }
  { intros k' m Hk' Hm. eapply clear_path_reads; [done|]. by apply Hcp. }
  { by rewrite <-Hl; f_equal; lia. }
  { lia. }
  exists w2, c2. rewrite HL. split; [done|]. split; [by eapply reads_only_trans|].
  rewrite (counts_reads ms w w1) in Hc, Hcv by done. fold cs in Hc, Hcv. split_and!; try done. by rewrite Hcv.
Qed.
End counting.

Lemma subsample_spec keys n :
  ∃ l, subsample keys n = Some l ∧ (∀ k, k ∈ l → k ∈ keys) ∧ Z.of_nat (length l) ≤ Z.max 0 n ∧
    (Z.of_nat (length keys) ≤ n → l = keys).
Proof.
  unfold subsample. destruct (Z.leb_spec n 0) as [Hn|Hn]; simpl.
  { exists []. split; [done|]. split; [set_solver|]. split; [simpl; lia|]. intros Hl. destruct keys; [done|]. simpl in Hl. lia. }
  case_bool_decide as Hk.
  { exists []. split; [done|]. split; [set_solver|]. split; [simpl; lia|done]. }
  destruct (Z.leb_spec (Z.of_nat (length keys)) n) as [Hle|Hgt].
  { exists keys. split; [done|]. split; [done|]. split; [lia|done]. }
  assert (0 < length keys / Z.to_nat n)%nat by (apply Nat.div_str_pos; lia).
  destruct (sample_loop_spec (S (length keys)) keys 0 (length keys / Z.to_nat n) (Z.to_nat n))
    as (l & Hl & Hlen & Hj & _); [done|lia|].
  exists l. split; [done|]. split; [|split; [lia|lia]].
  intros k [j Hk']%list_elem_of_lookup. pose proof (lookup_lt_Some _ _ _ Hk') as Hlt.
  destruct (Hj j Hlt) as [He _]. rewrite Hk' in He. symmetry in He. by eapply list_elem_of_lookup_2.
Qed.

Lemma under_zero ms w keys :
  (under (exact_counts ms w keys) =? 0) = true ↔ ∀ k, k ∈ keys → copies_of ms w k ≠ 1%nat.
Proof.
  unfold exact_counts, held_by. cbn [under]. rewrite Z.eqb_eq. split.
  - intros H k Hk He. assert (k ∈ filter (λ k, copies_of ms w k = 1%nat) keys) as Hin by (by apply list_elem_of_filter).
    destruct (filter _ _); [by apply elem_of_nil in Hin|simpl in H; lia].
  - intros H. destruct (filter _ keys) as [|k ks] eqn:Hf; [done|].
    assert (k ∈ filter (λ k, copies_of ms w k = 1%nat) keys) as [? ?]%list_elem_of_filter by (rewrite Hf; left).
    by destruct (H k).
Qed.

(** C25: the convergence check measures what is on the disks.  On a cluster at
    rest with no faults, [measureConvergence] ends once its deadline has passed,
    changes nothing, and reports of a sample of the ledger's keys exactly how
    many are on at least two, on one and on no members' disks, no matter that any
    node could fetch any object from its peers; it reports convergence exactly
    when no sampled object is on a single disk, and samples every refused object
    when there are at most 2000 of them. *)
Theorem convergence_counts_disks dial bad_url ms suffix now w l late n fuel :
  (∀ m q, m ∈ ms → dial (URL m +:+ "/" +:+ q) = Some (Name m, "/" +:+ q)) → (∀ u, bad_url u = None) → ms ≠ [] →
  (∀ k, k ∈ ledger_all l ∨ k ∈ refusedKeys l →
    valid_key k = true ∧ ∀ m, m ∈ ms → clear_path NamespaceCAS k (nodes w (Name m))) →
  late n = true → (n < fuel)%nat → ledger_all l ≠ [] ∨ refusedKeys l ≠ [] →
  ∃ w' c sample,
    @measureConvergence _ (cluster_client dial bad_url (cluster_fine suffix now)) (all_targets ms) fuel late l w
      = Some (w', c) ∧
    (∀ z, same_view (nodes w z) (nodes w' z)) ∧ cv_Attempted c = true ∧
    cv_ObjectsChecked c = Z.of_nat (length sample) ∧ cv_ObjectsChecked c ≤ maxSample ∧
    (∀ k, k ∈ sample → k ∈ ledger_all l ∨ k ∈ refusedKeys l) ∧
    (Z.of_nat (length (refusedKeys l)) ≤ 2000 → ∀ k, k ∈ refusedKeys l → k ∈ sample) ∧
    cv_counts c = exact_counts ms w sample ∧
    (cv_Converged c = true ↔ ∀ k, k ∈ sample → copies_of ms w k ≠ 1%nat).
Proof.
  intros Hd Hu Hms Hl Hlate Hn Hne. unfold measureConvergence.
  destruct (bool_decide (ledger_all l = []) && bool_decide (refusedKeys l = [])) eqn:Hb.
  { apply andb_true_iff in Hb as [H1%bool_decide_eq_true H2%bool_decide_eq_true]. naive_solver. }
  destruct (subsample_spec (sort_Strings (refusedKeys l)) (maxSample * 2 / 3)) as (s1 & -> & Hin1 & Hl1 & Hall1).
  simpl. destruct (subsample_spec (sort_Strings (ledger_all l)) (maxSample - Z.of_nat (length s1)))
    as (s2 & -> & Hin2 & Hl2 & _). simpl. unfold sort_Strings in *.
  assert (Hin : ∀ k, k ∈ s1 ++ s2 → k ∈ ledger_all l ∨ k ∈ refusedKeys l).
  { intros k [Hk|Hk]%elem_of_app; [apply Hin1 in Hk|apply Hin2 in Hk]; rewrite sort_Slice_perm in Hk; auto. }
  match goal with |- context [converge_loop _ fuel 0 late ?sm ?c0 w] =>
    destruct (converge_loop_fine dial bad_url ms suffix now Hd Hu fuel 0 late sm c0 w n) as (w' & c & HC & Hr & Hc & Ha & Ho & Hcv) end.
  { done. }
  { intros k Hk. by apply Hl, Hin. }
  { intros k m Hk Hm. by apply Hl; [apply Hin|]. }
  { done. }
  { done. }
  exists w', c, (s1 ++ s2). split; [done|]. split; [intros z; by destruct (Hr z) as (_ & ? & _)|].
  split; [done|]. simpl in Ho. split; [done|]. split; [|split; [done|split]].
  - rewrite Ho, length_app. change (maxSample * 2 / 3) with 2000 in Hl1. unfold maxSample in *. lia.
  - intros H2000 k Hk. apply elem_of_app. left. rewrite Hall1; [by rewrite sort_Slice_perm|].
    rewrite (Permutation_length (sort_Slice_perm str_lt (refusedKeys l))).
    change (maxSample * 2 / 3) with 2000. lia.
  - split; [done|]. rewrite Hcv. apply under_zero.
Qed.

(** ** Fault injection *)

Section one_down.
Context {D : Type} {C : Compose D}.

Definition clean (ev : faultEvent) : Prop := fe_StopErr ev = None ∧ fe_StartErr ev = None.

Lemma inject_one_clean victim (d : D) ds ev :
  down d = ∅ → inject_one victim d = (ds, ev) → clean ev →
  (∀ d', d' ∈ ds → down d' ⊆ {[victim]}) ∧ ∃ d', last ds = Some d' ∧ down d' = ∅.
Proof.
  intros Hd. unfold inject_one. destruct (compose (ComposeStop victim) d) as [d1 [[]|e]] eqn:H1.
  2: { intros [= <- <-] [? _]. done. }
  apply stop_ok in H1. destruct (compose (ComposeStart victim) d1) as [d2 r] eqn:H2. intros [= <- <-] [_ Hs].
  simpl in Hs. destruct r as [[]|e]; [|done]. apply start_ok in H2. rewrite Hd in H1. split.
  - intros d'. rewrite !elem_of_cons, elem_of_nil. intros [->|[->|[]]]; set_solver.
  - exists d2. split; [done|]. set_solver.
Qed.

(** While stopping and starting succeed, at most one node is down at any time,
    and none is at the end. *)
Lemma one_down_at_a_time nodeOrder ticks (d : D) ds evs :
  down d = ∅ → injectFaults nodeOrder ticks d = Some (ds, evs) → Forall clean evs →
  (∀ d', d' ∈ ds → (size (down d') ≤ 1)%nat) ∧ down (default d (last ds)) = ∅.
Proof.
  revert d ds evs. induction ticks as [|[draw stop] ticks IH]; intros d ds evs Hd; cbn [injectFaults].
  { intros [= <- <-] _. split; [set_solver|done]. }
  destruct (Intn _ _) as [i|]; simpl; [|done]. destruct (nodeOrder !! _) as [t|]; simpl; [|done].
  destruct (inject_one (tg_Name t) d) as [ds1 ev] eqn:H1.
  assert (Hone : clean ev → (∀ d', d' ∈ ds1 → (size (down d') ≤ 1)%nat) ∧ ∃ d', last ds1 = Some d' ∧ down d' = ∅).
  { intros Hc. destruct (inject_one_clean _ _ _ _ Hd H1 Hc) as [Hsub Hlast]. split; [|done].
    intros d' Hd'%Hsub%subseteq_size. by rewrite size_singleton in Hd'. }
  destruct (_ && stop).
  { intros [= <- <-] [Hc _]%Forall_cons. destruct (Hone Hc) as [? (d' & -> & ?)]. by split. }
  destruct (injectFaults nodeOrder ticks _) as [[ds2 evs2]|] eqn:H2; simpl; [|done].
  intros [= <- <-] [Hc Hall]%Forall_cons. destruct (Hone Hc) as [Hs1 (d1 & Hl1 & Hd1)]. rewrite Hl1 in H2.
  simpl in H2. destruct (IH d1 ds2 evs2 Hd1 H2 Hall) as [Hs2 Hl2]. split.
  - intros d' [?|?]%elem_of_app; auto.
  - rewrite last_app, Hl1. by destruct (last ds2).
Qed.

(** [restoreAll] brings every node of the list back, whatever state it found. *)
Lemma restore_all_up opts nodeOrder (d d' : D) :
  op_noFaults opts = false → restoreAll opts nodeOrder d = (d', None) →
  ∀ t, t ∈ nodeOrder → tg_Name t ∉ down d'.
Proof.
  intros Ho. unfold restoreAll. rewrite Ho.
  assert (∀ ts e d d', restore_loop ts e d = (d', None) →
    e = None ∧ down d' ⊆ down d ∧ ∀ t, t ∈ ts → tg_Name t ∉ down d') as H.
  { clear. induction ts as [|t ts IH]; intros e d d'; cbn [restore_loop].
    { intros [= <- ->]. split; [done|]. split; [done|]. set_solver. }
    destruct (compose (ComposeStart (tg_Name t)) d) as [d1 r] eqn:H1.
    intros (He & Hsub & Hts)%IH. destruct e; [done|]. destruct r as [[]|e]; [|done]. apply start_ok in H1.
    split; [done|]. split; [set_solver|]. intros t' [->|Ht']%elem_of_cons; [set_solver|auto]. }
  intros (_ & _ & Ht)%H. done.
Qed.
End one_down.

(** ** Limits of the checks *)

(** Between 5001 and 9999 acknowledged objects, the final verification checks all
    of them, above the sample size it declares. *)
Lemma final_sample_takes_all keys :
  verifySample < Z.of_nat (length keys) < 2 * verifySample → final_sample keys = Some keys.
Proof.
  unfold final_sample, verifySample. intros Hn. destruct (Z.ltb_spec 5000 (Z.of_nat (length keys))); [|lia].
  replace (Z.of_nat (length keys) / 5000) with 1 by (apply Z.div_unique with (Z.of_nat (length keys) - 5000); lia).
  destruct (sample_loop_spec (S (length keys)) keys 0 (Z.to_nat 1) (length keys)) as (l & -> & Hle & Hj & He); [lia..|].
  f_equal. assert (length l = length keys) as Hlen by (destruct He; lia).
  apply list_eq. intros j. destruct (decide (j < length l)%nat) as [Hlt|Hge].
  - destruct (Hj j Hlt) as [-> _]. f_equal. lia.
  - rewrite !lookup_ge_None_2 by lia. done.
Qed.

(** With fewer than twice as many keys as asked for, [subsample] takes the first
    ones and never looks at the rest. *)
Lemma subsample_takes_prefix keys n :
  0 < n < Z.of_nat (length keys) → Z.of_nat (length keys) < 2 * n → subsample keys n = Some (take (Z.to_nat n) keys).
Proof.
  intros Hn H2. unfold subsample. destruct (Z.leb_spec n 0); [lia|]. rewrite bool_decide_eq_false_2 by (intros ->; simpl in *; lia).
  cbn [orb]. destruct (Z.leb_spec (Z.of_nat (length keys)) n); [lia|].
  replace (length keys / Z.to_nat n)%nat with 1%nat by (apply Nat.div_unique with (length keys - Z.to_nat n)%nat; lia).
  destruct (sample_loop_spec (S (length keys)) keys 0 1 (Z.to_nat n)) as (l & -> & Hle & Hj & He); [lia..|].
  f_equal. assert (length l = Z.to_nat n) as Hlen by (destruct He; lia).
  apply list_eq. intros j. destruct (decide (j < length l)%nat) as [Hlt|Hge].
  - destruct (Hj j Hlt) as [-> _]. rewrite lookup_take_lt by lia. f_equal. lia.
  - rewrite !lookup_ge_None_2; [done|rewrite length_take; lia|lia].
Qed.

(** A run in which no object could be read back passes. *)
Example unreadable_run_passes :
  verdict (mkReport false (build_traffic (λ _, 0) 1) 0 0 [] no_convergence
             (mkFinalVerification 100 0 0 0 100) (mkEviction false 0 0 false)) = Pass.
Proof. reflexivity. Qed.

(** Two of three nodes that do not answer, and a third without the object, count
    as an object that is on no node. *)
Example unreachable_counts_as_absent :
  absent (tally_key [mkTarget "a" "http://a"; mkTarget "b" "http://b"; mkTarget "c" "http://c"] 0 2
            (mkReplicaCounts 0 0 0 0)) = 1.
Proof. reflexivity. Qed.

(** ** Witnesses *)

Definition trio_options : options := mkOptions (of_int 0) 3 8 0 0 false.

Lemma trio_targets_ok t : t ∈ all_targets trio → ∃ m, m ∈ trio ∧ tg_URL t = URL m.
Proof. intros (m & -> & Hm)%list_elem_of_fmap. by exists m. Qed.

(** One operation of a worker on the three nodes. *)
Lemma trio_write :
  ∃ s, rtc (chaos_step trio_options (all_targets trio) (cluster_transport trio_dial (λ _, None))
              (cluster_step trio_dial (λ _, None))) (new_run trio_world) s.
Proof.
  destruct (@worker_iteration_total _ (cluster_client trio_dial (λ _, None) trio_env) trio_options
    (all_targets trio) (of_int 1) (λ k, Z.of_nat k) (new_run trio_world)) as [s Hs]; [done|done|].
  exists s. apply rtc_once. eapply ch_worker; [|exact Hs]. by exists trio_env.
Qed.

Lemma chaos_books_balance_witness :
  ∃ s, rn_count s Writes = rn_count s WriteOK + rn_count s WriteRefused + rn_count s WriteError ∧
    rtc (chaos_step trio_options (all_targets trio) (cluster_transport trio_dial (λ _, None))
          (cluster_step trio_dial (λ _, None))) (new_run trio_world) s.
Proof.
  destruct trio_write as [s Hs]. exists s. split; [|exact Hs].
  apply (@chaos_books_balance _ (cluster_client trio_dial (λ _, None) trio_env) trio_options (all_targets trio)
    (cluster_transport trio_dial (λ _, None)) (cluster_step trio_dial (λ _, None)) trio_world s (of_int 0)
    (λ _, 0)).
  - discriminate.
  - split; discriminate.
  - exact Hs.
Defined.

Lemma chaos_reports_no_false_corruption_witness :
  ∃ s, (rn_count s CorruptedReads = 0 ∨
    ∃ s1, rtc (chaos_step trio_options (all_targets trio) (cluster_transport trio_dial (λ _, None))
                (cluster_step trio_dial (λ _, None))) s1 s ∧ clash trio s1).
Proof.
  destruct trio_write as [s Hs]. exists s.
  destruct (chaos_reports_no_false_corruption trio_dial (λ _, None) trio 2 (all_targets trio) trio_options
    trio_world s trio_dial_ok trio_targets_ok trio_ok Hs) as [[H|(s1 & _ & H1 & H2)] _].
  - left. exact H.
  - right. exists s1. split; [exact H1|exact H2].
Defined.

(** [node-a] has an object the others lack. *)
Definition single_copy : World :=
  mkWorld (λ x, mkCoordinator (mkRing trio x)
    (if String.eqb x "node-a" then abc_store else fresh_store 1024) 2 None (λ _, 0)).

Definition refused_abc : ledger := addRefused abc_key newLedger.

Lemma convergence_counts_disks_witness :
  ∃ w' c (sample : list string),
    @measureConvergence _ (cluster_client trio_dial (λ _, None) (cluster_fine 7 100)) (all_targets trio) 3
      (λ k, (1 <=? k)%nat) refused_abc single_copy = Some (w', c) ∧
    (cv_Converged c = true ↔ ∀ k, k ∈ sample → copies_of trio single_copy k ≠ 1%nat).
Proof.
  destruct (convergence_counts_disks trio_dial (λ _, None) trio 7 100 single_copy refused_abc
    (λ k, (1 <=? k)%nat) 1 3 trio_dial_ok (λ _, eq_refl)) as (w' & c & sample & H & _ & _ & _ & _ & _ & _ & _ & Hc).
  - discriminate.
  - intros k Hk. assert (k = abc_key) as ->.
    { destruct Hk as [Hk|Hk].
      - by apply elem_of_nil in Hk.
      - apply list_elem_of_filter in Hk as [_ Hk]. by apply list_elem_of_singleton in Hk. }
    split; [vm_compute; reflexivity|]. intros m Hm. unfold trio in Hm. rewrite !elem_of_cons, elem_of_nil in Hm.
    destruct Hm as [->|[->|[->|[]]]]; split; vm_compute; reflexivity.
  - reflexivity.
  - repeat constructor.
  - right. vm_compute. discriminate.
  - exists w', c, sample. split; [exact H|exact Hc].
Defined.
