(* ===== verification/Bench.v ===== *)
(** * The benchmark: cmd/bench

    The load generator's arithmetic and bookkeeping: latency distributions
    (latency.go), the corpus (corpus.go), the closed-loop runner with its
    requests and its generator of fresh objects (runner.go), the scrape of the
    nodes' gauges (observe.go), the preload, the scenarios and the summary of
    repeated runs (scenarios.go), and the command line (main.go).
    The HTTP client is the [Transport] of [Client]; [math/rand] is the sequence of
    numbers and bytes it draws.  The session around the scenarios, its report
    and the profiles are in [Report], the document in [Render]. *)

From Stdlib Require Import Floats.SpecFloat.
From S2P Require Import Prelude GoStrings Sha256 Errors Key Config Ring Protocol Index FileSystem Store StoreSpec GoFloat Strconv Fmt Json Client Coordinator HttpApi Cluster Repair Reads ClusterSpec Chaos.

#[local] Open Scope Z_scope.

(** ** Latencies: latency.go *)

(** [Latencies.samples], in nanoseconds. *)
Definition Latencies : Type := list Z.

Definition lat_Add (d : Z) (l : Latencies) : Latencies := l ++ [d].
Definition lat_Merge (o l : Latencies) : Latencies := l ++ o.

Record Summary := mkSummary {
  su_Count : Z; su_MinMs : float64; su_MeanMs : float64; su_P50Ms : float64; su_P90Ms : float64;
  su_P95Ms : float64; su_P99Ms : float64; su_P999Ms : float64; su_MaxMs : float64 }.

(** [math.Ceil]. *)
Definition Ceil (x : float64) : float64 :=
  match x with
  | S754_finite s m e =>
      if 0 <=? e then x
      else of_int (if s then - (Z.pos m / 2 ^ (- e)) else - (- Z.pos m / 2 ^ (- e)))
  | _ => x
  end.

(** The rank [percentile] computes, before it is clamped. *)
Definition raw_rank (p : float64) (n : Z) : Z := to_int64 (Ceil (fmul p (of_int n))).

Definition clamp_rank (r n : Z) : Z :=
  let r := if r <? 1 then 1 else r in
  if n <? r then n else r.

(** [percentile] on sorted samples. *)
Definition percentile (p : float64) (samples : list Z) : Z :=
  if bool_decide (samples = []) then 0
  else
    let n := Z.of_nat (length samples) in
    default 0 (samples !! Z.to_nat (clamp_rank (raw_rank p n) n - 1)).

(** [float64(d.Microseconds()) / 1000]. *)
Definition lat_ms (d : Z) : float64 := fdiv (of_int (Z.quot d 1000)) (of_int 1000).

Definition p50 : float64 := constant 1 2.
Definition p90 : float64 := constant 9 10.
Definition p95 : float64 := constant 19 20.
Definition p99 : float64 := constant 99 100.
Definition p999 : float64 := constant 999 1000.

Definition zero_summary : Summary :=
  mkSummary 0 (of_int 0) (of_int 0) (of_int 0) (of_int 0) (of_int 0) (of_int 0) (of_int 0) (of_int 0).

(** [Summarize]: the samples, sorted in place, and the distribution. *)
Definition Summarize (l : Latencies) : Latencies * Summary :=
  if bool_decide (l = []) then (l, zero_summary)
  else
    let samples := sort_Slice Z.ltb l in
    let total := fold_left (λ t d, i64 (t + d)) samples 0 in
    let n := Z.of_nat (length samples) in
    (samples,
     mkSummary n (lat_ms (default 0 (samples !! 0%nat))) (lat_ms (Z.quot total n))
       (lat_ms (percentile p50 samples)) (lat_ms (percentile p90 samples)) (lat_ms (percentile p95 samples))
       (lat_ms (percentile p99 samples)) (lat_ms (percentile p999 samples))
       (lat_ms (default 0 (last samples)))).

(** ** The corpus: corpus.go *)

Record BObject := mkBObject { bo_Key : string; bo_Content : bytes }.

Record Corpus := mkCorpus { co_Name : string; co_Seed : Z; co_Size : Z; co_Objects : list BObject }.

(** [NewCorpus]; [draw i] are the bytes [Read] filled the [i]-th buffer with. *)
(** The bytes [r.Read] fills a fresh buffer with. *)
Definition drawn (draw : nat → Byte.byte) (n : Z) : bytes := draw <$> seq 0 (Z.to_nat n).

Definition NewCorpus (draw : nat → nat → Byte.byte) (name : string) (count size seed : Z) : Corpus :=
  mkCorpus name seed size
    ((λ i, let buf := drawn (draw i) size in mkBObject (Sha.EncodeToString (Sha.Sum256 buf)) buf)
       <$> seq 0 (Z.to_nat count)).

Definition Bytes (c : Corpus) : Z := i64 (Z.of_nat (length (co_Objects c)) * co_Size c).

Definition miss_prefix : bytes := String.list_byte_of_string "kilncache/bench/miss/".

Definition MissKeys (draw : nat → nat → Byte.byte) (count : nat) : list string :=
  (λ i, Sha.EncodeToString (Sha.Sum256 (miss_prefix ++ drawn (draw i) 32))) <$> seq 0 count.

(** ** Fresh objects: runner.go *)

(** [uniqueGen]: the buffer, which the objects it returns share. *)
Record uniqueGen := mkUniqueGen { ug_buf : bytes; ug_worker : Z; ug_counter : Z }.

(** [copy(dst, src)] into a buffer of [n] bytes. *)
Definition copy_into (n : nat) (src : bytes) : bytes := take n (src ++ replicate n Byte.x00).

Definition newUniqueGen (worker : Z) (c : Corpus) : option uniqueGen :=
  if co_Size c <? 0 then None
  else
    let n := Z.to_nat (co_Size c) in
    let src := match co_Objects c with
               | [] => []
               | os => default [] (bo_Content <$> os !! Z.to_nat (worker mod Z.of_nat (length os)))
               end in
    Some (mkUniqueGen (copy_into n src) worker 0).

(** [binary.BigEndian.PutUint64]. *)
Definition be64 (v : Z) : bytes := Sha.be_bytes 8 (u64 v).

(** [next]; [None] is slicing a buffer of fewer than 16 bytes.  The object's
    content is the generator's buffer. *)
Definition next (g : uniqueGen) : option (uniqueGen * BObject) :=
  if (length (ug_buf g) <? 16)%nat then None
  else
    let counter := u64 (ug_counter g + 1) in
    let buf := be64 (ug_worker g) ++ be64 counter ++ drop 16 (ug_buf g) in
    Some (mkUniqueGen buf (ug_worker g) counter, mkBObject (Sha.EncodeToString (Sha.Sum256 buf)) buf).

(** ** Requests: runner.go *)

Inductive Op := OpGet | OpPut | OpMixed.

Definition Op_String (o : Op) : string :=
  match o with OpGet => "get" | OpPut => "put" | OpMixed => "mixed" end.

Record RunSpec := mkRunSpec {
  sp_Scenario : string; sp_Op : Op; sp_Concurrency : nat; sp_Corpus : Corpus; sp_MissKeys : list string; sp_HitRatio : float64;
  sp_Targets : list string; sp_Verify : bool }.

(** What one request came to: bytes, whether it was a miss, and its error. *)
Abbreviation one_result := (Z * bool * option error)%type.

Definition short8 (key : string) : string := stake 8 key.

Section requests.
Context {S : Type} {T : Transport S}.

Definition doGet (base key : string) (verify : bool) (wantSize : Z) (w : S) : S * one_result :=
  match url_err (cas_url base key) with
  | Some e => (w, (0, false, Some e))
  | None =>
      let '(w1, r) := Do (mkRequest MethodGet (cas_url base key) ∅ None 0) w in
      (w1, match r with
           | Err e => (0, false, Some e)
           | Ok resp =>
               if rs_StatusCode resp =? StatusNotFound then (0, true, None)
               else if negb (rs_StatusCode resp =? StatusOK) then
                 (0, false, Some (Errorf ("GET " +:+ short8 key +:+ ": status " +:+ pretty (rs_StatusCode resp))))
               else
                 let n := Z.of_nat (length (rdata (rs_Body resp))) in
                 match rerr (rs_Body resp) with
                 | Some e => (n, false, Some e)
                 | None =>
                     if verify then
                       if negb (String.eqb (Sha.digest (rdata (rs_Body resp))) key)
                       then (n, false, Some (Errorf ("GET " +:+ short8 key +:+ ": digest mismatch")))
                       else (n, false, None)
                     else if (0 <? wantSize) && negb (n =? wantSize) then
                       (n, false, Some (Errorf ("GET " +:+ short8 key +:+ ": got " +:+ pretty n +:+ " bytes, want "
                                          +:+ pretty wantSize)))
                     else (n, false, None)
                 end
           end)
  end.

Definition doPut (base : string) (obj : BObject) (w : S) : S * one_result :=
  match url_err (cas_url base (bo_Key obj)) with
  | Some e => (w, (0, false, Some e))
  | None =>
      let n := Z.of_nat (length (bo_Content obj)) in
      let '(w1, r) := Do (mkRequest MethodPut (cas_url base (bo_Key obj)) ∅
                            (Some (mkReader (bo_Content obj) None)) n) w in
      (w1, match r with
           | Err e => (0, false, Some e)
           | Ok resp =>
               if (rs_StatusCode resp <? 200) || (300 <=? rs_StatusCode resp) then
                 (0, false, Some (Errorf ("PUT " +:+ short8 (bo_Key obj) +:+ ": status " +:+
                                    pretty (rs_StatusCode resp))))
               else (n, false, None)
           end)
  end.

(** A random element; [None] is the panic of [Intn] on an empty slice. *)
Definition pick {A} (d : Z) (l : list A) : option A :=
  i ← Intn d (Z.of_nat (length l)); l !! Z.to_nat i.

(** [doOne], with the drawn numbers and the float of [r.Float64]. *)
Definition doOne (spec : RunSpec) (rnd : nat → Z) (f : float64) (g : uniqueGen) (w : S)
    : option (S * uniqueGen * one_result) :=
  base ← pick (rnd 0%nat) (sp_Targets spec);
  let hit := obj ← pick (rnd 1%nat) (co_Objects (sp_Corpus spec));
             let '(w1, r) := doGet base (bo_Key obj) (sp_Verify spec) (Z.of_nat (length (bo_Content obj))) w in
             Some (w1, g, r) in
  match sp_Op spec with
  | OpPut => '(g1, obj) ← next g; let '(w1, r) := doPut base obj w in Some (w1, g1, r)
  | OpMixed =>
      if flt f (sp_HitRatio spec) then hit
      else
        key ← pick (rnd 1%nat) (sp_MissKeys spec);
        let '(w1, r) := doGet base key false 0 w in Some (w1, g, r)
  | OpGet => hit
  end.
End requests.

(** ** One measured run: runner.go *)

(** The counters of [Run], the error samples and the latencies by worker. *)
Record tallies := mkTallies {
  ta_ops : Z; ta_errs : Z; ta_misses : Z; ta_bytes : Z; ta_verifyNG : Z;
  ta_samples : gmap string Z; ta_lat : nat → Latencies }.

Definition no_tallies : tallies := mkTallies 0 0 0 0 0 ∅ (λ _, []).

Definition noteErr (e : error) (m : gmap string Z) : gmap string Z :=
  let k := Error e in
  if bool_decide (is_Some (m !! k)) || (size m <? 32)%nat then <[k := default 0 (m !! k) + 1]> m else m.

(** One iteration of a worker's loop, after [doOne]: the worker, whether the
    measurement has started, whether the run's context is done, how long the
    request took, and what it came to. *)
Record iteration := mkIteration {
  it_worker : nat; it_measuring : bool; it_done : bool; it_elapsed : Z; it_result : one_result }.

Definition add_lat (w : nat) (d : Z) (t : tallies) : nat → Latencies :=
  λ w', if (w' =? w)%nat then lat_Add d (ta_lat t w') else ta_lat t w'.

Definition record_iteration (it : iteration) (t : tallies) : tallies :=
  let '(n, miss, err) := it_result it in
  if negb (it_measuring it) then t
  else
    match err with
    | Some e =>
        if errors_Is e IsCanceled && it_done it then t
        else mkTallies (ta_ops t + 1) (ta_errs t + 1) (ta_misses t) (ta_bytes t) (ta_verifyNG t)
               (noteErr e (ta_samples t)) (ta_lat t)
    | None =>
        if (miss : bool) then
          mkTallies (ta_ops t + 1) (ta_errs t) (ta_misses t + 1) (ta_bytes t) (ta_verifyNG t) (ta_samples t)
            (add_lat (it_worker it) (it_elapsed it) t)
        else
          mkTallies (ta_ops t + 1) (ta_errs t) (ta_misses t) (ta_bytes t + n) (ta_verifyNG t) (ta_samples t)
            (add_lat (it_worker it) (it_elapsed it) t)
    end.

Record RunResult := mkRunResult {
  rr_Scenario : string; rr_Op : string; rr_Concurrency : Z; rr_DurationS : float64; rr_Operations : Z; rr_Errors : Z; rr_Misses : Z;
  rr_Bytes : Z; rr_OpsPerSec : float64; rr_MiBPerSec : float64; rr_ErrorRate : float64; rr_Latency : Summary;
  rr_VerifyFails : Z; rr_ErrorSamples : gmap string Z; rr_ObjectSizeBytes : Z }.

(** The latencies of the workers, merged. *)
Definition merged (conc : nat) (t : tallies) : Latencies :=
  fold_left (λ all i, lat_Merge (ta_lat t i) all) (seq 0 conc) [].

(** The result [Run] builds once the workers have returned. *)
Definition build_result (spec : RunSpec) (measured : Z) (t : tallies) : RunResult :=
  let secs := Seconds measured in
  mkRunResult (sp_Scenario spec) (Op_String (sp_Op spec)) (Z.of_nat (sp_Concurrency spec)) secs (ta_ops t) (ta_errs t) (ta_misses t) (ta_bytes t)
    (if 0 <? measured then fdiv (of_int (ta_ops t)) secs else of_int 0)
    (if 0 <? measured then fdiv (fdiv (of_int (ta_bytes t)) secs) (of_int (2 ^ 20)) else of_int 0)
    (if 0 <? ta_ops t then fdiv (of_int (ta_errs t)) (of_int (ta_ops t)) else of_int 0)
    (Summarize (merged (sp_Concurrency spec) t)).2 (ta_verifyNG t) (ta_samples t) (co_Size (sp_Corpus spec)).

(** One turn of a worker's loop: the worker, what the run's state is when its
    request returns, how long it took, and the numbers it draws. *)
Record turn := mkTurn {
  tn_worker : nat; tn_measuring : bool; tn_done : bool; tn_elapsed : Z; tn_rnd : nat → Z; tn_float : float64 }.

Section runs.
Context {S : Type}.

Definition take_turn (spec : RunSpec) (T : Transport S) (t : turn) (gens : list uniqueGen) (w : S)
    : option (S * list uniqueGen * iteration) :=
  g ← gens !! tn_worker t;
  '(w1, g1, r) ← doOne spec (tn_rnd t) (tn_float t) g w;
  Some (w1, <[tn_worker t := g1]> gens,
        mkIteration (tn_worker t) (tn_measuring t) (tn_done t) (tn_elapsed t) r).

(** The turns of all workers in the order their requests are served, each on the
    network as it then is. *)
Fixpoint run_turns (spec : RunSpec) (ts : list (Transport S * turn)) (gens : list uniqueGen) (w : S)
    : option (S * list iteration) :=
  match ts with
  | [] => Some (w, [])
  | (T, t) :: ts' =>
      '(w1, gens1, it) ← take_turn spec T t gens w;
      '(w2, its) ← run_turns spec ts' gens1 w1;
      Some (w2, it :: its)
  end.

Definition worker_gens (spec : RunSpec) : option (list uniqueGen) :=
  mapM (λ i : nat, newUniqueGen (Z.of_nat i) (sp_Corpus spec)) (seq 0 (sp_Concurrency spec)).

(** [Run]; [measured] is how long the measurement lasted. *)
Definition bench_Run (spec : RunSpec) (ts : list (Transport S * turn)) (measured : Z) (w : S)
    : option (S * result RunResult) :=
  if bool_decide (sp_Targets spec = []) then Some (w, Err (Errorf "bench: no targets"))
  else
    gens ← worker_gens spec;
    '(w1, its) ← run_turns spec ts gens w;
    Some (w1, Ok (build_result spec measured (fold_left (λ t it, record_iteration it t) its no_tallies))).
End runs.

(** ** Summaries: scenarios.go *)

Definition maxInt (xs : list Z) : Z := fold_left (λ m x, if m <? x then x else m) xs 0.
Definition minInt (a b : Z) : Z := if a <? b then a else b.

Record Spread := mkSpread {
  sd_OpsMin : float64; sd_OpsMax : float64; sd_MiBMin : float64; sd_MiBMax : float64; sd_P99Min : float64;
  sd_P99Max : float64; sd_RelativeRange : float64 }.

Definition fmin (a b : float64) : float64 := if flt b a then b else a.
Definition fmax (a b : float64) : float64 := if flt a b then b else a.

(** [summarise]; [None] is the panic on no runs. *)
Definition summarise (runs : list RunResult) : option (RunResult * Spread) :=
  let sorted := sort_Slice (λ a b, flt (rr_OpsPerSec a) (rr_OpsPerSec b)) runs in
  median ← sorted !! (length sorted / 2)%nat;
  lo ← sorted !! 0%nat;
  hi ← last sorted;
  let p r := su_P99Ms (rr_Latency r) in
  Some (median,
    mkSpread (rr_OpsPerSec lo) (rr_OpsPerSec hi)
      (fold_left (λ m r, fmin m (rr_MiBPerSec r)) sorted (rr_MiBPerSec lo))
      (fold_left (λ m r, fmax m (rr_MiBPerSec r)) sorted (rr_MiBPerSec hi))
      (fold_left (λ m r, fmin m (p r)) sorted (p lo))
      (fold_left (λ m r, fmax m (p r)) sorted (p hi))
      (if flt (of_int 0) (rr_OpsPerSec median)
       then fdiv (fsub (rr_OpsPerSec hi) (rr_OpsPerSec lo)) (rr_OpsPerSec median) else of_int 0)).

Definition pageCacheNote (corpusBytes ramBytes : Z) : string :=
  if ramBytes <=? 0
  then "host memory unknown; whether the corpus fits in the page cache could not be determined"
  else
    let ratio := fdiv (of_int corpusBytes) (of_int ramBytes) in
    let percent := fmul ratio (of_int 100) in
    if flt ratio (constant 1 2) then
      "WARM: the " +:+ humanBytes corpusBytes +:+ " corpus is " +:+ Fixed 1 percent +:+ "% of the host's " +:+
      humanBytes ramBytes +:+ " of RAM, so it can be served entirely " +:+
      "from the page cache. These are warm-cache numbers and do not measure the disk. " +:+
      "The cold-path floor is the fio device baseline in device-baseline.json."
    else if flt ratio (constant 3 2) then
      "MIXED: the " +:+ humanBytes corpusBytes +:+ " corpus is " +:+ Fixed 0 percent +:+ "% of the host's " +:+
      humanBytes ramBytes +:+ " of RAM, so reads are partly served " +:+
      "from the page cache and partly from the device."
    else
      "COLD-ISH: the " +:+ humanBytes corpusBytes +:+ " corpus is " +:+ Fixed 1 ratio +:+ "x the host's " +:+
      humanBytes ramBytes +:+ " of RAM, so most reads reach the device.".

(** ** The gauges: observe.go *)

Record NodeSample := mkNodeSample {
  ns_Node : string; ns_RSS : float64; ns_Heap : float64; ns_Goroutines : float64; ns_FDs : float64 }.

(** What precedes and follows the last space, if there is one. *)
Fixpoint cut_last_space (s : string) : option (string * string) :=
  match s with
  | EmptyString => None
  | String c s' =>
      match cut_last_space s' with
      | Some (a, b) => Some (String c a, b)
      | None => if Ascii.eqb c " "%char then Some (EmptyString, s') else None
      end
  end.

Definition splitMetric (line : string) : option (string * float64) :=
  '(name, value) ← cut_last_space line;
  let name := (Cut name "{"%char).1.1 in
  match ParseFloat (TrimSpace value) with Ok v => Some (name, v) | Err _ => None end.

Definition note_metric (name : string) (v : float64) (s : NodeSample) : NodeSample :=
  if String.eqb name "process_resident_memory_bytes"
  then mkNodeSample (ns_Node s) v (ns_Heap s) (ns_Goroutines s) (ns_FDs s)
  else if String.eqb name "go_memstats_heap_alloc_bytes"
  then mkNodeSample (ns_Node s) (ns_RSS s) v (ns_Goroutines s) (ns_FDs s)
  else if String.eqb name "go_goroutines"
  then mkNodeSample (ns_Node s) (ns_RSS s) (ns_Heap s) v (ns_FDs s)
  else if String.eqb name "process_open_fds"
  then mkNodeSample (ns_Node s) (ns_RSS s) (ns_Heap s) (ns_Goroutines s) v
  else s.

Definition scrape_line (s : NodeSample) (line : string) : NodeSample :=
  if HasPrefix line "#" || String.eqb line EmptyString then s
  else match splitMetric line with Some (name, v) => note_metric name v s | None => s end.

Definition no_sample (t : string) : NodeSample :=
  mkNodeSample t (of_int 0) (of_int 0) (of_int 0) (of_int 0).

Section observe.
Context {S : Type} {T : Transport S}.

Definition sample_node (t : string) (w : S) : S * NodeSample :=
  match url_err (t +:+ "/metrics") with
  | Some _ => (w, no_sample t)
  | None =>
      let '(w1, r) := Do (mkRequest MethodGet (t +:+ "/metrics") ∅ None 0) w in
      (w1, match r with
           | Err _ => no_sample t
           | Ok resp =>
               fold_left scrape_line
                 (Split (read_limited (Z.to_nat (4 * 2 ^ 20)) (rs_Body resp)) (ascii_of_nat 10)) (no_sample t)
           end)
  end.

Fixpoint sampleNodes (ts : list string) (w : S) : S * list NodeSample :=
  match ts with
  | [] => (w, [])
  | t :: ts' =>
      let '(w1, s) := sample_node t w in
      let '(w2, ss) := sampleNodes ts' w1 in
      (w2, s :: ss)
  end.
End observe.

(** One round of [watchMemory] over the peaks kept so far. *)
Fixpoint raise_peaks (peak now : list NodeSample) : list NodeSample :=
  match peak, now with
  | p :: peak', n :: now' => (if flt (ns_RSS p) (ns_RSS n) then n else p) :: raise_peaks peak' now'
  | _, _ => peak
  end.

(** [watchMemory], given what each tick sampled. *)
Definition watchMemory (targets : list string) (ticks : list (list NodeSample)) : list NodeSample :=
  fold_left raise_peaks ticks (no_sample <$> targets).

(** ** Options: main.go *)

Record boptions := mkBOptions {
  bp_targets : list string; bp_out : string; bp_runs : nat; bp_duration : Z; bp_warmup : Z;
  bp_concurrency : list Z; bp_scenarios : list string; bp_smoke : bool; bp_verify : bool; bp_seed : Z;
  bp_netem : string; bp_colocated : bool; bp_profileDir : string; bp_label : string; bp_ramBytes : Z; bp_peakMemory : list NodeSample }.

Definition nonempty (s : string) : bool := negb (String.eqb s EmptyString).

Definition parse_targets (raw : string) : list string :=
  filter (λ t, nonempty t = true) ((λ t, TrimRight (TrimSpace t) "/"%char) <$> Split raw ","%char).

Fixpoint parse_levels (parts : list string) (acc : list Z) : result (list Z) :=
  match parts with
  | [] => Ok acc
  | c :: parts' =>
      let c := TrimSpace c in
      if negb (nonempty c) then parse_levels parts' acc
      else
        match Atoi c with
        | Err _ => Err (Errorf ("bad concurrency " +:+ c))
        | Ok n => if n <? 1 then Err (Errorf ("bad concurrency " +:+ c)) else parse_levels parts' (acc ++ [n])
        end
  end.

(** [run], from the values of its flags to the options it executes. *)
Definition run_options (out targetsRaw concurrency scenarios : string) (runs : nat) (duration warmup : Z)
    (smoke verify : bool) (seed : Z) (netem : string) (colocated : bool) (profileDir label : string)
    : result boptions :=
  if negb (nonempty out)
  then Err (Errorf "-out is required: a benchmark whose raw output is not written is not a measurement")
  else
    let targets := parse_targets targetsRaw in
    if bool_decide (targets = []) then Err (Errorf "no targets")
    else
      match parse_levels (Split concurrency ","%char) [] with
      | Err e => Err e
      | Ok levels =>
          let names := if nonempty scenarios
                       then filter (λ s, nonempty s = true) (TrimSpace <$> Split scenarios ","%char) else [] in
          Ok (if smoke
              then mkBOptions targets out 1 (3 * 1000000000) 1000000000 [8] names smoke verify seed
                     netem colocated profileDir label 0 []
              else mkBOptions targets out runs duration warmup levels names smoke verify seed
                     netem colocated profileDir label 0 [])
      end.

(** ** Scenarios: scenarios.go *)

Record Scenario := mkScenario {
  sc_Name : string; sc_Description : string; sc_Op : Op; sc_ObjectSize : Z; sc_ObjectCount : Z; sc_HitRatio : float64;
  sc_Preload : bool; sc_Verify : bool }.

Definition scenarios : list Scenario :=
  [ mkScenario "get-64k" "64 KiB cache hits: the common case, a Bazel action fetching a small output."
      OpGet (Z.shiftl 64 10) 4000 (of_int 0) true false;
    mkScenario "get-8m" "8 MiB cache hits: large object throughput, a static library or a debug binary."
      OpGet (Z.shiftl 8 20) 120 (of_int 0) true false;
    mkScenario "put-replicated"
      "1 MiB writes with replica count 2: every PUT places a second copy before it returns."
      OpPut (Z.shiftl 1 20) 2000 (of_int 0) false false;
    mkScenario "mixed-80-20" "64 KiB reads, 80% hits and 20% misses: the shape of a partially warm cache."
      OpMixed (Z.shiftl 64 10) 4000 (constant 4 5) true false;
    mkScenario "get-64k-verified"
      "64 KiB hits with every response body re-hashed by the client. The cost of proving correctness."
      OpGet (Z.shiftl 64 10) 4000 (of_int 0) true true ].

(** The scenarios [execute] runs. *)
Definition select_scenarios (names : list string) : result (list Scenario) :=
  if bool_decide (names = []) then Ok scenarios
  else
    let filtered := filter (λ s, sc_Name s ∈ names) scenarios in
    if bool_decide (filtered = []) then Err (Errorf ("no scenario matched [" +:+ SJoin names " " +:+ "]")) else Ok filtered.

Section preload.
Context {S : Type} (T : nat → Transport S) (targets : list string) (c : Corpus).

(** The upload of object [i], the [k]-th request; [None] is an index out of
    range. *)
Definition put_one (k i : nat) (w : S) : option (S * option error) :=
  obj ← co_Objects c !! i;
  base ← targets !! (i mod length targets)%nat;
  let '(w1, (_, _, err)) := @doPut S (T k) base obj w in
  Some (w1, err).

(** The uploads, in the order they are served, and the errors sent to [errCh]. *)
Fixpoint put_all (k : nat) (order : list nat) (w : S) : option (S * list error) :=
  match order with
  | [] => Some (w, [])
  | i :: order' =>
      '(w1, err) ← put_one k i w;
      '(w2, errs) ← put_all (k + 1)%nat order' w1;
      Some (w2, match err with Some e => e :: errs | None => errs end)
  end.

(** One spot check. *)
Definition check_one (k i : nat) (w : S) : option (S * option error) :=
  obj ← co_Objects c !! i;
  base ← targets !! 0%nat;
  let size := Z.of_nat (length (bo_Content obj)) in
  let '(w1, (n, miss, err)) := @doGet S (T k) base (bo_Key obj) true size w in
  Some (w1, match err with
            | Some e => Some (Wrap "preload verification: " e)
            | None =>
                if miss || negb (n =? size)
                then Some (Errorf ("preload verification: object " +:+ short8 (bo_Key obj) +:+
                                   " is not readable after preload"))
                else None
            end).

Fixpoint check_all (k : nat) (todo : list nat) (w : S) : option (S * option error) :=
  match todo with
  | [] => Some (w, None)
  | i :: todo' =>
      '(w1, err) ← check_one k i w;
      match err with Some e => Some (w1, Some e) | None => check_all (k + 1)%nat todo' w1 end
  end.

Definition spots : list nat := let n := length (co_Objects c) in [0%nat; (n / 2)%nat; (n - 1)%nat].

(** [preload]: [order] are the objects uploaded, all of them unless the run was
    interrupted; [None] is the panic on an empty corpus. *)
Definition preload (order : list nat) (w : S) : option (S * option error) :=
  '(w1, errs) ← put_all 0 order w;
  match errs with
  | e :: _ => Some (w1, Some (Wrap "preload: " e))
  | [] => check_all (length order) spots w1
  end.
End preload.

(** [waitReady]: the loop over each target is that of the chaos runner without a
    look at the context. *)
Fixpoint waitReady {S : Type} {T : Transport S} (fuel k : nat) (before : nat → bool) (targets : list string) (w : S)
    : option (S * option error) :=
  match targets with
  | [] => Some (w, None)
  | t :: targets' =>
      '(w1, k1, r) ← wait_node fuel k before (λ _, None) t w;
      match r with
      | Err e => Some (w1, Some e)
      | Ok false => Some (w1, Some (Errorf ("node " +:+ t +:+ " is not ready")))
      | Ok true => waitReady fuel k1 before targets' w1
      end
  end.

Record Point := mkPoint {
  pt_Concurrency : Z; pt_Runs : list RunResult; pt_Median : RunResult; pt_Spread : Spread }.

Record MemoryObservation := mkMemoryObservation {
  mo_Scenario : string; mo_ObjectSize : Z; mo_Concurrency : Z; mo_Before : list NodeSample;
  mo_Peak : list NodeSample; mo_After : list NodeSample; mo_PeakRSSMiB : float64 }.

Record ScenarioResult := mkScenarioResult {
  sr_Name : string; sr_Description : string; sr_Corpus : option (gmap string any); sr_Points : list Point;
  sr_Memory : option MemoryObservation; sr_PageCacheNote : string }.

Definition Describe (c : Corpus) : gmap string any :=
  <["name" := AString (co_Name c)]> (<["objects" := AInt (Z.of_nat (length (co_Objects c)))]>
    (<["object_size_bytes" := AInt (co_Size c)]> (<["total_bytes" := AInt (Bytes c)]>
    (<["seed" := AInt (co_Seed c)]> {["content" :=
      AString "pseudo-random from the seed; not zeros, so compression or dedup cannot flatter the result"]})))).

Section scenario.
Context {S : Type}.

(** What happens during a scenario: the order of the preload and its network,
    the turns and duration of the run [j] at the level [i], whether the run has
    been interrupted by then, what the memory watcher sampled at a level, and the
    networks of the samples before and after. *)
Record ScenarioEnv := mkScenarioEnv {
  se_corpus : nat → nat → Byte.byte; se_miss : nat → nat → Byte.byte;
  se_order : list nat; se_preload : nat → Transport S;
  se_turns : nat → nat → list (Transport S * turn) * Z; se_ctx : nat → nat → bool;
  se_ticks : nat → list (list NodeSample); se_before : Transport S; se_after : Transport S }.

(** The repetitions at one level from the [j]-th; an error is a failed run. *)
Fixpoint repeat_runs (left j : nat) (ctx : nat → bool) (env : nat → list (Transport S * turn) * Z)
    (spec : RunSpec) (w : S) : option (S * result (list RunResult)) :=
  match left with
  | O => Some (w, Ok [])
  | Datatypes.S left' =>
      if ctx j then Some (w, Ok [])
      else
        '(w1, r) ← bench_Run spec (env j).1 (env j).2 w;
        match r with
        | Err e => Some (w1, Err e)
        | Ok res =>
            '(w2, rest) ← repeat_runs left' (j + 1) ctx env spec w1;
            Some (w2, match rest with Err e => Err e | Ok rs => Ok (res :: rs) end)
        end
  end.

(** The loop over the concurrency levels, with the peaks kept in the options. *)
Fixpoint run_levels (opts : boptions) (env : ScenarioEnv) (spec : Z → RunSpec) (levels : list Z) (i : nat)
    (peak : list NodeSample) (w : S) : option (S * list NodeSample * result (list Point)) :=
  match levels with
  | [] => Some (w, peak, Ok [])
  | conc :: levels' =>
      '(w1, r) ← repeat_runs (bp_runs opts) 0 (se_ctx env i) (se_turns env i) (spec conc) w;
      match r with
      | Err e => Some (w1, peak, Err e)
      | Ok runs =>
          let peak := if conc =? maxInt (bp_concurrency opts)
                      then watchMemory (bp_targets opts) (se_ticks env i) else peak in
          '(w2, peak2, rest) ← run_levels opts env spec levels' (i + 1) peak w1;
          match rest with
          | Err e => Some (w2, peak2, Err e)
          | Ok points =>
              if bool_decide (runs = []) then Some (w2, peak2, Ok points)
              else '(median, sp) ← summarise runs; Some (w2, peak2, Ok (mkPoint conc runs median sp :: points))
          end
      end
  end.

(** [runScenario], with the peaks it leaves in the options. *)
Definition runScenario (opts : boptions) (sc : Scenario) (env : ScenarioEnv) (w : S)
    : option (S * list NodeSample * result ScenarioResult) :=
  let count := if bp_smoke opts then minInt (sc_ObjectCount sc) 64 else sc_ObjectCount sc in
  let corpus := NewCorpus (se_corpus env) (sc_Name sc) count (sc_ObjectSize sc) (bp_seed opts) in
  '(w0, perr) ← (if sc_Preload sc then preload (se_preload env) (bp_targets opts) corpus (se_order env) w
                 else Some (w, None));
  match perr with
  | Some e => Some (w0, bp_peakMemory opts, Err e)
  | None =>
      let note := pageCacheNote (Bytes corpus) (bp_ramBytes opts) in
      let '(w1, before) := @sampleNodes S (se_before env) (bp_targets opts) w0 in
      let spec conc := mkRunSpec (sc_Name sc) (sc_Op sc) (Z.to_nat conc) corpus (MissKeys (se_miss env) 1024)
                         (sc_HitRatio sc) (bp_targets opts) (sc_Verify sc || bp_verify opts) in
      '(w2, peak, r) ← run_levels opts env spec (bp_concurrency opts) 0 (bp_peakMemory opts) w1;
      match r with
      | Err e => Some (w2, peak, Err e)
      | Ok points =>
          let '(w3, after) := @sampleNodes S (se_after env) (bp_targets opts) w2 in
          let rss := fold_left (λ m s, let mib := fdiv (ns_RSS s) (of_int (2 ^ 20)) in
                                       if flt m mib then mib else m) peak (of_int 0) in
          Some (w3, peak, Ok (mkScenarioResult (sc_Name sc) (sc_Description sc) (Some (Describe corpus)) points
            (Some (mkMemoryObservation (sc_Name sc) (sc_ObjectSize sc) (maxInt (bp_concurrency opts)) before peak after rss))
            note))
      end
  end.

Definition with_peak (peak : list NodeSample) (o : boptions) : boptions :=
  mkBOptions (bp_targets o) (bp_out o) (bp_runs o) (bp_duration o) (bp_warmup o) (bp_concurrency o)
    (bp_scenarios o) (bp_smoke o) (bp_verify o) (bp_seed o)
    (bp_netem o) (bp_colocated o) (bp_profileDir o) (bp_label o) (bp_ramBytes o) peak.

(** The scenarios of [execute] from the [i]-th on; [ctx] is whether the session
    has been interrupted after one. *)
Fixpoint run_scenarios (opts : boptions) (env : nat → ScenarioEnv) (ctx : nat → bool) (scs : list Scenario) (i : nat)
    (w : S) : option (S * result (list ScenarioResult)) :=
  match scs with
  | [] => Some (w, Ok [])
  | sc :: scs' =>
      '(w1, peak, r) ← runScenario opts sc (env i) w;
      match r with
      | Err e => Some (w1, Err (Wrap ("scenario " +:+ sc_Name sc +:+ ": ") e))
      | Ok res =>
          if ctx i then Some (w1, Ok [res])
          else
            '(w2, rest) ← run_scenarios (with_peak peak opts) env ctx scs' (i + 1) w1;
            Some (w2, match rest with Err e => Err e | Ok rs => Ok (res :: rs) end)
      end
  end.
End scenario.

(** ** Lemmas *)

Lemma clamp_rank_range r n : 1 ≤ n → 1 ≤ clamp_rank r n ≤ n.
Proof. intros Hn. unfold clamp_rank. destruct (Z.ltb_spec r 1); case_match; boolify; lia. Qed.

Definition count_if (P : Z → bool) (l : list Z) : Z := Z.of_nat (length (filter (λ x, P x = true) l)).

Lemma count_if_perm P l l' : l ≡ₚ l' → count_if P l = count_if P l'.
Proof. intros Hp. unfold count_if. by rewrite (filter_Permutation _ _ _ Hp). Qed.

Lemma count_if_app P l l' : count_if P (l ++ l') = count_if P l + count_if P l'.
Proof. unfold count_if. rewrite filter_app, length_app. lia. Qed.

Lemma count_if_cons P x l : count_if P (x :: l) = (if P x then 1 else 0) + count_if P l.
Proof. unfold count_if. rewrite filter_cons. case_decide as H; [rewrite H|apply not_true_is_false in H; rewrite H]; simpl; lia. Qed.

Lemma count_if_range P l : 0 ≤ count_if P l ≤ Z.of_nat (length l).
Proof. induction l as [|x l IH]; [done|]. rewrite count_if_cons. simpl length. destruct (P x); lia. Qed.

Lemma count_if_all P l : (∀ x, x ∈ l → P x = true) → count_if P l = Z.of_nat (length l).
Proof.
  induction l as [|x l IH]; intros H; [done|]. rewrite count_if_cons, IH by (intros; apply H; by right).
  rewrite (H x) by left. simpl length. lia.
Qed.

Lemma count_if_none P l : (∀ x, x ∈ l → P x = false) → count_if P l = 0.
Proof.
  induction l as [|x l IH]; intros H; [done|]. rewrite count_if_cons, IH by (intros; apply H; by right).
  by rewrite (H x) by left.
Qed.

(** In a sorted list, the element at index [i] has at least [i + 1] elements up
    to it and at most [i] elements below it. *)
Lemma sorted_rank l i v :
  StronglySorted (not_after Z.ltb) l → l !! i = Some v →
  Z.of_nat i < count_if (λ x, x <=? v) l ∧ count_if (λ x, x <? v) l ≤ Z.of_nat i.
Proof.
  intros Hs Hi. pose proof (lookup_lt_Some _ _ _ Hi) as Hlt.
  pose proof (take_drop_middle l i v Hi) as Hl. rewrite <-Hl in Hs |- *.
  apply StronglySorted_app in Hs as (Hcross & _ & Hs2). apply StronglySorted_inv in Hs2 as [_ Hafter].
  rewrite Forall_forall in Hafter. unfold not_after in *.
  rewrite !count_if_app, !count_if_cons, Z.leb_refl, Z.ltb_irrefl.
  assert (Hlen : length (take i l) = i) by (rewrite length_take; lia). split.
  - rewrite (count_if_all _ (take i l)), Hlen.
    + pose proof (count_if_range (λ x, x <=? v) (drop (S i) l)). lia.
    + intros x Hx. apply Z.leb_le. specialize (Hcross x v Hx (list_elem_of_here _ _)). boolify. lia.
  - rewrite (count_if_none _ (drop (S i) l)).
    + pose proof (count_if_range (λ x, x <? v) (take i l)). lia.
    + intros x Hx. by apply Hafter.
Qed.

#[export] Instance ltb_not_after_total : Total (not_after Z.ltb).
Proof. intros x y. unfold not_after. destruct (Z.ltb_spec y x), (Z.ltb_spec x y); lia || auto. Qed.

#[export] Instance ltb_not_after_trans : Transitive (not_after Z.ltb).
Proof. intros x y z. unfold not_after. rewrite !Z.ltb_ge. lia. Qed.

(** The exact nearest rank of the fraction [a / b]. *)
Definition exact_rank (a b n : Z) : Z := - (- (a * n) / b).

Definition ranks_agree (n : Z) : bool :=
  (raw_rank p50 n =? exact_rank 1 2 n) && (raw_rank p90 n =? exact_rank 9 10 n) &&
  (raw_rank p95 n =? exact_rank 19 20 n) && (raw_rank p99 n =? exact_rank 99 100 n) &&
  (raw_rank p999 n =? exact_rank 999 1000 n).

Lemma ranks_exact : forallb ranks_agree (Z.of_nat <$> seq 1 512) = true.
Proof. vm_compute. reflexivity. Qed.

(** *** Accounting *)

Definition lat_total (conc : nat) (t : tallies) : Z := Z.of_nat (length (merged conc t)).

Lemma merged_length conc t : lat_total conc t = Zsum ((λ i, Z.of_nat (length (ta_lat t i))) <$> seq 0 conc).
Proof.
  unfold lat_total, merged. assert (∀ l all, Z.of_nat (length (fold_left (λ all i, lat_Merge (ta_lat t i) all) l all)) =
    Z.of_nat (length all) + Zsum ((λ i, Z.of_nat (length (ta_lat t i))) <$> l)) as H.
  { induction l as [|i l IH]; intros all; csimpl; [simpl; lia|]. rewrite IH. unfold lat_Merge. rewrite length_app. simpl. lia. }
  rewrite H. simpl. lia.
Qed.

Lemma lat_total_add conc w d t t' :
  ta_lat t' = add_lat w d t → (w < conc)%nat → lat_total conc t' = lat_total conc t + 1.
Proof.
  intros Ht Hw. rewrite !merged_length, Ht. unfold add_lat.
  assert (∀ l, NoDup l → Zsum ((λ i, Z.of_nat (length (if (i =? w)%nat then lat_Add d (ta_lat t i) else ta_lat t i))) <$> l) =
    Zsum ((λ i, Z.of_nat (length (ta_lat t i))) <$> l) + if bool_decide (w ∈ l) then 1 else 0) as H.
  { induction l as [|i l IH]; intros Hnd; [done|]. apply NoDup_cons in Hnd as [Hi Hnd]. csimpl.
    rewrite IH by done. destruct (Nat.eqb_spec i w) as [->|Hne].
    - rewrite bool_decide_eq_false_2, bool_decide_eq_true_2 by (done || left). unfold lat_Add. rewrite length_app. simpl. lia.
    - rewrite (bool_decide_ext (w ∈ i :: l) (w ∈ l)); [lia|]. rewrite elem_of_cons. naive_solver. }
  rewrite H by apply NoDup_seq. rewrite bool_decide_eq_true_2; [done|]. apply elem_of_seq. lia.
Qed.

Lemma noteErr_spec e m :
  (size m ≤ 32)%nat →
  (size (noteErr e m) ≤ 32)%nat ∧
  (map_fold (λ _ n s, n + s) 0 (noteErr e m) = map_fold (λ _ n s, n + s) 0 m + 1 ∨
   (noteErr e m = m ∧ size m = 32%nat)).
Proof.
  intros Hm. unfold noteErr. set (k := Error e).
  assert (Hc : ∀ (j1 j2 : string) (z1 z2 y : Z), z1 + (z2 + y) = z2 + (z1 + y)) by lia.
  destruct (m !! k) as [n|] eqn:Hk.
  - rewrite bool_decide_eq_true_2 by (by eexists). simpl. split.
    + by rewrite map_size_insert_Some.
    + left. rewrite <-(insert_delete_id m k n Hk) at 2. rewrite <-insert_delete_eq.
      rewrite !map_fold_insert_L by (done || apply lookup_delete_eq || auto). lia.
  - rewrite bool_decide_eq_false_2 by (by intros []). simpl. destruct (Nat.ltb_spec (size m) 32).
    + split; [rewrite map_size_insert_None by done; lia|]. left. rewrite map_fold_insert_L by (done || auto). simpl. lia.
    + split; [done|]. right. split; [done|lia].
Qed.

(** An iteration that counts: measured, and not cut off by the end of the run. *)
Definition counted (it : iteration) : bool :=
  it_measuring it &&
  match (it_result it).2 with Some e => negb (errors_Is e IsCanceled && it_done it) | None => true end.

Definition failed (it : iteration) : bool := bool_decide ((it_result it).2 ≠ None).
Definition missed_it (it : iteration) : bool := negb (failed it) && (it_result it).1.2.

Definition tally_of (P : iteration → bool) (its : list iteration) : Z :=
  Z.of_nat (length (filter (λ it, counted it && P it = true) its)).

Lemma tally_of_app P its its' : tally_of P (its ++ its') = tally_of P its + tally_of P its'.
Proof. unfold tally_of. rewrite filter_app, length_app. lia. Qed.

Lemma tally_of_one P it : tally_of P [it] = if counted it && P it then 1 else 0.
Proof. unfold tally_of. rewrite filter_cons, filter_nil. case_decide as H; [by rewrite H|]. apply not_true_is_false in H. by rewrite H. Qed.

Definition error_notes (t : tallies) : Z := map_fold (λ _ n s, n + s) 0 (ta_samples t).

(** The counters after the iterations [its]. *)
Record tallied (conc : nat) (its : list iteration) (t : tallies) : Prop := {
  td_ops : ta_ops t = tally_of (λ _, true) its;
  td_errs : ta_errs t = tally_of failed its;
  td_misses : ta_misses t = tally_of missed_it its;
  td_verify : ta_verifyNG t = 0;
  td_lat : lat_total conc t = ta_ops t - ta_errs t;
  td_size : (size (ta_samples t) ≤ 32)%nat;
  td_notes : error_notes t ≤ ta_errs t ∧ ((size (ta_samples t) < 32)%nat → error_notes t = ta_errs t) }.

Lemma noteErr_grows e m : (size m ≤ size (noteErr e m))%nat.
Proof.
  unfold noteErr. destruct (_ || _); [|done]. rewrite map_size_insert. destruct (m !! Error e); simpl; lia.
Qed.

Lemma record_tallied conc its it t :
  (it_worker it < conc)%nat → tallied conc its t → tallied conc (its ++ [it]) (record_iteration it t).
Proof.
  intros Hw [Ho He Hm Hv Hl Hs [Hn1 Hn2]].
  assert (HT : ∀ P, tally_of P (its ++ [it]) = tally_of P its + if counted it && P it then 1 else 0)
    by (intros; by rewrite tally_of_app, tally_of_one).
  destruct it as [wk ms dn el [[n miss] err]]. cbn [it_worker] in Hw.
  split; rewrite ?HT, <-?Ho, <-?He, <-?Hm; clear HT Ho He Hm; unfold record_iteration, counted, failed, missed_it, error_notes in *;
    cbn [it_result it_measuring it_done it_worker it_elapsed fst snd];
    destruct ms; cbn [negb andb]; try lia; try done;
    (destruct err as [e|]; [destruct (errors_Is e IsCanceled && dn)|destruct miss]); simpl; try lia; try done.
  all: try (change (lat_total conc _) with (lat_total conc t); lia).
  all: try (erewrite lat_total_add by done; lia).
  - by apply noteErr_spec.
  - destruct (noteErr_spec e (ta_samples t) Hs) as [_ [->|[-> Hfull]]].
    + split; [lia|]. intros Hsz. pose proof (noteErr_grows e (ta_samples t)). rewrite Hn2 by lia. lia.
    + split; [lia|]. lia.
Qed.

Lemma run_tallied conc its :
  Forall (λ it, (it_worker it < conc)%nat) its →
  tallied conc its (fold_left (λ t it, record_iteration it t) its no_tallies).
Proof.
  induction its as [|it its IH] using rev_ind; intros Hw.
  - split; try done; [|simpl; rewrite map_size_empty; lia].
    unfold lat_total, merged. simpl.
    assert (∀ l, fold_left (λ all (i : nat), lat_Merge [] all) l [] = ([] : Latencies)) as ->; [|done].
    induction l as [|i l IH]; [done|]. simpl. exact IH.
  - apply Forall_app in Hw as [Hw [Hit _]%Forall_cons]. rewrite fold_left_app. simpl. by apply record_tallied, IH.
Qed.

Lemma Summarize_count l : su_Count (Summarize l).2 = Z.of_nat (length l).
Proof.
  unfold Summarize. case_bool_decide as H; [by rewrite H|]. simpl. f_equal.
  apply Permutation_length, sort_Slice_perm.
Qed.

(** *** Fresh objects *)

Lemma Zbyte_inj a b : Sha.Zbyte a = Sha.Zbyte b → a mod 256 = b mod 256.
Proof.
  assert (∀ z, Z.of_N (Byte.to_N (Sha.Zbyte z)) = z mod 256) as H.
  { intros z. unfold Sha.Zbyte. pose proof (Z.mod_pos_bound z 256 ltac:(lia)).
    destruct (Byte.of_N (Z.to_N (z mod 256))) as [x|] eqn:E.
    - apply Byte.to_of_N in E. rewrite E. lia.
    - apply Byte.of_N_None_iff in E. lia. }
  intros Hab. by rewrite <-!H, Hab.
Qed.

Lemma be_bytes_inj n a b :
  0 ≤ a < 2 ^ (8 * Z.of_nat n) → 0 ≤ b < 2 ^ (8 * Z.of_nat n) → Sha.be_bytes n a = Sha.be_bytes n b → a = b.
Proof.
  revert a b. induction n as [|n IH]; intros a b Ha Hb; [simpl in *; lia|]. simpl. intros Heq.
  apply app_inj_2 in Heq as [Hhi [= Hlo]]; [|done]. apply Zbyte_inj in Hlo.
  assert (Z.shiftr a 8 = Z.shiftr b 8) as Hs.
  { apply IH; [..|done]; rewrite Z.shiftr_div_pow2 by lia; (split; [apply Z.div_pos; lia|]);
      apply Z.div_lt_upper_bound; try lia; rewrite <-Z.pow_add_r by lia;
      replace (8 + 8 * Z.of_nat n) with (8 * Z.of_nat (S n)) by lia; lia. }
  rewrite !Z.shiftr_div_pow2 in Hs by lia. change (2 ^ 8) with 256 in Hs.
  rewrite (Z.div_mod a 256), (Z.div_mod b 256) by lia. congruence.
Qed.

Lemma be64_inj a b : 0 ≤ a < 2 ^ 64 → 0 ≤ b < 2 ^ 64 → be64 a = be64 b → a = b.
Proof.
  intros Ha Hb. unfold be64. rewrite !u64_id by done. by apply (be_bytes_inj 8).
Qed.

(** The [k]-th object after the first. *)
Fixpoint nth_next (k : nat) (g : uniqueGen) : option (uniqueGen * BObject) :=
  match k with
  | O => next g
  | S k' => '(g', _) ← next g; nth_next k' g'
  end.

Lemma nth_next_spec k g :
  (16 ≤ length (ug_buf g))%nat → 0 ≤ ug_counter g → ug_counter g + Z.of_nat k + 1 < 2 ^ 64 →
  ∃ g' o, nth_next k g = Some (g', o) ∧
    bo_Content o = be64 (ug_worker g) ++ be64 (ug_counter g + Z.of_nat k + 1) ++ drop 16 (ug_buf g) ∧
    bo_Key o = Sha.EncodeToString (Sha.Sum256 (bo_Content o)) ∧ length (bo_Content o) = length (ug_buf g).
Proof.
  revert g. induction k as [|k IH]; intros g Hl Hc Hb; cbn [nth_next].
  - unfold next. destruct (Nat.ltb_spec (length (ug_buf g)) 16); [lia|]. eexists _, _. split; [done|]. cbn [bo_Content bo_Key].
    rewrite u64_id by (unfold in_u64; lia). change (Z.of_nat 0) with 0. replace (ug_counter g + 0 + 1) with (ug_counter g + 1) by lia. split; [done|]. split; [done|].
    unfold be64. rewrite !length_app, !Sha.be_bytes_length, length_drop. lia.
  - unfold next. destruct (Nat.ltb_spec (length (ug_buf g)) 16); [lia|]. cbn [mbind option_bind]. rewrite u64_id by (unfold in_u64; lia).
    set (g' := mkUniqueGen _ _ _).
    assert (Hbuf : drop 16 (ug_buf g') = drop 16 (ug_buf g)).
    { unfold g', be64. cbn [ug_buf]. rewrite (assoc_L (++)). apply drop_app_length'.
      by rewrite length_app, !Sha.be_bytes_length. }
    assert (Hlen : length (ug_buf g') = length (ug_buf g)).
    { unfold g', be64. cbn [ug_buf]. rewrite !length_app, !Sha.be_bytes_length, length_drop. lia. }
    destruct (IH g') as (g2 & o & Hn & Hcont & Hkey & Hlo); [lia|unfold g'; cbn [ug_counter]; lia..|].
    exists g2, o. split; [done|]. rewrite Hcont, Hbuf in *. unfold g' in *. cbn [ug_worker ug_counter] in *.
    replace (ug_counter g + 1 + Z.of_nat k + 1) with (ug_counter g + Z.of_nat (S k) + 1) in * by lia.
    split; [done|]. split; [done|]. congruence.
Qed.

(** *** Runs and scenarios *)

Lemma newUniqueGen_spec w c g :
  newUniqueGen w c = Some g → ug_worker g = w ∧ ug_counter g = 0 ∧ Z.of_nat (length (ug_buf g)) = co_Size c.
Proof.
  unfold newUniqueGen. destruct (Z.ltb_spec (co_Size c) 0); [done|]. intros [= <-].
  split; [done|]. split; [done|]. cbn [ug_buf]. unfold copy_into. rewrite length_take, length_app, length_replicate. lia.
Qed.

Lemma next_length g g' o : next g = Some (g', o) → length (ug_buf g') = length (ug_buf g).
Proof.
  unfold next. destruct (Nat.ltb_spec (length (ug_buf g)) 16); [done|]. intros [<- _]%(inj Some)%pair_eq. cbn [ug_buf].
  unfold be64. rewrite !length_app, !Sha.be_bytes_length, length_drop. lia.
Qed.

Lemma pick_total {A} d (l : list A) : l ≠ [] → ∃ x, pick d l = Some x ∧ x ∈ l.
Proof.
  intros Hl. destruct (pick_Some d l Hl) as (i & x & Hi & Hx). exists x. unfold pick. rewrite Hi. simpl.
  split; [done|]. by eapply list_elem_of_lookup_2.
Qed.

(** A run can draw a target, an object and an absent key, and stamp an object. *)
Record spec_ok (spec : RunSpec) : Prop := {
  so_targets : sp_Targets spec ≠ [];
  so_objects : co_Objects (sp_Corpus spec) ≠ [];
  so_miss : sp_MissKeys spec ≠ [];
  so_size : 16 ≤ co_Size (sp_Corpus spec) }.

Section total.
Context {S : Type} (spec : RunSpec) (Hspec : spec_ok spec).

Definition gens_ok (gens : list uniqueGen) : Prop :=
  length gens = sp_Concurrency spec ∧ Forall (λ g, (16 ≤ length (ug_buf g))%nat) gens.

Lemma worker_gens_ok : ∃ gens, worker_gens spec = Some gens ∧ gens_ok gens.
Proof.
  pose proof (so_size _ Hspec) as Hsz. unfold worker_gens, gens_ok.
  destruct (mapM _ _) as [gens|] eqn:HM.
  - exists gens. apply mapM_Some in HM. split; [done|]. split.
    + by rewrite <-(Forall2_length _ _ _ HM), length_seq.
    + apply Forall_forall. intros g Hg. apply list_elem_of_lookup in Hg as [i Hg].
      destruct (Forall2_lookup_r _ _ _ _ _ HM Hg) as (x & _ & Hx). apply newUniqueGen_spec in Hx as (_ & _ & Hl). lia.
  - apply mapM_None, Exists_exists in HM as (i & _ & Hi). unfold newUniqueGen in Hi.
    destruct (Z.ltb_spec (co_Size (sp_Corpus spec)) 0); [lia|done].
Qed.

Lemma doOne_total {T : Transport S} rnd f g w :
  (16 ≤ length (ug_buf g))%nat →
  ∃ w' g' r, doOne spec rnd f g w = Some (w', g', r) ∧ length (ug_buf g') = length (ug_buf g).
Proof.
  intros Hg. destruct Hspec as [Ht Ho Hm _]. unfold doOne.
  destruct (pick_total (rnd 0%nat) _ Ht) as (base & -> & _), (pick_total (rnd 1%nat) _ Ho) as (obj & -> & _),
    (pick_total (rnd 1%nat) _ Hm) as (key & -> & _). cbn [mbind option_bind].
  destruct (next g) as [[g1 o]|] eqn:HN;
    [|unfold next in HN; destruct (Nat.ltb_spec (length (ug_buf g)) 16); [lia|done]].
  apply next_length in HN. cbn [mbind option_bind].
  destruct (sp_Op spec); [|destruct (doPut base o w) as [w1 r]; by eexists _, _, _|];
    repeat case_match; by eexists _, _, _.
Qed.

Lemma take_turn_total T t gens w :
  gens_ok gens → (tn_worker t < sp_Concurrency spec)%nat →
  ∃ w' gens' it, @take_turn S spec T t gens w = Some (w', gens', it) ∧ gens_ok gens' ∧ it_worker it = tn_worker t.
Proof.
  intros [Hl Hg] Hw. unfold take_turn. destruct (lookup_lt_is_Some_2 gens (tn_worker t)) as [g Hi]; [lia|].
  rewrite Hi. cbn [mbind option_bind].
  pose proof (Forall_lookup_1 _ _ _ _ Hg Hi) as Hlen.
  destruct (@doOne_total T (tn_rnd t) (tn_float t) g w Hlen) as (w1 & g1 & r & -> & Hg1). cbn [mbind option_bind].
  eexists _, _, _. split; [done|]. split; [|done]. split; [by rewrite length_insert|].
  apply Forall_insert; [done|]. cbv beta. by rewrite Hg1.
Qed.

Lemma run_turns_total ts gens w :
  gens_ok gens → Forall (λ t, (tn_worker t.2 < sp_Concurrency spec)%nat) ts →
  ∃ w' its, @run_turns S spec ts gens w = Some (w', its) ∧
    it_worker <$> its = (λ t, tn_worker t.2) <$> ts.
Proof.
  intros Hg Hts. revert gens w Hg. induction Hts as [|[T t] ts Ht _ IH]; intros gens w Hg; [by eexists _, _|].
  cbn [run_turns]. destruct (take_turn_total T t gens w Hg Ht) as (w1 & gens1 & it & -> & Hg1 & Hit).
  cbn [mbind option_bind]. destruct (IH gens1 w1 Hg1) as (w2 & its & -> & Hits). cbn [mbind option_bind].
  eexists _, _. split; [done|]. cbn. by rewrite Hits, Hit.
Qed.

Lemma bench_Run_total ts measured w :
  Forall (λ t, (tn_worker t.2 < sp_Concurrency spec)%nat) ts →
  ∃ gens w' its, worker_gens spec = Some gens ∧ @run_turns S spec ts gens w = Some (w', its) ∧
    Forall (λ it, (it_worker it < sp_Concurrency spec)%nat) its ∧ length its = length ts ∧
    bench_Run spec ts measured w =
      Some (w', Ok (build_result spec measured (fold_left (λ t it, record_iteration it t) its no_tallies))).
Proof.
  intros Hts. destruct worker_gens_ok as (gens & Hgens & Hg).
  destruct (run_turns_total ts gens w Hg Hts) as (w' & its & Hr & Hits). exists gens, w', its.
  split; [done|]. split; [done|]. split; [|split].
  - assert (Forall (λ n, (n < sp_Concurrency spec)%nat) (it_worker <$> its)) as H; [|by rewrite Forall_fmap in H].
    rewrite Hits. by rewrite Forall_fmap.
  - pose proof (f_equal length Hits) as H. by rewrite !length_fmap in H.
  - unfold bench_Run. rewrite bool_decide_eq_false_2 by apply Hspec. rewrite Hgens. cbn [mbind option_bind]. by rewrite Hr.
Qed.
End total.

Lemma summarise_total runs : runs ≠ [] → ∃ m sp, summarise runs = Some (m, sp) ∧ m ∈ runs.
Proof.
  intros Hr. unfold summarise. set (less := λ a b, flt (rr_OpsPerSec a) (rr_OpsPerSec b)).
  pose proof (sort_Slice_perm less runs) as Hp. pose proof (Permutation_length Hp) as Hlen.
  set (sorted := sort_Slice less runs) in *.
  assert (0 < length sorted)%nat by (rewrite Hlen; destruct runs; [done|simpl; lia]).
  destruct (lookup_lt_is_Some_2 sorted (length sorted / 2)) as [m Hm]; [apply Nat.div_lt; lia|].
  destruct (lookup_lt_is_Some_2 sorted 0) as [lo Hlo]; [lia|].
  destruct (last sorted) as [hi|] eqn:Hl; [|apply last_None in Hl; rewrite Hl in *; simpl in *; lia].
  rewrite Hm, Hlo. cbn [mbind option_bind]. eexists _, _. split; [done|].
  rewrite <-Hp. by eapply list_elem_of_lookup_2.
Qed.

(** What a reported point says: runs at its level, with one of them as median. *)
Definition point_ok (n : nat) (pt : Point) : Prop :=
  (1 ≤ length (pt_Runs pt) ≤ n)%nat ∧ pt_Median pt ∈ pt_Runs pt ∧
  (∃ sp, summarise (pt_Runs pt) = Some (pt_Median pt, sp) ∧ pt_Spread pt = sp) ∧
  Forall (λ r, rr_Concurrency r = pt_Concurrency pt) (pt_Runs pt).

Section scenario_total.
Context {S : Type}.

Lemma repeat_runs_total left j ctx env spec (w : S) :
  spec_ok spec → (∀ j, Forall (λ t, (tn_worker t.2 < sp_Concurrency spec)%nat) (env j).1) →
  ∃ w' rs, repeat_runs left j ctx env spec w = Some (w', Ok rs) ∧ (length rs ≤ left)%nat ∧
    Forall (λ r, rr_Concurrency r = Z.of_nat (sp_Concurrency spec)) rs ∧ ((∀ j, ctx j = false) → length rs = left).
Proof.
  intros Hs He. revert j w. induction left as [|left IH]; intros j w; [by eexists _, _|]. cbn [repeat_runs].
  destruct (ctx j) eqn:Hc.
  { eexists _, _. split; [done|]. split; [simpl; lia|]. split; [done|]. intros H. by rewrite H in Hc. }
  destruct (bench_Run_total spec Hs (env j).1 (env j).2 w (He j)) as (gens & w1 & its & _ & _ & _ & _ & ->).
  cbn [mbind option_bind]. destruct (IH (j + 1)%nat w1) as (w2 & rs & -> & Hle & Hf & Hu). cbn [mbind option_bind].
  eexists _, _. split; [done|]. split; [simpl; lia|]. split; [by constructor|]. intros H. simpl. by rewrite Hu.
Qed.

Lemma run_levels_total opts (env : ScenarioEnv) spec levels i peak (w : S) :
  (∀ c, c ∈ levels → spec_ok (spec c) ∧ Z.of_nat (sp_Concurrency (spec c)) = c) →
  (∀ k j c, levels !! k = Some c → Forall (λ t, Z.of_nat (tn_worker t.2) < c) (se_turns env (i + k) j).1) →
  ∃ w' peak' pts, run_levels opts env spec levels i peak w = Some (w', peak', Ok pts) ∧
    Forall (point_ok (bp_runs opts)) pts ∧
    ((∀ i j, se_ctx env i j = false) → (1 ≤ bp_runs opts)%nat →
     pt_Concurrency <$> pts = levels ∧ Forall (λ pt, length (pt_Runs pt) = bp_runs opts) pts).
Proof.
  revert i peak w. induction levels as [|c levels IH]; intros i peak w Hs He; [by eexists _, _, _|].
  cbn [run_levels]. destruct (Hs c (list_elem_of_here _ _)) as [Hsc Hc].
  destruct (repeat_runs_total (bp_runs opts) 0 (se_ctx env i) (se_turns env i) (spec c) w Hsc)
    as (w1 & rs & -> & Hle & Hf & Hu).
  { intros j. specialize (He 0%nat j c eq_refl). rewrite Nat.add_0_r in He.
    eapply Forall_impl; [done|]. intros t. cbv beta. lia. }
  cbn [mbind option_bind]. set (peak1 := if _ : bool then _ else _).
  destruct (IH (i + 1)%nat peak1 w1) as (w2 & peak2 & pts & -> & Hpts & Hall).
  { intros c' Hc'. apply Hs. by right. }
  { intros k j c' Hk. specialize (He (Datatypes.S k) j c' Hk). by replace (i + 1 + k)%nat with (i + Datatypes.S k)%nat by lia. }
  cbn [mbind option_bind]. case_bool_decide as Hnil.
  - eexists _, _, _. split; [done|]. split; [done|]. intros H1 H2. exfalso.
    specialize (Hu (H1 i)). rewrite Hnil in Hu. simpl in Hu. lia.
  - destruct (summarise_total rs Hnil) as (m & sp & Hsum & Hm). rewrite Hsum. cbn [mbind option_bind].
    eexists _, _, _. split; [done|]. split.
    + constructor; [|done]. unfold point_ok. cbn [pt_Runs pt_Median pt_Spread pt_Concurrency].
      split; [destruct rs; [done|simpl in *; lia]|]. split; [done|]. split; [by exists sp|].
      eapply Forall_impl; [done|]. intros r Hr. cbv beta in *. by rewrite Hr.
    + intros H1 H2. destruct (Hall H1 H2) as [Hcs Hls]. split; [cbn; by rewrite Hcs|].
      constructor; [|done]. cbn [pt_Runs]. by apply Hu.
Qed.

(** What [preload] needs not to panic. *)
Lemma put_all_total (T : nat → Transport S) targets c k order w :
  targets ≠ [] → Forall (λ i, i < length (co_Objects c))%nat order →
  is_Some (put_all T targets c k order w).
Proof.
  intros Ht Ho. revert k w. induction Ho as [|i order Hi _ IH]; intros k w; [by eexists|]. cbn [put_all]. unfold put_one.
  destruct (lookup_lt_is_Some_2 (co_Objects c) i Hi) as [obj ->]. cbn [mbind option_bind].
  destruct (lookup_lt_is_Some_2 targets (i mod length targets)) as [base ->].
  { apply Nat.mod_upper_bound. by destruct targets. }
  cbn [mbind option_bind]. destruct (doPut base obj w) as [w1 [[n miss] err]]. cbn [mbind option_bind].
  destruct (IH (k + 1)%nat w1) as [[w2 errs] ->]. by eexists.
Qed.

Lemma check_all_total (T : nat → Transport S) targets c k todo w :
  targets ≠ [] → Forall (λ i, i < length (co_Objects c))%nat todo →
  is_Some (check_all T targets c k todo w).
Proof.
  intros Ht Ho. revert k w. induction Ho as [|i todo Hi _ IH]; intros k w; [by eexists|]. cbn [check_all]. unfold check_one.
  destruct (lookup_lt_is_Some_2 (co_Objects c) i Hi) as [obj ->]. cbn [mbind option_bind].
  destruct (lookup_lt_is_Some_2 targets 0) as [base ->]; [destruct targets; [done|simpl; lia]|].
  cbn [mbind option_bind]. destruct (doGet _ _ _ _ _) as [w1 [[n miss] err]]. cbn [mbind option_bind].
  destruct err; [by eexists|]. destruct (miss || _); [by eexists|apply IH].
Qed.

Lemma preload_total (T : nat → Transport S) targets c order w :
  targets ≠ [] → co_Objects c ≠ [] → Forall (λ i, i < length (co_Objects c))%nat order →
  is_Some (preload T targets c order w).
Proof.
  intros Ht Hc Ho. unfold preload. destruct (put_all_total T targets c 0 order w Ht Ho) as [[w1 errs] ->].
  cbn [mbind option_bind]. destruct errs; [|by eexists]. apply check_all_total; [done|].
  assert (0 < length (co_Objects c))%nat by (destruct (co_Objects c); [done|simpl; lia]).
  unfold spots. repeat constructor; [lia|apply Nat.div_lt; lia|lia].
Qed.

End scenario_total.

(** *** Against the modelled cluster *)

Section on_cluster.
Context (dial : string → option (string * string)) (bad_url : string → option error).
Context (ms : list Member) (rc : Z) (net : nat → ClusterEnv).
Context (dial_ok : ∀ m q, m ∈ ms → dial (URL m +:+ "/" +:+ q) = Some (Name m, "/" +:+ q)).

Abbreviation client k := (cluster_client dial bad_url (net k)).

(** An upload the benchmark counts as done is on every holder. *)
Lemma doPut_stored k x obj w w' n miss :
  cluster_ok ms rc w → x ∈ ms → valid_key (bo_Key obj) = true →
  @doPut _ (client k) (URL x) obj w = (w', (n, miss, None)) →
  ∀ h, h ∈ Holders (ring (nodes w (Name x))) (bo_Key obj) rc →
    stored NamespaceCAS (bo_Key obj) (bo_Content obj) (local (nodes w' (Name h))).
Proof.
  intros Hok Hx Hk. unfold doPut. cbn [url_err Do cluster_client]. destruct (bad_url _); [done|].
  set (rq := mkRequest _ _ _ _ _). unfold exchange. change (rq_URL rq) with (URL x +:+ "/" +:+ ("cas/" +:+ bo_Key obj)).
  rewrite dial_ok by done. destruct (framed rq) as [fr sent] eqn:HF.
  assert (Hfr : rq_Method fr = MethodPut ∧ rq_Header fr = ∅ ∧ ∃ b, rq_Body fr = Some b)
    by (unfold framed, rq in HF; cbn [rq_Body rq_Method rq_Header] in HF; apply pair_eq in HF as [<- _];
        split; [done|]; split; [done|]; by eexists).
  destruct Hfr as (Hm & Hh & b & Hb).
  pose proof (acked_write_stored dial bad_url ms rc (net k) x fr NamespaceCAS (bo_Key obj) b w) as Hst.
  change (object_path NamespaceCAS (bo_Key obj)) with ("/" +:+ ("cas/" +:+ bo_Key obj)) in Hst.
  destruct (serve dial bad_url (net k) 3 [Name x] (Name x) fr _ w) as [w1 res].
  intros HD h Hin. assert (∃ resp, w' = w1 ∧ res = Ok resp ∧ acked resp = true) as (resp & -> & -> & Hack).
  { destruct (ce_net (net k) [Name x]), sent, res as [resp|]; simplify_eq/=;
      (destruct ((_ <? 200) || _) eqn:Hc; [simplify_eq|]); exists resp; simplify_eq; (split; [done|]; split; [done|]);
      unfold acked; boolify; cbn in *; lia. }
  destruct (Hst w1 resp dial_ok Hok Hx eq_refl Hk Hm Hb) with (m := h) as (c & Hv & Hd); [|done..|].
  - by rewrite Hh.
  - by exists c.
Qed.

Lemma client_steps_to E r w : rtc world_step w (@Do _ (cluster_client dial bad_url E) r w).1.
Proof. cbn [Do cluster_client]. apply exchange_steps. intros. apply serve_steps. Qed.

Lemma doPut_steps k base obj w : rtc world_step w (@doPut _ (client k) base obj w).1.
Proof.
  unfold doPut. cbn [url_err cluster_client]. destruct (bad_url _); [done|].
  pose proof (client_steps_to (net k) (mkRequest MethodPut (cas_url base (bo_Key obj)) ∅
    (Some (mkReader (bo_Content obj) None)) (Z.of_nat (length (bo_Content obj)))) w) as H.
  by destruct (Do _ w) as [w1 r].
Qed.

Lemma doGet_steps k base key v n w : rtc world_step w (@doGet _ (client k) base key v n w).1.
Proof.
  unfold doGet. cbn [url_err cluster_client]. destruct (bad_url _); [done|].
  pose proof (client_steps_to (net k) (mkRequest MethodGet (cas_url base key) ∅ None 0) w) as H.
  by destruct (Do _ w) as [w1 r].
Qed.

Context (targets : list string) (c : Corpus).
Context (targets_ok : ∀ t, t ∈ targets → ∃ m, m ∈ ms ∧ t = URL m).
Context (keys_ok : ∀ o, o ∈ co_Objects c → valid_key (bo_Key o) = true).

(** Object [i] was at some time between [w] and [w'] on every member that holds
    its key. *)
Definition placed (w w' : World) (i : nat) : Prop :=
  ∃ obj x w1, co_Objects c !! i = Some obj ∧ x ∈ ms ∧ rtc world_step w w1 ∧ rtc world_step w1 w' ∧
    ∀ h, h ∈ Holders (ring (nodes w1 (Name x))) (bo_Key obj) rc →
      stored NamespaceCAS (bo_Key obj) (bo_Content obj) (local (nodes w1 (Name h))).

(** Some member had object [i], with its length, at some time in between. *)
Definition found (w w' : World) (i : nat) : Prop :=
  ∃ obj x w1 b, co_Objects c !! i = Some obj ∧ x ∈ ms ∧ rtc world_step w w1 ∧ rtc world_step w1 w' ∧
    view (local (nodes w1 (Name x))) NamespaceCAS (bo_Key obj) = Some b ∧
    Sha.digest b = bo_Key obj ∧ length b = length (bo_Content obj).

Lemma put_one_placed k i w w' :
  cluster_ok ms rc w → put_one (λ k, client k) targets c k i w = Some (w', None) →
  rtc world_step w w' ∧ placed w w' i.
Proof.
  intros Hok. unfold put_one. destruct (co_Objects c !! i) as [obj|] eqn:Ho; cbn [mbind option_bind]; [|done].
  destruct (targets !! _) as [t|] eqn:Ht; cbn [mbind option_bind]; [|done].
  apply list_elem_of_lookup_2, targets_ok in Ht as (x & Hx & ->).
  pose proof (doPut_steps k (URL x) obj w) as Hst.
  destruct (doPut (URL x) obj w) as [w1 [[n miss] err]] eqn:HD. intros [= <- ->]. cbn [fst] in Hst. split; [done|].
  exists obj, x, w1. split; [done|]. split; [done|]. split; [done|]. split; [done|].
  destruct (steps_keep w w1 (Name x) Hst) as (Hr & _). rewrite Hr.
  apply (doPut_stored k x obj w w1 n miss); [done..| |done]. apply keys_ok. by eapply list_elem_of_lookup_2.
Qed.

Lemma check_one_found k i w w' :
  cluster_ok ms rc w → check_one (λ k, client k) targets c k i w = Some (w', None) →
  rtc world_step w w' ∧ found w w' i.
Proof.
  intros Hok. unfold check_one. destruct (co_Objects c !! i) as [obj|] eqn:Ho; cbn [mbind option_bind]; [|done].
  destruct (targets !! _) as [t|] eqn:Ht; cbn [mbind option_bind]; [|done].
  apply list_elem_of_lookup_2, targets_ok in Ht as (x & Hx & ->).
  assert (Hk : valid_key (bo_Key obj) = true) by (apply keys_ok; by eapply list_elem_of_lookup_2).
  set (size := Z.of_nat (length (bo_Content obj))). pose proof (doGet_steps k (URL x) (bo_Key obj) true size w) as Hst.
  destruct (doGet (URL x) _ _ _ w) as [w1 [[n miss] err]] eqn:HD. intros [= <- Hn]. cbn [fst] in Hst. split; [done|].
  destruct err; [done|]. destruct miss; [done|]. destruct (Z.eqb_spec n size) as [->|]; [|done].
  unfold doGet in HD. cbn [url_err cluster_client] in HD. destruct (bad_url _); [done|].
  pose proof (client_get dial bad_url ms rc [mkTarget EmptyString (URL x)] dial_ok) as HG.
  destruct (@Do _ (client k) _ w) as [w2 [resp|e]] eqn:HDo; [|done].
  destruct (rs_StatusCode resp =? StatusNotFound); [done|].
  destruct (Z.eqb_spec (rs_StatusCode resp) StatusOK) as [Hc|]; [|done]. cbn [negb] in HD.
  destruct (rerr (rs_Body resp)) eqn:He; [done|]. destruct (negb _); [done|]. simplify_eq.
  edestruct HG as (m & Hm & Hv & Hd); [|exact Hok|by left|exact Hk|exact HDo|done|done|].
  { intros t' ->%list_elem_of_singleton. by exists x. }
  exists obj, m, w, (rdata (rs_Body resp)). split; [done|]. split; [done|]. split; [done|]. split; [done|].
  split; [done|]. split; [done|]. unfold size in *. lia.
Qed.

Lemma placed_mono w0 w w' w2 i : rtc world_step w0 w → rtc world_step w' w2 → placed w w' i → placed w0 w2 i.
Proof. intros H1 H2 (obj & x & w1 & Ho & Hx & H3 & H4 & H). exists obj, x, w1. split_and!; try done; by etrans. Qed.

Lemma found_mono w0 w w' w2 i : rtc world_step w0 w → rtc world_step w' w2 → found w w' i → found w0 w2 i.
Proof.
  intros H1 H2 (obj & x & w1 & b & Ho & Hx & H3 & H4 & H). exists obj, x, w1, b. split_and!; try apply H; try done; by etrans.
Qed.

Lemma put_all_placed k order w w' :
  cluster_ok ms rc w → put_all (λ k, client k) targets c k order w = Some (w', []) →
  rtc world_step w w' ∧ ∀ i, i ∈ order → placed w w' i.
Proof.
  revert k w. induction order as [|i order IH]; intros k w Hok.
  { intros [= <-]. split; [done|]. by intros i ?%elem_of_nil. }
  cbn [put_all]. destruct (put_one _ _ _ _ _ _) as [[w1 err]|] eqn:HP; cbn [mbind option_bind]; [|done].
  destruct (put_all _ _ _ _ _ _) as [[w2 errs]|] eqn:HA; cbn [mbind option_bind]; [|done].
  destruct err; [done|]. intros [= <- ->]. destruct (put_one_placed k i w w1 Hok HP) as [Hs1 Hp].
  destruct (IH _ w1 (steps_ok _ _ _ _ Hs1 Hok) HA) as [Hs2 Hps]. split; [by etrans|].
  intros i' [->|Hi]%elem_of_cons.
  - by apply (placed_mono w w w1 w2).
  - apply (placed_mono w w1 w2 w2); [done..|]. by apply Hps.
Qed.

Lemma check_all_found k todo w w' :
  cluster_ok ms rc w → check_all (λ k, client k) targets c k todo w = Some (w', None) →
  rtc world_step w w' ∧ ∀ i, i ∈ todo → found w w' i.
Proof.
  revert k w. induction todo as [|i todo IH]; intros k w Hok.
  { intros [= <-]. split; [done|]. by intros i ?%elem_of_nil. }
  cbn [check_all]. destruct (check_one _ _ _ _ _ _) as [[w1 err]|] eqn:HP; cbn [mbind option_bind]; [|done].
  destruct err; [done|]. intros HA. destruct (check_one_found k i w w1 Hok HP) as [Hs1 Hp].
  destruct (IH _ w1 (steps_ok _ _ _ _ Hs1 Hok) HA) as [Hs2 Hps]. split; [by etrans|].
  intros i' [->|Hi]%elem_of_cons.
  - by apply (found_mono w w w1 w').
  - apply (found_mono w w1 w' w'); [done..|]. by apply Hps.
Qed.
End on_cluster.

(** Every repetition is reported.  A scenario with a target, objects of at
    least 16 bytes and at least one of them comes to an end; it fails only when it
    preloads.  Each point it reports has the runs of one level and, as its median
    and spread, the summary of these runs; and unless the session is interrupted
    there is a point for every level with every repetition in it. *)
Lemma runScenario_total {S} opts sc (env : @ScenarioEnv S) w :
  bp_targets opts ≠ [] → 16 ≤ sc_ObjectSize sc → 1 ≤ sc_ObjectCount sc → Forall (λ c, 1 ≤ c) (bp_concurrency opts) →
  let count := if bp_smoke opts then minInt (sc_ObjectCount sc) 64 else sc_ObjectCount sc in
  Forall (λ i, Z.of_nat i < count) (se_order env) →
  (∀ k j c, bp_concurrency opts !! k = Some c → Forall (λ t, Z.of_nat (tn_worker t.2) < c) (se_turns env k j).1) →
  ∃ w' peak r, runScenario opts sc env w = Some (w', peak, r) ∧
    match r with
    | Err _ => sc_Preload sc = true
    | Ok res =>
        sr_Name res = sc_Name sc ∧ sr_Description res = sc_Description sc ∧
        (let corpus := NewCorpus (se_corpus env) (sc_Name sc) count (sc_ObjectSize sc) (bp_seed opts) in
         sr_Corpus res = Some (Describe corpus) ∧ sr_PageCacheNote res = pageCacheNote (Bytes corpus) (bp_ramBytes opts)) ∧
        Forall (point_ok (bp_runs opts)) (sr_Points res) ∧
        ((∀ i j, se_ctx env i j = false) → (1 ≤ bp_runs opts)%nat →
         pt_Concurrency <$> sr_Points res = bp_concurrency opts ∧
         Forall (λ pt, length (pt_Runs pt) = bp_runs opts) (sr_Points res))
    end.
Proof.
  intros Ht Hsz Hc Hlev count Ho Hts. unfold runScenario. fold count.
  set (corpus := NewCorpus _ _ count _ _).
  assert (Hlen : Z.of_nat (length (co_Objects corpus)) = count).
  { unfold corpus, NewCorpus. cbn [co_Objects]. rewrite length_fmap, length_seq.
    unfold count, minInt. destruct (bp_smoke opts); [destruct (Z.ltb_spec (sc_ObjectCount sc) 64)|]; lia. }
  assert (Hcount : 1 ≤ count) by (unfold count, minInt; repeat case_match; lia).
  assert (Hobj : co_Objects corpus ≠ []) by (intros Hn; rewrite Hn in Hlen; simpl in Hlen; lia).
  assert (Hpre : ∃ w0 perr, (if sc_Preload sc then preload (se_preload env) (bp_targets opts) corpus (se_order env) w
                 else Some (w, None)) = Some (w0, perr) ∧ (perr ≠ None → sc_Preload sc = true)).
  { destruct (sc_Preload sc); [|by eexists _, _].
    destruct (preload_total (se_preload env) (bp_targets opts) corpus (se_order env) w) as [[w0 perr] ->]; [done..| |by eexists _, _].
    eapply Forall_impl; [done|]. intros i. cbv beta. lia. }
  destruct Hpre as (w0 & perr & -> & Hp). cbn [mbind option_bind].
  destruct perr as [e|]; [eexists _, _, _; split; [done|]; by apply Hp|].
  destruct (sampleNodes (bp_targets opts) w0) as [w1 before].
  match goal with |- context [run_levels _ _ ?sp _ _ _ _] => set (spec := sp) end.
  destruct (run_levels_total opts env spec (bp_concurrency opts) 0 (bp_peakMemory opts) w1)
    as (w2 & peak & pts & -> & Hpts & Hall); [|done|].
  { intros c Hin. rewrite Forall_forall in Hlev. apply Hlev in Hin. unfold spec. split; [by split|].
    cbn [sp_Concurrency]. lia. }
  cbn [mbind option_bind]. destruct (sampleNodes (bp_targets opts) w2) as [w3 after].
  eexists _, _, _. split; [done|]. by split_and!.
Qed.

(** ** Claims *)

(** C35: reported percentiles are nearest ranks over all observations.  For every
    fraction, the value [percentile] takes from the samples [Summarize] sorted is
    one that was observed; at least as many observations as the computed rank are
    no larger, and fewer than the rank are smaller.  For the five reported
    fractions and up to 512 observations the rank computed in floating point is
    the exact one. *)
Theorem percentile_is_nearest_rank p l :
  l ≠ [] →
  let n := Z.of_nat (length l) in
  let rank := clamp_rank (raw_rank p n) n in
  let v := percentile p (Summarize l).1 in
  1 ≤ rank ≤ n ∧ v ∈ l ∧ rank ≤ count_if (λ x, x <=? v) l ∧ count_if (λ x, x <? v) l < rank ∧
  (n ≤ 512 → raw_rank p50 n = exact_rank 1 2 n ∧ raw_rank p90 n = exact_rank 9 10 n ∧
    raw_rank p95 n = exact_rank 19 20 n ∧ raw_rank p99 n = exact_rank 99 100 n ∧
    raw_rank p999 n = exact_rank 999 1000 n).
Proof.
  intros Hl n rank v. assert (1 ≤ n) by (unfold n; destruct l; [done|simpl; lia]).
  pose proof (clamp_rank_range (raw_rank p n) n ltac:(done)) as Hr. fold rank in Hr. split; [done|].
  pose proof (sort_Slice_perm Z.ltb l) as Hp. pose proof (Permutation_length Hp) as Hlen.
  assert (sort_Slice Z.ltb l !! Z.to_nat (rank - 1) = Some v) as Hv.
  { unfold v, Summarize, percentile. rewrite (bool_decide_eq_false_2 (l = [])) by done. cbn [fst].
    rewrite bool_decide_eq_false_2 by (intros He; rewrite He in Hlen; apply Hl, nil_length_inv; done).
    rewrite Hlen. fold n. fold rank. destruct (lookup_lt_is_Some_2 (sort_Slice Z.ltb l) (Z.to_nat (rank - 1))) as [x Hx]; [lia|].
    by rewrite Hx. }
  destruct (sorted_rank _ _ _ (sort_Slice_sorted Z.ltb l _ _) Hv) as [H1 H2].
  rewrite (count_if_perm _ _ _ Hp) in H1. rewrite (count_if_perm _ _ _ Hp) in H2.
  split; [rewrite <-Hp; by eapply list_elem_of_lookup_2|]. split; [lia|]. split; [lia|].
  intros Hn. pose proof ranks_exact as He. rewrite forallb_forall in He.
  specialize (He n ltac:(apply list_elem_of_In, list_elem_of_fmap; exists (length l); split; [done|]; apply elem_of_seq; lia)).
  unfold ranks_agree in He. rewrite !andb_true_iff, !Z.eqb_eq in He. tauto.
Qed.

(** C29: a measured run returns, and its numbers add up.  With a target, a
    corpus of objects of at least 16 bytes and keys to miss, a run finishes
    whatever its workers draw and the network does.  It reports as operations
    exactly the measured requests that were not cut off by its own end, as errors
    and misses exactly those that failed or found nothing, and has a latency for
    every operation that did not fail; at most 32 error texts are kept, which
    together account for every error as long as there are fewer, and the number of
    verification failures it reports is always zero. *)
Theorem bench_run_adds_up {S} spec (ts : list (Transport S * turn)) measured w :
  spec_ok spec → Forall (λ t, (tn_worker t.2 < sp_Concurrency spec)%nat) ts →
  ∃ gens w' its res, worker_gens spec = Some gens ∧ run_turns spec ts gens w = Some (w', its) ∧
    length its = length ts ∧ bench_Run spec ts measured w = Some (w', Ok res) ∧
    rr_Operations res = tally_of (λ _, true) its ∧ rr_Errors res = tally_of failed its ∧
    rr_Misses res = tally_of missed_it its ∧
    su_Count (rr_Latency res) = rr_Operations res - rr_Errors res ∧
    (size (rr_ErrorSamples res) ≤ 32)%nat ∧
    (let notes := map_fold (λ _ n s, n + s) 0 (rr_ErrorSamples res) in
     notes ≤ rr_Errors res ∧ ((size (rr_ErrorSamples res) < 32)%nat → notes = rr_Errors res)) ∧
    rr_VerifyFails res = 0.
Proof.
  intros Hs Hts. destruct (bench_Run_total spec Hs ts measured w Hts) as (gens & w' & its & Hg & Hr & Hw & Hl & HR).
  eexists gens, w', its, _. split; [done|]. split; [done|]. split; [done|]. split; [exact HR|].
  destruct (run_tallied (sp_Concurrency spec) its Hw) as [Ho He Hm Hv Hlat Hsz Hn].
  set (t := fold_left _ its no_tallies) in *. unfold build_result.
  cbn [rr_Operations rr_Errors rr_Misses rr_Latency rr_ErrorSamples rr_VerifyFails].
  rewrite Summarize_count. unfold lat_total, error_notes in *. destruct Hn. by split_and!.
Qed.

(** Benchmark uploads are fresh.  The objects any worker's generator makes,
    one after the other, are of the corpus's object size and keyed by their
    digest, and no two objects made by different workers, or by one worker at
    different times, have the same content. *)
Theorem fresh_objects_are_distinct c1 c2 w1 w2 i j g1 g2 :
  newUniqueGen w1 c1 = Some g1 → newUniqueGen w2 c2 = Some g2 →
  0 ≤ w1 < 2 ^ 64 → 0 ≤ w2 < 2 ^ 64 → 16 ≤ co_Size c1 → 16 ≤ co_Size c2 →
  Z.of_nat i + 1 < 2 ^ 64 → Z.of_nat j + 1 < 2 ^ 64 →
  ∃ g1' g2' o1 o2, nth_next i g1 = Some (g1', o1) ∧ nth_next j g2 = Some (g2', o2) ∧
    Z.of_nat (length (bo_Content o1)) = co_Size c1 ∧ bo_Key o1 = Sha.EncodeToString (Sha.Sum256 (bo_Content o1)) ∧
    ((w1, i) ≠ (w2, j) → bo_Content o1 ≠ bo_Content o2).
Proof.
  intros Hg1 Hg2 Hw1 Hw2 Hs1 Hs2 Hi Hj.
  destruct (newUniqueGen_spec _ _ _ Hg1) as (<- & Hc1 & Hl1), (newUniqueGen_spec _ _ _ Hg2) as (<- & Hc2 & Hl2).
  destruct (nth_next_spec i g1) as (g1' & o1 & H1 & Hcont1 & Hk1 & Hlo1); [lia..|].
  destruct (nth_next_spec j g2) as (g2' & o2 & H2 & Hcont2 & _ & _); [lia..|].
  exists g1', g2', o1, o2. split; [done|]. split; [done|]. split; [lia|]. split; [done|].
  intros Hne Heq. apply Hne. rewrite Hcont1, Hcont2 in Heq.
  apply app_inj_1 in Heq as [Hw Heq]; [|by unfold be64; rewrite !Sha.be_bytes_length].
  apply app_inj_1 in Heq as [Hk _]; [|by unfold be64; rewrite !Sha.be_bytes_length].
  apply be64_inj in Hw; [|done..]. apply be64_inj in Hk; [|lia..]. f_equal; [done|]. lia.
Qed.

(** C28: what a preload reports as done is in the cluster.  When the preload of a
    corpus succeeds, under whatever faults, every object that was uploaded was on
    every member that holds its key at some time during it, and the objects it
    spot-checked were in the store of some member, unaltered and of their length. *)
Theorem preload_places_every_object dial bad_url ms rc net targets draw name count size seed order w w' :
  (∀ m q, m ∈ ms → dial (URL m +:+ "/" +:+ q) = Some (Name m, "/" +:+ q)) →
  (∀ t, t ∈ targets → ∃ m, m ∈ ms ∧ t = URL m) → cluster_ok ms rc w →
  let c := NewCorpus draw name count size seed in
  preload (λ k, cluster_client dial bad_url (net k)) targets c order w = Some (w', None) →
  cluster_ok ms rc w' ∧ (∀ i, i ∈ order → placed ms rc c w w' i) ∧ (∀ i, i ∈ spots c → found ms c w w' i).
Proof.
  intros Hd Ht Hok c. unfold preload.
  assert (Hk : ∀ o, o ∈ co_Objects c → valid_key (bo_Key o) = true).
  { intros o (i & -> & _)%list_elem_of_fmap. apply digest_valid_key. }
  destruct (put_all _ _ _ _ _ _) as [[w1 errs]|] eqn:HP; cbn [mbind option_bind]; [|done].
  destruct errs; [|done]. intros HC.
  destruct (put_all_placed dial bad_url ms rc net Hd targets c Ht Hk 0 order w w1 Hok HP) as [Hs1 Hps].
  pose proof (steps_ok _ _ _ _ Hs1 Hok) as Hok1.
  destruct (check_all_found dial bad_url ms rc net Hd targets c Ht Hk _ _ w1 w' Hok1 HC) as [Hs2 Hfs].
  split; [by eapply steps_ok|]. split; intros i Hi.
  - apply (placed_mono ms rc c w w w1 w'); [done..|]. by apply Hps.
  - apply (found_mono ms c w w1 w' w'); [done..|]. by apply Hfs.
Qed.

(** ** Witnesses: a small corpus on the three nodes *)

Definition tiny_draw (i j : nat) : Byte.byte := Sha.Zbyte (Z.of_nat (i * 7 + j)).

Definition tiny_corpus : Corpus := NewCorpus tiny_draw "tiny" 2 16 1.
Definition trio_urls : list string := URL <$> trio.
Definition trio_network : Transport World := cluster_client trio_dial (λ _, None) trio_env.

Definition tiny_spec (o : Op) : RunSpec :=
  mkRunSpec "tiny" o 1 tiny_corpus (MissKeys tiny_draw 1) (constant 1 2) trio_urls true.

Definition one_turn : turn := mkTurn 0 true false 5000000 (λ _, 0) (constant 1 4).

Lemma tiny_spec_ok o : spec_ok (tiny_spec o).
Proof. split; vm_compute; discriminate. Qed.

Lemma trio_urls_ok t : t ∈ trio_urls → ∃ m, m ∈ trio ∧ t = URL m.
Proof. intros (m & -> & Hm)%list_elem_of_fmap. by exists m. Qed.

Lemma percentile_is_nearest_rank_witness :
  percentile p90 (Summarize [5; 1; 4; 2; 3]).1 ∈ [5; 1; 4; 2; 3] ∧ percentile p90 (Summarize [5; 1; 4; 2; 3]).1 = 5.
Proof.
  destruct (percentile_is_nearest_rank p90 [5; 1; 4; 2; 3]) as (_ & H & _); [discriminate|].
  split; [exact H|]. vm_compute. reflexivity.
Defined.

Lemma bench_run_adds_up_witness :
  ∃ w res, bench_Run (tiny_spec OpPut) [(trio_network, one_turn)] 1000 trio_world = Some (w, Ok res) ∧
    rr_VerifyFails res = 0 ∧ su_Count (rr_Latency res) = rr_Operations res - rr_Errors res.
Proof.
  destruct (bench_run_adds_up (tiny_spec OpPut) [(trio_network, one_turn)] 1000 trio_world (tiny_spec_ok OpPut))
    as (gens & w & its & res & _ & _ & _ & H & _ & _ & _ & Hc & _ & _ & Hv).
  - repeat constructor.
  - exists w, res. split; [exact H|]. split; [exact Hv|exact Hc].
Defined.

Lemma fresh_objects_are_distinct_witness :
  ∃ g1 g2, newUniqueGen 0 tiny_corpus = Some g1 ∧ newUniqueGen 1 tiny_corpus = Some g2 ∧
    ∃ g1' g2' o1 o2, nth_next 3 g1 = Some (g1', o1) ∧ nth_next 3 g2 = Some (g2', o2) ∧ bo_Content o1 ≠ bo_Content o2.
Proof.
  destruct (newUniqueGen 0 tiny_corpus) as [g1|] eqn:H1; [|exfalso; vm_compute in H1; discriminate].
  destruct (newUniqueGen 1 tiny_corpus) as [g2|] eqn:H2; [|exfalso; vm_compute in H2; discriminate].
  exists g1, g2. split; [reflexivity|]. split; [reflexivity|].
  destruct (fresh_objects_are_distinct tiny_corpus tiny_corpus 0 1 3 3 g1 g2 H1 H2)
    as (g1' & g2' & o1 & o2 & Ho1 & Ho2 & _ & _ & Hne); [lia|lia|vm_compute; discriminate..|lia|lia|].
  exists g1', g2', o1, o2. split; [exact Ho1|]. split; [exact Ho2|]. apply Hne. discriminate.
Defined.

Definition single_corpus : Corpus := NewCorpus tiny_draw "single" 1 16 1.

Lemma tiny_preload_ok :
  match preload (λ _, trio_network) trio_urls single_corpus [0%nat] trio_world with
  | Some (_, None) => true | _ => false end = true.
Proof. vm_compute. reflexivity. Qed.

Lemma preload_places_every_object_witness :
  ∃ w', preload (λ _, trio_network) trio_urls single_corpus [0%nat] trio_world = Some (w', None) ∧
    placed trio 2 single_corpus trio_world w' 0.
Proof.
  pose proof tiny_preload_ok as Hok.
  destruct (preload (λ _, trio_network) trio_urls single_corpus [0%nat] trio_world) as [[w' [e|]]|] eqn:HP;
    [discriminate Hok| |discriminate Hok].
  exists w'. split; [reflexivity|].
  destruct (preload_places_every_object trio_dial (λ _, None) trio 2 (λ _, trio_env) trio_urls tiny_draw "single" 1 16 1
    [0%nat] trio_world w' trio_dial_ok trio_urls_ok trio_ok HP) as (_ & H & _).
  apply H. left.
Defined.

(** What the stores of the three nodes counted. *)
Definition puts_counted (k : counter) (w : World) : Z :=
  Zsum ((λ m, stat_of_counter (stats (local (nodes w (Name m)))) k) <$> trio).

Definition run_puts (w : World) : option World :=
  fst <$> bench_Run (tiny_spec OpPut) [(trio_network, one_turn)] 1000 w.

(** A second run of a put scenario uploads what the first one did, since each
    worker's generator starts over on the same corpus: no copy is written, and
    what is measured is the answer for objects that are already stored. *)
Example second_run_uploads_nothing_new :
  (w ← run_puts trio_world; Some (puts_counted PutsOK w, puts_counted PutsAlreadyStored w)) = Some (2, 0) ∧
  (w ← run_puts trio_world; w' ← run_puts w; Some (puts_counted PutsOK w', puts_counted PutsAlreadyStored w'))
    = Some (2, 2).
Proof. split; vm_compute; reflexivity. Qed.
