(* ===== verification/LoadConfig.v ===== *)
(** * Loading the configuration: internal/config/config.go and load.go

    The record of settings with its defaults and [Validate], the parsers of sizes
    and peer lists, the package flag as [Load] uses it, and [Load] itself in its
    stages: flags, environment, sizes and peers, validation.  Durations are in
    nanoseconds; strings are ASCII; the numbers of a message that prints a float
    are left out.  [url_Parse] stands for [url.Parse], whose grammar of hosts
    differs between releases of Go: the scheme and the host it finds. *)

From S2P Require Import Prelude GoStrings Errors Config GoFloat Strconv.

#[local] Open Scope Z_scope.

(** ** The settings *)

Record Config := mkConfig {
  cf_NodeName : string;
  cf_ListenAddr : string;
  cf_AdvertiseURL : string;
  cf_DataDir : string;
  cf_MaxBytes : Z;
  cf_HighWater : float64;
  cf_LowWater : float64;
  cf_Peers : list Peer;
  cf_ReplicaCount : Z;
  cf_ReadHeaderTimeout : Z;
  cf_WriteTimeout : Z;
  cf_IdleTimeout : Z;
  cf_ShutdownTimeout : Z;
  cf_PeerTimeout : Z;
  cf_RepairWorkers : Z;
  cf_RepairQueue : Z;
  cf_RepairInterval : Z;
  cf_LogLevel : string;
  cf_LogFormat : string;
  cf_DevMode : bool;
  cf_MaxObjectBytes : Z;
  cf_VerifyReads : bool }.

Definition Defaults : Config :=
  mkConfig
    "node-a" ":8080" EmptyString "./data" (Z.shiftl 20 30) (constant 90 100) (constant 80 100) [] 2
    (10 * Second) 0 (120 * Second) (15 * Second) (30 * Second) 4 1024 (60 * Second) "info" "json" false
    (Z.shiftl 4 30) true.

Definition set_NodeName (v : string) (c : Config) : Config :=
  mkConfig
    v (cf_ListenAddr c) (cf_AdvertiseURL c) (cf_DataDir c) (cf_MaxBytes c) (cf_HighWater c)
    (cf_LowWater c) (cf_Peers c) (cf_ReplicaCount c) (cf_ReadHeaderTimeout c) (cf_WriteTimeout c)
    (cf_IdleTimeout c) (cf_ShutdownTimeout c) (cf_PeerTimeout c) (cf_RepairWorkers c)
    (cf_RepairQueue c) (cf_RepairInterval c) (cf_LogLevel c) (cf_LogFormat c) (cf_DevMode c)
    (cf_MaxObjectBytes c) (cf_VerifyReads c).

Definition set_ListenAddr (v : string) (c : Config) : Config :=
  mkConfig
    (cf_NodeName c) v (cf_AdvertiseURL c) (cf_DataDir c) (cf_MaxBytes c) (cf_HighWater c)
    (cf_LowWater c) (cf_Peers c) (cf_ReplicaCount c) (cf_ReadHeaderTimeout c) (cf_WriteTimeout c)
    (cf_IdleTimeout c) (cf_ShutdownTimeout c) (cf_PeerTimeout c) (cf_RepairWorkers c)
    (cf_RepairQueue c) (cf_RepairInterval c) (cf_LogLevel c) (cf_LogFormat c) (cf_DevMode c)
    (cf_MaxObjectBytes c) (cf_VerifyReads c).

Definition set_AdvertiseURL (v : string) (c : Config) : Config :=
  mkConfig
    (cf_NodeName c) (cf_ListenAddr c) v (cf_DataDir c) (cf_MaxBytes c) (cf_HighWater c) (cf_LowWater c)
    (cf_Peers c) (cf_ReplicaCount c) (cf_ReadHeaderTimeout c) (cf_WriteTimeout c) (cf_IdleTimeout c)
    (cf_ShutdownTimeout c) (cf_PeerTimeout c) (cf_RepairWorkers c) (cf_RepairQueue c)
    (cf_RepairInterval c) (cf_LogLevel c) (cf_LogFormat c) (cf_DevMode c) (cf_MaxObjectBytes c)
    (cf_VerifyReads c).

Definition set_DataDir (v : string) (c : Config) : Config :=
  mkConfig
    (cf_NodeName c) (cf_ListenAddr c) (cf_AdvertiseURL c) v (cf_MaxBytes c) (cf_HighWater c)
    (cf_LowWater c) (cf_Peers c) (cf_ReplicaCount c) (cf_ReadHeaderTimeout c) (cf_WriteTimeout c)
    (cf_IdleTimeout c) (cf_ShutdownTimeout c) (cf_PeerTimeout c) (cf_RepairWorkers c)
    (cf_RepairQueue c) (cf_RepairInterval c) (cf_LogLevel c) (cf_LogFormat c) (cf_DevMode c)
    (cf_MaxObjectBytes c) (cf_VerifyReads c).

Definition set_MaxBytes (v : Z) (c : Config) : Config :=
  mkConfig
    (cf_NodeName c) (cf_ListenAddr c) (cf_AdvertiseURL c) (cf_DataDir c) v (cf_HighWater c)
    (cf_LowWater c) (cf_Peers c) (cf_ReplicaCount c) (cf_ReadHeaderTimeout c) (cf_WriteTimeout c)
    (cf_IdleTimeout c) (cf_ShutdownTimeout c) (cf_PeerTimeout c) (cf_RepairWorkers c)
    (cf_RepairQueue c) (cf_RepairInterval c) (cf_LogLevel c) (cf_LogFormat c) (cf_DevMode c)
    (cf_MaxObjectBytes c) (cf_VerifyReads c).

Definition set_HighWater (v : float64) (c : Config) : Config :=
  mkConfig
    (cf_NodeName c) (cf_ListenAddr c) (cf_AdvertiseURL c) (cf_DataDir c) (cf_MaxBytes c) v
    (cf_LowWater c) (cf_Peers c) (cf_ReplicaCount c) (cf_ReadHeaderTimeout c) (cf_WriteTimeout c)
    (cf_IdleTimeout c) (cf_ShutdownTimeout c) (cf_PeerTimeout c) (cf_RepairWorkers c)
    (cf_RepairQueue c) (cf_RepairInterval c) (cf_LogLevel c) (cf_LogFormat c) (cf_DevMode c)
    (cf_MaxObjectBytes c) (cf_VerifyReads c).

Definition set_LowWater (v : float64) (c : Config) : Config :=
  mkConfig
    (cf_NodeName c) (cf_ListenAddr c) (cf_AdvertiseURL c) (cf_DataDir c) (cf_MaxBytes c)
    (cf_HighWater c) v (cf_Peers c) (cf_ReplicaCount c) (cf_ReadHeaderTimeout c) (cf_WriteTimeout c)
    (cf_IdleTimeout c) (cf_ShutdownTimeout c) (cf_PeerTimeout c) (cf_RepairWorkers c)
    (cf_RepairQueue c) (cf_RepairInterval c) (cf_LogLevel c) (cf_LogFormat c) (cf_DevMode c)
    (cf_MaxObjectBytes c) (cf_VerifyReads c).

Definition set_Peers (v : list Peer) (c : Config) : Config :=
  mkConfig
    (cf_NodeName c) (cf_ListenAddr c) (cf_AdvertiseURL c) (cf_DataDir c) (cf_MaxBytes c)
    (cf_HighWater c) (cf_LowWater c) v (cf_ReplicaCount c) (cf_ReadHeaderTimeout c) (cf_WriteTimeout c)
    (cf_IdleTimeout c) (cf_ShutdownTimeout c) (cf_PeerTimeout c) (cf_RepairWorkers c)
    (cf_RepairQueue c) (cf_RepairInterval c) (cf_LogLevel c) (cf_LogFormat c) (cf_DevMode c)
    (cf_MaxObjectBytes c) (cf_VerifyReads c).

Definition set_ReplicaCount (v : Z) (c : Config) : Config :=
  mkConfig
    (cf_NodeName c) (cf_ListenAddr c) (cf_AdvertiseURL c) (cf_DataDir c) (cf_MaxBytes c)
    (cf_HighWater c) (cf_LowWater c) (cf_Peers c) v (cf_ReadHeaderTimeout c) (cf_WriteTimeout c)
    (cf_IdleTimeout c) (cf_ShutdownTimeout c) (cf_PeerTimeout c) (cf_RepairWorkers c)
    (cf_RepairQueue c) (cf_RepairInterval c) (cf_LogLevel c) (cf_LogFormat c) (cf_DevMode c)
    (cf_MaxObjectBytes c) (cf_VerifyReads c).

Definition set_ReadHeaderTimeout (v : Z) (c : Config) : Config :=
  mkConfig
    (cf_NodeName c) (cf_ListenAddr c) (cf_AdvertiseURL c) (cf_DataDir c) (cf_MaxBytes c)
    (cf_HighWater c) (cf_LowWater c) (cf_Peers c) (cf_ReplicaCount c) v (cf_WriteTimeout c)
    (cf_IdleTimeout c) (cf_ShutdownTimeout c) (cf_PeerTimeout c) (cf_RepairWorkers c)
    (cf_RepairQueue c) (cf_RepairInterval c) (cf_LogLevel c) (cf_LogFormat c) (cf_DevMode c)
    (cf_MaxObjectBytes c) (cf_VerifyReads c).

Definition set_WriteTimeout (v : Z) (c : Config) : Config :=
  mkConfig
    (cf_NodeName c) (cf_ListenAddr c) (cf_AdvertiseURL c) (cf_DataDir c) (cf_MaxBytes c)
    (cf_HighWater c) (cf_LowWater c) (cf_Peers c) (cf_ReplicaCount c) (cf_ReadHeaderTimeout c) v
    (cf_IdleTimeout c) (cf_ShutdownTimeout c) (cf_PeerTimeout c) (cf_RepairWorkers c)
    (cf_RepairQueue c) (cf_RepairInterval c) (cf_LogLevel c) (cf_LogFormat c) (cf_DevMode c)
    (cf_MaxObjectBytes c) (cf_VerifyReads c).

Definition set_IdleTimeout (v : Z) (c : Config) : Config :=
  mkConfig
    (cf_NodeName c) (cf_ListenAddr c) (cf_AdvertiseURL c) (cf_DataDir c) (cf_MaxBytes c)
    (cf_HighWater c) (cf_LowWater c) (cf_Peers c) (cf_ReplicaCount c) (cf_ReadHeaderTimeout c)
    (cf_WriteTimeout c) v (cf_ShutdownTimeout c) (cf_PeerTimeout c) (cf_RepairWorkers c)
    (cf_RepairQueue c) (cf_RepairInterval c) (cf_LogLevel c) (cf_LogFormat c) (cf_DevMode c)
    (cf_MaxObjectBytes c) (cf_VerifyReads c).

Definition set_ShutdownTimeout (v : Z) (c : Config) : Config :=
  mkConfig
    (cf_NodeName c) (cf_ListenAddr c) (cf_AdvertiseURL c) (cf_DataDir c) (cf_MaxBytes c)
    (cf_HighWater c) (cf_LowWater c) (cf_Peers c) (cf_ReplicaCount c) (cf_ReadHeaderTimeout c)
    (cf_WriteTimeout c) (cf_IdleTimeout c) v (cf_PeerTimeout c) (cf_RepairWorkers c) (cf_RepairQueue c)
    (cf_RepairInterval c) (cf_LogLevel c) (cf_LogFormat c) (cf_DevMode c) (cf_MaxObjectBytes c)
    (cf_VerifyReads c).

Definition set_PeerTimeout (v : Z) (c : Config) : Config :=
  mkConfig
    (cf_NodeName c) (cf_ListenAddr c) (cf_AdvertiseURL c) (cf_DataDir c) (cf_MaxBytes c)
    (cf_HighWater c) (cf_LowWater c) (cf_Peers c) (cf_ReplicaCount c) (cf_ReadHeaderTimeout c)
    (cf_WriteTimeout c) (cf_IdleTimeout c) (cf_ShutdownTimeout c) v (cf_RepairWorkers c)
    (cf_RepairQueue c) (cf_RepairInterval c) (cf_LogLevel c) (cf_LogFormat c) (cf_DevMode c)
    (cf_MaxObjectBytes c) (cf_VerifyReads c).

Definition set_RepairWorkers (v : Z) (c : Config) : Config :=
  mkConfig
    (cf_NodeName c) (cf_ListenAddr c) (cf_AdvertiseURL c) (cf_DataDir c) (cf_MaxBytes c)
    (cf_HighWater c) (cf_LowWater c) (cf_Peers c) (cf_ReplicaCount c) (cf_ReadHeaderTimeout c)
    (cf_WriteTimeout c) (cf_IdleTimeout c) (cf_ShutdownTimeout c) (cf_PeerTimeout c) v
    (cf_RepairQueue c) (cf_RepairInterval c) (cf_LogLevel c) (cf_LogFormat c) (cf_DevMode c)
    (cf_MaxObjectBytes c) (cf_VerifyReads c).

Definition set_RepairQueue (v : Z) (c : Config) : Config :=
  mkConfig
    (cf_NodeName c) (cf_ListenAddr c) (cf_AdvertiseURL c) (cf_DataDir c) (cf_MaxBytes c)
    (cf_HighWater c) (cf_LowWater c) (cf_Peers c) (cf_ReplicaCount c) (cf_ReadHeaderTimeout c)
    (cf_WriteTimeout c) (cf_IdleTimeout c) (cf_ShutdownTimeout c) (cf_PeerTimeout c)
    (cf_RepairWorkers c) v (cf_RepairInterval c) (cf_LogLevel c) (cf_LogFormat c) (cf_DevMode c)
    (cf_MaxObjectBytes c) (cf_VerifyReads c).

Definition set_RepairInterval (v : Z) (c : Config) : Config :=
  mkConfig
    (cf_NodeName c) (cf_ListenAddr c) (cf_AdvertiseURL c) (cf_DataDir c) (cf_MaxBytes c)
    (cf_HighWater c) (cf_LowWater c) (cf_Peers c) (cf_ReplicaCount c) (cf_ReadHeaderTimeout c)
    (cf_WriteTimeout c) (cf_IdleTimeout c) (cf_ShutdownTimeout c) (cf_PeerTimeout c)
    (cf_RepairWorkers c) (cf_RepairQueue c) v (cf_LogLevel c) (cf_LogFormat c) (cf_DevMode c)
    (cf_MaxObjectBytes c) (cf_VerifyReads c).

Definition set_LogLevel (v : string) (c : Config) : Config :=
  mkConfig
    (cf_NodeName c) (cf_ListenAddr c) (cf_AdvertiseURL c) (cf_DataDir c) (cf_MaxBytes c)
    (cf_HighWater c) (cf_LowWater c) (cf_Peers c) (cf_ReplicaCount c) (cf_ReadHeaderTimeout c)
    (cf_WriteTimeout c) (cf_IdleTimeout c) (cf_ShutdownTimeout c) (cf_PeerTimeout c)
    (cf_RepairWorkers c) (cf_RepairQueue c) (cf_RepairInterval c) v (cf_LogFormat c) (cf_DevMode c)
    (cf_MaxObjectBytes c) (cf_VerifyReads c).

Definition set_LogFormat (v : string) (c : Config) : Config :=
  mkConfig
    (cf_NodeName c) (cf_ListenAddr c) (cf_AdvertiseURL c) (cf_DataDir c) (cf_MaxBytes c)
    (cf_HighWater c) (cf_LowWater c) (cf_Peers c) (cf_ReplicaCount c) (cf_ReadHeaderTimeout c)
    (cf_WriteTimeout c) (cf_IdleTimeout c) (cf_ShutdownTimeout c) (cf_PeerTimeout c)
    (cf_RepairWorkers c) (cf_RepairQueue c) (cf_RepairInterval c) (cf_LogLevel c) v (cf_DevMode c)
    (cf_MaxObjectBytes c) (cf_VerifyReads c).

Definition set_DevMode (v : bool) (c : Config) : Config :=
  mkConfig
    (cf_NodeName c) (cf_ListenAddr c) (cf_AdvertiseURL c) (cf_DataDir c) (cf_MaxBytes c)
    (cf_HighWater c) (cf_LowWater c) (cf_Peers c) (cf_ReplicaCount c) (cf_ReadHeaderTimeout c)
    (cf_WriteTimeout c) (cf_IdleTimeout c) (cf_ShutdownTimeout c) (cf_PeerTimeout c)
    (cf_RepairWorkers c) (cf_RepairQueue c) (cf_RepairInterval c) (cf_LogLevel c) (cf_LogFormat c) v
    (cf_MaxObjectBytes c) (cf_VerifyReads c).

Definition set_MaxObjectBytes (v : Z) (c : Config) : Config :=
  mkConfig
    (cf_NodeName c) (cf_ListenAddr c) (cf_AdvertiseURL c) (cf_DataDir c) (cf_MaxBytes c)
    (cf_HighWater c) (cf_LowWater c) (cf_Peers c) (cf_ReplicaCount c) (cf_ReadHeaderTimeout c)
    (cf_WriteTimeout c) (cf_IdleTimeout c) (cf_ShutdownTimeout c) (cf_PeerTimeout c)
    (cf_RepairWorkers c) (cf_RepairQueue c) (cf_RepairInterval c) (cf_LogLevel c) (cf_LogFormat c)
    (cf_DevMode c) v (cf_VerifyReads c).

Definition set_VerifyReads (v : bool) (c : Config) : Config :=
  mkConfig
    (cf_NodeName c) (cf_ListenAddr c) (cf_AdvertiseURL c) (cf_DataDir c) (cf_MaxBytes c)
    (cf_HighWater c) (cf_LowWater c) (cf_Peers c) (cf_ReplicaCount c) (cf_ReadHeaderTimeout c)
    (cf_WriteTimeout c) (cf_IdleTimeout c) (cf_ShutdownTimeout c) (cf_PeerTimeout c)
    (cf_RepairWorkers c) (cf_RepairQueue c) (cf_RepairInterval c) (cf_LogLevel c) (cf_LogFormat c)
    (cf_DevMode c) (cf_MaxObjectBytes c) v.

(** ** Validation *)

Definition PeerNames (peers : list Peer) : list string := sort_Slice str_lt (PName <$> peers).

(** [%v] of a list of strings. *)
Definition fmt_list (l : list string) : string := "[" +:+ SJoin l " " +:+ "]".

(** [errors.New] of [ErrNoSuchPeer]. *)
Definition ErrNoSuchPeer : string := "node name is not a member of the peer list".

Section validate.
Context (url_Parse : string → result (string * string)).

(** The loop over the peers: the error, or whether this node is among them. *)
Fixpoint validate_peers (me : string) (seen : gset string) (self : bool) (peers : list Peer) : result bool :=
  match peers with
  | [] => Ok self
  | p :: ps =>
      if String.eqb (TrimSpace (PName p)) EmptyString then Err (Errorf "peer name must not be empty")
      else if bool_decide (PName p ∈ seen) then Err (Errorf ("duplicate peer name " +:+ quoted (PName p)))
      else
        match url_Parse (PURL p) with
        | Err e => Err (Wrap ("peer " +:+ quoted (PName p) +:+ " has invalid url " +:+ quoted (PURL p)) e)
        | Ok (scheme, host) =>
            if negb (String.eqb scheme "http") && negb (String.eqb scheme "https") then
              Err (Errorf ("peer " +:+ quoted (PName p) +:+ " url " +:+ quoted (PURL p) +:+ " must be http or https"))
            else if String.eqb host EmptyString then
              Err (Errorf ("peer " +:+ quoted (PName p) +:+ " url " +:+ quoted (PURL p) +:+ " has no host"))
            else validate_peers me ({[PName p]} ∪ seen) (self || String.eqb (PName p) me) ps
        end
  end.

Definition Validate (c : Config) : option error :=
  if String.eqb (TrimSpace (cf_NodeName c)) EmptyString then Some (Errorf "node name must not be empty")
  else if String.eqb (TrimSpace (cf_ListenAddr c)) EmptyString then
    Some (Errorf "listen address must not be empty")
  else if String.eqb (TrimSpace (cf_DataDir c)) EmptyString then Some (Errorf "data dir must not be empty")
  else if cf_MaxBytes c <=? 0 then
    Some (Errorf ("max bytes must be positive, got " +:+ pretty (cf_MaxBytes c)))
  else if cf_MaxObjectBytes c <=? 0 then
    Some (Errorf ("max object bytes must be positive, got " +:+ pretty (cf_MaxObjectBytes c)))
  else if fle (cf_HighWater c) (of_int 0) || flt one (cf_HighWater c) then
    Some (Errorf "high water must be in (0,1]")
  else if fle (cf_LowWater c) (of_int 0) || fle (cf_HighWater c) (cf_LowWater c) then
    Some (Errorf "low water must be in (0,high)")
  else if cf_ReplicaCount c <? 1 then
    Some (Errorf ("replica count must be >= 1, got " +:+ pretty (cf_ReplicaCount c)))
  else if bool_decide (cf_Peers c = []) then Some (Errorf "peer list must not be empty")
  else if Z.of_nat (length (cf_Peers c)) <? cf_ReplicaCount c then
    Some (Errorf ("replica count " +:+ pretty (cf_ReplicaCount c) +:+ " exceeds cluster size " +:+
                  pretty (Z.of_nat (length (cf_Peers c)))))
  else if cf_RepairWorkers c <? 0 then
    Some (Errorf ("repair workers must be >= 0, got " +:+ pretty (cf_RepairWorkers c)))
  else if cf_RepairQueue c <? 1 then
    Some (Errorf ("repair queue must be >= 1, got " +:+ pretty (cf_RepairQueue c)))
  else
    match validate_peers (cf_NodeName c) ∅ false (cf_Peers c) with
    | Err e => Some e
    | Ok false =>
        Some (Wrap ErrNoSuchPeer (Errorf (quoted (cf_NodeName c) +:+ " not in " +:+
                                         fmt_list (PeerNames (cf_Peers c)))))
    | Ok true => None
    end.
End validate.

Definition SelfURL (c : Config) : string :=
  if negb (String.eqb (cf_AdvertiseURL c) EmptyString) then cf_AdvertiseURL c
  else match find (λ p, String.eqb (PName p) (cf_NodeName c)) (cf_Peers c) with
       | Some p => PURL p
       | None => EmptyString
       end.

(** [filepath.Clean] of a path with or without a leading slash. *)
Fixpoint clean_parts (rooted : bool) (acc : list string) (parts : list string) : list string :=
  match parts with
  | [] => reverse acc
  | p :: ps =>
      if String.eqb p EmptyString || String.eqb p "." then clean_parts rooted acc ps
      else if String.eqb p ".." then
        match acc with
        | [] => clean_parts rooted (if rooted then [] else [".."]) ps
        | a :: acc' => clean_parts rooted (if String.eqb a ".." then ".." :: acc else acc') ps
        end
      else clean_parts rooted (p :: acc) ps
  end.

Definition Clean (s : string) : string :=
  let rooted := HasPrefix s "/" in
  let parts := clean_parts rooted [] (Split s "/") in
  if rooted then "/" +:+ SJoin parts "/"
  else if bool_decide (parts = []) then "." else SJoin parts "/".

(** [filepath.Abs], where [wd] is the working directory, when it can be read. *)
Definition AbsDataDir (wd : option string) (c : Config) : string :=
  if HasPrefix (cf_DataDir c) "/" then Clean (cf_DataDir c)
  else match wd with
       | None => cf_DataDir c
       | Some d => Clean (d +:+ "/" +:+ cf_DataDir c)
       end.

(** ** Peers and sizes *)

Fixpoint parse_parts (parts : list string) : result (list Peer) :=
  match parts with
  | [] => Ok []
  | part :: ps =>
      let part := TrimSpace part in
      if String.eqb part EmptyString then parse_parts ps
      else
        let '(name, rawURL, ok) := Cut part "=" in
        if negb ok then Err (Errorf ("peer " +:+ quoted part +:+ " is not in name=url form"))
        else
          let name := TrimSpace name in
          let rawURL := TrimSpace rawURL in
          if String.eqb name EmptyString || String.eqb rawURL EmptyString then
            Err (Errorf ("peer " +:+ quoted part +:+ " has an empty name or url"))
          else
            match parse_parts ps with
            | Err e => Err e
            | Ok peers => Ok (mkPeer name (TrimRight rawURL "/") :: peers)
            end
  end.

Definition ParsePeers (s : string) : result (list Peer) :=
  let s := TrimSpace s in
  if String.eqb s EmptyString then Ok [] else parse_parts (Split s ",").

Definition suffixes : list (string * Z) :=
  [("KIB", Z.shiftl 1 10); ("MIB", Z.shiftl 1 20); ("GIB", Z.shiftl 1 30); ("TIB", Z.shiftl 1 40);
   ("KB", 1000); ("MB", 1000 * 1000); ("GB", 1000 * 1000 * 1000); ("TB", 1000 * 1000 * 1000 * 1000);
   ("K", Z.shiftl 1 10); ("M", Z.shiftl 1 20); ("G", Z.shiftl 1 30); ("T", Z.shiftl 1 40); ("B", 1)].

Definition size_error (s : string) (e : error) : error := Wrap ("size " +:+ quoted s) e.
Definition size_negative (s : string) : error := Errorf ("size " +:+ quoted s +:+ " must not be negative").

(** The number in front of a suffix worth [mult]. *)
Definition parse_suffixed (s num : string) (mult : Z) : result Z :=
  if String.eqb num EmptyString then Err (Errorf ("size " +:+ quoted s +:+ " has a suffix but no number"))
  else match ParseFloat num with
       | Err e => Err (size_error s e)
       | Ok v => if flt v (of_int 0) then Err (size_negative s) else Ok (to_int64 (fmul v (of_int mult)))
       end.

Definition ParseSize (s : string) : result Z :=
  let s := TrimSpace s in
  if String.eqb s EmptyString then Err (Errorf "empty size")
  else
    let upper := ToUpper s in
    match find (λ suf, HasSuffix upper suf.1) suffixes with
    | Some suf => parse_suffixed s (TrimSpace (stake (String.length upper - String.length suf.1) upper)) suf.2
    | None =>
        match ParseInt upper with
        | Err e => Err (size_error s e)
        | Ok v => if v <? 0 then Err (size_negative s) else Ok v
        end
    end.

(** ** The package flag *)

(** What the flags write: the configuration, the three raw values, and the
    names of the flags that were given. *)
Record Flags := mkFlags {
  fl_cfg : Config; peersRaw : string; maxBytesRaw : string; maxObjectRaw : string; fl_set : gset string }.

Definition on_cfg (f : Config → Config) (fl : Flags) : Flags :=
  mkFlags (f (fl_cfg fl)) (peersRaw fl) (maxBytesRaw fl) (maxObjectRaw fl) (fl_set fl).
Definition set_peersRaw (v : string) (fl : Flags) : Flags :=
  mkFlags (fl_cfg fl) v (maxBytesRaw fl) (maxObjectRaw fl) (fl_set fl).
Definition set_maxBytesRaw (v : string) (fl : Flags) : Flags :=
  mkFlags (fl_cfg fl) (peersRaw fl) v (maxObjectRaw fl) (fl_set fl).
Definition set_maxObjectRaw (v : string) (fl : Flags) : Flags :=
  mkFlags (fl_cfg fl) (peersRaw fl) (maxBytesRaw fl) v (fl_set fl).
Definition mark_set (name : string) (fl : Flags) : Flags :=
  mkFlags (fl_cfg fl) (peersRaw fl) (maxBytesRaw fl) (maxObjectRaw fl) ({[name]} ∪ fl_set fl).

Inductive flag_value :=
  | StringVar (set : string → Flags → Flags)
  | IntVar (set : Z → Flags → Flags)
  | Float64Var (set : float64 → Flags → Flags)
  | DurationVar (set : Z → Flags → Flags)
  | BoolVar (set : bool → Flags → Flags).

(** The flags [Load] defines. *)
Definition flag_set : list (string * flag_value) :=
  [("node-name", StringVar (λ v, on_cfg (set_NodeName v)));
   ("listen", StringVar (λ v, on_cfg (set_ListenAddr v)));
   ("advertise-url", StringVar (λ v, on_cfg (set_AdvertiseURL v)));
   ("data-dir", StringVar (λ v, on_cfg (set_DataDir v)));
   ("max-bytes", StringVar set_maxBytesRaw);
   ("max-object-bytes", StringVar set_maxObjectRaw);
   ("high-water", Float64Var (λ v, on_cfg (set_HighWater v)));
   ("low-water", Float64Var (λ v, on_cfg (set_LowWater v)));
   ("peers", StringVar set_peersRaw);
   ("replica-count", IntVar (λ v, on_cfg (set_ReplicaCount v)));
   ("read-header-timeout", DurationVar (λ v, on_cfg (set_ReadHeaderTimeout v)));
   ("write-timeout", DurationVar (λ v, on_cfg (set_WriteTimeout v)));
   ("idle-timeout", DurationVar (λ v, on_cfg (set_IdleTimeout v)));
   ("shutdown-timeout", DurationVar (λ v, on_cfg (set_ShutdownTimeout v)));
   ("peer-timeout", DurationVar (λ v, on_cfg (set_PeerTimeout v)));
   ("repair-workers", IntVar (λ v, on_cfg (set_RepairWorkers v)));
   ("repair-queue", IntVar (λ v, on_cfg (set_RepairQueue v)));
   ("repair-interval", DurationVar (λ v, on_cfg (set_RepairInterval v)));
   ("log-level", StringVar (λ v, on_cfg (set_LogLevel v)));
   ("log-format", StringVar (λ v, on_cfg (set_LogFormat v)));
   ("dev", BoolVar (λ v, on_cfg (set_DevMode v)));
   ("verify-reads", BoolVar (λ v, on_cfg (set_VerifyReads v)))].

Definition is_bool_flag (f : flag_value) : bool := match f with BoolVar _ => true | _ => false end.

(** [numError] of the package flag. *)
Definition flag_num {A} (p : parsed A) (k : A → Flags) : string + Flags :=
  match p with
  | Val a => inr (k a)
  | Bad ErrSyntax => inl "parse error"
  | Bad ErrRange => inl "value out of range"
  end.

(** [Value.Set]: the text of the error, or the flags with the value. *)
Definition flag_Set (f : flag_value) (v : string) (fl : Flags) : string + Flags :=
  match f with
  | StringVar set => inr (set v fl)
  | IntVar set => flag_num (parse_int true v) (λ a, set a fl)
  | Float64Var set => flag_num (parse_float v) (λ a, set a fl)
  | DurationVar set => match parse_duration v with Some d => inr (set d fl) | None => inl "parse error" end
  | BoolVar set =>
      match parse_bool v with Val b => inr (set b fl) | Bad _ => inl "parse error" end
  end.

(** An argument: not a flag, the terminator, malformed, or a name with the value
    after an equals sign. *)
Inductive word := NotFlag | Terminator | Malformed | FlagWord (name : string) (value : option string).

Definition flag_word (s : string) : word :=
  match s with
  | String "-" (String c rest) =>
      if String.eqb s "--" then Terminator
      else
        let name := if is_char "-" c then rest else String c rest in
        match name with
        | EmptyString => Malformed
        | String c' _ =>
            if is_char "-" c' || is_char "=" c' then Malformed
            else let '(n, v, ok) := Cut name "=" in FlagWord n (if (ok : bool) then Some v else None)
        end
  | _ => NotFlag
  end.

Definition lookup_flag (name : string) : option flag_value := snd <$> find (λ f, String.eqb f.1 name) flag_set.

(** A flag given a value. *)
Definition give (name : string) (f : flag_value) (v : string) (fl : Flags) : result Flags :=
  match flag_Set f v fl with
  | inr fl => Ok (mark_set name fl)
  | inl e =>
      Err (Errorf (if is_bool_flag f
                   then "invalid boolean value " +:+ quoted v +:+ " for -" +:+ name +:+ ": " +:+ e
                   else "invalid value " +:+ quoted v +:+ " for flag -" +:+ name +:+ ": " +:+ e))
  end.

(** [FlagSet.Parse]: parsing stops at the first argument that is not a flag. *)
Fixpoint Parse (args : list string) (fl : Flags) : result Flags :=
  match args with
  | [] => Ok fl
  | s :: rest =>
      match flag_word s with
      | NotFlag | Terminator => Ok fl
      | Malformed => Err (Errorf ("bad flag syntax: " +:+ s))
      | FlagWord name value =>
          match lookup_flag name with
          | None =>
              if String.eqb name "help" || String.eqb name "h" then Err (Errorf "flag: help requested")
              else Err (Errorf ("flag provided but not defined: -" +:+ name))
          | Some f =>
              match value with
              | Some v => match give name f v fl with Ok fl => Parse rest fl | Err e => Err e end
              | None =>
                  if is_bool_flag f then
                    match give name f "true" fl with Ok fl => Parse rest fl | Err e => Err e end
                  else
                    match rest with
                    | [] => Err (Errorf ("flag needs an argument: -" +:+ name))
                    | v :: rest' => match give name f v fl with Ok fl => Parse rest' fl | Err e => Err e end
                    end
              end
          end
      end
  end.

(** ** Load *)

Abbreviation environ := (gmap string string).

Definition Env (env : environ) (key : string) : option string := env !! ("KILNCACHE_" +:+ key).

(** The fallback of one setting: its variable, when the flag was not given. *)
Definition env_for (env : environ) (fl : Flags) (flag var : string) : option string :=
  if bool_decide (flag ∈ fl_set fl) then None else Env env var.

Definition env_string (env : environ) (flag var : string) (set : string → Config → Config) (fl : Flags)
    : result Flags :=
  match env_for env fl flag var with None => Ok fl | Some v => Ok (on_cfg (set v) fl) end.

Definition env_parsed {A} (parse : string → result A) (env : environ) (flag var : string)
    (set : A → Config → Config) (fl : Flags) : result Flags :=
  match env_for env fl flag var with
  | None => Ok fl
  | Some v =>
      match parse v with
      | Ok a => Ok (on_cfg (set a) fl)
      | Err e => Err (Wrap ("KILNCACHE_" +:+ var) e)
      end
  end.

(** The fallback of a raw value, when it is empty. *)
Definition env_raw (env : environ) (raw : Flags → string) (var : string) (set : string → Flags → Flags)
    (fl : Flags) : result Flags :=
  if negb (String.eqb (raw fl) EmptyString) then Ok fl
  else match Env env var with None => Ok fl | Some v => Ok (set v fl) end.

Definition and_then {A B} (k : A → result B) (r : result A) : result B :=
  match r with Ok a => k a | Err e => Err e end.

(** The environment fallbacks, in the order of the source. *)
Definition env_stages (env : environ) : list (Flags → result Flags) :=
  [env_string env "node-name" "NODE_NAME" set_NodeName;
   env_string env "listen" "LISTEN" set_ListenAddr;
   env_string env "advertise-url" "ADVERTISE_URL" set_AdvertiseURL;
   env_string env "data-dir" "DATA_DIR" set_DataDir;
   env_raw env maxBytesRaw "MAX_BYTES" set_maxBytesRaw;
   env_raw env maxObjectRaw "MAX_OBJECT_BYTES" set_maxObjectRaw;
   env_parsed ParseFloat env "high-water" "HIGH_WATER" set_HighWater;
   env_parsed ParseFloat env "low-water" "LOW_WATER" set_LowWater;
   env_raw env peersRaw "PEERS" set_peersRaw;
   env_parsed Atoi env "replica-count" "REPLICA_COUNT" set_ReplicaCount;
   env_parsed ParseDuration env "peer-timeout" "PEER_TIMEOUT" set_PeerTimeout;
   env_parsed Atoi env "repair-workers" "REPAIR_WORKERS" set_RepairWorkers;
   env_parsed ParseDuration env "repair-interval" "REPAIR_INTERVAL" set_RepairInterval;
   env_string env "log-level" "LOG_LEVEL" set_LogLevel;
   env_string env "log-format" "LOG_FORMAT" set_LogFormat;
   env_parsed ParseBool env "dev" "DEV" set_DevMode;
   env_parsed ParseBool env "verify-reads" "VERIFY_READS" set_VerifyReads].

Definition env_fallbacks (env : environ) (fl : Flags) : result Flags :=
  fold_left (λ r stage, and_then stage r) (env_stages env) (Ok fl).

Definition defaultSelfURL (listen : string) : string :=
  let '(host, port, ok) := Cut listen ":" in
  if negb ok then "http://" +:+ listen
  else "http://" +:+ (if String.eqb host EmptyString then "127.0.0.1" else host) +:+ ":" +:+ port.

(** The sizes and the membership. *)
Definition raw_size (raw name : string) (set : Z → Config → Config) (c : Config) : result Config :=
  if String.eqb raw EmptyString then Ok c
  else match ParseSize raw with Ok n => Ok (set n c) | Err e => Err (Wrap name e) end.

Definition raw_peers (raw : string) (c : Config) : result Config :=
  if String.eqb raw EmptyString then Ok c
  else match ParsePeers raw with Ok ps => Ok (set_Peers ps c) | Err e => Err (Wrap "peers" e) end.

Definition default_peers (c : Config) : Config :=
  if bool_decide (cf_Peers c = []) then
    let c := set_Peers [mkPeer (cf_NodeName c) (defaultSelfURL (cf_ListenAddr c))] c in
    if 1 <? cf_ReplicaCount c then set_ReplicaCount 1 c else c
  else c.

Definition resolve (fl : Flags) : result Config :=
  and_then (λ c, Ok (default_peers c))
    (and_then (raw_peers (peersRaw fl))
      (and_then (raw_size (maxObjectRaw fl) "max-object-bytes" set_MaxObjectBytes)
        (raw_size (maxBytesRaw fl) "max-bytes" set_MaxBytes (fl_cfg fl)))).

Definition lower_case (c : Config) : Config :=
  set_LogFormat (ToLower (cf_LogFormat c)) (set_LogLevel (ToLower (cf_LogLevel c)) c).

Definition Load (url_Parse : string → result (string * string)) (args : list string) (env : environ)
    : result Config :=
  match Parse args (mkFlags Defaults EmptyString EmptyString EmptyString ∅) with
  | Err e => Err e
  | Ok fl =>
      match and_then resolve (env_fallbacks env fl) with
      | Err e => Err e
      | Ok c =>
          let c := lower_case c in
          match Validate url_Parse c with Some e => Err e | None => Ok c end
      end
  end.

(** ** Flags override the environment *)

(** The variables with the flag each one stands in for. *)
Definition env_flags : list (string * string) :=
  [("NODE_NAME", "node-name"); ("LISTEN", "listen"); ("ADVERTISE_URL", "advertise-url");
   ("DATA_DIR", "data-dir"); ("HIGH_WATER", "high-water"); ("LOW_WATER", "low-water");
   ("REPLICA_COUNT", "replica-count"); ("PEER_TIMEOUT", "peer-timeout");
   ("REPAIR_WORKERS", "repair-workers"); ("REPAIR_INTERVAL", "repair-interval");
   ("LOG_LEVEL", "log-level"); ("LOG_FORMAT", "log-format"); ("DEV", "dev");
   ("VERIFY_READS", "verify-reads")].

(** The flag of the variable was given; the flags of sizes and peers count only
    with a value that is not empty. *)
Definition overridden (var : string) (fl : Flags) : Prop :=
  (∃ flag, (var, flag) ∈ env_flags ∧ flag ∈ fl_set fl) ∨
  (var = "MAX_BYTES" ∧ maxBytesRaw fl ≠ EmptyString) ∨
  (var = "MAX_OBJECT_BYTES" ∧ maxObjectRaw fl ≠ EmptyString) ∨
  (var = "PEERS" ∧ peersRaw fl ≠ EmptyString).

(** The two stages do the same on flags that satisfy [P], which they keep. *)
Definition stage_agree (P : Flags → Prop) (s s' : Flags → result Flags) : Prop :=
  ∀ fl, P fl → s fl = s' fl ∧ ∀ fl', s fl = Ok fl' → P fl'.

Lemma fold_agree P l l' r :
  Forall2 (stage_agree P) l l' → (∀ fl, r = Ok fl → P fl) →
  fold_left (λ r s, and_then s r) l r = fold_left (λ r s, and_then s r) l' r.
Proof.
  intros H. revert r. induction H as [|s s' l l' Hs _ IH]; intros r Hr; [done|]. simpl.
  destruct r as [fl|e].
  - destruct (Hs fl (Hr fl eq_refl)) as [Heq Hk]. simpl. rewrite <-Heq. by apply IH.
  - by apply IH.
Qed.

Section override.
Context (env : environ) (var v : string).

Abbreviation env' := (<["KILNCACHE_" +:+ var := v]> env : environ).

Lemma Env_other w : w ≠ var → Env env' w = Env env w.
Proof. intros Hw. unfold Env. rewrite lookup_insert_ne; [done|]. by intros ->%(inj (String.append _)). Qed.

Lemma env_for_agree fl flag w :
  (w, flag) ∈ env_flags → overridden var fl → env_for env' fl flag w = env_for env fl flag w.
Proof.
  intros Hin Ho. unfold env_for. case_bool_decide as Hset; [done|].
  apply Env_other. intros ->. destruct Ho as [(flag' & Hin' & Hs)|Hraw].
  - assert (NoDup (fst <$> env_flags)) as Hnd by (apply (bool_decide_unpack _); vm_compute; exact I).
    assert ((var, flag) = (var, flag')) as [= ->] by (by apply (NoDup_fmap_inj_in fst env_flags)).
    done.
  - apply (list_elem_of_fmap_2 fst) in Hin. simpl in Hin.
    destruct Hraw as [[-> _]|[[-> _]|[-> _]]]; revert Hin; apply (bool_decide_unpack _); vm_compute; exact I.
Qed.

Lemma overridden_on_cfg f fl : overridden var fl → overridden var (on_cfg f fl).
Proof. done. Qed.

Lemma env_string_agree flag w set :
  (w, flag) ∈ env_flags →
  stage_agree (overridden var) (env_string env' flag w set) (env_string env flag w set).
Proof.
  intros Hin fl Ho. unfold env_string. rewrite env_for_agree by done. split; [done|].
  intros fl'. by destruct (env_for _ _ _ _); intros [= <-].
Qed.

Lemma env_parsed_agree {A} (parse : string → result A) flag w set :
  (w, flag) ∈ env_flags →
  stage_agree (overridden var) (env_parsed parse env' flag w set) (env_parsed parse env flag w set).
Proof.
  intros Hin fl Ho. unfold env_parsed. rewrite env_for_agree by done. split; [done|].
  intros fl'. destruct (env_for _ _ _ _) as [x|]; [destruct (parse x)|]; by intros [= <-].
Qed.

(** The raw values, their variables and their setters. *)
Definition raws : list ((Flags → string) * string * (string → Flags → Flags)) :=
  [(maxBytesRaw, "MAX_BYTES", set_maxBytesRaw); (maxObjectRaw, "MAX_OBJECT_BYTES", set_maxObjectRaw);
   (peersRaw, "PEERS", set_peersRaw)].

Lemma overridden_raw fl raw w set :
  (raw, w, set) ∈ raws → overridden var fl → w = var → raw fl ≠ EmptyString.
Proof.
  unfold raws. rewrite !elem_of_cons, elem_of_nil. intros Hin Ho <-.
  destruct Ho as [(flag & Hin' & _)|Ho].
  - apply (list_elem_of_fmap_2 fst) in Hin'. simpl in Hin'. exfalso.
    destruct Hin as [[= -> -> ->]|[[= -> -> ->]|[[= -> -> ->]|[]]]]; revert Hin'; apply (bool_decide_unpack _);
      vm_compute; exact I.
  - destruct Hin as [[= -> -> ->]|[[= -> -> ->]|[[= -> -> ->]|[]]]]; naive_solver.
Qed.

Lemma overridden_set_raw x fl raw w set :
  (raw, w, set) ∈ raws → overridden var fl → raw fl = EmptyString → overridden var (set x fl).
Proof.
  unfold raws. rewrite !elem_of_cons, elem_of_nil. unfold overridden.
  intros [[= -> -> ->]|[[= -> -> ->]|[[= -> -> ->]|[]]]] [?|Ho] He; simpl; (by left) || right; naive_solver.
Qed.

Lemma env_raw_agree raw w set :
  (raw, w, set) ∈ raws →
  stage_agree (overridden var) (env_raw env' raw w set) (env_raw env raw w set).
Proof.
  intros Hin fl Ho. unfold env_raw.
  destruct (String.eqb_spec (raw fl) EmptyString) as [He|He]; simpl; [|split; [done|by intros ? [= <-]]].
  rewrite Env_other by (intros ->; by eapply (overridden_raw fl)). split; [done|].
  intros fl'. destruct (Env env w); intros [= <-]; [|done]. by eapply overridden_set_raw.
Qed.

Lemma env_stages_agree : Forall2 (stage_agree (overridden var)) (env_stages env') (env_stages env).
Proof.
  unfold env_stages.
  repeat (constructor;
    [first [apply env_string_agree, (bool_decide_unpack _); vm_compute; exact I
           |apply env_parsed_agree, (bool_decide_unpack _); vm_compute; exact I
           |apply env_raw_agree; unfold raws; rewrite !elem_of_cons; auto]|]).
  constructor.
Qed.
End override.

(** ** Peer lists *)

Definition peer_text (p : Peer) : string := PName p +:+ "=" +:+ PURL p.

(** A peer that can be written in the name=url form. *)
Definition peer_ok (p : Peer) : Prop :=
  PName p ≠ EmptyString ∧ trimmed (PName p) ∧ free_of "," (PName p) ∧ free_of "=" (PName p) ∧
  PURL p ≠ EmptyString ∧ trimmed (PURL p) ∧ free_of "," (PURL p) ∧ TrimRight (PURL p) "/" = PURL p.

Lemma peer_text_ok p :
  peer_ok p → peer_text p ≠ EmptyString ∧ trimmed (peer_text p) ∧ free_of "," (peer_text p).
Proof.
  intros (Hn & Hnt & Hnc & _ & Hu & Hut & Huc & _). unfold peer_text.
  split; [by destruct (PName p)|]. split; [by apply trimmed_append|].
  apply free_of_append; [done|]. apply free_of_append; [|done].
  apply free_of_cons. split; [done|]. apply not_elem_of_nil.
Qed.

Lemma join_right l :
  l ≠ [] → Forall (λ s, s ≠ EmptyString ∧ trimmed s) l →
  SJoin l "," ≠ EmptyString ∧ TrimRightFunc is_space (SJoin l ",") = SJoin l ",".
Proof.
  induction l as [|x l IH]; [done|]. intros _ Hall. apply Forall_cons in Hall as [[Hx Ht] Hall].
  destruct l as [|y l]; [split; [done|by apply trimmed_right]|].
  destruct IH as [Hne Hr]; [done..|].
  change (SJoin (x :: y :: l) ",") with (x +:+ "," +:+ SJoin (y :: l) ",").
  split; [by destruct x|]. rewrite <-append_assoc. by apply TrimRightFunc_append.
Qed.

Lemma join_trimmed l :
  l ≠ [] → Forall (λ s, s ≠ EmptyString ∧ trimmed s) l → trimmed (SJoin l ",") ∧ SJoin l "," ≠ EmptyString.
Proof.
  intros Hl Hall. destruct (join_right l Hl Hall) as [Hne Hr]. split; [|done].
  unfold trimmed, TrimSpace. destruct l as [|x l]; [done|]. apply Forall_cons in Hall as [[Hx Ht] _].
  destruct (SJoin_cons_cases x l ",") as [m Hm]. rewrite Hm in *.
  rewrite TrimLeftSpace_append; [done..|by apply trimmed_left].
Qed.

Lemma parse_parts_texts peers : Forall peer_ok peers → parse_parts (peer_text <$> peers) = Ok peers.
Proof.
  induction 1 as [|p ps Hp _ IH]; [done|]. cbn [fmap list_fmap parse_parts]. rewrite IH.
  destruct (peer_text_ok p Hp) as (Hne & -> & _).
  destruct (String.eqb_spec (peer_text p) EmptyString); [done|].
  destruct Hp as (Hn & Hnt & _ & Hnf & Hu & Hut & _ & Htr). unfold peer_text.
  change ("=" +:+ PURL p) with (String "=" (PURL p)). rewrite Cut_append by done. simpl. rewrite Hnt, Hut.
  destruct (String.eqb_spec (PName p) EmptyString); [done|].
  destruct (String.eqb_spec (PURL p) EmptyString); [done|]. simpl. rewrite Htr. by destruct p.
Qed.

Lemma Cut_name_free s sep a b : Cut s sep = (a, b, true) → free_of sep a.
Proof.
  revert a. induction s as [|c s IH]; intros a; [done|]. simpl. destruct (Ascii.eqb_spec c sep) as [|Hne].
  - intros [= <- _]. apply not_elem_of_nil.
  - destruct (Cut s sep) as [[a' b'] ok]. intros [= <- <- ->]. apply free_of_cons. split; [done|by apply IH].
Qed.

(** What is parsed has names the ring accepts as they are. *)
Definition name_ok (p : Peer) : Prop := PName p ≠ EmptyString ∧ trimmed (PName p).

Lemma parse_parts_names parts peers : parse_parts parts = Ok peers → Forall name_ok peers.
Proof.
  revert peers. induction parts as [|s ps IH]; intros peers; simpl; [by intros [= <-]|].
  destruct (String.eqb _ _); [apply IH|]. destruct (Cut (TrimSpace s) "=") as [[n u] ok]. destruct ok; [|done].
  simpl. destruct (String.eqb_spec (TrimSpace n) EmptyString); [done|]. destruct (String.eqb _ _); [done|].
  simpl. destruct (parse_parts ps) as [l|]; [|done]. intros [= <-]. constructor; [|by apply IH].
  split; [done|apply TrimSpace_trimmed].
Qed.

Lemma ParsePeers_names s peers : ParsePeers s = Ok peers → Forall name_ok peers.
Proof.
  unfold ParsePeers. destruct (String.eqb _ _); [by intros [= <-]|apply parse_parts_names].
Qed.

(** ** Claims *)

Definition start_flags : Flags := mkFlags Defaults EmptyString EmptyString EmptyString ∅.

(** Flags win over the environment.  When the command line gave the flag of
    a setting, and for the sizes and the peers gave it a value that is not empty,
    no value of the setting's variable, well-formed or not, changes what [Load]
    returns. *)
Theorem flag_overrides_environment url_Parse args env var v fl :
  Parse args start_flags = Ok fl → overridden var fl →
  Load url_Parse args (<["KILNCACHE_" +:+ var := v]> env) = Load url_Parse args env.
Proof.
  intros HP Ho. unfold Load. fold start_flags. rewrite HP. unfold env_fallbacks.
  rewrite (fold_agree (overridden var) _ (env_stages env) (Ok fl) (env_stages_agree env var v)); [done|].
  by intros fl' [= <-].
Qed.

(** Peer lists round-trip.  A membership written in the name=url form is
    parsed back exactly; and whatever is parsed has names that are not empty and
    have no surrounding space, so the ring uses them as they are. *)
Theorem parse_peers_roundtrip :
  (∀ peers, Forall peer_ok peers → ParsePeers (SJoin (peer_text <$> peers) ",") = Ok peers) ∧
  (∀ s peers, ParsePeers s = Ok peers → Forall name_ok peers).
Proof.
  split; [|apply ParsePeers_names]. intros peers Hall. unfold ParsePeers.
  destruct peers as [|p ps]; [done|]. set (l := peer_text <$> p :: ps).
  assert (Forall (λ s, s ≠ EmptyString ∧ trimmed s) l) as Hl.
  { apply Forall_fmap. eapply Forall_impl; [done|]. intros q Hq. by destruct (peer_text_ok q Hq) as (? & ? & _). }
  destruct (join_trimmed l) as [Ht Hne]; [done..|]. unfold trimmed in Ht. rewrite !Ht.
  destruct (String.eqb_spec (SJoin l ",") EmptyString); [done|].
  rewrite (Split_SJoin "," l); [by apply parse_parts_texts|done|].
  apply Forall_fmap. eapply Forall_impl; [done|]. intros q Hq. by destruct (peer_text_ok q Hq) as (_ & _ & ?).
Qed.

(** ** Witnesses and a finding *)

Definition two_peers : string := "node-a=http://a:8080, node-b=http://b:8080/".

Definition http_only (s : string) : result (string * string) :=
  if HasPrefix s "http://" then Ok ("http", TrimPrefix s "http://")
  else Err (Errorf "unsupported protocol scheme").

Definition given : result Flags := Parse ["-node-name=node-b"; "--peers"; two_peers] start_flags.

Lemma given_overrides :
  match given with Ok fl => bool_decide ("node-name" ∈ fl_set fl) | Err _ => false end = true.
Proof. vm_compute. reflexivity. Qed.

Lemma flag_overrides_environment_witness :
  Load http_only ["-node-name=node-b"; "--peers"; two_peers] {["KILNCACHE_NODE_NAME" := "node-z"]} =
  Load http_only ["-node-name=node-b"; "--peers"; two_peers] ∅.
Proof.
  pose proof given_overrides as H. destruct given as [fl|e] eqn:E; [|discriminate].
  apply (flag_overrides_environment http_only ["-node-name=node-b"; "--peers"; two_peers] ∅ "NODE_NAME" "node-z" fl).
  - exact E.
  - left. exists "node-name". split; [left|exact (bool_decide_eq_true_1 _ H)].
Defined.

(** Sizes that do not fit wrap instead of being refused, and a quota of NaN is
    not refused either. *)
Example size_overflow : ParseSize "9000000TiB" = Ok (- 2 ^ 63).
Proof. vm_compute. reflexivity. Qed.

Example nan_quota_is_valid :
  match Load http_only ["-high-water=NaN"] ∅ with Ok c => cf_HighWater c = SpecFloat.S754_nan | Err _ => False end.
Proof. vm_compute. reflexivity. Qed.
