(* ===== verification/Node.v ===== *)
(** * Assembling a node: internal/node/node.go, internal/httpapi/server.go and internal/metrics

    [node_New] builds the parts of a node from its configuration, in the order
    and with the clean-up of the source; [NewServer] binds the
    address, [server_Run] and [node_Run] are the serving phase with the readiness
    it announces; [metricSources] are the metrics a node derives from its counters
    and [RegisterSources] their registration, where the registry is prometheus's and only its answer is
    modelled.  The store is one object the coordinator and the evictor share: a
    node keeps it in its coordinator, and [evictor_of] is the evictor on it. *)

From S2P Require Import Prelude GoStrings Sha256 Errors Key Config Ring Protocol Index FileSystem Store StoreSpec GoFloat Strconv Restart Evict Client Coordinator HttpApi Cluster Repair LoadConfig.

#[local] Open Scope Z_scope.

(** ** The server *)

(** What [NewServer] makes of the configuration and the bound listener. *)
Record Server := mkServer {
  sv_addr : string;
  sv_ReadHeaderTimeout : Z;
  sv_WriteTimeout : Z;
  sv_IdleTimeout : Z;
  sv_ShutdownTimeout : Z }.

(** [listen] is net.Listen, with the address it bound. *)
Definition NewServer (listen : string → result string) (cfg : Config) : result Server :=
  match listen (cf_ListenAddr cfg) with
  | Err e => Err (Wrap ("listen on " +:+ cf_ListenAddr cfg) e)
  | Ok addr => Ok (mkServer addr (cf_ReadHeaderTimeout cfg) (cf_WriteTimeout cfg) (cf_IdleTimeout cfg) (cf_ShutdownTimeout cfg))
  end.

Definition server_Addr (s : Server) : string := sv_addr s.

(** What [Serve] and [Close] of http.Server return, and the error the server makes
    of it. *)
Inductive http_result := ErrServerClosed | HttpReturned (e : option error).

Definition unless_closed (r : http_result) : option error :=
  match r with ErrServerClosed => None | HttpReturned e => e end.

(** How serving ended: by itself, or after a cancellation with the results of
    [Shutdown] and of [Serve]. *)
Inductive serve_end := ServeReturned (serve : http_result) | Drained (shutdown : option error) (serve : http_result).

Definition server_Run (ev : serve_end) (h : Health) : Health * option error :=
  match ev with
  | ServeReturned serve => (h, unless_closed serve)
  | Drained shutdownErr serve =>
      (SetNotReady "shutting down" h,
       match unless_closed serve with
       | Some e => Some e
       | None =>
           match shutdownErr with
           | Some e => if errors_Is e IsDeadlineExceeded then None else Some e
           | None => None
           end
       end)
  end.

Definition server_Close (close : http_result) : option error := unless_closed close.

(** ** The node *)

Record Node := mkNode {
  nd_cfg : Config;
  nd_health : Health;
  nd_coord : Coordinator;
  nd_evictor : Evictor;
  nd_repair : option Worker;
  nd_router : RouterOptions;
  nd_cache : CacheHandler;
  nd_server : option Server }.

Definition evictor_of (n : Node) : Evictor := set_store (local (nd_coord n)) (nd_evictor n).

Definition set_health (h : Health) (n : Node) : Node :=
  mkNode (nd_cfg n) h (nd_coord n) (nd_evictor n) (nd_repair n) (nd_router n) (nd_cache n) (nd_server n).

Definition set_server (s : Server) (n : Node) : Node :=
  mkNode (nd_cfg n) (nd_health n) (nd_coord n) (nd_evictor n) (nd_repair n) (nd_router n) (nd_cache n) (Some s).

(** The address of the node; [None] is the panic of a node without a server. *)
Definition node_Addr (n : Node) : option string := server_Addr <$> nd_server n.
Definition node_BaseURL (n : Node) : option string := String.app "http://" <$> node_Addr n.

(** [usage]: what the index says, or nothing. *)
Definition usage (fault : option error) (n : Node) : Z * Z :=
  match index (local (nd_coord n)) with
  | None => (0, 0)
  | Some idx => match (Totals fault idx).2 with Err _ => (0, 0) | Ok ob => ob end
  end.

Definition usageObjects (fault : option error) (n : Node) : Z := (usage fault n).1.
Definition usageBytes (fault : option error) (n : Node) : Z := (usage fault n).2.

(** ** Metrics *)

Record Source := mkSource {
  src_Name : string; src_Help : string; src_Counter : bool; src_Labels : list (string * string);
  src_Value : Node → float64 }.

(** A counter of the store, the coordinator, the evictor, the index and the
    repair worker, as a number. *)
Definition store_count (k : counter) (n : Node) : float64 :=
  of_int (stat_of_counter (stats (local (nd_coord n))) k).
Definition coord_count (k : ccounter) (n : Node) : float64 := of_int (cstats (nd_coord n) k).
Definition evict_count (k : EvictorStats → Z) (n : Node) : float64 := of_int (k (ev_stats (nd_evictor n))).
Definition quota_count (k : Quota → Z) (n : Node) : float64 := of_int (k (quota (nd_evictor n))).
Definition index_count (k : IndexStats → Z) (n : Node) : float64 :=
  of_int (match index (local (nd_coord n)) with Some idx => k (Index.stats idx) | None => 0 end).
Definition worker_count (k : Worker → Z) (n : Node) : float64 :=
  of_int (match nd_repair n with Some w => k w | None => 0 end).
Definition repair_count (k : rcounter) : Node → float64 := worker_count (λ w, rstats w k).

Definition counter_source (name help : string) (v : Node → float64) : Source := mkSource name help true [] v.
Definition gauge_source (name help : string) (v : Node → float64) : Source := mkSource name help false [] v.

Definition hits_help : string := "Reads served, by where the bytes came from.".

Definition base_sources : list Source :=
  [counter_source "bytes_in_total" "Object bytes received." (store_count BytesIn);
   counter_source "bytes_out_total" "Object bytes served." (store_count BytesOut);
   counter_source "puts_total" "Objects written to local disk." (store_count PutsOK);
   counter_source "puts_rejected_total" "Writes rejected before publication." (store_count PutsRejected);
   counter_source "puts_already_stored_total" "Writes that were no-ops." (store_count PutsAlreadyStored);
   counter_source "verify_failures_total"
     "Objects that failed digest verification while being served. Should be zero; anything else is local corruption."
     (store_count VerifyFailures);
   mkSource "hits_total" hits_help true [("source", "local")] (coord_count LocalHits);
   mkSource "hits_total" hits_help true [("source", "peer")] (coord_count PeerHits);
   counter_source "misses_total" "Reads that found nothing anywhere." (coord_count Misses);
   counter_source "read_fallbacks_total" "Reads served by a peer after the local copy was absent."
     (coord_count ReadFallbacks);
   counter_source "replication_attempts_total" "Replica writes attempted against peers."
     (λ n, of_int (cstats (nd_coord n) ReplicaWrites + cstats (nd_coord n) ReplicaFailures));
   counter_source "replication_failures_total" "Replica writes that failed." (coord_count ReplicaFailures);
   counter_source "insufficient_replicas_total"
     "PUTs refused because the required number of copies could not be written." (coord_count InsufficientAcks);
   counter_source "proxied_puts_total" "PUTs this node forwarded to an owner." (coord_count ForwardedPuts);
   counter_source "repair_declined_over_quota_total"
     "Repair copies this node declined because it is above its high-water mark." (coord_count RepairDeclined);
   gauge_source "quota_bytes" "Configured per-node disk quota." (quota_count MaxBytes);
   gauge_source "high_water_bytes" "Usage at which eviction begins." (quota_count HighBytes);
   gauge_source "low_water_bytes" "Usage that eviction drains down to." (quota_count LowBytes);
   counter_source "evictions_total" "Objects evicted to stay within the quota." (evict_count Evicted);
   counter_source "evicted_bytes_total" "Bytes reclaimed by eviction." (evict_count BytesReclaimed);
   counter_source "eviction_sweeps_total" "Eviction sweeps that found work to do." (evict_count Sweeps);
   counter_source "eviction_failures_total" "Objects eviction could not remove." (evict_count Failures)].

Definition index_sources (fault : option error) : list Source :=
  [gauge_source "stored_bytes" "Object bytes currently held, from the metadata index."
     (λ n, of_int (usageBytes fault n));
   gauge_source "stored_objects" "Objects currently held." (λ n, of_int (usageObjects fault n));
   counter_source "index_touches_written_total" "Access-time updates written to the index."
     (index_count TouchesWritten);
   counter_source "index_touches_dropped_total"
     "Access-time updates dropped because the queue was full. Nonzero means eviction is ranking on slightly stale information."
     (index_count TouchesDropped)].

Definition repair_sources : list Source :=
  [gauge_source "repair_queue_depth" "Objects waiting to be checked by the repair worker."
     (worker_count (λ w, Z.of_nat (length (queue w))));
   gauge_source "repair_queue_capacity" "Repair queue capacity." (worker_count queue_cap);
   counter_source "repair_completed_total" "Missing replicas recreated." (repair_count Repaired);
   counter_source "repair_bytes_total" "Bytes sent to recreate missing replicas." (repair_count BytesRepaired);
   counter_source "repair_failed_total"
     "Repair attempts that failed. Excludes copies declined by a holder that is over quota." (repair_count Failed);
   counter_source "repair_audited_total" "Objects examined by the repair auditor." (repair_count ObjectsAudited);
   counter_source "repair_dropped_full_queue_total"
     "Audit tasks not queued because the queue was full. The pass resumes at that object, so nothing is skipped."
     (repair_count DroppedFullQueue)].

Definition metricSources (fault : option error) (n : Node) : list Source :=
  base_sources ++
  match index (local (nd_coord n)) with Some _ => index_sources fault | None => [] end ++
  match nd_repair n with Some _ => repair_sources | None => [] end.

(** The check of the help strings: the name registered twice, with both texts. *)
Fixpoint check_helps (helps : gmap string string) (l : list Source) : option error :=
  match l with
  | [] => None
  | s :: l' =>
      match helps !! src_Name s with
      | Some prev =>
          if String.eqb prev (src_Help s) then check_helps (<[src_Name s := src_Help s]> helps) l'
          else Some (Errorf ("metric " +:+ quoted (src_Name s) +:+
                 " registered twice with different help strings; every series of one metric must share one help " +:+
                 "string describing the metric, not the series:" +:+ String "010" "  " +:+ quoted prev +:+
                 String "010" "  " +:+ quoted (src_Help s)))
      | None => check_helps (<[src_Name s := src_Help s]> helps) l'
      end
  end.

(** The registry is asked for each collector, by its name and labels; [seen] are
    those it has. *)
Abbreviation registry :=
  (list (string * list (string * string)) → string → list (string * string) → bool → option error).

Fixpoint register_all (register : registry) (seen : list (string * list (string * string)))
    (l : list Source) : option error :=
  match l with
  | [] => None
  | s :: l' =>
      match register seen (src_Name s) (src_Labels s) (src_Counter s) with
      | Some e => Some e
      | None => register_all register ((src_Name s, src_Labels s) :: seen) l'
      end
  end.

Definition RegisterSources (register : registry) (l : list Source) : option error :=
  match check_helps ∅ l with Some e => Some e | None => register_all register [] l end.

(** ** New *)

(** What starting meets: the working directory, the disk and the database, the
    metrics registry and the listener. *)
Record StartEnv := mkStartEnv {
  se_wd : option string;
  se_open : OpenEnv;
  se_close : TxEnv * option error * option error;
  se_totals : option error;
  se_register : registry;
  se_listen : string → result string }.

(** [closeAll] of a node that is not handed out: what is left on the disk. *)
Definition closeAll (env : StartEnv) (st : Store) : files :=
  tree (Store.Close (se_close env).1.1 (se_close env).1.2 (se_close env).2 st).1.

Definition node_quota (cfg : Config) : Quota :=
  mkQuota (cf_MaxBytes cfg) (cf_HighWater cfg) (cf_LowWater cfg).

(** The repair worker, when repair is enabled. *)
Definition new_repair (cfg : Config) (c : Coordinator) : result (option Worker) :=
  if 0 <? cf_RepairWorkers cfg then
    match Repair.New (Some c) (cf_RepairWorkers cfg) (cf_RepairQueue cfg) 0 with
    | Ok w => Ok (Some w)
    | Err e => Err e
    end
  else Ok None.

(** The parts on an open store. *)
Definition assemble (env : StartEnv) (cfg : Config) (health : Health) (st : Store) : result Node :=
  match Ring.New (cf_Peers cfg) (cf_NodeName cfg) with
  | Err e => Err (Wrap "build ring" e)
  | Ok r =>
      match NewCoordinator (Some r) (Some st) (cf_ReplicaCount cfg) with
      | Err e => Err (Wrap "build coordinator" e)
      | Ok c =>
          match NewEvictor (mkEvictorOptions (Some st) (node_quota cfg) (mkEvictionPolicy 0 0) 0) with
          | Err e => Err (Wrap "build evictor" e)
          | Ok ev =>
              let st := AttachEvictor st in
              let c := SetQuotaProbe (quota_probe (se_totals env) (quota ev)) (set_local st c) in
              match new_repair cfg c with
              | Err e => Err (Wrap "build repair worker" e)
              | Ok rw =>
                  let n := mkNode cfg health c (set_store st ev) rw
                             (mkRouterOptions (cf_NodeName cfg) (cf_DevMode cfg) true)
                             (mkCacheHandler (cf_NodeName cfg) (cf_MaxObjectBytes cfg) true) None in
                  match RegisterSources (se_register env) (metricSources (se_totals env) n) with
                  | Some e => Err (Wrap "register metrics" e)
                  | None =>
                      match NewServer (se_listen env) cfg with
                      | Err e => Err e
                      | Ok srv => Ok (set_server srv n)
                      end
                  end
              end
          end
      end
  end.

(** [New] on the disk [f]: what is on the disk afterwards, and the node. *)
Definition node_New {Scan : SqlScan} (url_Parse : string → result (string * string)) (env : StartEnv)
    (cfg : Config) (f : files) : files * result Node :=
  match Validate url_Parse cfg with
  | Some e => (f, Err (Wrap "config" e))
  | None =>
      let health := SetNotReady "reconciling the index against disk"
                      (SetNotReady "opening object store" NewHealth) in
      let opts := mkOptions (AbsDataDir (se_wd env) cfg) (cf_MaxObjectBytes cfg) (cf_VerifyReads cfg) false in
      match Open (se_open env) opts f with
      | (f, Err e) => (f, Err (Wrap "open store" e))
      | (f, Ok st) =>
          match assemble env cfg health st with
          | Err e => (closeAll env st, Err e)
          | Ok n => (tree (local (nd_coord n)), Ok n)
          end
      end
  end.

(** The serving phase of [Run]: ready once the workers are started, and the
    server's verdict. *)
Definition node_Run (ev : serve_end) (n : Node) : Node * option error :=
  let n := set_health (SetReady (nd_health n)) n in
  let '(h, e) := server_Run ev (nd_health n) in
  (set_health h n, e).

(** ** Lemmas *)

(** What [Validate] promises. *)
Record validated (c : Config) : Prop := {
  v_node : TrimSpace (cf_NodeName c) ≠ EmptyString;
  v_quota : Quota_Valid (node_quota c) = None;
  v_object : 0 < cf_MaxObjectBytes c;
  v_replicas : 1 ≤ cf_ReplicaCount c ≤ Z.of_nat (length (cf_Peers c));
  v_repair : 0 ≤ cf_RepairWorkers c ∧ 1 ≤ cf_RepairQueue c;
  v_names : NoDup (PName <$> cf_Peers c) ∧ Forall (λ p, TrimSpace (PName p) ≠ EmptyString) (cf_Peers c);
  v_self : cf_NodeName c ∈ PName <$> cf_Peers c }.

Lemma validate_peers_spec url_Parse me seen self peers b :
  validate_peers url_Parse me seen self peers = Ok b →
  NoDup (PName <$> peers) ∧ (∀ p, p ∈ peers → PName p ∉ seen) ∧
  Forall (λ p, TrimSpace (PName p) ≠ EmptyString) peers ∧ (b = true → self = true ∨ me ∈ PName <$> peers).
Proof.
  revert seen self. induction peers as [|p ps IH]; intros seen self; simpl.
  { intros [= <-]. split; [constructor|]. split; [intros p; by rewrite elem_of_nil|]. split; [constructor|auto]. }
  destruct (String.eqb_spec (TrimSpace (PName p)) EmptyString); [done|]. case_bool_decide as Hs; [done|].
  destruct (url_Parse (PURL p)) as [[scheme host]|]; [|done]. destruct (_ && _); [done|].
  destruct (String.eqb host EmptyString); [done|]. intros (Hnd & Hfr & Hall & Hb)%IH.
  split; [|split; [|split]].
  - constructor; [|done]. intros (q & Hq & Hin)%list_elem_of_fmap. apply (Hfr q Hin). rewrite <-Hq. set_solver.
  - intros q [->|Hin]%elem_of_cons; [done|]. specialize (Hfr q Hin). set_solver.
  - by constructor.
  - intros [Hor|Hin]%Hb; [|right; by right]. apply orb_true_iff in Hor as [?|E%String.eqb_eq]; [by left|].
    right. rewrite <-E. left.
Qed.

Lemma Validate_None url_Parse c : Validate url_Parse c = None → validated c.
Proof.
  unfold Validate.
  destruct (String.eqb_spec (TrimSpace (cf_NodeName c)) EmptyString); [done|].
  destruct (String.eqb _ _); [done|]. destruct (String.eqb _ _); [done|].
  destruct (Z.leb_spec (cf_MaxBytes c) 0); [done|]. destruct (Z.leb_spec (cf_MaxObjectBytes c) 0); [done|].
  destruct (fle (cf_HighWater c) (of_int 0) || flt one (cf_HighWater c)) eqn:Hh; [done|].
  destruct (fle (cf_LowWater c) (of_int 0) || fle (cf_HighWater c) (cf_LowWater c)) eqn:Hl; [done|].
  destruct (Z.ltb_spec (cf_ReplicaCount c) 1); [done|]. case_bool_decide; [done|].
  destruct (Z.ltb_spec (Z.of_nat (length (cf_Peers c))) (cf_ReplicaCount c)); [done|].
  destruct (Z.ltb_spec (cf_RepairWorkers c) 0); [done|]. destruct (Z.ltb_spec (cf_RepairQueue c) 1); [done|].
  destruct (validate_peers _ _ _ _ _) as [[]|] eqn:Hp; [|done..]. intros _.
  apply validate_peers_spec in Hp as (Hnd & _ & Hall & Hs). split; try done.
  - unfold Quota_Valid. simpl. destruct (Z.leb_spec (cf_MaxBytes c) 0); [lia|]. by rewrite Hh, Hl.
  - by destruct (Hs eq_refl).
Qed.

(** A validated membership whose names have no surrounding space makes a ring. *)
Lemma validated_ring c :
  validated c → Forall (λ p, trimmed (PName p)) (cf_Peers c) →
  ∃ r, Ring.New (cf_Peers c) (cf_NodeName c) = Ok r.
Proof.
  intros [Hn _ _ Hr _ [Hnd Hall] Hself] Ht. eexists. apply New_Ok.
  assert (peer_name <$> cf_Peers c = PName <$> cf_Peers c) as Heq.
  { apply list_fmap_ext. intros i p Hp%list_elem_of_lookup_2. rewrite Forall_forall in Ht. by apply Ht. }
  rewrite Heq. split; [intros He; rewrite He in Hr; simpl in Hr; lia|]. split; [done|]. split; [|split; [by right|done]].
  apply Forall_fmap, Forall_forall. intros p Hp He. rewrite Forall_forall in Hall, Ht.
  apply (Hall p Hp). by rewrite (Ht p Hp).
Qed.

(** No flag and no variable sets the parsed membership. *)
Definition same_peers (fl fl' : Flags) : Prop := cf_Peers (fl_cfg fl') = cf_Peers (fl_cfg fl).

Lemma flag_num_peers {A} (p : parsed A) (k : A → Flags) fl' fl :
  (∀ a, same_peers fl (k a)) → flag_num p k = inr fl' → same_peers fl fl'.
Proof. intros Hk. destruct p as [a|[]]; [|done..]. by intros [= <-]. Qed.

Lemma flag_set_peers name f v fl fl' :
  (name, f) ∈ flag_set → flag_Set f v fl = inr fl' → same_peers fl fl'.
Proof.
  unfold flag_set. rewrite !elem_of_cons, elem_of_nil. intros H.
  repeat (destruct H as [[= -> ->]|H]; [simpl; first
    [by intros [= <-]|by apply flag_num_peers|by destruct (parse_duration v); intros [= <-]
    |by destruct (parse_bool v); intros [= <-]]|]). done.
Qed.

Lemma give_peers name f v fl fl' :
  lookup_flag name = Some f → give name f v fl = Ok fl' → same_peers fl fl'.
Proof.
  unfold lookup_flag. intros ([n g] & Hf & E)%fmap_Some. simpl in E. subst g.
  apply find_some in Hf as [Hin _]. unfold give. destruct (flag_Set f v fl) as [|fl1] eqn:HS; [done|].
  intros [= <-]. apply list_elem_of_In in Hin. by apply (flag_set_peers n f v fl fl1) in HS.
Qed.

Lemma Parse_peers args fl fl' : Parse args fl = Ok fl' → same_peers fl fl'.
Proof.
  remember (length args) as k eqn:Hk. revert args fl Hk. induction (lt_wf k) as [k _ IH].
  intros [|s rest] fl ->; cbn [Parse]; [by intros [= <-]|].
  destruct (flag_word s) as [| | |name value]; [by intros [= <-]|by intros [= <-]|done|].
  destruct (lookup_flag name) as [f|] eqn:Hf; [|by destruct (_ || _)].
  assert (Hgo : ∀ v rest', (length rest' ≤ length rest)%nat →
    match give name f v fl with Ok fl => Parse rest' fl | Err e => Err e end = Ok fl' → same_peers fl fl').
  { intros v rest' Hl. destruct (give name f v fl) as [fl1|] eqn:Hg; [|done]. intros HP.
    apply (give_peers _ _ _ _ _ Hf) in Hg. unfold same_peers in *. rewrite <-Hg.
    apply (IH (length rest')) with (args := rest'); [simpl; lia|done|done]. }
  destruct value as [v|]; [by apply Hgo|]. destruct (is_bool_flag f); [by apply Hgo|].
  destruct rest as [|v rest']; [done|]. apply Hgo. simpl. lia.
Qed.

Lemma env_stage_peers env : Forall (λ stage, ∀ fl fl', stage fl = Ok fl' → same_peers fl fl') (env_stages env).
Proof.
  unfold env_stages. repeat (constructor; [intros fl fl';
    first [unfold env_string; by destruct (env_for _ _ _ _); intros [= <-]
          |unfold env_raw; destruct (negb _); [by intros [= <-]|]; by destruct (Env _ _); intros [= <-]
          |unfold env_parsed; destruct (env_for _ _ _ _) as [x|]; [|by intros [= <-]];
           case_match; by intros [= <-]]|]). constructor.
Qed.

Lemma env_fallbacks_peers env fl fl' : env_fallbacks env fl = Ok fl' → same_peers fl fl'.
Proof.
  unfold env_fallbacks. pose proof (env_stage_peers env) as Hall. revert fl.
  induction Hall as [|st l Hst _ IH]; intros fl; simpl; [by intros [= <-]|].
  destruct (st fl) as [fl1|e] eqn:Hs.
  - intros H%IH. apply Hst in Hs. unfold same_peers in *. congruence.
  - intros H. exfalso. revert H. clear. induction l as [|s l IH]; simpl; [done|apply IH].
Qed.

(** A loaded configuration is validated, and its membership has names without
    surrounding space when this node's name has none. *)
Lemma Load_Ok url_Parse args env c :
  Load url_Parse args env = Ok c →
  Validate url_Parse c = None ∧ (trimmed (cf_NodeName c) → Forall (λ p, trimmed (PName p)) (cf_Peers c)).
Proof.
  unfold Load. fold start_flags. destruct (Parse args start_flags) as [fl|e] eqn:HP; [|done].
  apply Parse_peers in HP. destruct (env_fallbacks env fl) as [fl1|e] eqn:HE; [|done]. simpl.
  apply env_fallbacks_peers in HE. unfold same_peers in *. rewrite HP in HE. simpl in HE.
  unfold resolve. destruct (raw_size _ _ _ _) as [c1|e] eqn:H1; [|done]. simpl.
  destruct (raw_size _ _ _ c1) as [c2|e] eqn:H2; [|done]. simpl.
  destruct (raw_peers _ c2) as [c3|e] eqn:H3; [|done]. simpl.
  destruct (Validate _ _) eqn:HV; [done|]. intros [= <-]. split; [done|].
  assert (cf_Peers c2 = []) as Hc2.
  { unfold raw_size in H1, H2. repeat case_match; simplify_eq/=; done. }
  assert (Forall name_ok (cf_Peers c3)) as Hc3.
  { unfold raw_peers in H3. destruct (String.eqb _ _); [injection H3 as <-; rewrite Hc2; constructor|].
    destruct (ParsePeers _) as [ps|] eqn:Hps; [|done]. injection H3 as <-. by apply ParsePeers_names in Hps. }
  unfold default_peers. case_bool_decide as Hnil.
  - assert (∀ d, cf_Peers (lower_case d) = cf_Peers d ∧ cf_NodeName (lower_case d) = cf_NodeName d) as Hlc by done.
    intros Ht. destruct (1 <? _); by constructor.
  - intros _. change (cf_Peers (lower_case c3)) with (cf_Peers c3).
    eapply Forall_impl; [exact Hc3|]. by intros p [_ ?].
Qed.

(** The collectors of a node have one help text per name, and distinct names and
    labels. *)
Definition series (s : Source) : string * list (string * string) := (src_Name s, src_Labels s).

Lemma metricSources_helps fault n : check_helps ∅ (metricSources fault n) = None.
Proof.
  unfold metricSources. destruct (index (local (nd_coord n))), (nd_repair n); vm_compute; reflexivity.
Qed.

Lemma metricSources_distinct fault n : NoDup (series <$> metricSources fault n).
Proof.
  apply (bool_decide_unpack _). unfold metricSources.
  destruct (index (local (nd_coord n))), (nd_repair n); vm_compute; exact I.
Qed.

(** The registry refuses only what it already has. *)
Definition registry_ok (register : registry) : Prop :=
  ∀ seen name labels c, (name, labels) ∉ seen → register seen name labels c = None.

Lemma register_all_fresh register seen l :
  registry_ok register → NoDup (series <$> l) → (∀ s, s ∈ l → series s ∉ seen) →
  register_all register seen l = None.
Proof.
  intros Hreg. revert seen. induction l as [|s l IH]; intros seen Hnd Hfr; simpl; [done|].
  rewrite fmap_cons in Hnd. apply NoDup_cons in Hnd as [Hni Hnd].
  rewrite Hreg by (apply (Hfr s); left). apply IH; [done|]. intros s' Hs'. apply not_elem_of_cons. split.
  - intros He. apply Hni. change (src_Name s, src_Labels s) with (series s) in He. rewrite <-He.
    by apply list_elem_of_fmap_2.
  - apply Hfr. by right.
Qed.

Lemma RegisterSources_node register fault n :
  registry_ok register → RegisterSources register (metricSources fault n) = None.
Proof.
  intros Hreg. unfold RegisterSources. rewrite metricSources_helps.
  apply register_all_fresh; [done|apply metricSources_distinct|]. intros s _. apply not_elem_of_nil.
Qed.

(** What an assembled node is made of. *)
Record assembled (env : StartEnv) (cfg : Config) (health : Health) (st : Store) (n : Node) : Prop := {
  as_cfg : nd_cfg n = cfg;
  as_health : nd_health n = health;
  as_ring : Ring.New (cf_Peers cfg) (cf_NodeName cfg) = Ok (ring (nd_coord n));
  as_store : local (nd_coord n) = AttachEvictor st;
  as_evictor : evictor_of n = nd_evictor n ∧ quota (nd_evictor n) = node_quota cfg;
  as_probe : quotaProbe (nd_coord n) = Some (quota_probe (se_totals env) (node_quota cfg));
  as_replicas : validated cfg → replicaCount (nd_coord n) = cf_ReplicaCount cfg;
  as_repair : is_Some (nd_repair n) ↔ 0 < cf_RepairWorkers cfg;
  as_server : ∃ srv, NewServer (se_listen env) cfg = Ok srv ∧ nd_server n = Some srv }.

Lemma New_size peers self r : Ring.New peers self = Ok r → Ring.Size r = Z.of_nat (length peers).
Proof. intros H%New_members. unfold Ring.Size. by rewrite H, length_fmap. Qed.

Lemma assemble_inv env cfg health st n :
  assemble env cfg health st = Ok n → assembled env cfg health st n.
Proof.
  unfold assemble. destruct (Ring.New _ _) as [r|] eqn:Hr; [|done]. unfold NewCoordinator.
  destruct (NewEvictor _) as [ev|] eqn:Hev; [|done].
  assert (quota ev = node_quota cfg) as Hq.
  { revert Hev. unfold NewEvictor. simpl. destruct (index st); [|done]. destruct (Quota_Valid _); [done|].
    by intros [= <-]. }
  unfold new_repair, Repair.New.
  destruct (Z.ltb_spec 0 (cf_RepairWorkers cfg)); (destruct (RegisterSources _ _); [done|]);
    (destruct (NewServer _ _) as [srv|] eqn:Hsrv; [|done]); intros [= <-]; split; simpl; try done;
    try (by rewrite Hq); try (by exists srv).
  all: try (rewrite (New_size _ _ _ Hr); intros [_ _ _ Hrc _ _ _];
    destruct (Z.ltb_spec (cf_ReplicaCount cfg) 1); [lia|]; case_match; boolify; lia).
  all: split; [by intros [? ?]|intros; lia || by eexists].
Qed.

Lemma assemble_fine env cfg health st r srv :
  validated cfg → Ring.New (cf_Peers cfg) (cf_NodeName cfg) = Ok r → is_Some (index st) →
  registry_ok (se_register env) → NewServer (se_listen env) cfg = Ok srv → ∃ n, assemble env cfg health st = Ok n.
Proof.
  intros [_ Hq _ _ _ _ _] Hr [i Hi] Hreg Hl. unfold assemble. rewrite Hr. unfold NewCoordinator, NewEvictor.
  simpl. rewrite Hi, Hq. unfold new_repair, Repair.New.
  destruct (0 <? _); rewrite RegisterSources_node, Hl by done; by eexists.
Qed.

Lemma NewServer_Ok listen cfg addr :
  listen (cf_ListenAddr cfg) = Ok addr →
  NewServer listen cfg = Ok (mkServer addr (cf_ReadHeaderTimeout cfg) (cf_WriteTimeout cfg) (cf_IdleTimeout cfg) (cf_ShutdownTimeout cfg)).
Proof. intros H. unfold NewServer. by rewrite H. Qed.

Definition start_health : Health :=
  SetNotReady "reconciling the index against disk" (SetNotReady "opening object store" NewHealth).

Definition store_options (env : StartEnv) (cfg : Config) : Options :=
  mkOptions (AbsDataDir (se_wd env) cfg) (cf_MaxObjectBytes cfg) (cf_VerifyReads cfg) false.

(** ** Claims *)

(** A name with surrounding space is no member's. *)
Lemma untrimmed_ring peers name :
  TrimSpace name ≠ EmptyString → ¬ trimmed name → ∃ e, Ring.New peers name = Err e.
Proof.
  intros Hn Ht. destruct (Ring.New peers name) as [r|e] eqn:Hr; [|by exists e].
  apply New_Ok in Hr as (_ & _ & _ & [->|Hin] & _); [by destruct Hn|].
  apply list_elem_of_fmap in Hin as (p & -> & _). destruct Ht. apply TrimSpace_trimmed.
Qed.

(** C23: a loaded configuration makes a node, unless this node's name has surrounding
    space.  When [Load] accepted the configuration, the store opens, the listener
    binds and the registry refuses only what it already has, then [New] returns a node if the name has no surrounding space: the ring,
    the coordinator, the evictor and the metrics cannot be refused.  The node works
    on the opened store with the configured ring, replication factor and quota,
    repairs exactly when workers are configured, has the address that was bound, is
    not ready before it runs, stays ready when serving ends by itself and is not
    ready after a shutdown began.  With surrounding space in the name, which [Load]
    accepts, [New] fails to build the ring and closes the store. *)
Theorem loaded_node_starts {Scan : SqlScan} url_Parse args vars env cfg f f' st addr :
  Load url_Parse args vars = Ok cfg →
  registry_ok (se_register env) → se_listen env (cf_ListenAddr cfg) = Ok addr →
  Open (se_open env) (store_options env cfg) f = (f', Ok st) →
  (trimmed (cf_NodeName cfg) → ∃ n, node_New url_Parse env cfg f = (f', Ok n) ∧
    Ring.New (cf_Peers cfg) (cf_NodeName cfg) = Ok (ring (nd_coord n)) ∧
    replicaCount (nd_coord n) = cf_ReplicaCount cfg ∧ local (nd_coord n) = AttachEvictor st ∧
    quota (nd_evictor n) = node_quota cfg ∧ (is_Some (nd_repair n) ↔ 0 < cf_RepairWorkers cfg) ∧
    node_Addr n = Some addr ∧ (Ready (nd_health n)).1 = false ∧
    (∀ e, (Ready (nd_health (node_Run (ServeReturned e) n).1)).1 = true) ∧
    (∀ e e', (Ready (nd_health (node_Run (Drained e e') n).1)).1 = false)) ∧
  (¬ trimmed (cf_NodeName cfg) → ∃ e, node_New url_Parse env cfg f = (closeAll env st, Err (Wrap "build ring" e))).
Proof.
  intros [HV Ht]%Load_Ok Hreg Hl HO. pose proof (Validate_None _ _ HV) as Hv. split; intros Hname.
  - destruct (validated_ring cfg Hv (Ht Hname)) as [r Hr].
    destruct (Open_limit _ _ _ _ _ HO) as (_ & -> & Hix).
    destruct (assemble_fine env cfg start_health st r _ Hv Hr (Hix eq_refl) Hreg (NewServer_Ok _ _ _ Hl)) as [n HA]. exists n.
    destruct (assemble_inv _ _ _ _ _ HA) as [Hc Hh Hrr Hst [_ Hq] _ Hrc Hrep (srv & Hsrv & Hns)].
    rewrite (NewServer_Ok _ _ _ Hl) in Hsrv. injection Hsrv as <-. split.
    { unfold node_New. rewrite HV. fold start_health. fold (store_options env cfg). rewrite HO, HA, Hst. done. }
    split; [done|]. split; [by apply Hrc|]. split; [done|]. split; [done|]. split; [done|].
    split; [unfold node_Addr; by rewrite Hns|]. rewrite Hh. done.
  - destruct (untrimmed_ring (cf_Peers cfg) _ (v_node _ Hv) Hname) as [e He]. exists e.
    unfold node_New. rewrite HV. fold (store_options env cfg). rewrite HO. unfold assemble. by rewrite He.
Qed.

(** The node was started as the member [m] of [peers], on an empty data directory or
    on what earlier runs left in it. *)
Definition started {Scan : SqlScan} (url_Parse : string → result (string * string)) (peers : list Peer)
    (rc : Z) (m : Member) (n : Node) : Prop :=
  ∃ env cfg f f' rt, node_New url_Parse env cfg f = (f', Ok n) ∧
    cf_NodeName cfg = Name m ∧ cf_Peers cfg ≡ₚ peers ∧ cf_ReplicaCount cfg = rc ∧
    cf_MaxObjectBytes cfg < 2 ^ 63 - 1 ∧
    Abs (oe_cwd (se_open env)) (AbsDataDir (se_wd env) cfg) = Ok rt ∧ used_disk rt f.

(** C22: nodes configured alike form a cluster.  Nodes started with [New] from
    configurations that list the same members, in any order, the same replication
    factor and an object limit below 2^63-1, each on a data directory that was empty
    or that earlier runs, crashes and failed starts left behind, whatever faults the
    starts met, agree on the membership and on the holders of every key and have
    their stores in order: they satisfy what the theorems on a cluster assume. *)
Theorem started_nodes_form_a_cluster {Scan : SqlScan} url_Parse peers rc r node :
  Ring.New peers EmptyString = Ok r →
  (∀ m, m ∈ members r → started url_Parse peers rc m (node (Name m))) →
  cluster_ok (members r) rc (mkWorld (λ x, nd_coord (node x))).
Proof.
  intros Hr Hall. pose proof (New_ring_ok _ _ _ Hr) as Hnd.
  pose proof (proj1 (New_Ok _ _ _) Hr) as (_ & _ & Hne & _ & Hms).
  assert (Hnode : ∀ m, m ∈ members r → ∃ env cfg st,
    assembled env cfg start_health st (node (Name m)) ∧ validated cfg ∧ cf_NodeName cfg = Name m ∧
    cf_Peers cfg ≡ₚ peers ∧ cf_ReplicaCount cfg = rc ∧ store_ok st ∧ sane_limit st).
  { intros m Hm. destruct (Hall m Hm) as (env & cfg & f & f' & rt & HN & Hn & Hp & Hc & Hmax & Habs & Hud).
    revert HN. unfold node_New. destruct (Validate _ _) eqn:HV; [done|]. apply Validate_None in HV.
    fold start_health. fold (store_options env cfg).
    destruct (Open _ _ _) as [f1 [st|e]] eqn:HO; [|done].
    destruct (assemble _ _ _ _) as [n|e] eqn:HA; [|done]. intros [= _ ->].
    exists env, cfg, st. split; [by apply assemble_inv|]. split_and!; try done.
    - by destruct (Open_ok (se_open env) (store_options env cfg) _ _ _ _ Habs HO (used_disk_ok _ _ Hud)) as (_ & _ & ? & _).
    - unfold sane_limit. destruct (Open_limit _ _ _ _ _ HO) as (-> & _). done. }
  split; [done|..].
  - intros m Hm. destruct (Hnode m Hm) as (env & cfg & st & [_ _ Hrr _ _ _ Hrc _] & Hv & Hn & Hp & Hc & _).
    simpl. pose proof (New_perm_sorted _ _ _ _ Hrr Hp) as Hs. specialize (Hrc Hv).
    apply New_Ok in Hrr as (_ & _ & Hne' & _ & Hring). rewrite Hring, Hrc, Hms. simpl.
    split; [done|]. split; [done|]. split; [done|]. destruct Hv as [Hnn _ _ _ _ _ _].
    intros He. rewrite Hn, He in Hnn. done.
  - intros m Hm. destruct (Hnode m Hm) as (env & cfg & st & [_ _ _ Hst _ _ _ _] & _ & _ & _ & _ & Hok & Hsl).
    simpl. split; [|by rewrite Hst]. rewrite Hst. destruct Hok as [Hw Hc Ht]. split; [|done|done].
    by split; apply Hw.
Qed.

(** ** One node started on a disk, for the witnesses *)

Definition solo_args : list string := ["-data-dir=/data"].

Definition solo_cfg : Config :=
  set_ReplicaCount 1 (set_Peers [mkPeer "node-a" "http://127.0.0.1:8080"] (set_DataDir "/data" Defaults)).

Lemma solo_loads : Load http_only solo_args ∅ = Ok solo_cfg.
Proof. vm_compute. reflexivity. Qed.

Definition once_each : registry :=
  λ seen name labels _, if bool_decide ((name, labels) ∈ seen) then Some (Errorf "duplicate") else None.

Definition solo_env : StartEnv :=
  mkStartEnv (Some "/") first_start (tx_fine, None, None) None once_each (λ _, Ok "[::]:8080").

Lemma once_each_ok : registry_ok once_each.
Proof. intros seen name labels c H. unfold once_each. by rewrite bool_decide_eq_false_2. Qed.

Definition solo_open := Open first_start (store_options solo_env solo_cfg) crashed_disk.

Lemma solo_opens : match solo_open.2 with Ok _ => true | Err _ => false end = true.
Proof. vm_compute. reflexivity. Qed.

Lemma loaded_node_starts_witness :
  ∃ n, node_New http_only solo_env solo_cfg crashed_disk = (solo_open.1, Ok n) ∧
    replicaCount (nd_coord n) = 1 ∧ (Ready (nd_health n)).1 = false.
Proof.
  pose proof solo_opens as H. destruct solo_open.2 as [st|e] eqn:E; [|discriminate].
  destruct (loaded_node_starts http_only solo_args ∅ solo_env solo_cfg crashed_disk solo_open.1 st "[::]:8080")
    as [Hok _].
  - exact solo_loads.
  - exact once_each_ok.
  - reflexivity.
  - rewrite <-E. exact (surjective_pairing solo_open).
  - destruct (Hok eq_refl) as (n & HN & _ & Hc & _ & _ & _ & _ & Hr & _).
    exists n. split; [exact HN|]. split; [exact Hc|exact Hr].
Defined.

(** [-node-name ' a'] is accepted by [Load] and refused by [New]. *)
Definition spaced_args : list string := ["-data-dir=/data"; "-node-name"; " a"].

Theorem spaced_name_loads_and_fails :
  match Load http_only spaced_args ∅ with
  | Ok cfg => match (node_New http_only solo_env cfg crashed_disk).2 with Ok _ => false | Err _ => true end
  | Err _ => false
  end = true.
Proof. vm_compute. reflexivity. Qed.

(** ** Three nodes, one of them restarted with an object on its disk *)

Definition trio_cfg (name : string) : Config :=
  set_NodeName name (set_ReplicaCount 2 (set_Peers
    [mkPeer "node-a" "http://a:1"; mkPeer "node-b" "http://b:1"; mkPeer "node-c" "http://c:1"] (set_DataDir "/data" Defaults))).

Definition empty_start : OpenEnv := mkOpenEnv (Ok []) (λ _ _, None) None (λ _, None) [] reconcile_fine (∅, ∅).

Definition trio_start : StartEnv :=
  mkStartEnv (Some "/") empty_start (tx_fine, None, None) None once_each (λ _, Ok "[::]:8080").

Definition earlier_open := Open empty_start (store_options trio_start (trio_cfg "node-b")) ∅.
Definition earlier_store : Store := match earlier_open.2 with Ok s => s | Err _ => fresh_store 0 end.
Definition earlier_put := Put (put_fine 7 100) NamespaceCAS abc_key (mkReader abc_bytes None) 3 earlier_store.

Definition trio_disk (x : string) : files := if String.eqb x "node-b" then tree earlier_put.1 else ∅.

Lemma earlier_opens :
  Open empty_start (store_options trio_start (trio_cfg "node-b")) ∅ = (earlier_open.1, Ok earlier_store).
Proof.
  assert (match earlier_open.2 with Ok _ => true | Err _ => false end = true) as H by (vm_compute; reflexivity).
  unfold earlier_store. change (Open _ _ _) with earlier_open. destruct earlier_open as [f [s|e]]; [reflexivity|discriminate H].
Qed.

Lemma trio_disk_used x : used_disk ["data"] (trio_disk x).
Proof.
  assert (used_disk ["data"] (∅ : files)) as Hnew.
  { apply ud_new; [intros p y; by rewrite lookup_empty|intros q _; apply lookup_empty]. }
  unfold trio_disk. destruct (String.eqb x "node-b"); [|exact Hnew].
  apply (ud_run _ empty_start (store_options trio_start (trio_cfg "node-b")) ∅ earlier_open.1 earlier_store _ Hnew).
  - vm_compute. reflexivity.
  - exact earlier_opens.
  - apply rtc_once. exact (do_put (put_fine 7 100) NamespaceCAS abc_key (mkReader abc_bytes None) 3 earlier_store).
Qed.

Definition trio_node_start (x : string) := node_New http_only trio_start (trio_cfg x) (trio_disk x).

Lemma trio_all_start :
  forallb (λ x, match (trio_node_start x).2 with Ok _ => true | Err _ => false end) ["node-a"; "node-b"; "node-c"] = true.
Proof. vm_compute. reflexivity. Qed.

Lemma trio_ring_names :
  match Ring.New (cf_Peers (trio_cfg "node-a")) EmptyString with
  | Ok r => forallb (λ m, bool_decide (Name m ∈ ["node-a"; "node-b"; "node-c"])) (members r) | Err _ => false end = true.
Proof. vm_compute. reflexivity. Qed.

(** The restarted node still has its object. *)
Lemma trio_object :
  match (trio_node_start "node-b").2 with
  | Ok n => view (local (nd_coord n)) NamespaceCAS abc_key | Err _ => None end = Some abc_bytes.
Proof. vm_compute. reflexivity. Qed.

Lemma started_nodes_form_a_cluster_witness :
  ∃ r node, cluster_ok (members r) 2 (mkWorld (λ x, nd_coord (node x))) ∧
    view (local (nd_coord (node "node-b"))) NamespaceCAS abc_key = Some abc_bytes.
Proof.
  pose proof trio_ring_names as HR.
  destruct (Ring.New (cf_Peers (trio_cfg "node-a")) EmptyString) as [r|e] eqn:ER; [|discriminate HR].
  pose proof trio_object as Ho. destruct (trio_node_start "node-b").2 as [nb|e] eqn:EB; [|discriminate Ho].
  exists r, (λ x, match (trio_node_start x).2 with Ok n => n | Err _ => nb end).
  split; [|cbv beta; rewrite EB; exact Ho].
  apply (started_nodes_form_a_cluster http_only (cf_Peers (trio_cfg "node-a")) 2 r); [exact ER|].
  intros m Hm. apply list_elem_of_In in Hm. rewrite forallb_forall in HR. specialize (HR m Hm).
  apply bool_decide_eq_true, list_elem_of_In in HR. pose proof trio_all_start as HA. rewrite forallb_forall in HA.
  specialize (HA (Name m) HR). destruct (trio_node_start (Name m)).2 as [n|e] eqn:EN; [|discriminate HA].
  exists trio_start, (trio_cfg (Name m)), (trio_disk (Name m)), (trio_node_start (Name m)).1, ["data"].
  split; [change (node_New _ _ _ _) with (trio_node_start (Name m)); rewrite <-EN; exact (surjective_pairing _)|].
  split; [reflexivity|]. split; [reflexivity|]. split; [reflexivity|]. split; [reflexivity|].
  split; [reflexivity|]. apply trio_disk_used.
Defined.
