(* ===== verification/Lifecycle.v ===== *)
(** * The life of a node: internal/node/node.go

    [Run] and [Close] of a node as a state machine: the start of the background
    workers, the requests, sweeps, flushes and repairs that go on while it
    serves, the drain and the wait for the workers, and the release of what the
    node owns.  The order in which the goroutines act is any interleaving of the
    steps; the store they share is that of the node's coordinator.  [Stats]
    collects the counters of the parts. *)

From S2P Require Import Prelude GoStrings Sha256 Errors Key Config Ring Protocol Index FileSystem Store StoreSpec Heap GoFloat Strconv Evict Client Coordinator HttpApi Cluster Repair Reads ClusterSpec LoadConfig Node.

#[local] Open Scope Z_scope.

(** ** Counters: Stats *)

Record UsageStats := mkUsageStats {
  us_objects : Z; us_bytes : Z; us_quota : Z; us_high : Z; us_low : Z; us_over : bool }.

Record NodeStats := mkNodeStats {
  ns_self : string; ns_members : list string; ns_replicas : Z; ns_storage : Stats; ns_fsync : bool;
  ns_index : option IndexStats; ns_usage : option UsageStats; ns_coordinator : ccounter → Z;
  ns_eviction : EvictorStats; ns_repair : option (RepairStats * Z * Z) }.

(** [Stats] of an assembled node, whose parts are all there but the repair
    worker; [fault] is the outcome of reading the totals. *)
Definition node_Stats (fault : option error) (n : Node) : NodeStats :=
  let st := local (nd_coord n) in
  let q := quota (nd_evictor n) in
  mkNodeStats (cf_NodeName (nd_cfg n)) (PeerNames (cf_Peers (nd_cfg n))) (replicaCount (nd_coord n)) (Store.stats st)
    (negb (dirSyncUnsupported st)) (Index.stats <$> index st)
    (idx ← index st;
     match (Totals fault idx).2 with
     | Err _ => None
     | Ok (objects, bytes) =>
         Some (mkUsageStats objects bytes (MaxBytes q) (HighBytes q) (LowBytes q) (HighBytes q <? bytes))
     end)
    (cstats (nd_coord n)) (ev_stats (nd_evictor n)) (Snapshot <$> nd_repair n).

(** ** The state of a running node *)

(** The goroutines [Run] starts. *)
Inductive task := TEvict | TFlush | TRepair.

#[export] Instance task_eq_dec : EqDecision task.
Proof. solve_decision. Defined.

(** Serving; waiting for the workers in [stopBackground] with the server's
    verdict; [Run] has returned; [Close] has returned. *)
Inductive phase := Serving | Stopping (e : option error) | Ended (e : option error) | Released (e : option error).

Record Life := mkLife {
  lf_node : Node;
  lf_tasks : list task;       (* the goroutines that have not returned *)
  lf_cancelled : bool;        (* bgCtx is done *)
  lf_end : option serve_end;  (* how serving ended *)
  lf_overdue : bool;          (* the workers were given up after 30 s *)
  lf_phase : phase }.

(** Requests may have outlived the server: it ended by itself, or the drain failed. *)
Definition lf_cut (l : Life) : bool :=
  match lf_end l with
  | None => false
  | Some (ServeReturned _) => true
  | Some (Drained shutdownErr _) => bool_decide (shutdownErr ≠ None)
  end.

Definition with_node (n : Node) (l : Life) : Life :=
  mkLife n (lf_tasks l) (lf_cancelled l) (lf_end l) (lf_overdue l) (lf_phase l).

Definition store_of (l : Life) : Store := local (nd_coord (lf_node l)).

Definition on_store (s : Store) (n : Node) : Node :=
  mkNode (nd_cfg n) (nd_health n) (set_local s (nd_coord n)) (nd_evictor n) (nd_repair n) (nd_router n) (nd_cache n) (nd_server n).
Definition on_evictor (e : Evictor) (n : Node) : Node :=
  mkNode (nd_cfg n) (nd_health n) (set_local (store e) (nd_coord n)) e (nd_repair n) (nd_router n) (nd_cache n) (nd_server n).
Definition on_repair (w : option Worker) (n : Node) : Node :=
  mkNode (nd_cfg n) (nd_health n) (nd_coord n) (nd_evictor n) w (nd_router n) (nd_cache n) (nd_server n).

Definition put_store (s : Store) (l : Life) : Life := with_node (on_store s (lf_node l)) l.

Definition finish_task (t : task) (l : Life) : Life :=
  mkLife (lf_node l) (filter (λ t', t' ≠ t) (lf_tasks l)) (lf_cancelled l) (lf_end l) (lf_overdue l) (lf_phase l).

(** ** Operations *)

(** [Run] up to the call of the server. *)
Definition run_start (n : Node) : Life :=
  mkLife (set_health (SetReady (nd_health n)) n)
    ([TEvict; TFlush] ++ match nd_repair n with Some _ => [TRepair] | None => [] end) false None false Serving.

(** A flush of the queued access times; a failure is logged. *)
Definition flush_once (env : TxEnv) (l : Life) : Life :=
  put_store (on_index (λ i, (FlushTouches env i).1) (store_of l)) l.

(** The server returned, and the background context is cancelled. *)
Definition server_returns (ev : serve_end) (l : Life) : Life :=
  let '(h, e) := server_Run ev (nd_health (lf_node l)) in
  mkLife (set_health h (lf_node l)) (lf_tasks l) true (Some ev) (lf_overdue l) (Stopping e).

(** The end of [stopBackground]; [None] is the panic of closing a closed channel. *)
Definition stop_workers (overdue : bool) (e : option error) (l : Life) : option Life :=
  rw ← match nd_repair (lf_node l) with None => Some None | Some w => Some <$> Repair.Close w end;
  let n := lf_node l in
  Some (mkLife (on_repair rw (on_evictor (Evictor_Close (evictor_of n)) n)) (lf_tasks l) (lf_cancelled l) (lf_end l)
          (lf_overdue l || overdue) (Ended e)).

(** [Close] after [Run]: the first error wins, the store is closed last. *)
Definition node_Close (r : http_result) (env : TxEnv) (rc wc : option error) (l : Life) : Life * option error :=
  let firstErr := server_Close r in
  let '(s, res) := Store.Close env rc wc (store_of l) in
  let err := match firstErr with
             | Some e => Some e
             | None => match res with Err e => Some e | Ok _ => None end
             end in
  (mkLife (on_store s (lf_node l)) (lf_tasks l) (lf_cancelled l) (lf_end l) (lf_overdue l) (Released err), err).

(** ** Steps *)

(** A step of the store that leaves it open or closed as it was: no request and no
    worker closes the store. *)
Definition quiet_step {Scan : SqlScan} (s s' : Store) : Prop := store_step s s' ∧ Store.closed s' = Store.closed s.

Definition same_life (w w' : Worker) : Prop :=
  Repair.started w' = Repair.started w ∧ w_done w' = w_done w ∧ w_once w' = w_once w.

Inductive life_step {Scan : SqlScan} : Life → Life → Prop :=
  | ls_request s l :
      lf_phase l = Serving ∨ lf_cut l = true → quiet_step (store_of l) s → life_step l (put_store s l)
  | ls_sweep env fuel e l :
      TEvict ∈ lf_tasks l → sweepLogged env fuel (evictor_of (lf_node l)) = Some e →
      life_step l (with_node (on_evictor e (lf_node l)) l)
  | ls_evictor_exit l :
      TEvict ∈ lf_tasks l → lf_cancelled l = true → life_step l (finish_task TEvict l)
  | ls_flush env l :
      TFlush ∈ lf_tasks l → life_step l (flush_once env l)
  | ls_flusher_exit env l :
      TFlush ∈ lf_tasks l → lf_cancelled l = true → life_step l (finish_task TFlush (flush_once env l))
  | ls_repair_begins w l :
      TRepair ∈ lf_tasks l → nd_repair (lf_node l) = Some w → Repair.started w = false →
      life_step l (with_node (on_repair (Some (set_life true (w_done w) (w_once w) w)) (lf_node l)) l)
  | ls_repair_works w w' s l :
      TRepair ∈ lf_tasks l → nd_repair (lf_node l) = Some w → Repair.started w = true → same_life w w' →
      quiet_step (store_of l) s → life_step l (with_node (on_repair (Some w') (on_store s (lf_node l))) l)
  | ls_repair_exit w w' l :
      TRepair ∈ lf_tasks l → lf_cancelled l = true → nd_repair (lf_node l) = Some w → Repair.started w = true →
      close_done (close_queue w) = Some w' →
      life_step l (finish_task TRepair (with_node (on_repair (Some w') (lf_node l)) l))
  | ls_server ev l :
      lf_phase l = Serving → life_step l (server_returns ev l)
  | ls_stopped e l l' :
      lf_phase l = Stopping e → lf_tasks l = [] → stop_workers false e l = Some l' → life_step l l'
  | ls_overdue e l l' :
      lf_phase l = Stopping e → lf_tasks l ≠ [] → stop_workers true e l = Some l' → life_step l l'
  | ls_close e r env rc wc l :
      lf_phase l = Ended e → life_step l (node_Close r env rc wc l).1.

(** ** Lemmas *)

(** A sweep is a sequence of steps of the store. *)
Section sweeps.
Context {Scan : SqlScan}.

Abbreviation quiet := (rtc quiet_step).

Lemma on_idx_quiet {A} (m : M Index A) e : quiet (store e) (store (on_idx m e).1).
Proof.
  unfold on_idx. destruct (index (store e)) as [i|] eqn:Hi; [|done]. unfold lift_index.
  destruct (m i) as [i' r] eqn:Hm. apply rtc_once. cbn [fst store set_store]. split; [|done].
  replace (set_index (Some i') (store e)) with (on_index (λ i, (m i).1) (store e)); [constructor|].
  unfold on_index. by rewrite Hi, Hm.
Qed.

Lemma quiet_ok s s' : quiet s s' → store_ok s → store_ok s'.
Proof. induction 1 as [|s1 s2 s3 [Hs _] _ IH]; [done|]. intros H. by apply IH, (step_ok _ _ Hs). Qed.

Lemma quiet_closed s s' : quiet s s' → Store.closed s' = Store.closed s.
Proof. induction 1 as [|s1 s2 s3 [_ Hc] _ IH]; congruence. Qed.

Lemma DeleteFile_quiet a b ns key s : store_ok s → quiet s (DeleteFile a b ns key s).1.
Proof.
  intros Hok. apply rtc_once. split; [constructor|]. destruct (DeleteFile a b ns key s) as [s' res] eqn:H.
  by destruct (DeleteFile_spec _ _ _ _ _ _ _ (ok_wf _ Hok) H) as (_ & _ & Hc & _).
Qed.

Lemma pop_loop_quiet stat rm mustFree n h a :
  store_ok (rd_store a) → quiet (rd_store a) (rd_store (pop_loop stat rm mustFree n h a)).
Proof.
  revert h a. induction n as [|n IH]; intros h a Hok; cbn [pop_loop]; [done|].
  destruct (negb _); [done|]. destruct (Pop _ _) as [[c h']|]; [|done].
  pose proof (DeleteFile_quiet (stat (e_ref (c_entry c))) (rm (e_ref (c_entry c))) (e_ref (c_entry c)).1
    (e_ref (c_entry c)).2 (rd_store a) Hok) as Hq.
  destruct (DeleteFile _ _ _ _ _) as [s' res]. cbn [fst] in Hq.
  assert (Hok' : store_ok s') by (by eapply quiet_ok).
  etrans; [exact Hq|]. destruct res; by apply (IH h' (mkRound s' _ _ _ _ _)).
Qed.

Lemma evict_batch_quiet env k mustFree batch evicted freed e :
  store_ok (store e) → quiet (store e) (store (evict_batch env k mustFree batch evicted freed e).1).
Proof.
  intros Hok. unfold evict_batch. cbn [fst].
  pose proof (pop_loop_quiet (sw_stat env k) (sw_rm env k) mustFree (length (make_heap (policy e) batch))
    (make_heap (policy e) batch) (mkRound (store e) [] evicted freed 0 false) Hok) as Hq.
  set (a := pop_loop _ _ _ _ _ _) in *. cbn [rd_store] in Hq. etrans; [exact Hq|].
  set (e1 := set_ev_stats _ _). change (rd_store a) with (store e1). unfold remove_rows. case_bool_decide; [done|].
  pose proof (on_idx_quiet (RemoveBatch (sw_remove env k) (rd_refs a)) e1) as Hi.
  destruct (on_idx _ _) as [e2 res]. by destruct (is_ok res).
Qed.

Lemma sweep_loop_quiet env fuel k mustFree evicted freed e e' out :
  store_ok (store e) → sweep_loop env fuel k mustFree evicted freed e = Some (e', out) →
  quiet (store e) (store e').
Proof.
  revert k evicted freed e. induction fuel as [|fuel IH]; intros k evicted freed e Hok; cbn [sweep_loop]; [done|].
  destruct (negb _); [by intros [= <- _]|]. destruct (sw_ctx env k); [by intros [= <- _]|].
  pose proof (on_idx_quiet (ColdestN (sw_coldest env k) (batchSize e)) e) as H1.
  destruct (on_idx _ _) as [e1 res]. cbn [fst] in H1. pose proof (quiet_ok _ _ H1 Hok) as Hok1.
  destruct res as [[|en l]|er]; [by intros [= <- _]| |by intros [= <- _]].
  pose proof (evict_batch_quiet env k mustFree (en :: l) evicted freed e1 Hok1) as H2.
  destruct (evict_batch _ _ _ _ _ _ _) as [e2 a]. cbn [fst] in H2. pose proof (quiet_ok _ _ H2 Hok1) as Hok2.
  destruct (negb _); [intros [= <- _]|intros HL%IH; [|done]]; (etrans; [exact H1|]); [done|]. by etrans.
Qed.

Lemma sweepLogged_quiet env fuel e e' :
  store_ok (store e) → sweepLogged env fuel e = Some e' → quiet (store e) (store e').
Proof.
  intros Hok. unfold sweepLogged. destruct (Sweep env fuel e) as [[e1 [[n f] err]]|] eqn:HS; [|done].
  assert (quiet (store e) (store e1)) as Hq.
  { revert HS. unfold Sweep. destruct (ev_closed e); [by intros [= <- _]|].
    pose proof (on_idx_quiet (FlushTouches (sw_flush env)) e) as H1.
    destruct (on_idx _ _) as [e2 r1]. cbn [fst] in H1. destruct r1; [|by intros [= <- _]].
    pose proof (on_idx_quiet (Totals (sw_totals env)) e2) as H2.
    destruct (on_idx _ _) as [e3 r2]. cbn [fst] in H2.
    destruct r2 as [[objects used]|]; [|intros [= <- _ _ _]; by etrans]. destruct (_ <=? _); [intros [= <- _ _ _]; by etrans|].
    intros HL%sweep_loop_quiet; [etrans; [exact H1|]; by etrans|].
    cbn [store set_ev_stats]. by do 2 (eapply quiet_ok; [eassumption|]). }
  destruct err; by intros [= <-].
Qed.
End sweeps.

(** *** The invariant of a life *)

Definition running (p : phase) : bool := match p with Serving | Stopping _ => true | _ => false end.
Definition released (p : phase) : bool := match p with Released _ => true | _ => false end.

(** A worker that is to run has not announced its end; one that has run has. *)
Definition repair_ok (l : Life) : Prop :=
  match nd_repair (lf_node l) with
  | None => TRepair ∉ lf_tasks l
  | Some w => (TRepair ∈ lf_tasks l ∧ w_done w = false) ∨
              ((TRepair ∉ lf_tasks l) ∧ Repair.started w = true ∧ w_done w = true)
  end.

Record life_ok (l : Life) : Prop := {
  lo_store : store_ok (store_of l);
  lo_closed : Store.closed (store_of l) = released (lf_phase l);
  lo_cancelled : (lf_cancelled l = true) ↔ (lf_phase l ≠ Serving);
  lo_overdue : running (lf_phase l) = true → lf_overdue l = false;
  lo_tasks : running (lf_phase l) = false → lf_tasks l = [] ∨ lf_overdue l = true;
  lo_end : lf_phase l = Serving ↔ lf_end l = None;
  lo_ready : ready (nd_health (lf_node l)) = true ↔ lf_phase l = Serving ∨ ∃ r, lf_end l = Some (ServeReturned r);
  lo_repair : lf_overdue l = false → repair_ok l }.

Section life.
Context {Scan : SqlScan}.

(** A step of a request or a worker keeps the invariant: it changes the store
    quietly, the repair worker, or the goroutines that are left. *)
Lemma life_ok_work l n tasks :
  life_ok l → rtc quiet_step (store_of l) (local (nd_coord n)) → nd_health n = nd_health (lf_node l) →
  (lf_tasks l = [] → tasks = []) →
  let l' := mkLife n tasks (lf_cancelled l) (lf_end l) (lf_overdue l) (lf_phase l) in
  (lf_overdue l = false → repair_ok l → repair_ok l') → life_ok l'.
Proof.
  intros [Hs Hc Hca Ho Ht Hcut Hr Hrep] Hq Hh Hts l' Hrn. split; try done.
  - by eapply quiet_ok.
  - unfold store_of, l'. cbn [lf_node lf_phase]. by rewrite (quiet_closed _ _ Hq).
  - intros Hp. destruct (Ht Hp) as [H|]; [left; by apply Hts|by right].
  - unfold l'. cbn [lf_node lf_phase lf_end]. by rewrite Hh.
  - intros H. apply Hrn; auto.
Qed.

Lemma elem_finish t t' l : t ∈ lf_tasks (finish_task t' l) ↔ t ∈ lf_tasks l ∧ t ≠ t'.
Proof. cbn [finish_task lf_tasks]. rewrite list_elem_of_filter. tauto. Qed.

Lemma finish_nil t l : lf_tasks l = [] → lf_tasks (finish_task t l) = [].
Proof. intros H. cbn [finish_task lf_tasks]. by rewrite H. Qed.

Lemma repair_ok_finish t l : t ≠ TRepair → repair_ok l → repair_ok (finish_task t l).
Proof.
  intros Hne. unfold repair_ok. change (lf_node (finish_task t l)) with (lf_node l).
  destruct (nd_repair _); rewrite ?elem_finish; naive_solver.
Qed.

Lemma flush_quiet env l : rtc quiet_step (store_of l) (store_of (flush_once env l)).
Proof.
  apply rtc_once. unfold flush_once, put_store, store_of. cbn. split; [constructor|]. unfold on_index.
  by destruct (index _).
Qed.

Lemma stop_workers_ok b e l l' :
  life_ok l → lf_phase l = Stopping e → (b = false → lf_tasks l = []) → stop_workers b e l = Some l' → life_ok l'.
Proof.
  intros [Hs Hc Hca Ho Ht Hcut Hr Hrep] Hp Hb. unfold stop_workers.
  destruct (match nd_repair (lf_node l) with None => Some None | Some w => Some <$> Repair.Close w end) as [rw|] eqn:HR;
    cbn [mbind option_bind]; [|done]. intros [= <-].
  rewrite Hp in *. specialize (Ho eq_refl). specialize (Hrep Ho).
  split; cbn [lf_node lf_phase lf_tasks lf_cancelled lf_end lf_overdue]; try done.
  - rewrite Hca. done.
  - cbn [running]. intros _. destruct b; [right; by rewrite orb_true_r|left; by apply Hb].
  - rewrite <-Hcut. by split.
  - rewrite Hr. naive_solver.
  - rewrite Ho. cbn [orb]. intros ->. specialize (Hb eq_refl). unfold repair_ok in *.
    cbn [lf_node on_repair nd_repair lf_tasks]. rewrite Hb in *.
    destruct (nd_repair (lf_node l)) as [w|]; [|injection HR as <-; apply not_elem_of_nil].
    destruct Hrep as [[H _]|(_ & Hst & Hd)]; [by apply elem_of_nil in H|].
    unfold Repair.Close in HR. destruct (w_once w); cbn in HR.
    + injection HR as <-. right. split; [apply not_elem_of_nil|done].
    + rewrite Hst in HR. cbn in HR. injection HR as <-. right. split; [apply not_elem_of_nil|done].
Qed.

Lemma server_returns_ok ev l : life_ok l → lf_phase l = Serving → life_ok (server_returns ev l).
Proof.
  intros [Hs Hc Hca Ho Ht Hcut Hr Hrep] Hp. rewrite Hp in *. unfold server_returns.
  destruct ev as [e|se sv]; cbn [server_Run];
    split; cbn [lf_node lf_phase lf_tasks lf_cancelled lf_end lf_overdue running]; try done; auto.
  - split; [intros _; right; by eexists|]. intros _. apply Hr. by left.
  - cbn [set_health nd_health SetNotReady ready]. naive_solver.
Qed.

Lemma node_Close_ok e r env rc wc l : life_ok l → lf_phase l = Ended e → life_ok (node_Close r env rc wc l).1.
Proof.
  intros [Hs Hc Hca Ho Ht Hcut Hr Hrep] Hp. rewrite Hp in *. unfold node_Close.
  pose proof (step_ok _ _ (do_close env rc wc (store_of l)) Hs) as Hs'.
  assert (Hcl : Store.closed (Store.Close env rc wc (store_of l)).1 = true).
  { unfold Store.Close. mrun. cbn [released] in Hc. rewrite Hc. mrun. destruct (index _); mrun; [|done].
    unfold lift_index. by destruct (Index.Close _ _ _ _). }
  destruct (Store.Close env rc wc (store_of l)) as [s res]. cbn [fst] in *.
  split; cbn [lf_node lf_phase lf_tasks lf_cancelled lf_end lf_overdue running]; try done; auto.
  - by rewrite Hca.
  - rewrite <-Hcut. by split.
  - rewrite Hr. naive_solver.
Qed.

Lemma life_step_ok l l' : life_step l l' → life_ok l → life_ok l'.
Proof.
  intros [s l0 _ Hq|env fuel e l0 _ HS|l0 _ _|env l0 _|env l0 _ _|w l0 Hin Hw Hst|w w' s l0 Hin Hw Hst Hsl Hq
    |w w' l0 Hin Hca Hw Hst Hd|ev l0 Hp|e l0 l1 Hp Ht HS|e l0 l1 Hp Ht HS|e r env rc wc l0 Hp] Hl.
  - apply (life_ok_work l0); [done|by apply rtc_once|done..].
  - apply (life_ok_work l0); [done| |done..].
    change (store_of l0) with (store (evictor_of (lf_node l0))). eapply sweepLogged_quiet; [apply Hl|done].
  - apply (life_ok_work l0); [done..|apply finish_nil|]. intros _. by apply (repair_ok_finish TEvict).
  - apply (life_ok_work l0); [done|apply flush_quiet|done..].
  - apply (life_ok_work l0); [done|apply flush_quiet|done|apply (finish_nil TFlush (flush_once env l0))|]. intros _.
    by apply (repair_ok_finish TFlush (flush_once env l0)).
  - apply (life_ok_work l0); [done..|]. intros _. unfold repair_ok. rewrite Hw. cbn. naive_solver.
  - apply (life_ok_work l0); [done|by apply rtc_once|done..|]. intros _. destruct Hsl as (H1 & H2 & _).
    unfold repair_ok. rewrite Hw. cbn. by rewrite H1, H2.
  - apply (life_ok_work l0); [done..|apply (finish_nil TRepair (with_node (on_repair (Some w') (lf_node l0)) l0))|]. intros _ _. unfold repair_ok. cbn [lf_node on_repair nd_repair lf_tasks].
    right. rewrite list_elem_of_filter. unfold close_done in Hd. destruct (w_done _); [done|]. injection Hd as <-.
    split; [naive_solver|done].
  - by apply server_returns_ok.
  - by apply (stop_workers_ok false e l0).
  - by apply (stop_workers_ok true e l0).
  - by eapply node_Close_ok.
Qed.

Lemma life_steps_ok l l' : rtc life_step l l' → life_ok l → life_ok l'.
Proof. induction 1 as [|l1 l2 l3 Hs _ IH]; [done|]. intros H. by apply IH, (life_step_ok _ _ Hs). Qed.

(** A freshly assembled node on a store in order starts in order. *)
Lemma run_start_ok env cfg health st n :
  assemble env cfg health st = Ok n → store_ok st → Store.closed st = false → life_ok (run_start n).
Proof.
  intros HA Hok Hc. pose proof (assemble_inv _ _ _ _ _ HA) as [_ _ _ Hst _ _ _ _ _].
  assert (Hw : match nd_repair n with None => True | Some w => w_done w = false end).
  { revert HA. unfold assemble. destruct (Ring.New _ _); [|done]. unfold NewCoordinator.
    destruct (NewEvictor _); [|done]. unfold new_repair, Repair.New.
    destruct (0 <? _); (destruct (RegisterSources _ _); [done|]); (destruct (NewServer _ _); [|done]); by intros [= <-]. }
  split; try done.
  - unfold store_of. cbn [run_start lf_node set_health nd_coord]. rewrite Hst. by apply (step_ok _ _ (do_attach st)).
  - unfold store_of. cbn [run_start lf_node set_health nd_coord]. rewrite Hst. done.
  - split; [by left|done].
  - intros _. unfold repair_ok, run_start. cbn [lf_node lf_tasks set_health nd_repair].
    destruct (nd_repair n) as [w|]; [left; split; [set_solver|done]|set_solver].
Qed.

(** *** Coming to an end *)

(** No worker keeps [stopBackground] waiting for ever. *)
Lemma workers_can_finish n l e :
  length (lf_tasks l) = n → life_ok l → lf_phase l = Stopping e →
  ∃ l', rtc life_step l l' ∧ lf_phase l' = Stopping e ∧ lf_tasks l' = [] ∧ life_ok l'.
Proof.
  revert l. induction (lt_wf n) as [n _ IH]. intros l Hn Hl Hp.
  destruct (lf_tasks l) as [|t ts] eqn:Ht; [by exists l|].
  assert (Hin : t ∈ lf_tasks l) by (rewrite Ht; left).
  assert (Hca : lf_cancelled l = true) by (apply (lo_cancelled _ Hl); by rewrite Hp).
  assert (Hex : ∃ l1, rtc life_step l l1 ∧ lf_phase l1 = Stopping e ∧
    lf_tasks l1 = filter (λ t', t' ≠ t) (lf_tasks l)).
  { destruct t.
    - exists (finish_task TEvict l). split; [apply rtc_once; by constructor|done].
    - exists (finish_task TFlush (flush_once tx_fine l)). split; [apply rtc_once; by constructor|done].
    - pose proof (lo_repair _ Hl (lo_overdue _ Hl ltac:(by rewrite Hp))) as Hr. unfold repair_ok in Hr.
      destruct (nd_repair (lf_node l)) as [w|] eqn:Hw; [|done]. destruct Hr as [[_ Hd]|[? _]]; [|done].
      destruct (Repair.started w) eqn:Hst.
      + eexists. split; [apply rtc_once; eapply (ls_repair_exit w); [done..|]|].
        * unfold close_done. cbn [close_queue w_done]. by rewrite Hd.
        * done.
      + eexists. split; [eapply rtc_l; [by apply (ls_repair_begins w)|]; apply rtc_once;
          eapply (ls_repair_exit (set_life true (w_done w) (w_once w) w)); [done..|]|].
        * unfold close_done. cbn [close_queue set_life w_done]. by rewrite Hd.
        * done. }
  destruct Hex as (l1 & Hs & Hp1 & Ht1).
  destruct (IH (length (lf_tasks l1))) with (l := l1) as (l' & Hs' & H); [|done|by eapply life_steps_ok|done|].
  - rewrite Ht1, Ht, filter_cons_False by naive_solver. pose proof (length_filter (λ t', t' ≠ t) ts). simpl in Hn. lia.
  - exists l'. split; [by etrans|done].
Qed.

Lemma stop_workers_fine e l : life_ok l → lf_phase l = Stopping e → is_Some (stop_workers false e l).
Proof.
  intros Hl Hp. pose proof (lo_repair _ Hl (lo_overdue _ Hl ltac:(by rewrite Hp))) as Hr. unfold repair_ok in Hr.
  unfold stop_workers. destruct (nd_repair (lf_node l)) as [w|]; [|by eexists].
  unfold Repair.Close. destruct (w_once w); [by eexists|]. cbn [set_life Repair.started].
  destruct (Repair.started w) eqn:Hst; [by eexists|]. cbn [negb]. unfold close_done. cbn [set_life w_done].
  destruct Hr as [[_ ->]|(_ & ? & _)]; [by eexists|congruence].
Qed.
End life.

(** ** Claims *)


(** C15: a node shuts down.  From whatever state the server left the node in, the
    background workers can all return, without a panic and before the time they
    are given; [Run] then returns the server's verdict, and [Close] closes the
    store. *)
Theorem node_shuts_down {Scan : SqlScan} env cfg health st n l e r cenv rc wc :
  assemble env cfg health st = Ok n → store_ok st → Store.closed st = false → rtc life_step (run_start n) l →
  lf_phase l = Stopping e →
  ∃ l1 l2, rtc life_step l l1 ∧ lf_phase l1 = Ended e ∧ lf_tasks l1 = [] ∧ lf_overdue l1 = false ∧
    l2 = (node_Close r cenv rc wc l1).1 ∧ life_step l1 l2 ∧ Store.closed (store_of l2) = true ∧ store_ok (store_of l2).
Proof.
  intros HA Hok Hc Hl%life_steps_ok Hp; [|by eapply run_start_ok].
  destruct (workers_can_finish _ l e eq_refl Hl Hp) as (l0 & Hs & Hp0 & Ht0 & Hl0).
  destruct (stop_workers_fine e l0 Hl0 Hp0) as [l1 H1].
  assert (Hst : life_step l0 l1) by (by eapply ls_stopped).
  assert (Hsh : lf_phase l1 = Ended e ∧ lf_tasks l1 = [] ∧ lf_overdue l1 = false).
  { pose proof (lo_overdue _ Hl0 ltac:(by rewrite Hp0)) as Ho. revert H1. unfold stop_workers.
    destruct (match nd_repair _ with None => _ | Some w => _ end); cbn [mbind option_bind]; [|done]. intros [= <-].
    cbn [lf_phase lf_tasks lf_overdue]. by rewrite Ho. }
  destruct Hsh as (Hp1 & Ht1 & Ho1). exists l1, (node_Close r cenv rc wc l1).1.
  pose proof (life_step_ok _ _ Hst Hl0) as Hl1. pose proof (node_Close_ok e r cenv rc wc l1 Hl1 Hp1) as Hl2.
  split; [by eapply rtc_r|]. split; [done|]. split; [done|]. split; [done|]. split; [done|].
  split; [by eapply ls_close|]. split; [|apply Hl2]. rewrite (lo_closed _ Hl2). unfold node_Close.
  by destruct (Store.Close _ _ _ _).
Qed.

(** ** Witnesses: a node that is started and stopped *)

Definition solo_node := assemble solo_env solo_cfg start_health (fresh_store 1024).

Lemma solo_node_ok : match solo_node with Ok _ => true | Err _ => false end = true.
Proof. vm_compute. reflexivity. Qed.


Lemma node_shuts_down_witness :
  ∃ n l1, solo_node = Ok n ∧ rtc life_step (server_returns (Drained None ErrServerClosed) (run_start n)) l1 ∧
    lf_phase l1 = Ended None.
Proof.
  pose proof solo_node_ok as H. destruct solo_node as [n|e] eqn:E; [|discriminate H].
  destruct (node_shuts_down solo_env solo_cfg start_health (fresh_store 1024) n
    (server_returns (Drained None ErrServerClosed) (run_start n)) None (HttpReturned None) tx_fine None None E
    (fresh_store_ok 1024) eq_refl) as (l1 & l2 & Hs & Hp & _).
  - apply rtc_once. apply ls_server. reflexivity.
  - reflexivity.
  - exists n, l1. split; [reflexivity|]. split; [exact Hs|exact Hp].
Defined.
