(* ===== verification/StatsPage.v ===== *)
(** * Pages and their readers: internal/httpapi/stats.go, health.go, cmd/chaos/faults.go

    [StatsHandler] writes the counters of a node as JSON, and [collectNodeStats]
    of the chaos command reads them back to tell objects that were evicted from
    objects that were lost.  The two meet in the text of the page, through the
    encoder and the decoder of [Json].  The text of a float64 is a parameter,
    [fmt].  The answers to the probes are written here too, as they are JSON. *)

From S2P Require Import Prelude GoStrings Sha256 Errors Key Config Ring Protocol Index FileSystem Store StoreSpec Heap GoFloat Strconv Json Codec Evict Client Coordinator HttpApi Cluster Repair Reads ClusterSpec Chaos LoadConfig Node Lifecycle.

#[local] Open Scope Z_scope.

(** ** The page: stats.go *)

Definition storage_json (s : Stats) : gval :=
  GObject [("puts_ok", GInt (nPutsOK s)); ("puts_rejected", GInt (nPutsRejected s));
    ("puts_already_stored", GInt (nPutsAlreadyStored s)); ("gets", GInt (nGets s));
    ("get_misses", GInt (nGetMisses s)); ("deletes", GInt (nDeletes s)); ("bytes_in", GInt (nBytesIn s));
    ("bytes_out", GInt (nBytesOut s)); ("objects_stored", GInt (nObjectsStored s));
    ("bytes_stored", GInt (nBytesStored s)); ("verify_failures", GInt (nVerifyFailures s))].

Definition index_json (s : IndexStats) : gval :=
  GObject [("inserts", GInt (Inserts s)); ("deletes", GInt (Index.Deletes s));
    ("touches_queued", GInt (TouchesQueued s)); ("touch_flushes", GInt (TouchFlushes s));
    ("touches_written", GInt (TouchesWritten s)); ("touches_dropped", GInt (TouchesDropped s))].

Definition coordinator_json (n : ccounter → Z) : gval :=
  GObject [("local_hits", GInt (n LocalHits)); ("peer_hits", GInt (n PeerHits)); ("misses", GInt (n Misses));
    ("forwarded_puts", GInt (n ForwardedPuts)); ("replica_writes", GInt (n ReplicaWrites));
    ("replica_failures", GInt (n ReplicaFailures)); ("coordinated_puts", GInt (n CoordinatedPuts));
    ("insufficient_acks", GInt (n InsufficientAcks)); ("read_fallbacks", GInt (n ReadFallbacks));
    ("repair_declined_over_quota", GInt (n RepairDeclined))].

Definition eviction_json (s : EvictorStats) : gval :=
  GObject [("sweeps", GInt (Sweeps s)); ("evicted", GInt (Evicted s));
    ("bytes_reclaimed", GInt (BytesReclaimed s)); ("failures", GInt (Failures s));
    ("overshoot", GInt (Overshoot s))].

Definition repair_json (s : RepairStats * Z * Z) : gval :=
  let '(n, depth, capacity) := s in
  GObject [("audit_runs", GInt (n AuditRuns)); ("objects_audited", GInt (n ObjectsAudited));
    ("enqueued", GInt (n Enqueued)); ("dropped_full_queue", GInt (n DroppedFullQueue));
    ("repaired", GInt (n Repaired)); ("already_present", GInt (n AlreadyPresent)); ("failed", GInt (n Failed));
    ("bytes_repaired", GInt (n BytesRepaired)); ("not_ours", GInt (n NotOurs));
    ("declined_over_quota", GInt (n DeclinedOverQuota)); ("queue_depth", GInt depth);
    ("queue_capacity", GInt capacity)].

Definition usage_json (u : UsageStats) : gval :=
  of_map (<["objects" := GInt (us_objects u)]> (<["bytes" := GInt (us_bytes u)]>
    (<["quota_bytes" := GInt (us_quota u)]> (<["high_water_bytes" := GInt (us_high u)]>
    (<["low_water_bytes" := GInt (us_low u)]> {["over_high_water" := GBool (us_over u)]}))))).

Definition cluster_json (s : NodeStats) : gval :=
  of_map (<["self" := GString (ns_self s)]> (<["members" := GSlice (GString <$> ns_members s)]>
    {["replica_count" := GInt (ns_replicas s)]})).

Definition put_field (k : string) (v : option gval) (m : gmap string gval) : gmap string gval :=
  match v with Some v => <[k := v]> m | None => m end.

(** The map [Stats] of a node returns. *)
Definition stats_map (s : NodeStats) : gmap string gval :=
  put_field "repair" (repair_json <$> ns_repair s)
    (<["eviction" := eviction_json (ns_eviction s)]>
    (<["coordinator" := coordinator_json (ns_coordinator s)]>
    (put_field "usage" (usage_json <$> ns_usage s)
    (put_field "index" (index_json <$> ns_index s)
    (<["dir_fsync_supported" := GBool (ns_fsync s)]>
    (<["storage" := storage_json (ns_storage s)]> {["cluster" := cluster_json s]})))))).

(** The body of the page; [uptime] and [now] are the clock's. *)
Definition stats_body (node version : string) (uptime : float64) (now : string) (p : option NodeStats)
    : gmap string gval :=
  let body := <["node" := GString node]> (<["version" := GString version]>
    (<["uptime_seconds" := GFloat uptime]> {["now" := GString now]})) in
  match p with Some s => stats_map s ∪ body | None => body end.

Definition rr_Set (k v : string) (w : responseRecorder) : responseRecorder :=
  mkRR (rw_Set k v (rr_w w)) (rr_status w) (rr_bytes w).

Definition StatsHandler (fmt : float64 → string) (node version : string) (uptime : float64) (now : string)
    (p : option NodeStats) (w : responseRecorder) : responseRecorder :=
  let w := rr_Set "Content-Type" "application/json" w in
  let w := rr_Set "Cache-Control" "no-store" w in
  (rr_Write (String.list_byte_of_string (Encode fmt (of_map (stats_body node version uptime now p)))) w).1.

(** What a page is made of: the router's name and version, the clock and the
    counters of the node. *)
Record PageData := mkPageData {
  pd_node : string; pd_version : string; pd_uptime : float64; pd_now : string; pd_stats : NodeStats }.

Definition page_value (d : PageData) : gval :=
  of_map (stats_body (pd_node d) (pd_version d) (pd_uptime d) (pd_now d) (Some (pd_stats d))).

(** The router's answer to GET /stats, on a connection that holds. *)
Definition stats_answer (fmt : float64 → string) (opts : RouterOptions) (d : PageData) : option Response :=
  '(_, w, _) ← route_request opts (λ w s, Some (s, w, []))
    (λ r w s, (s, match r with
                  | HttpApi.StatsPage =>
                      StatsHandler fmt (pd_node d) (pd_version d) (pd_uptime d) (pd_now d) (Some (pd_stats d)) w
                  | _ => w
                  end))
    MethodGet "/stats" (mkRR (mkRW ∅ 0 ∅ None (mkWriter [] None)) 0 0) tt;
  Some (response_of MethodGet w).

(** ** The probes: health.go *)

Record healthResponse := mkHealthResponse {
  hr_Status : string; hr_Node : string; hr_Version : string; hr_UptimeS : float64; hr_Reason : string }.

Definition health_json (r : healthResponse) : gval :=
  GObject ([("status", jput (hr_Status r)); ("node", jput (hr_Node r)); ("version", jput (hr_Version r));
    ("uptime_seconds", jput (hr_UptimeS r))] ++ omitempty (String.eqb EmptyString) "reason" (hr_Reason r)).

Definition writeJSON (fmt : float64 → string) (code : Z) (v : gval) (w : responseRecorder) : responseRecorder :=
  let w := rr_Set "Content-Type" "application/json" w in
  let w := rr_Set "Cache-Control" "no-store" w in
  let w := rr_WriteHeader code w in
  (rr_Write (String.list_byte_of_string (compact fmt v +:+ new_line 0)) w).1.

(** A probe's answer from its code, word and reason. *)
Definition health_page (fmt : float64 → string) (node version : string) (uptime : float64) (p : Z * string * string)
    (w : responseRecorder) : responseRecorder :=
  let '(code, status, reason) := p in
  writeJSON fmt code (health_json (mkHealthResponse status node version uptime reason)) w.

(** The router's answer to a probe, on a connection that holds. *)
Definition health_answer (fmt : float64 → string) (opts : RouterOptions) (version : string) (uptime : float64) (path : string)
    (h : Health) : option Response :=
  '(_, w, _) ← route_request opts (λ w s, Some (s, w, []))
    (λ r w s, (s, match r with
                  | Healthz => health_page fmt (ro_Node opts) version uptime (HealthzHandler h) w
                  | Readyz => health_page fmt (ro_Node opts) version uptime (ReadyzHandler h) w
                  | _ => w
                  end))
    MethodGet path (mkRR (mkRW ∅ 0 ∅ None (mkWriter [] None)) 0 0) tt;
  Some (response_of MethodGet w).

(** ** The reader: collectNodeStats *)

(** A number that came through JSON. *)
Definition asInt64 (v : option any) : Z := match v with Some (ANumber f) => to_int64 f | _ => 0 end.

Definition object_field (k : string) (body : list (string * any)) : option (list (string * any)) :=
  match field k body with Some (AObject l) => Some l | _ => None end.

(** What one node's page adds. *)
Definition add_page (body : list (string * any)) (e : Eviction) : Eviction :=
  let e := match object_field "eviction" body with
           | Some ev =>
               mkEviction (ec_Observed e) (i64 (ec_ObjectsEvicted e + asInt64 (field "evicted" ev)))
                 (i64 (ec_BytesReclaimed e + asInt64 (field "bytes_reclaimed" ev))) (ec_AnyNodeOverHighWater e)
           | None => e
           end in
  match object_field "usage" body with
  | Some usage =>
      match field "over_high_water" usage with
      | Some (ABool true) => mkEviction (ec_Observed e) (ec_ObjectsEvicted e) (ec_BytesReclaimed e) true
      | _ => e
      end
  | None => e
  end.

Definition stats_limit : nat := 2 ^ 20.

Section collect.
Context {S : Type} {T : Transport S}.

Definition stats_request (t : target) : Request :=
  mkRequest MethodGet (tg_URL t +:+ "/stats") ∅ None 0.

(** The answer of one node, decoded: [None] when there is none to use. *)
Definition fetch_stats (t : target) (w : S) : S * option (list (string * any)) :=
  match url_err (tg_URL t +:+ "/stats") with
  | Some _ => (w, None)
  | None =>
      let '(w1, r) := Do (stats_request t) w in
      (w1, match r with Err _ => None | Ok resp => Decode (read_limited stats_limit (rs_Body resp)) end)
  end.

Fixpoint collect_loop (ts : list target) (stats : gmap string (list (string * any))) (e : Eviction) (w : S)
    : S * (gmap string (list (string * any)) * Eviction) :=
  match ts with
  | [] => (w, (stats, e))
  | t :: ts' =>
      let '(w1, o) := fetch_stats t w in
      match o with
      | None => collect_loop ts' stats e w1
      | Some body => collect_loop ts' (<[tg_Name t := body]> stats) (add_page body e) w1
      end
  end.

Definition collectNodeStats (nodeOrder : list target) (w : S)
    : S * (gmap string (list (string * any)) * Eviction) :=
  let '(w1, (stats, e)) := collect_loop nodeOrder ∅ (mkEviction false 0 0 false) w in
  (w1, (stats, mkEviction (0 <? ec_ObjectsEvicted e) (ec_ObjectsEvicted e) (ec_BytesReclaimed e)
                 (ec_AnyNodeOverHighWater e))).
End collect.

(** ** Lemmas *)

(** *** The page is JSON the reader understands *)

Lemma foldr_max_le {A} (h : A → nat) l k : Forall (λ x, h x ≤ k)%nat l → (foldr (λ x, Nat.max (h x)) O l ≤ k)%nat.
Proof. induction 1; cbn [foldr]; lia. Qed.

Lemma gheight_of_map m k : map_Forall (λ _ v, gheight v ≤ k)%nat m → (gheight (of_map m) ≤ S k)%nat.
Proof.
  intros Hm. cbn [of_map gheight]. apply le_n_S. apply (foldr_max_le (λ kv : string * gval, gheight kv.2)).
  rewrite (merge_sort_Permutation key_le (map_to_list m)). apply map_Forall_to_list in Hm.
  eapply Forall_impl; [exact Hm|]. by intros [k' v].
Qed.

Lemma put_field_Forall (P : string → gval → Prop) k o m :
  (∀ v, o = Some v → P k v) → map_Forall P m → map_Forall P (put_field k o m).
Proof. intros Ho Hm. destruct o as [v|]; [|done]. apply map_Forall_insert_2; [by apply Ho|done]. Qed.

Lemma stats_body_height node version uptime now p :
  (gheight (of_map (stats_body node version uptime now p)) ≤ 3)%nat.
Proof.
  apply (gheight_of_map _ 2). unfold stats_body. set (body := <["node" := _]> _).
  assert (map_Forall (λ _ v, gheight v ≤ 2)%nat body) as Hb.
  { repeat (apply map_Forall_insert_2; [cbn; lia|]). apply map_Forall_empty. }
  destruct p as [s|]; [|done]. apply map_Forall_union_2; [|done]. unfold stats_map.
  assert (∀ u, gheight (usage_json u) ≤ 2)%nat as Hu.
  { intros u. apply (gheight_of_map _ 1). repeat (apply map_Forall_insert_2; [cbn; lia|]).
    apply map_Forall_empty. }
  assert (gheight (cluster_json s) ≤ 2)%nat as Hc.
  { apply (gheight_of_map _ 1). apply map_Forall_insert_2; [cbn; lia|]. apply map_Forall_insert_2.
    - cbn [gheight]. apply le_n_S. apply foldr_max_le. apply Forall_fmap, Forall_true.
      intros x. cbn. lia.
    - apply map_Forall_singleton. cbn. lia. }
  repeat first [apply put_field_Forall; [intros v (x & _ & ->)%fmap_Some|]|apply map_Forall_insert_2; [cbn; lia|]].
  - destruct x as [[? ?] ?]. cbn. lia.
  - apply Hu.
  - cbn. lia.
  - by apply map_Forall_singleton.
Qed.

(** The answer is the page, with status 200. *)
Lemma stats_answer_spec fmt opts d :
  ∃ resp, stats_answer fmt opts d = Some resp ∧ rs_StatusCode resp = StatusOK ∧
    rdata (rs_Body resp) = String.list_byte_of_string (Encode fmt (page_value d)) ∧ rerr (rs_Body resp) = None.
Proof.
  unfold stats_answer, route_request. change (isCachePath "/stats") with false. cbv iota.
  assert (mux_route opts MethodGet "/stats" = HttpApi.StatsPage) as ->.
  { unfold mux_route. change (String.eqb "/stats" "/metrics") with false. done. }
  cbn [mbind option_bind]. eexists. split; [done|]. unfold StatsHandler, page_value.
  generalize (String.list_byte_of_string
    (Encode fmt (of_map (stats_body (pd_node d) (pd_version d) (pd_uptime d) (pd_now d) (Some (pd_stats d)))))).
  intros b. unfold response_of. cbn. split_and!; [done|done|]. destruct (Z.ltb_spec (Z.of_nat (length b)) (Z.of_nat (length b))); [lia|done].
Qed.

(** A probe is answered with its code. *)
Lemma readyz_answer_spec fmt opts version uptime h :
  ∃ resp, health_answer fmt opts version uptime "/readyz" h = Some resp ∧ rs_StatusCode resp = (ReadyzHandler h).1.1.
Proof.
  unfold health_answer, route_request. change (isCachePath "/readyz") with false. cbv iota.
  change (mux_route opts MethodGet "/readyz") with Readyz. cbn [mbind option_bind]. eexists. split; [done|].
  unfold ReadyzHandler. destruct (Ready h) as [ok reason]. destruct ok; cbn [health_page fst snd]; unfold writeJSON;
    match goal with |- context [String.list_byte_of_string ?t] => generalize (String.list_byte_of_string t) end;
    intros b; reflexivity.
Qed.

(** The fields of a page, as the reader finds them. *)
Lemma page_decodes fmt d :
  plain fmt (page_value d) →
  ∃ l, Decode (Encode fmt (page_value d)) = Some l ∧
    ∀ k, field k l = any_of <$> stats_body (pd_node d) (pd_version d) (pd_uptime d) (pd_now d) (Some (pd_stats d)) !! k.
Proof.
  intros Hp. eexists. split; [|intros k; apply field_of_map]. apply Decode_Encode; [done|].
  pose proof (stats_body_height (pd_node d) (pd_version d) (pd_uptime d) (pd_now d) (Some (pd_stats d))) as Hh.
  unfold page_value, of_map in *. etrans; [exact Hh|]. unfold maxNestingDepth. lia.
Qed.

Lemma stats_body_eviction d :
  stats_body (pd_node d) (pd_version d) (pd_uptime d) (pd_now d) (Some (pd_stats d)) !! "eviction"
  = Some (eviction_json (ns_eviction (pd_stats d))).
Proof.
  unfold stats_body. apply lookup_union_Some_l. unfold stats_map, put_field. destruct (_ <$> ns_repair _).
  - rewrite lookup_insert_ne by done. apply lookup_insert_eq.
  - apply lookup_insert_eq.
Qed.

Lemma stats_body_usage d :
  stats_body (pd_node d) (pd_version d) (pd_uptime d) (pd_now d) (Some (pd_stats d)) !! "usage"
  = usage_json <$> ns_usage (pd_stats d).
Proof.
  unfold stats_body. rewrite lookup_union.
  assert (stats_map (pd_stats d) !! "usage" = usage_json <$> ns_usage (pd_stats d)) as ->.
  { unfold stats_map, put_field.
    destruct (_ <$> ns_repair _), (ns_usage _), (_ <$> ns_index _); cbn [fmap option_fmap option_map];
      repeat first [rewrite lookup_insert_eq|rewrite lookup_insert_ne by done]; done. }
  destruct (usage_json <$> _); [done|]. repeat rewrite lookup_insert_ne by done. done.
Qed.

Lemma length_list_byte_of_string s : length (String.list_byte_of_string s) = String.length s.
Proof. induction s as [|c s IH]; [done|]. cbn. by f_equal. Qed.

(** What the counters of a page contribute. *)
Definition page_evicted (o : option PageData) : Z :=
  match o with Some d => Evicted (ns_eviction (pd_stats d)) | None => 0 end.
Definition page_reclaimed (o : option PageData) : Z :=
  match o with Some d => BytesReclaimed (ns_eviction (pd_stats d)) | None => 0 end.
Definition page_over (o : option PageData) : bool :=
  match o with Some d => match ns_usage (pd_stats d) with Some u => us_over u | None => false end | None => false end.

(** A page the reader takes as it is: 64-bit counters and ASCII names, within the
    reader's limit, with eviction counters a float64 can hold. *)
Record page_ok (fmt : float64 → string) (d : PageData) : Prop := {
  pk_plain : plain fmt (page_value d);
  pk_limit : (String.length (Encode fmt (page_value d)) ≤ stats_limit)%nat;
  pk_evicted : 0 ≤ Evicted (ns_eviction (pd_stats d)) < 2 ^ 53;
  pk_reclaimed : 0 ≤ BytesReclaimed (ns_eviction (pd_stats d)) < 2 ^ 53 }.

Lemma eviction_fields s :
  ∃ ev, any_of (eviction_json s) = AObject ev ∧ field "evicted" ev = Some (ANumber (of_int (Evicted s))) ∧
    field "bytes_reclaimed" ev = Some (ANumber (of_int (BytesReclaimed s))).
Proof. eexists. split; [reflexivity|]. done. Qed.

Lemma add_page_spec fmt d l e :
  page_ok fmt d →
  (∀ k, field k l = any_of <$> stats_body (pd_node d) (pd_version d) (pd_uptime d) (pd_now d) (Some (pd_stats d)) !! k) →
  add_page l e = mkEviction (ec_Observed e) (i64 (ec_ObjectsEvicted e + page_evicted (Some d)))
    (i64 (ec_BytesReclaimed e + page_reclaimed (Some d))) (ec_AnyNodeOverHighWater e || page_over (Some d)).
Proof.
  intros [_ _ He Hr] Hl. unfold add_page, object_field. rewrite !Hl, stats_body_eviction, stats_body_usage.
  cbn [fmap option_fmap option_map]. destruct (eviction_fields (ns_eviction (pd_stats d))) as (ev & -> & -> & ->).
  cbn [asInt64]. rewrite !to_int64_of_int by lia. unfold page_over, page_evicted, page_reclaimed.
  destruct (ns_usage (pd_stats d)) as [u|]; cbn [fmap option_fmap option_map]; [|by rewrite orb_false_r].
  unfold usage_json, of_map. cbn [any_of]. rewrite field_of_map.
  repeat rewrite lookup_insert_ne by done. rewrite lookup_singleton_eq. cbn [fmap option_fmap option_map any_of].
  destruct (us_over u); cbn [ec_Observed ec_ObjectsEvicted ec_BytesReclaimed ec_AnyNodeOverHighWater];
    by rewrite ?orb_true_r, ?orb_false_r.
Qed.

Section reader.
Context {S : Type} {T : Transport S} (fmt : float64 → string) (opts : RouterOptions).
Context (page : target → option PageData).

(** Every node of the list serves its page, or does not answer. *)
Definition serves_pages (ts : list target) : Prop :=
  ∀ t w, t ∈ ts → url_err (tg_URL t +:+ "/stats") = None ∧
    ∃ w' r, Do (stats_request t) w = (w', r) ∧
      match page t with Some d => ∃ resp, stats_answer fmt opts d = Some resp ∧ r = Ok resp | None => ∃ e, r = Err e end.

Lemma fetch_stats_spec ts t w :
  serves_pages ts → t ∈ ts → (∀ d, page t = Some d → page_ok fmt d) →
  ∃ w' o, fetch_stats t w = (w', o) ∧
    match page t, o with
    | Some d, Some l => ∀ e, add_page l e =
        mkEviction (ec_Observed e) (i64 (ec_ObjectsEvicted e + page_evicted (Some d)))
          (i64 (ec_BytesReclaimed e + page_reclaimed (Some d))) (ec_AnyNodeOverHighWater e || page_over (Some d))
    | None, None => True
    | _, _ => False
    end.
Proof.
  intros Hs Ht Hok. destruct (Hs t w Ht) as (Hu & w' & r & Hd & Hr). unfold fetch_stats. rewrite Hu, Hd.
  destruct (page t) as [d|] eqn:Hp.
  - destruct Hr as (resp & Ha & ->). specialize (Hok d eq_refl).
    destruct (stats_answer_spec fmt opts d) as (resp' & Ha' & _ & Hb & _).
    assert (resp' = resp) as -> by congruence. destruct (page_decodes fmt d (pk_plain _ _ Hok)) as (l & Hl & Hf).
    exists w', (Some l). split; [|intros e; by apply (add_page_spec fmt)].
    f_equal. unfold read_limited. rewrite Hb, take_ge; [by rewrite String.string_of_list_byte_of_string|].
    pose proof (pk_limit _ _ Hok) as Hlen. by rewrite length_list_byte_of_string.
  - destruct Hr as [e ->]. by eexists _, _.
Qed.

Lemma collect_loop_spec ts stats e w :
  serves_pages ts → (∀ t d, t ∈ ts → page t = Some d → page_ok fmt d) →
  0 ≤ ec_ObjectsEvicted e → ec_ObjectsEvicted e + Zsum (page_evicted ∘ page <$> ts) < 2 ^ 63 →
  0 ≤ ec_BytesReclaimed e → ec_BytesReclaimed e + Zsum (page_reclaimed ∘ page <$> ts) < 2 ^ 63 →
  ∃ w' stats', collect_loop ts stats e w = (w', (stats',
      mkEviction (ec_Observed e) (ec_ObjectsEvicted e + Zsum (page_evicted ∘ page <$> ts))
        (ec_BytesReclaimed e + Zsum (page_reclaimed ∘ page <$> ts))
        (ec_AnyNodeOverHighWater e || existsb (page_over ∘ page) ts))) ∧
    (∀ k, is_Some (stats !! k) → is_Some (stats' !! k)) ∧
    (∀ t, t ∈ ts → page t ≠ None → is_Some (stats' !! tg_Name t)).
Proof.
  revert stats e w. induction ts as [|t ts IH]; intros stats e w Hs Hok He1 He2 Hb1 Hb2.
  { exists w, stats. destruct e. cbn. rewrite !Z.add_0_r, orb_false_r. split_and!; [done|done|by intros t ?%elem_of_nil]. }
  assert (serves_pages ts) as Hs' by (intros t' w' Ht'; apply Hs; by right).
  assert (∀ t' d, t' ∈ ts → page t' = Some d → page_ok fmt d) as Hok' by (intros t' d Ht'; apply Hok; by right).
  assert (∀ f : option PageData → Z, f None = 0 → (∀ d, page_ok fmt d → 0 ≤ f (Some d)) → 0 ≤ Zsum (f ∘ page <$> ts)) as Hpos.
  { intros f H0 Hf. apply Zsum_nonneg, Forall_fmap, Forall_forall. intros t' Ht'. cbn.
    destruct (page t') as [d|] eqn:Hp; [by apply Hf, (Hok' t')|lia]. }
  pose proof (Hpos page_evicted eq_refl (λ d H, proj1 (pk_evicted _ _ H))) as Hz1.
  pose proof (Hpos page_reclaimed eq_refl (λ d H, proj1 (pk_reclaimed _ _ H))) as Hz2.
  destruct (fetch_stats_spec (t :: ts) t w Hs (list_elem_of_here _ _) (λ d, Hok t d (list_elem_of_here _ _))) as (w1 & o & Hf & Ho).
  assert (∀ f, Zsum (f ∘ page <$> t :: ts) = f (page t) + Zsum (f ∘ page <$> ts)) as Hcons by done.
  rewrite !Hcons in *. clear Hcons. cbn [collect_loop existsb]. change ((page_over ∘ page) t) with (page_over (page t)).
  rewrite Hf.
  destruct (page t) as [d|] eqn:Hp, o as [l|]; try done.
  - pose proof (Hok t d (list_elem_of_here _ _) Hp) as [_ _ Hke Hkr]. rewrite Ho. cbn [page_evicted page_reclaimed] in *.
    rewrite !i64_id by (unfold in_i64; lia).
    destruct (IH (<[tg_Name t := l]> stats) (mkEviction (ec_Observed e) (ec_ObjectsEvicted e + Evicted (ns_eviction (pd_stats d)))
      (ec_BytesReclaimed e + BytesReclaimed (ns_eviction (pd_stats d))) (ec_AnyNodeOverHighWater e || page_over (Some d))) w1)
      as (w' & stats' & HL & Hk & Hin); [done|done|cbn; lia..|].
    exists w', stats'. rewrite HL. cbn [ec_Observed ec_ObjectsEvicted ec_BytesReclaimed ec_AnyNodeOverHighWater].
    rewrite !Z.add_assoc, orb_assoc. split; [done|]. split.
    + intros k Hi. apply Hk. destruct (decide (k = tg_Name t)) as [->|]; [by rewrite lookup_insert_eq|by rewrite lookup_insert_ne].
    + intros t' [->|Ht']%elem_of_cons Hne; [apply Hk; by rewrite lookup_insert_eq|by apply Hin].
  - cbn [page_evicted page_reclaimed page_over] in *. destruct (IH stats e w1) as (w' & stats' & HL & Hk & Hin); [done|done|lia..|].
    exists w', stats'. rewrite HL, !Z.add_0_l. split; [done|]. split; [done|].
    intros t' [->|Ht']%elem_of_cons Hne; [by rewrite Hp in Hne|by apply Hin].
Qed.
End reader.

(** ** Claims *)

(** C27: the chaos command learns from the nodes what they evicted.  If every node
    either serves its stats page or does not answer, the objects and bytes that
    [collectNodeStats] adds up are the sums of the eviction counters of the nodes
    that answered, evictions count as observed exactly when that sum is positive,
    some node counts as over its high-water mark exactly when one of them says so,
    and every node that answered is in the statistics.  The pages are written by
    [StatsHandler] as JSON and read back through the decoder; they are within the
    reader's limit of one mebibyte, and the counters are below two to the 53. *)
Theorem stats_reach_the_runner {S} {T : Transport S} fmt opts (page : target → option PageData) nodeOrder (w : S) :
  serves_pages fmt opts page nodeOrder → (∀ t d, t ∈ nodeOrder → page t = Some d → page_ok fmt d) →
  let evicted := Zsum (page_evicted ∘ page <$> nodeOrder) in
  let reclaimed := Zsum (page_reclaimed ∘ page <$> nodeOrder) in
  evicted < 2 ^ 63 → reclaimed < 2 ^ 63 →
  ∃ w' stats, collectNodeStats nodeOrder w =
      (w', (stats, mkEviction (0 <? evicted) evicted reclaimed (existsb (page_over ∘ page) nodeOrder))) ∧
    ∀ t, t ∈ nodeOrder → page t ≠ None → is_Some (stats !! tg_Name t).
Proof.
  intros Hs Hok evicted reclaimed He Hr.
  destruct (collect_loop_spec fmt opts page nodeOrder ∅ (mkEviction false 0 0 false) w Hs Hok)
    as (w' & stats & HL & _ & Hin); [done|exact He|done|exact Hr|].
  exists w', stats. unfold collectNodeStats. rewrite HL. cbn [ec_Observed ec_ObjectsEvicted ec_BytesReclaimed
    ec_AnyNodeOverHighWater orb]. by rewrite !Z.add_0_l.
Qed.

(** ** Witness: one node with evictions, one that is down *)

Definition int_text (f : float64) : string := pretty (to_int64 f).

Definition busy_page : PageData :=
  mkPageData "a" "dev" (of_int 12) "2026-01-01T00:00:00Z"
    (mkNodeStats "a" ["a"; "b"] 2 (mkStats 5 0 0 2 1 0 4096 128 5 4096 0) true (Some (mkIndexStats 5 3 2 1 2 0))
       (Some (mkUsageStats 2 4096 8192 4000 2000 true)) (λ _, 0) (mkEvictorStats 1 3 4096 0 0)
       (Some (λ _, 0, 0, 1024))).

Definition busy_response : option Response := stats_answer int_text (mkRouterOptions "a" false true) busy_page.

Definition half_network : Transport unit :=
  Build_Transport unit (λ _, None) (λ r u,
    (u, if String.eqb (rq_URL r) "http://a/stats" then from_option Ok (Err no_such_host) busy_response else Err no_such_host)).

Definition two_targets : list target := [mkTarget "a" "http://a"; mkTarget "b" "http://b"].

Definition busy_pages (t : target) : option PageData := if String.eqb (tg_Name t) "a" then Some busy_page else None.

Lemma busy_page_ok : page_ok int_text busy_page.
Proof.
  split; [|apply Nat.leb_le; vm_compute; reflexivity|vm_compute; split; [discriminate|reflexivity]..].
  vm_compute. repeat split; try discriminate; try reflexivity; intros; discriminate.
Qed.

Lemma busy_pages_served : @serves_pages unit half_network int_text (mkRouterOptions "a" false true) busy_pages two_targets.
Proof.
  intros t w Ht. split; [done|]. destruct (stats_answer_spec int_text (mkRouterOptions "a" false true) busy_page)
    as (resp & Hr & _). unfold two_targets in Ht. rewrite !elem_of_cons in Ht.
  destruct Ht as [->|[->|[]%elem_of_nil]]; eexists _, _; (split; [reflexivity|]).
  - exists resp. split; [exact Hr|].
    change (from_option Ok (Err no_such_host) busy_response = Ok resp). unfold busy_response. by rewrite Hr.
  - by exists no_such_host.
Qed.

Lemma stats_reach_the_runner_witness :
  ∃ w stats, @collectNodeStats unit half_network two_targets tt = (w, (stats, mkEviction true 3 4096 true)) ∧
    is_Some (stats !! "a").
Proof.
  destruct (@stats_reach_the_runner unit half_network int_text (mkRouterOptions "a" false true) busy_pages two_targets tt
    busy_pages_served) as (w & stats & H & Hin).
  - intros t d _ Hp. unfold busy_pages in Hp. destruct (String.eqb (tg_Name t) "a"); [|discriminate Hp].
    injection Hp as <-. exact busy_page_ok.
  - reflexivity.
  - reflexivity.
  - exists w, stats. split; [exact H|]. apply (Hin (mkTarget "a" "http://a")); [left|discriminate].
Defined.
