(* ===== verification/ChaosRun.v ===== *)
(** * A whole chaos run: runChaos of cmd/chaos/chaos.go

    The phases of [Chaos] composed as the program composes them: the nodes are
    awaited, the workers and the fault injector run, everything is brought back,
    convergence is measured, every object is verified and the report is judged.
    Requests are served one after the other, each on the network as it then is;
    the fault injector acts on the containers.  What the nodes' /stats say about
    evictions is read from them; whether the report can be written is an input. *)

From S2P Require Import Prelude GoStrings Sha256 Errors Key Config Ring Protocol Index FileSystem Store StoreSpec GoFloat Strconv Evict Client Coordinator HttpApi Cluster Repair Reads ClusterSpec Chaos Json StatsPage.

#[local] Open Scope Z_scope.

Section run.
Context {S D : Type} {C : Compose D}.

(** What a run meets: the network, the deadline and the context of the first wait;
    the iterations of the workers, with their network and what they draw; the
    ticks of the injector; how long traffic lasted; the network and the deadline
    after the nodes were started again; the networks of the nodes' statistics, of
    the convergence with its deadline and of the verification; and the outcome of
    writing the report. *)
Record RunEnv := mkRunEnv {
  rv_first : Transport S; rv_before : nat → bool; rv_ctx : nat → option error;
  rv_moves : list (Transport S * float64 * (nat → Z)); rv_ticks : list (Z * bool); rv_elapsed : Z;
  rv_back : Transport S; rv_back_before : nat → bool; rv_stats : Transport S;
  rv_converge : Transport S; rv_late : nat → bool; rv_verify : Transport S; rv_write : option error }.

(** The iterations of all workers. *)
Fixpoint traffic (opts : options) (nodeOrder : list target) (moves : list (Transport S * float64 * (nat → Z)))
    (s : Run S) : option (Run S) :=
  match moves with
  | [] => Some s
  | (T, f, rnd) :: moves' =>
      s1 ← @worker_iteration S T nodeOrder opts f rnd s;
      traffic opts nodeOrder moves' s1
  end.

(** [runChaos]: the cluster and the containers afterwards, the report if there is
    one, and the error it returns. *)
Definition runChaos (fuel : nat) (opts : options) (nodeOrder : list target) (env : RunEnv) (w : S) (d : D)
    : option (S * D * option report * option error) :=
  '(w1, err) ← @waitAllReady S (rv_first env) "1m0s" fuel 0 (rv_before env) (rv_ctx env) nodeOrder w;
  match err with
  | Some e => Some (w1, d, None, Some e)
  | None =>
      s ← traffic opts nodeOrder (rv_moves env) (new_run w1);
      '(ds, faults) ← (if op_noFaults opts then Some ([], []) else injectFaults nodeOrder (rv_ticks env) d);
      let tr := build_traffic (rn_count s) (rv_elapsed env) in
      let '(d1, _) := restoreAll opts nodeOrder (default d (last ds)) in
      '(w2, _) ← @waitAllReady S (rv_back env) "2m0s" fuel 0 (rv_back_before env) (λ _, None) nodeOrder (rn_world s);
      let '(w2, (_, evicted)) := @collectNodeStats S (rv_stats env) nodeOrder w2 in
      '(w3, conv) ← @measureConvergence S (rv_converge env) nodeOrder fuel (rv_late env) (rn_ledger s) w2;
      '(s', fin) ← @finalVerify S (rv_verify env) nodeOrder (set_world w3 s);
      let rep := mkReport (negb (op_noFaults opts)) tr (rn_count s' ReadsVerified) (rn_count s' CorruptedReads)
                   faults conv fin evicted in
      Some (rn_world s', d1, Some rep,
            match rv_write env with Some e => Some e | None => run_error rep end)
  end.

(** ** Lemmas *)

Section waiting.
Context {T : Transport S}.

Lemma wait_node_total n fuel k before ctx url (w : S) :
  (∀ j, (n ≤ j)%nat → before j = false) → (n < fuel + k)%nat → (0 < fuel)%nat →
  ∃ w' k' r, wait_node fuel k before ctx url w = Some (w', k', r) ∧ (k ≤ k')%nat.
Proof.
  intros Hb. revert k w. induction fuel as [|fuel IH]; intros k w Hn Hf; [lia|]. cbn [wait_node].
  destruct (before k) eqn:Hk; cbn [negb]; [|by eexists _, _, _].
  destruct (ctx k); [by eexists _, _, _|]. destruct (url_err _); [by eexists _, _, _|].
  destruct (Do _ w) as [w1 r]. destruct (match r with Ok _ => _ | Err _ => _ end); [eexists _, _, _; split; [done|lia]|].
  assert (k < n)%nat by (destruct (decide (n ≤ k)%nat) as [Hle|]; [rewrite (Hb k Hle) in Hk; done|lia]).
  destruct (IH (k + 1)%nat w1) as (w2 & k2 & r2 & -> & Hle); [lia|lia|]. eexists _, _, _. split; [done|lia].
Qed.

Lemma waitAllReady_total within n fuel k before ctx ts (w : S) :
  (∀ j, (n ≤ j)%nat → before j = false) → (n < fuel)%nat → is_Some (waitAllReady within fuel k before ctx ts w).
Proof.
  intros Hb Hn. revert k w. induction ts as [|t ts IH]; intros k w; cbn [waitAllReady]; [by eexists|].
  destruct (wait_node_total n fuel k before ctx (tg_URL t) w Hb) as (w1 & k1 & r & -> & _); [lia|lia|].
  cbn [mbind option_bind]. destruct r as [[]|e]; [apply IH|by eexists..].
Qed.

Lemma converge_loop_total nodeOrder n fuel k late sample c (w : S) :
  late (k + n)%nat = true → (n < fuel)%nat → is_Some (converge_loop nodeOrder fuel k late sample c w).
Proof.
  revert k c w n. induction fuel as [|fuel IH]; intros k c w n Hl Hn; [lia|]. cbn [converge_loop].
  destruct (countReplicas _ _ _) as [w1 cs]. destruct ((under cs =? 0) && _); [by eexists|].
  destruct (late k) eqn:Hk; [by eexists|]. destruct n as [|n]; [rewrite Nat.add_0_r in Hl; congruence|].
  apply (IH _ _ _ n); [|lia]. rewrite <-Hl. f_equal. lia.
Qed.

Lemma measureConvergence_total nodeOrder n fuel late l (w : S) :
  late n = true → (n < fuel)%nat → is_Some (measureConvergence nodeOrder fuel late l w).
Proof.
  intros Hl Hn. unfold measureConvergence. destruct (_ && _); [by eexists|].
  destruct (subsample_spec (sort_Strings (refusedKeys l)) (maxSample * 2 / 3)) as (l1 & -> & _). cbn [mbind option_bind].
  destruct (subsample_spec (sort_Strings (ledger_all l)) (maxSample - Z.of_nat (length l1))) as (l2 & -> & _).
  cbn [mbind option_bind]. by apply (converge_loop_total _ n).
Qed.
End waiting.

Lemma traffic_total opts nodeOrder moves (s : Run S) :
  nodeOrder ≠ [] → 0 ≤ op_objectMin opts ≤ op_objectMax opts → run_ok s →
  ∃ s', traffic opts nodeOrder moves s = Some s' ∧ run_ok s'.
Proof.
  intros Hn Hb. revert s. induction moves as [|[[T f] rnd] moves IH]; intros s Hs; [by eexists|]. cbn [traffic].
  destruct (@worker_iteration_total S T opts nodeOrder f rnd s Hn Hb) as [s1 H1]. rewrite H1. cbn [mbind option_bind].
  apply IH. eapply (chaos_step_ok opts nodeOrder (λ _, True) (λ _ _, False)); [|done]. by econstructor.
Qed.

Lemma injectFaults_total nodeOrder ticks (d : D) : nodeOrder ≠ [] → is_Some (injectFaults nodeOrder ticks d).
Proof.
  intros Hn. revert d. induction ticks as [|[draw stop] ticks IH]; intros d; cbn [injectFaults]; [by eexists|].
  destruct (pick_Some draw nodeOrder Hn) as (i & t & -> & Ht). cbn [mbind option_bind]. rewrite Ht. cbn.
  destruct (inject_one (tg_Name t) d) as [ds ev]. destruct (_ && stop); [by eexists|].
  destruct (IH (default d (last ds))) as [[ds' evs] ->]. by eexists.
Qed.
End run.

(** Starting nodes takes none down. *)
Lemma restoreAll_down {D} {C : Compose D} opts nodeOrder (d : D) : down (restoreAll opts nodeOrder d).1 ⊆ down d.
Proof.
  unfold restoreAll. destruct (op_noFaults opts); [done|]. generalize (@None error). revert d.
  induction nodeOrder as [|t ts IH]; intros d e; cbn [restore_loop]; [done|].
  destruct (compose (ComposeStart (tg_Name t)) d) as [d1 [[]|e1]] eqn:H1.
  - apply start_ok in H1. etrans; [apply IH|]. set_solver.
  - apply start_err in H1. etrans; [apply IH|]. set_solver.
Qed.

(** What a report of [PASS] says. *)
Lemma verdict_pass rep :
  0 ≤ rp_CorruptedReads rep → 0 ≤ fv_Corrupted (rp_Final rep) → 0 ≤ fv_Missing (rp_Final rep) → verdict rep = Pass →
  rp_CorruptedReads rep = 0 ∧ fv_Corrupted (rp_Final rep) = 0 ∧
  (fv_Missing (rp_Final rep) = 0 ∨ ec_Observed (rp_Eviction rep) = true) ∧
  (cv_Attempted (rp_Convergence rep) = true → cv_Converged (rp_Convergence rep) = true).
Proof.
  intros H1 H2 H3. unfold verdict. destruct (_ || _) eqn:Hc; [done|]. destruct (_ && negb _) eqn:Hg; [done|].
  destruct (cv_Attempted _ && _) eqn:Hv; [done|]. intros _. boolify. split; [lia|]. split; [lia|]. split.
  - destruct (ec_Observed (rp_Eviction rep)); [by right|]. left. rewrite andb_true_r in Hg. boolify. lia.
  - intros Ha. rewrite Ha in Hv. by destruct (cv_Converged _).
Qed.

Lemma verify_loop_grows {S} {T : Transport S} nodeOrder i sample f (s s' : Run S) f' :
  verify_loop nodeOrder i sample f s = Some (s', f') →
  fv_Corrupted f ≤ fv_Corrupted f' ∧ fv_Missing f ≤ fv_Missing f'.
Proof.
  revert i f s. induction sample as [|key sample IH]; intros i f s; cbn [verify_loop]; [intros [= _ <-]; lia|].
  destruct (nodeOrder !! _) as [t|]; cbn; [|done]. destruct (verify_key _ _ _) as [w1 o]. intros H%IH.
  destruct o; simpl in H; lia.
Qed.

Lemma finalVerify_total {S} {T : Transport S} nodeOrder (s : Run S) :
  nodeOrder ≠ [] → ∃ s' fin, finalVerify nodeOrder s = Some (s', fin) ∧
    fv_Correct fin + fv_Corrupted fin + fv_Missing fin + fv_Unreadable fin = fv_ObjectsChecked fin ∧
    rn_count s' CorruptedReads = rn_count s CorruptedReads + fv_Corrupted fin ∧
    0 ≤ fv_Corrupted fin ∧ 0 ≤ fv_Missing fin.
Proof.
  intros Hn. destruct (final_sample_spec (ledger_all (rn_ledger s))) as (l & Hl & _).
  destruct (verify_loop_total nodeOrder 0 l (mkFinalVerification (Z.of_nat (length l)) 0 0 0 0) s Hn)
    as (s' & fin & Hv & H1 & H2 & H3 & _). exists s', fin. unfold finalVerify. rewrite Hl. cbn [mbind option_bind].
  split; [done|]. apply verify_loop_grows in Hv. simpl in *. lia.
Qed.

(** ** Claims *)

(** C26: a chaos run ends and its verdict means what it says.  With a node to talk
    to, sizes in order and clocks that run out, a run returns whatever the network
    and the containers do.  Without a report it failed because a node did not
    become ready.  With one, every object it verified at the end is in one class;
    it returns an error exactly when the verdict is corruption, if the report could
    be written; [PASS] means that no corruption was seen, that no acknowledged
    object was gone unless the nodes evicted, and that the sampled objects had
    converged; and a run without faults leaves the containers alone, while one
    whose stops and starts all succeeded leaves every node up. *)
Theorem chaos_run_ends {S D} {C : Compose D} fuel opts nodeOrder (env : @RunEnv S) (w : S) (d : D) n n1 n2 :
  nodeOrder ≠ [] → 0 ≤ op_objectMin opts ≤ op_objectMax opts →
  (∀ j, (n ≤ j)%nat → rv_before env j = false) → (∀ j, (n1 ≤ j)%nat → rv_back_before env j = false) →
  rv_late env n2 = true → (n < fuel)%nat → (n1 < fuel)%nat → (n2 < fuel)%nat →
  ∃ w' d' o err, runChaos fuel opts nodeOrder env w d = Some (w', d', o, err) ∧
    match o with
    | None => err ≠ None ∧ d' = d
    | Some rep =>
        let fin := rp_Final rep in
        fv_Correct fin + fv_Corrupted fin + fv_Missing fin + fv_Unreadable fin = fv_ObjectsChecked fin ∧
        (rv_write env = None → err ≠ None ↔ verdict rep = FailCorrupted) ∧
        (verdict rep = Pass → rp_CorruptedReads rep = 0 ∧ fv_Corrupted fin = 0 ∧
           (fv_Missing fin = 0 ∨ ec_Observed (rp_Eviction rep) = true) ∧
           (cv_Attempted (rp_Convergence rep) = true → cv_Converged (rp_Convergence rep) = true)) ∧
        (op_noFaults opts = true → rp_Faults rep = [] ∧ d' = d) ∧
        (down d = ∅ → Forall clean (rp_Faults rep) → down d' = ∅)
    end.
Proof.
  intros Hn Hb Hf Hbk Hl Hn0 Hn1 Hn2. unfold runChaos.
  destruct (@waitAllReady_total S (rv_first env) "1m0s" n fuel 0 (rv_before env) (rv_ctx env) nodeOrder w Hf Hn0)
    as [[w1 err] ->]. cbn [mbind option_bind]. destruct err as [e|]; [by eexists _, _, None, _|].
  destruct (traffic_total opts nodeOrder (rv_moves env) (new_run w1) Hn Hb (new_run_ok w1)) as (s & -> & Hs).
  cbn [mbind option_bind].
  assert (∃ ds faults, (if op_noFaults opts then Some ([], []) else injectFaults nodeOrder (rv_ticks env) d)
    = Some (ds, faults) ∧ (op_noFaults opts = true → faults = [] ∧ ds = []) ∧
    (down d = ∅ → Forall clean faults → down (default d (last ds)) = ∅)) as (ds & faults & -> & Hno & Hup).
  { destruct (op_noFaults opts); [by eexists _, _|].
    destruct (injectFaults_total nodeOrder (rv_ticks env) d Hn) as [[ds faults] HI]. exists ds, faults.
    split; [done|]. split; [done|]. intros Hd Hc. by apply (one_down_at_a_time nodeOrder (rv_ticks env) d ds faults). }
  cbn [mbind option_bind]. pose proof (restoreAll_down opts nodeOrder (default d (last ds))) as Hdown.
  assert (op_noFaults opts = true → (restoreAll opts nodeOrder (default d (last ds))).1 = d) as Hsame.
  { intros H. destruct (Hno H) as [_ ->]. unfold restoreAll. by rewrite H. }
  destruct (restoreAll opts nodeOrder _) as [d1 re]. cbn [fst] in Hdown, Hsame.
  destruct (@waitAllReady_total S (rv_back env) "2m0s" n1 fuel 0 (rv_back_before env) (λ _, None) nodeOrder (rn_world s) Hbk Hn1)
    as [[w2 err2] ->]. cbn [mbind option_bind]. destruct (collectNodeStats nodeOrder w2) as [w4 [pages evicted]].
  destruct (@measureConvergence_total S (rv_converge env) nodeOrder n2 fuel (rv_late env) (rn_ledger s) w4 Hl Hn2)
    as [[w3 conv] ->]. cbn [mbind option_bind].
  destruct (@finalVerify_total S (rv_verify env) nodeOrder (set_world w3 s) Hn) as (s' & fin & -> & Hsum & Hcor & Hc0 & Hm0).
  cbn [mbind option_bind]. eexists _, _, (Some _), _. split; [done|]. cbn [rp_Final rp_Faults].
  pose proof (ro_corrupted _ Hs) as [Hc _]. cbn [set_world rn_count] in Hcor. set (rep := mkReport _ _ _ _ _ _ _ _).
  split; [done|]. split; [|split; [|split]].
  - intros ->. unfold run_error, verdict. destruct (_ || _); [by split|]. split; [done|].
    repeat case_match; done.
  - intros Hp. apply (verdict_pass rep); unfold rep; simpl; try done. lia.
  - intros H. destruct (Hno H) as [-> _]. split; [done|by apply Hsame].
  - intros Hd Hcl. specialize (Hup Hd Hcl). set_solver.
Qed.

(** ** Witness: a run on containers that always obey *)

(** Containers by the nodes that are down. *)
#[export] Program Instance obedient : Compose (gset string) := {
  compose c d := (match c with ComposeStop v => {[v]} ∪ d | ComposeStart v => d ∖ {[v]} end, Ok tt);
  down d := d }.
Solve All Obligations with naive_solver.

(** A server that stores nothing and is always ready. *)
Definition empty_server : Transport unit :=
  Build_Transport unit (λ _, None) (λ r u,
    (u, Ok (mkResponse (if String.eqb (rq_Method r) MethodPut then StatusServiceUnavailable
                        else if HasPrefix (rq_URL r) "http://a/readyz" then StatusOK else StatusNotFound)
              ∅ (mkReader [] None) 0))).

Definition one_target : list target := [mkTarget "a" "http://a"].

Definition quiet_run : @RunEnv unit :=
  mkRunEnv empty_server (λ k, (k <? 2)%nat) (λ _, None) [(empty_server, constant 1 2, λ _, 7)] [(5, false)] 1000
    empty_server (λ k, (k <? 2)%nat) empty_server empty_server (λ k, (1 <=? k)%nat) empty_server None.

Lemma chaos_run_ends_witness :
  ∃ w' d' o err, runChaos 3 (mkOptions (of_int 0) 3 8 0 0 false) one_target quiet_run tt (∅ : gset string)
    = Some (w', d', o, err).
Proof.
  destruct (chaos_run_ends 3 (mkOptions (of_int 0) 3 8 0 0 false) one_target quiet_run tt (∅ : gset string) 2 2 1)
    as (w' & d' & o & err & H & _).
  - discriminate.
  - split; discriminate.
  - intros j Hj. apply Nat.ltb_ge. exact Hj.
  - intros j Hj. apply Nat.ltb_ge. exact Hj.
  - reflexivity.
  - repeat constructor.
  - repeat constructor.
  - repeat constructor.
  - exists w', d', o, err. exact H.
Defined.
