(* ===== verification/Command.v ===== *)
(** * The server command: cmd/kilncache, internal/buildinfo and internal/logging

    [selfProbe] is the container health check, [cmd_run] and [cmd_exit] the life
    of the process around [Load], [node_New] and [node_Run], [Version_String] what
    the binary says of itself and [ParseLevel] the log levels.  What the linker
    and the runtime recorded about the build are arguments.  Log lines are not
    modelled. *)

From S2P Require Import Prelude GoStrings Sha256 Errors Key Config Ring Protocol Index FileSystem Store StoreSpec GoFloat Strconv Evict Client Coordinator HttpApi Cluster Repair LoadConfig Node StatsPage.

#[local] Open Scope Z_scope.

(** ** Logging: internal/logging/logging.go *)

Inductive Level := LevelDebug | LevelInfo | LevelWarn | LevelError.

Definition ParseLevel (s : string) : Level :=
  let s := ToLower (TrimSpace s) in
  if String.eqb s "debug" then LevelDebug
  else if String.eqb s "warn" || String.eqb s "warning" then LevelWarn
  else if String.eqb s "error" then LevelError
  else LevelInfo.

(** [strings.EqualFold], on ASCII letters. *)
Definition EqualFold (a b : string) : bool := String.eqb (ToLower a) (ToLower b).

Inductive Handler := TextHandler | JSONHandler.

(** [New]: the handler, its level and the attribute every line carries. *)
Definition logging_New (level format nodeID : string) : Handler * Level * option string :=
  (if EqualFold format "text" then TextHandler else JSONHandler, ParseLevel level,
   if String.eqb nodeID EmptyString then None else Some nodeID).

(** ** The build: internal/buildinfo/buildinfo.go *)

(** What [debug.ReadBuildInfo] returns: the settings and the Go version. *)
Record BuildInfo := mkBuildInfo { bi_Settings : list (string * string); bi_GoVersion : string }.

Definition vcs_setting (rd : string * string) (s : string * string) : string * string :=
  if String.eqb s.1 "vcs.revision" then (s.2, rd.2)
  else if String.eqb s.1 "vcs.modified" then (rd.1, s.2)
  else rd.

Definition vcsRevision (info : option BuildInfo) : string :=
  match info with
  | None => EmptyString
  | Some i =>
      let '(rev, dirty) := fold_left vcs_setting (bi_Settings i) (EmptyString, EmptyString) in
      if String.eqb rev EmptyString then EmptyString
      else if EqualFold dirty "true" then rev +:+ "-dirty" else rev
  end.

Definition Revision (Commit : string) (info : option BuildInfo) : string :=
  if negb (String.eqb Commit EmptyString) then Commit else vcsRevision info.

Definition Version_String (Version Commit : string) (info : option BuildInfo) : string :=
  let c := if String.eqb Commit EmptyString then vcsRevision info else Commit in
  if String.eqb c EmptyString then Version
  else
    let c := if (12 <? String.length c)%nat then stake 12 c else c in
    Version +:+ " (" +:+ c +:+ ")".

Definition GoVersion (info : option BuildInfo) : string :=
  match info with Some i => bi_GoVersion i | None => EmptyString end.

(** ** The health check: healthcheck.go *)

(** Whether a probe is asked for, and the address it names. *)
Definition probe_arg (pa : bool * string) (a : string) : bool * string :=
  if String.eqb a "-healthcheck" || String.eqb a "--healthcheck" then (true, pa.2)
  else if HasPrefix a "-healthcheck=" || HasPrefix a "--healthcheck=" then (true, (Cut a "="%char).1.2)
  else pa.

Definition probe_args (args : list string) : bool * string := fold_left probe_arg args (false, EmptyString).

(** [os.Getenv]. *)
Definition Getenv (env : environ) (key : string) : string := default EmptyString (env !! key).

Definition local_addr (addr : string) : string := if HasPrefix addr ":" then "127.0.0.1" +:+ addr else addr.

Definition probe_addr (addr : string) (env : environ) : string :=
  let addr := if String.eqb addr EmptyString then Getenv env "KILNCACHE_LISTEN" else addr in
  let addr := if String.eqb addr EmptyString then ":8080" else addr in
  local_addr addr.

Section probe.
Context {S : Type} {T : Transport S}.

(** [selfProbe]: not handled, or the exit code. *)
Definition selfProbe (args : list string) (env : environ) (w : S) : S * option Z :=
  let '(probe, addr) := probe_args args in
  if negb probe then (w, None)
  else
    let url := "http://" +:+ probe_addr addr env +:+ "/readyz" in
    match url_err url with
    | Some _ => (w, Some 1)
    | None =>
        let '(w1, r) := Do (mkRequest MethodGet url ∅ None 0) w in
        (w1, Some (match r with
                   | Err _ => 1
                   | Ok resp => if rs_StatusCode resp =? StatusOK then 0 else 1
                   end))
    end.
End probe.

(** ** The process: main.go *)

(** [errors.Is(err, flag.ErrHelp)]. *)
Fixpoint is_help (e : error) : bool :=
  match e with
  | Errorf msg => String.eqb msg "flag: help requested"
  | Wrap _ inner => is_help inner
  | _ => false
  end.

(** [run]: what is left on the disk, and its error. *)
Definition cmd_run {Scan : SqlScan} (url_Parse : string → result (string * string)) (args : list string)
    (vars : environ) (env : StartEnv) (ev : serve_end) (f : files) : files * option error :=
  match Load url_Parse args vars with
  | Err e => (f, Some e)
  | Ok cfg =>
      match node_New url_Parse env cfg f with
      | (f, Err e) => (f, Some e)
      | (_, Ok n) =>
          let '(n, err) := node_Run ev n in
          (closeAll env (local (nd_coord n)),
           match err with Some e => Some (Wrap "server" e) | None => None end)
      end
  end.

(** The exit code of the process. *)
Definition cmd_exit (handled : option Z) (err : option error) : Z :=
  match handled with
  | Some code => code
  | None =>
      match err with
      | None => 0
      | Some e => if is_help e then 0 else 1
      end
  end.

(** ** Lemmas *)

(** The listen address is the default unless its flag was given. *)
Definition keeps_listen (fl fl' : Flags) : Prop :=
  fl_set fl ⊆ fl_set fl' ∧
  ("listen" ∉ fl_set fl' → cf_ListenAddr (fl_cfg fl') = cf_ListenAddr (fl_cfg fl)).

Lemma keeps_listen_trans a b c : keeps_listen a b → keeps_listen b c → keeps_listen a c.
Proof. intros [H1 H2] [H3 H4]. split; [set_solver|]. intros H. rewrite H4, H2; set_solver. Qed.

Lemma flag_num_inr {A} (p : parsed A) (k : A → Flags) fl' : flag_num p k = inr fl' → ∃ a, fl' = k a.
Proof. destruct p as [a|[]]; [|done..]. intros [= <-]. by exists a. Qed.

Lemma flag_set_listen name f v fl fl' :
  (name, f) ∈ flag_set → flag_Set f v fl = inr fl' →
  fl_set fl' = fl_set fl ∧ (name ≠ "listen" → cf_ListenAddr (fl_cfg fl') = cf_ListenAddr (fl_cfg fl)).
Proof.
  unfold flag_set. rewrite !elem_of_cons, elem_of_nil. intros H.
  repeat (destruct H as [[= -> ->]|H]; [simpl; first
    [by intros [= <-]|by intros [a ->]%flag_num_inr|by destruct (parse_duration v); intros [= <-]
    |by destruct (parse_bool v); intros [= <-]]|]). done.
Qed.

Lemma give_listen name f v fl fl' :
  lookup_flag name = Some f → give name f v fl = Ok fl' → keeps_listen fl fl'.
Proof.
  unfold lookup_flag. intros ([n g] & Hf & E)%fmap_Some. simpl in E. subst g.
  apply find_some in Hf as [Hin Hn]. unfold give. destruct (flag_Set f v fl) as [|fl1] eqn:HS; [done|].
  intros [= <-]. apply list_elem_of_In in Hin. apply (flag_set_listen n f v fl fl1) in HS as [Hs Hl]; [|done].
  split; cbn [mark_set fl_set fl_cfg]; [set_solver|]. intros Hni. apply Hl. simpl in Hn. apply String.eqb_eq in Hn.
  set_solver.
Qed.

Lemma Parse_listen args fl fl' : Parse args fl = Ok fl' → keeps_listen fl fl'.
Proof.
  remember (length args) as k eqn:Hk. revert args fl Hk. induction (lt_wf k) as [k _ IH].
  intros [|s rest] fl ->; cbn [Parse]; [by intros [= <-]|].
  destruct (flag_word s) as [| | |name value]; [by intros [= <-]|by intros [= <-]|done|].
  destruct (lookup_flag name) as [f|] eqn:Hf; [|by destruct (_ || _)].
  assert (Hgo : ∀ v rest', (length rest' ≤ length rest)%nat →
    match give name f v fl with Ok fl => Parse rest' fl | Err e => Err e end = Ok fl' → keeps_listen fl fl').
  { intros v rest' Hl. destruct (give name f v fl) as [fl1|] eqn:Hg; [|done]. intros HP.
    eapply keeps_listen_trans; [by eapply give_listen|].
    apply (IH (length rest')) with (args := rest'); [simpl; lia|done|done]. }
  destruct value as [v|]; [by apply Hgo|]. destruct (is_bool_flag f); [by apply Hgo|].
  destruct rest as [|v rest']; [done|]. apply Hgo. simpl. lia.
Qed.

Definition same_listen (fl fl' : Flags) : Prop := cf_ListenAddr (fl_cfg fl') = cf_ListenAddr (fl_cfg fl).

Lemma env_rest_listen env : Forall (λ stage, ∀ fl fl', stage fl = Ok fl' → same_listen fl fl') (drop 2 (env_stages env)).
Proof.
  cbn [env_stages drop]. repeat (constructor; [intros fl fl';
    first [unfold env_string; by destruct (env_for _ _ _ _); intros [= <-]
          |unfold env_raw; destruct (negb _); [by intros [= <-]|]; by destruct (Env _ _); intros [= <-]
          |unfold env_parsed; destruct (env_for _ _ _ _) as [x|]; [|by intros [= <-]];
           case_match; by intros [= <-]]|]). constructor.
Qed.

Lemma fold_stages_err l (e : error) : fold_left (λ r st, and_then st r) l (Err e : result Flags) = Err e.
Proof. induction l as [|st l IH]; [done|exact IH]. Qed.

Lemma fold_stages_listen l fl fl' :
  Forall (λ stage, ∀ fl fl', stage fl = Ok fl' → same_listen fl fl') l →
  fold_left (λ r st, and_then st r) l (Ok fl : result Flags) = Ok fl' → same_listen fl fl'.
Proof.
  intros Hall. revert fl. induction Hall as [|st l Hst _ IH]; intros fl; [by intros [= <-]|]. cbn [fold_left and_then].
  destruct (st fl) as [fl1|e] eqn:Hs; [|by rewrite fold_stages_err].
  intros H%IH. apply Hst in Hs. unfold same_listen in *. congruence.
Qed.

Lemma env_fallbacks_listen env fl fl' :
  "listen" ∉ fl_set fl → env_fallbacks env fl = Ok fl' →
  cf_ListenAddr (fl_cfg fl') = default (cf_ListenAddr (fl_cfg fl)) (env !! "KILNCACHE_LISTEN").
Proof.
  intros Hni. pose proof (env_rest_listen env) as Hall. unfold env_fallbacks.
  change (env_stages env) with
    (env_string env "node-name" "NODE_NAME" set_NodeName :: env_string env "listen" "LISTEN" set_ListenAddr ::
     drop 2 (env_stages env)). cbn [fold_left and_then].
  destruct (env_string env "node-name" "NODE_NAME" set_NodeName fl) as [fl1|] eqn:H1;
    [|unfold env_string in H1; by destruct (env_for _ _ _ _)].
  assert (same_listen fl fl1 ∧ fl_set fl1 = fl_set fl) as [Hs Hset].
  { revert H1. unfold env_string. by destruct (env_for _ _ _ _); intros [= <-]. }
  cbn [and_then]. unfold env_string at 1, env_for. rewrite bool_decide_eq_false_2 by (by rewrite Hset).
  unfold Env. change ("KILNCACHE_" +:+ "LISTEN") with "KILNCACHE_LISTEN".
  destruct (env !! "KILNCACHE_LISTEN") as [v|]; intros HF%(fold_stages_listen _ _ _ Hall); unfold same_listen in *;
    rewrite HF; [done|]. by rewrite Hs.
Qed.

Lemma raw_size_listen raw name set c c' :
  (∀ n c, cf_ListenAddr (set n c) = cf_ListenAddr c) → raw_size raw name set c = Ok c' →
  cf_ListenAddr c' = cf_ListenAddr c.
Proof. intros Hs. unfold raw_size. destruct (String.eqb _ _); [by intros [= <-]|]. by destruct (ParseSize raw); intros [= <-]. Qed.

Lemma resolve_listen fl c : resolve fl = Ok c → cf_ListenAddr c = cf_ListenAddr (fl_cfg fl).
Proof.
  unfold resolve. destruct (raw_size (maxBytesRaw fl) _ _ _) as [c1|] eqn:H1; [|done]. cbn [and_then].
  destruct (raw_size (maxObjectRaw fl) _ _ _) as [c2|] eqn:H2; [|done]. cbn [and_then].
  apply raw_size_listen in H1; [|done]. apply raw_size_listen in H2; [|done].
  destruct (raw_peers (peersRaw fl) c2) as [c3|] eqn:H3; [|done]. cbn [and_then].
  assert (cf_ListenAddr c3 = cf_ListenAddr c2) as H3'.
  { revert H3. unfold raw_peers. destruct (String.eqb _ _); [by intros [= <-]|]. by destruct (ParsePeers _); intros [= <-]. }
  intros [= <-]. rewrite <-H1, <-H2, <-H3'. unfold default_peers. case_bool_decide; [|done]. by destruct (1 <? _).
Qed.

(** Where a node listens that was given no address on its command line. *)
Lemma Load_listen url_Parse args env fl c :
  Parse args start_flags = Ok fl → "listen" ∉ fl_set fl → Load url_Parse args env = Ok c →
  cf_ListenAddr c = default ":8080" (env !! "KILNCACHE_LISTEN") ∧ TrimSpace (cf_ListenAddr c) ≠ EmptyString.
Proof.
  intros HP Hni. unfold Load. fold start_flags. rewrite HP. destruct (Parse_listen _ _ _ HP) as [_ Hl].
  destruct (env_fallbacks env fl) as [fl1|e] eqn:HE; [|done]. apply env_fallbacks_listen in HE; [|done].
  rewrite Hl in HE by done. cbn [and_then]. destruct (resolve fl1) as [c1|e] eqn:HR; [|done].
  assert (cf_ListenAddr c1 = cf_ListenAddr (fl_cfg fl1)) as Hc1.
  { by apply resolve_listen. }
  destruct (Validate _ _) eqn:HV; [done|]. intros [= <-]. change (cf_ListenAddr (lower_case c1)) with (cf_ListenAddr c1).
  split; [by rewrite Hc1, HE|]. revert HV. unfold Validate. destruct (String.eqb _ _); [done|].
  change (cf_ListenAddr (lower_case c1)) with (cf_ListenAddr c1).
  destruct (String.eqb_spec (TrimSpace (cf_ListenAddr c1)) EmptyString); [done|done].
Qed.

Lemma stake_prefix n a b : (n ≤ String.length a)%nat → stake n (a +:+ b) = stake n a.
Proof.
  revert a. induction n as [|n IH]; intros a Hn; [by destruct a, b|]. destruct a as [|c a]; [simpl in Hn; lia|].
  simpl. f_equal. apply IH. simpl in Hn. lia.
Qed.

Lemma prefix_app_l p q a : String.prefix (p +:+ q) a = true → String.prefix p a = true.
Proof.
  revert a. induction p as [|c p IH]; intros [|x a]; simpl; try done. destruct (Ascii.ascii_dec c x); [apply IH|done].
Qed.

(** The revision is cut to twelve characters after the mark of a modified tree was
    added to it: a build from a modified tree reports the version of its commit. *)
Lemma dirty_mark_is_lost v rev more :
  (12 < String.length rev)%nat →
  Version_String v EmptyString (Some (mkBuildInfo [("vcs.revision", rev); ("vcs.modified", "true")] more)) =
  Version_String v EmptyString (Some (mkBuildInfo [("vcs.revision", rev)] more)).
Proof.
  intros Hl. unfold Version_String. cbn [String.eqb].
  assert (Hne : String.eqb rev EmptyString = false) by (destruct rev; [simpl in Hl; lia|done]).
  assert (Hne' : String.eqb (rev +:+ "-dirty") EmptyString = false) by (by destruct rev).
  assert (vcsRevision (Some (mkBuildInfo [("vcs.revision", rev)] more)) = rev) as ->.
  { unfold vcsRevision. cbn [bi_Settings].
    change (fold_left vcs_setting _ _) with (rev, EmptyString). cbv iota beta. by rewrite Hne. }
  assert (vcsRevision (Some (mkBuildInfo [("vcs.revision", rev); ("vcs.modified", "true")] more)) = rev +:+ "-dirty") as ->.
  { unfold vcsRevision. cbn [bi_Settings].
    change (fold_left vcs_setting _ _) with (rev, "true"). cbv iota beta. by rewrite Hne. }
  rewrite Hne, Hne'. destruct (Nat.ltb_spec 12 (String.length rev)); [|lia].
  destruct (Nat.ltb_spec 12 (String.length (rev +:+ "-dirty"))) as [_|Hd]; [|rewrite length_append in Hd; lia].
  by rewrite stake_prefix by lia.
Qed.

(** A node on the network: it answers on its listen address with its readiness. *)
Definition readyz_network (fmt : float64 → string) (opts : RouterOptions) (version : string) (uptime : float64)
    (listen : string) : Transport Health :=
  Build_Transport Health (λ _, None) (λ r h,
    if String.eqb (rq_URL r) ("http://" +:+ local_addr listen +:+ "/readyz")
    then (h, from_option Ok (Err no_such_host) (health_answer fmt opts version uptime "/readyz" h))
    else (h, Err no_such_host)).

(** ** Claims *)

(** C40: the health check tells the node's readiness.  For a node whose
    configuration was loaded and whose listen address was not given by a flag, a
    probe in the same environment that names no address asks that node, and exits
    with zero exactly when the node is ready; a process without the probe's flag
    is not a probe. *)
Theorem health_check_tells_readiness fmt opts version uptime url_Parse args env fl c probe h :
  Parse args start_flags = Ok fl → "listen" ∉ fl_set fl → Load url_Parse args env = Ok c →
  probe_args probe = (true, EmptyString) →
  @selfProbe _ (readyz_network fmt opts version uptime (cf_ListenAddr c)) probe env h = (h, Some (if (Ready h).1 then 0 else 1)) ∧
  (∀ other, (∀ a, a ∈ other → HasPrefix a "-healthcheck" = false ∧ HasPrefix a "--healthcheck" = false) →
     @selfProbe _ (readyz_network fmt opts version uptime (cf_ListenAddr c)) other env h = (h, None)).
Proof.
  intros HP Hni HL Hpa. destruct (Load_listen _ _ _ _ _ HP Hni HL) as [Hl Hne]. split.
  - unfold selfProbe. rewrite Hpa. cbn [negb]. cbn [url_err Do readyz_network rq_URL].
    assert (probe_addr EmptyString env = local_addr (cf_ListenAddr c)) as ->.
    { unfold probe_addr, Getenv. cbn [String.eqb]. rewrite Hl in *. destruct (env !! "KILNCACHE_LISTEN") as [v|]; [|done].
      change (default EmptyString (Some v)) with v. change (default ":8080" (Some v)) with v in *.
      destruct (String.eqb_spec v EmptyString) as [->|]; [|done]. by destruct Hne. }
    rewrite String.eqb_refl. destruct (readyz_answer_spec fmt opts version uptime h) as (resp & -> & Hc).
    cbn [from_option]. rewrite Hc. unfold ReadyzHandler. by destruct (Ready h) as [[] reason].
  - intros other Ho. unfold selfProbe. assert (probe_args other = (false, EmptyString)) as ->; [|done].
    unfold probe_args. induction other as [|a other IH]; [done|]. cbn [fold_left].
    destruct (Ho a (list_elem_of_here _ _)) as [H1 H2].
    assert (probe_arg (false, EmptyString) a = (false, EmptyString)) as ->; [|apply IH; intros b Hb; apply Ho; by right].
    unfold probe_arg, HasPrefix in *. destruct (String.eqb_spec a "-healthcheck") as [->|]; [done|].
    destruct (String.eqb_spec a "--healthcheck") as [->|]; [done|]. cbn [orb].
    destruct (String.prefix "-healthcheck=" a) eqn:E1; [by rewrite (prefix_app_l "-healthcheck" "=" a E1) in H1|].
    destruct (String.prefix "--healthcheck=" a) eqn:E2; [by rewrite (prefix_app_l "--healthcheck" "=" a E2) in H2|]. done.
Qed.

(** ** Witnesses *)

Definition env_listen : environ := {["KILNCACHE_LISTEN" := ":9090"]}.

Definition solo_flags : result Flags := Parse solo_args start_flags.

Lemma solo_flags_ok :
  match solo_flags, Load http_only solo_args env_listen with
  | Ok fl, Ok c => negb (bool_decide ("listen" ∈ fl_set fl)) && String.eqb (cf_ListenAddr c) ":9090"
  | _, _ => false
  end = true.
Proof. vm_compute. reflexivity. Qed.

Definition solo_network : string → Transport Health :=
  readyz_network int_text (mkRouterOptions "solo" false true) "dev" (of_int 1).

Lemma health_check_tells_readiness_witness :
  @selfProbe _ (solo_network ":9090") ["-healthcheck"] env_listen (SetReady NewHealth) = (SetReady NewHealth, Some 0).
Proof.
  pose proof solo_flags_ok as H. destruct solo_flags as [fl|] eqn:HP; [|discriminate H].
  destruct (Load http_only solo_args env_listen) as [c|] eqn:HL; [|discriminate H].
  apply andb_prop in H as [H1 H2]. apply String.eqb_eq in H2. rewrite <-H2.
  apply (health_check_tells_readiness int_text (mkRouterOptions "solo" false true) "dev" (of_int 1) http_only solo_args env_listen fl c ["-healthcheck"] (SetReady NewHealth) HP).
  - intros Hin. rewrite bool_decide_eq_true_2 in H1 by exact Hin. discriminate H1.
  - exact HL.
  - reflexivity.
Defined.

(** A listen address given by a flag is not probed, also when the probe is given
    the same flags. *)
Example listen_flag_is_not_probed :
  match Load http_only ["-listen=:9090"; "-data-dir=/data"] ∅ with
  | Ok c => @selfProbe _ (solo_network (cf_ListenAddr c)) ["-listen=:9090"; "-healthcheck"] ∅ (SetReady NewHealth)
  | Err _ => (NewHealth, None)
  end = (SetReady NewHealth, Some 1).
Proof. vm_compute. reflexivity. Qed.
