(* ===== verification/Report.v ===== *)
(** * Benchmark reports: cmd/bench/scenarios.go

    A benchmark session: [execute] runs the scenarios of [Bench], describes the
    machine and the cluster beside their results, and [writeReport] leaves the
    whole in a directory as JSON.  The codecs are those of the structs' field tags.
    What the host, git and the linker say, and the text of a float64, are
    arguments. *)

From Stdlib Require Import Floats.SpecFloat.
From S2P Require Import Prelude GoStrings Sha256 Errors Key Config Ring Protocol Index FileSystem Store StoreSpec Heap GoFloat Strconv Fmt Json Codec Evict Client Coordinator HttpApi Cluster Repair Reads ClusterSpec Chaos Bench LoadConfig Node Lifecycle StatsPage ChaosRun Command.

#[local] Open Scope Z_scope.

(** ** Times *)

(** A part of a text. *)
Definition part (s : string) (i n : nat) : string := stake n (sdrop i s).

(** [n] digits at a position. *)
Definition number_at (s : string) (i n : nat) : option Z :=
  let t := part s i n in
  if (String.length t =? n)%nat && all_digits t then Some (decimal 0 t) else None.

Definition leap (year : Z) : bool := (year mod 4 =? 0) && (negb (year mod 100 =? 0) || (year mod 400 =? 0)).

Definition days_in (year month : Z) : Z :=
  if month =? 2 then if leap year then 29 else 28
  else if (month =? 4) || (month =? 6) || (month =? 9) || (month =? 11) then 30 else 31.

(** What follows the fraction of a second. *)
Definition after_fraction (s : string) : string :=
  match s with
  | String c (String d r) => if (byte_val c =? 46) && is_digit d then (span_digits (String d r)).2 else s
  | _ => s
  end.

Definition valid_zone (z : string) : bool :=
  String.eqb z "Z" ||
  match number_at z 1 2, number_at z 4 2 with
  | Some h, Some m =>
      (String.length z =? 6)%nat && (String.eqb (part z 0 1) "+" || String.eqb (part z 0 1) "-") &&
      String.eqb (part z 3 1) ":" && (h <=? 23) && (m <=? 59)
  | _, _ => false
  end.

(** The texts that [time.Time] reads from JSON: RFC 3339. *)
Definition valid_time (s : string) : bool :=
  match number_at s 0 4, number_at s 5 2, number_at s 8 2, number_at s 11 2, number_at s 14 2, number_at s 17 2 with
  | Some y, Some mo, Some d, Some h, Some mi, Some se =>
      String.eqb (part s 4 1) "-" && String.eqb (part s 7 1) "-" && String.eqb (part s 10 1) "T" &&
      String.eqb (part s 13 1) ":" && String.eqb (part s 16 1) ":" &&
      (1 <=? mo) && (mo <=? 12) && (1 <=? d) && (d <=? days_in y mo) && (h <=? 23) && (mi <=? 59) && (se <=? 59) &&
      valid_zone (after_fraction (sdrop 19 s))
  | _, _, _, _, _, _ => false
  end.

(** A time, as its text. *)
Record Time := mkTime { tm_text : string; tm_valid : valid_time tm_text = true }.

Definition zero_time : Time := mkTime "0001-01-01T00:00:00Z" eq_refl.

Definition parse_time (s : string) : option Time :=
  match decide (valid_time s = true) with left H => Some (mkTime s H) | right _ => None end.

(** [Format(time.RFC3339)]: without the fraction, and [Z] for no offset. *)
Definition RFC3339 (t : Time) : string :=
  let zone := after_fraction (sdrop 19 (tm_text t)) in
  stake 19 (tm_text t) +:+ (if String.eqb (part zone 1 5) "00:00" then "Z" else zone).

(** [Format("20060102-150405")] *)
Definition file_stamp (t : Time) : string :=
  let s := tm_text t in
  part s 0 4 +:+ part s 5 2 +:+ part s 8 2 +:+ "-" +:+ part s 11 2 +:+ part s 14 2 +:+ part s 17 2.

#[export] Instance Time_codec : Codec Time := {|
  jput t := GString (tm_text t);
  jget j := match j with JString s => parse_time s | JNull => Some zero_time | _ => None end;
  jzero := zero_time;
  jnorm := id |}.

(** ** The structs and their field tags *)

Record Setup := mkSetup {
  su_Targets : list string; su_Nodes : Z; su_ReplicaCount : Z; su_GitCommit : string; su_Version : string;
  su_GoVersion : string; su_RunsPerPoint : Z; su_DurationS : float64; su_WarmupS : float64; su_Concurrency : list Z;
  su_CacheWarm : bool; su_ClientColocated : bool; su_Netem : string; su_VerifyReads : bool; su_Seed : Z }.

Record BenchReport := mkBenchReport {
  rp_Kind : string; rp_GeneratedAt : Time; rp_Label : string; rp_Smoke : bool; rp_Host : option (gmap string any);
  rp_Setup : Setup; rp_Scenarios : list ScenarioResult }.

Definition no_text (s : string) : bool := String.eqb s EmptyString.

Definition zero_float : float64 := of_int 0.

#[export] Instance Summary_codec : Codec Summary := {|
  jput s := GObject [("count", jput (su_Count s)); ("min_ms", jput (su_MinMs s)); ("mean_ms", jput (su_MeanMs s));
    ("p50_ms", jput (su_P50Ms s)); ("p90_ms", jput (su_P90Ms s)); ("p95_ms", jput (su_P95Ms s));
    ("p99_ms", jput (su_P99Ms s)); ("p999_ms", jput (su_P999Ms s)); ("max_ms", jput (su_MaxMs s))];
  jget := structured zero_summary (λ l,
    count ← fget "count" l; min ← fget "min_ms" l; mean ← fget "mean_ms" l; p50 ← fget "p50_ms" l;
    p90 ← fget "p90_ms" l; p95 ← fget "p95_ms" l; p99 ← fget "p99_ms" l; p999 ← fget "p999_ms" l;
    max ← fget "max_ms" l; Some (mkSummary count min mean p50 p90 p95 p99 p999 max));
  jzero := zero_summary;
  jnorm := id |}.

Definition zero_run : RunResult :=
  mkRunResult EmptyString EmptyString 0 zero_float 0 0 0 0 zero_float zero_float zero_float zero_summary 0 ∅ 0.

#[export] Instance RunResult_codec : Codec RunResult := {|
  jput r := GObject ([("scenario", jput (rr_Scenario r)); ("op", jput (rr_Op r));
    ("concurrency", jput (rr_Concurrency r)); ("duration_seconds", jput (rr_DurationS r));
    ("operations", jput (rr_Operations r)); ("errors", jput (rr_Errors r)); ("misses", jput (rr_Misses r));
    ("bytes", jput (rr_Bytes r)); ("ops_per_second", jput (rr_OpsPerSec r)); ("mib_per_second", jput (rr_MiBPerSec r));
    ("error_rate", jput (rr_ErrorRate r)); ("latency", jput (rr_Latency r)); ("verify_failures", jput (rr_VerifyFails r))]
    ++ omitempty (λ m, bool_decide (m = ∅)) "error_samples" (rr_ErrorSamples r)
    ++ [("object_size_bytes", jput (rr_ObjectSizeBytes r))]);
  jget := structured zero_run (λ l,
    scenario ← fget "scenario" l; op ← fget "op" l; conc ← fget "concurrency" l; dur ← fget "duration_seconds" l;
    ops ← fget "operations" l; errs ← fget "errors" l; misses ← fget "misses" l; bytes ← fget "bytes" l;
    rate ← fget "ops_per_second" l; mib ← fget "mib_per_second" l; erate ← fget "error_rate" l;
    lat ← fget "latency" l; ng ← fget "verify_failures" l; samples ← fget "error_samples" l;
    size ← fget "object_size_bytes" l;
    Some (mkRunResult scenario op conc dur ops errs misses bytes rate mib erate lat ng samples size));
  jzero := zero_run;
  jnorm := id |}.

Definition zero_spread : Spread := mkSpread zero_float zero_float zero_float zero_float zero_float zero_float zero_float.

#[export] Instance Spread_codec : Codec Spread := {|
  jput s := GObject [("ops_per_second_min", jput (sd_OpsMin s)); ("ops_per_second_max", jput (sd_OpsMax s));
    ("mib_per_second_min", jput (sd_MiBMin s)); ("mib_per_second_max", jput (sd_MiBMax s));
    ("p99_ms_min", jput (sd_P99Min s)); ("p99_ms_max", jput (sd_P99Max s));
    ("ops_relative_range", jput (sd_RelativeRange s))];
  jget := structured zero_spread (λ l,
    omin ← fget "ops_per_second_min" l; omax ← fget "ops_per_second_max" l; mmin ← fget "mib_per_second_min" l;
    mmax ← fget "mib_per_second_max" l; pmin ← fget "p99_ms_min" l; pmax ← fget "p99_ms_max" l;
    range ← fget "ops_relative_range" l; Some (mkSpread omin omax mmin mmax pmin pmax range));
  jzero := zero_spread;
  jnorm := id |}.

#[export] Instance Point_codec : Codec Point := {|
  jput p := GObject [("concurrency", jput (pt_Concurrency p)); ("runs", jput (pt_Runs p));
    ("median", jput (pt_Median p)); ("spread", jput (pt_Spread p))];
  jget := structured (mkPoint 0 [] zero_run zero_spread) (λ l,
    conc ← fget "concurrency" l; runs ← fget "runs" l; median ← fget "median" l; spread ← fget "spread" l;
    Some (mkPoint conc runs median spread));
  jzero := mkPoint 0 [] zero_run zero_spread;
  jnorm := id |}.

#[export] Instance NodeSample_codec : Codec NodeSample := {|
  jput s := GObject [("node", jput (ns_Node s)); ("rss_bytes", jput (ns_RSS s)); ("heap_alloc_bytes", jput (ns_Heap s));
    ("goroutines", jput (ns_Goroutines s)); ("open_fds", jput (ns_FDs s))];
  jget := structured (no_sample EmptyString) (λ l,
    node ← fget "node" l; rss ← fget "rss_bytes" l; heap ← fget "heap_alloc_bytes" l; gs ← fget "goroutines" l;
    fds ← fget "open_fds" l; Some (mkNodeSample node rss heap gs fds));
  jzero := no_sample EmptyString;
  jnorm := id |}.

Definition zero_memory : MemoryObservation := mkMemoryObservation EmptyString 0 0 [] [] [] zero_float.

#[export] Instance MemoryObservation_codec : Codec MemoryObservation := {|
  jput m := GObject [("scenario", jput (mo_Scenario m)); ("object_size_bytes", jput (mo_ObjectSize m));
    ("concurrency", jput (mo_Concurrency m)); ("before", jput (mo_Before m)); ("peak", jput (mo_Peak m));
    ("after", jput (mo_After m)); ("peak_rss_mib_max_across_nodes", jput (mo_PeakRSSMiB m))];
  jget := structured zero_memory (λ l,
    scenario ← fget "scenario" l; size ← fget "object_size_bytes" l; conc ← fget "concurrency" l;
    before ← fget "before" l; peak ← fget "peak" l; after ← fget "after" l;
    rss ← fget "peak_rss_mib_max_across_nodes" l;
    Some (mkMemoryObservation scenario size conc before peak after rss));
  jzero := zero_memory;
  jnorm := id |}.

Definition zero_scenario : ScenarioResult := mkScenarioResult EmptyString EmptyString None [] None EmptyString.

#[export] Instance ScenarioResult_codec : Codec ScenarioResult := {|
  jput s := GObject ([("name", jput (sr_Name s)); ("description", jput (sr_Description s));
    ("corpus", jput (sr_Corpus s)); ("points", jput (sr_Points s))]
    ++ omitempty (λ m, bool_decide (m = None)) "memory" (sr_Memory s)
    ++ [("page_cache_note", jput (sr_PageCacheNote s))]);
  jget := structured zero_scenario (λ l,
    name ← fget "name" l; desc ← fget "description" l; corpus ← fget "corpus" l; points ← fget "points" l;
    memory ← fget "memory" l; note ← fget "page_cache_note" l;
    Some (mkScenarioResult name desc corpus points memory note));
  jzero := zero_scenario;
  jnorm s := mkScenarioResult (sr_Name s) (sr_Description s) (jnorm (sr_Corpus s)) (sr_Points s) (sr_Memory s)
               (sr_PageCacheNote s) |}.

Definition zero_setup : Setup :=
  mkSetup [] 0 0 EmptyString EmptyString EmptyString 0 zero_float zero_float [] false false EmptyString false 0.

#[export] Instance Setup_codec : Codec Setup := {|
  jput s := GObject ([("targets", jput (su_Targets s)); ("nodes", jput (su_Nodes s));
    ("replica_count", jput (su_ReplicaCount s)); ("git_commit", jput (su_GitCommit s)); ("version", jput (su_Version s));
    ("go_version", jput (su_GoVersion s)); ("runs_per_point", jput (su_RunsPerPoint s));
    ("measured_seconds_per_run", jput (su_DurationS s)); ("warmup_seconds_per_run", jput (su_WarmupS s));
    ("concurrency_levels", jput (su_Concurrency s)); ("cache_warm", jput (su_CacheWarm s));
    ("client_colocated_with_servers", jput (su_ClientColocated s))]
    ++ omitempty no_text "netem" (su_Netem s)
    ++ [("client_verifies_digests", jput (su_VerifyReads s)); ("corpus_seed", jput (su_Seed s))]);
  jget := structured zero_setup (λ l,
    targets ← fget "targets" l; nodes ← fget "nodes" l; replicas ← fget "replica_count" l; commit ← fget "git_commit" l;
    version ← fget "version" l; go ← fget "go_version" l; runs ← fget "runs_per_point" l;
    dur ← fget "measured_seconds_per_run" l; warm ← fget "warmup_seconds_per_run" l;
    conc ← fget "concurrency_levels" l; cache ← fget "cache_warm" l; coloc ← fget "client_colocated_with_servers" l;
    netem ← fget "netem" l; verify ← fget "client_verifies_digests" l; seed ← fget "corpus_seed" l;
    Some (mkSetup targets nodes replicas commit version go runs dur warm conc cache coloc netem verify seed));
  jzero := zero_setup;
  jnorm := id |}.

Definition zero_report : BenchReport := mkBenchReport EmptyString zero_time EmptyString false None zero_setup [].

#[export] Instance BenchReport_codec : Codec BenchReport := {|
  jput r := GObject ([("kind", jput (rp_Kind r)); ("generated_at", jput (rp_GeneratedAt r))]
    ++ omitempty no_text "label" (rp_Label r)
    ++ [("smoke_run", jput (rp_Smoke r)); ("host", jput (rp_Host r)); ("setup", jput (rp_Setup r));
        ("scenarios", jput (rp_Scenarios r))]);
  jget := structured zero_report (λ l,
    kind ← fget "kind" l; at_ ← fget "generated_at" l; label ← fget "label" l; smoke ← fget "smoke_run" l;
    host ← fget "host" l; setup ← fget "setup" l; scs ← fget "scenarios" l;
    Some (mkBenchReport kind at_ label smoke host setup scs));
  jzero := zero_report;
  jnorm r := mkBenchReport (rp_Kind r) (rp_GeneratedAt r) (rp_Label r) (rp_Smoke r) (jnorm (rp_Host r)) (rp_Setup r)
               (jnorm (rp_Scenarios r)) |}.

(** ** The machine and the cluster *)

(** The replica count in a stats page; [None] is a type error. *)
Definition replica_field : json → option Z :=
  structured 0 (sget 0 (fget "replica_count") "cluster").

(** [replicaCountOf]; [None] is the panic without a target. *)
Definition replicaCountOf {S} {T : Transport S} (targets : list string) (w : S) : option (S * Z) :=
  t ← targets !! 0%nat;
  match url_err (t +:+ "/stats") with
  | Some _ => Some (w, 0)
  | None =>
      let '(w1, r) := Do (mkRequest MethodGet (t +:+ "/stats") ∅ None 0) w in
      Some (w1, match r with
                | Err _ => 0
                | Ok resp => default 0 (first_value (read_limited stats_limit (rs_Body resp)) ≫= replica_field)
                end)
  end.

(** [hostInfo], given what git and the script print; git prints a clean path. *)
Definition hostInfo (root : result string) (bash : string → result string) : option (gmap string any) :=
  let script := match root with
                | Ok r => TrimSuffix (TrimSpace r) "/" +:+ "/scripts/hostinfo.sh"
                | Err _ => "scripts/hostinfo.sh"
                end in
  match bash script with
  | Err e => Some {["error" := AString (script +:+ " failed: " +:+ Error e)]}
  | Ok out =>
      match (Unmarshal out ≫= jget : option (option (gmap string any))) with
      | None => Some {["error" := AString "hostinfo output is not JSON"]}
      | Some m => m
      end
  end.

Definition gitCommit (out : result string) : string :=
  match out with Err _ => "unknown" | Ok s => TrimSpace s end.

(** A key of a map that may be nil. *)
Definition at_key (k : string) (m : option (gmap string any)) : option any := m ≫= (.!! k).

Definition toInt (v : option any) : Z :=
  match v with Some (AInt n) => n | Some (ANumber f) => to_int64 f | _ => 0 end.

(** ** Writing the report *)

(** The files of the results directory, by name. *)
Abbreviation files := (gmap string string).

(** [os.WriteFile], with its error and, unless the file could not be opened, how
    much of the text was written before it. *)
Definition WriteFile (fault : option (error * option nat)) (name text : string) (d : files) : files * option error :=
  match fault with
  | None => (<[name := text]> d, None)
  | Some (e, None) => (d, Some e)
  | Some (e, Some n) => (<[name := stake n text]> d, Some e)
  end.

Definition line (s : string) : string := s +:+ newline.

(** What [printSummary] prints. *)
Definition summary_row (p : Point) : string :=
  let m := pt_Median p in
  line ("  " +:+ pad_right 6 (pretty (pt_Concurrency p)) +:+ " " +:+ pad_left 10 (Fixed 0 (rr_OpsPerSec m)) +:+ " " +:+
    pad_left 10 (Fixed 1 (rr_MiBPerSec m)) +:+ " " +:+ pad_left 9 (Fixed 2 (su_P50Ms (rr_Latency m))) +:+ " " +:+
    pad_left 9 (Fixed 2 (su_P95Ms (rr_Latency m))) +:+ " " +:+ pad_left 9 (Fixed 2 (su_P99Ms (rr_Latency m))) +:+ " " +:+
    pad_left 9 (Fixed 4 (rr_ErrorRate m))).

Definition concat_all (l : list string) : string := foldr String.append EmptyString l.

Definition printSummary (rep : BenchReport) : string :=
  newline +:+ line "=== kilnbench summary (median of each point) ===" +:+
  concat_all ((λ sc,
    newline +:+ line (sr_Name sc +:+ "  (" +:+ humanBytes (toInt (at_key "object_size_bytes" (sr_Corpus sc))) +:+ " objects)") +:+
    line ("  " +:+ pad_right 6 "conc" +:+ " " +:+ pad_left 10 "ops/s" +:+ " " +:+ pad_left 10 "MiB/s" +:+ " " +:+
      pad_left 9 "p50 ms" +:+ " " +:+ pad_left 9 "p95 ms" +:+ " " +:+ pad_left 9 "p99 ms" +:+ " " +:+ pad_left 9 "err") +:+
    concat_all (summary_row <$> sr_Points sc)) <$> rp_Scenarios rep) +:+ newline.

Definition latest : string := "bench-latest.json".

Definition report_name (rep : BenchReport) : string :=
  if rp_Smoke rep then "bench-smoke.json" else "bench-" +:+ file_stamp (rp_GeneratedAt rep) +:+ ".json".

(** [writeReport]: the files, what is printed, and the error. *)
Definition writeReport (fmt : float64 → string) (fault : string → option (error * option nat)) (rep : BenchReport)
    (d : files) : files * string * option error :=
  match MarshalIndent fmt (jput rep) with
  | Err e => (d, EmptyString, Some (Wrap "marshal report: " e))
  | Ok b =>
      let text := b +:+ newline in
      match WriteFile (fault (report_name rep)) (report_name rep) text d with
      | (d1, Some e) => (d1, EmptyString, Some (Wrap "write report: " e))
      | (d1, None) =>
          if rp_Smoke rep then (d1, printSummary rep, None)
          else
            match WriteFile (fault latest) latest text d1 with
            | (d2, Some e) => (d2, EmptyString, Some (Wrap "write latest: " e))
            | (d2, None) => (d2, printSummary rep, None)
            end
      end
  end.

(** ** The session: execute *)

Section session.
Context {S : Type}.

(** What a session meets: the error of [MkdirAll], the network while it waits and
    the deadline, what the host says, the clock, the build, the environments of
    the scenarios, whether it has been interrupted after one, and the errors of
    the files it writes. *)
Record SessionEnv := mkSessionEnv {
  xe_mkdir : option error; xe_ready : Transport S; xe_before : nat → bool;
  xe_root : result string; xe_bash : string → result string; xe_now : Time; xe_stats : Transport S;
  xe_commit : result string; xe_version : string; xe_link_commit : string; xe_build : option BuildInfo;
  xe_scenario : nat → @ScenarioEnv S; xe_ctx : nat → bool; xe_fault : string → option (error * option nat) }.

Definition with_ram (ram : Z) (o : boptions) : boptions :=
  mkBOptions (bp_targets o) (bp_out o) (bp_runs o) (bp_duration o) (bp_warmup o) (bp_concurrency o)
    (bp_scenarios o) (bp_smoke o) (bp_verify o) (bp_seed o) (bp_netem o) (bp_colocated o) (bp_profileDir o)
    (bp_label o) ram (bp_peakMemory o).

(** The options once the host's memory is known. *)
Definition host_options (host : option (gmap string any)) (o : boptions) : boptions :=
  match at_key "mem_total_kb" host with
  | Some (ANumber kb) => with_ram (i64 (to_int64 kb * 1024)) o
  | _ => o
  end.

Definition session_setup (env : SessionEnv) (o : boptions) (replicas : Z) : Setup :=
  mkSetup (bp_targets o) (Z.of_nat (length (bp_targets o))) replicas (gitCommit (xe_commit env))
    (Version_String (xe_version env) (xe_link_commit env) (xe_build env)) (GoVersion (xe_build env))
    (Z.of_nat (bp_runs o)) (Seconds (bp_duration o)) (Seconds (bp_warmup o)) (bp_concurrency o) true
    (bp_colocated o) (bp_netem o) (bp_verify o) (bp_seed o).

Definition session_report (env : SessionEnv) (o : boptions) (replicas : Z) (scs : list ScenarioResult) : BenchReport :=
  mkBenchReport "benchmark" (xe_now env) (bp_label o) (bp_smoke o) (hostInfo (xe_root env) (xe_bash env))
    (session_setup env o replicas) scs.

(** [execute] up to the report: the nodes are waited for and the scenarios run. *)
Definition measure (fuel : nat) (env : SessionEnv) (opts : boptions) (w : S) : option (S * result BenchReport) :=
  '(w1, err) ← @waitReady S (xe_ready env) fuel 0 (xe_before env) (bp_targets opts) w;
  match err with
  | Some e => Some (w1, Err e)
  | None =>
      let opts := host_options (hostInfo (xe_root env) (xe_bash env)) opts in
      '(w2, replicas) ← @replicaCountOf S (xe_stats env) (bp_targets opts) w1;
      match select_scenarios (bp_scenarios opts) with
      | Err e => Some (w2, Err e)
      | Ok scs =>
          '(w3, r) ← run_scenarios opts (xe_scenario env) (xe_ctx env) scs 0 w2;
          match r with
          | Err e => Some (w3, Err e)
          | Ok results => Some (w3, Ok (session_report env opts replicas results))
          end
      end
  end.

(** [execute]: the files, what is printed, and the error. *)
Definition execute (fmt : float64 → string) (fuel : nat) (env : SessionEnv) (opts : boptions) (d : files) (w : S)
    : option (S * (files * string * option error)) :=
  match xe_mkdir env with
  | Some e => Some (w, (d, EmptyString, Some (Wrap "create output dir: " e)))
  | None =>
      '(w1, r) ← measure fuel env opts w;
      match r with
      | Err e => Some (w1, (d, EmptyString, Some e))
      | Ok rep => Some (w1, writeReport fmt (xe_fault env) rep d)
      end
  end.
End session.

(** ** Profiles: observe.go *)

Section profiles.
Context {S : Type} {T : Transport S}.

(** A body copied to a file: what was read before an error of the body, or written
    before an error of the file. *)
Definition copy_to (fault : option (error * option nat)) (path : string) (r : Reader) (p : files) : files * option error :=
  let text := String.string_of_list_byte (rdata r) in
  match WriteFile fault path text p with
  | (p1, Some e) => (p1, Some e)
  | (p1, None) => (p1, rerr r)
  end.

Definition fetchTo (url path : string) (fault : option (error * option nat)) (p : files) (w : S)
    : S * files * option error :=
  match url_err url with
  | Some e => (w, p, Some e)
  | None =>
      let '(w1, r) := Do (mkRequest MethodGet url ∅ None 0) w in
      match r with
      | Err e => (w1, p, Some e)
      | Ok resp =>
          if negb (rs_StatusCode resp =? StatusOK)
          then (w1, p, Some (Errorf ("status " +:+ pretty (rs_StatusCode resp) +:+ ": " +:+
                                     TrimSpace (read_limited 2048 (rs_Body resp)))))
          else let '(p1, err) := copy_to fault path (rs_Body resp) p in (w1, p1, err)
      end
  end.

Definition profile_path (label : string) (i : nat) (kind : string) : string :=
  label +:+ "-node" +:+ pretty (Z.of_nat i) +:+ "-" +:+ kind +:+ ".pprof".

(** The two profiles of one node, and the errors sent to the channel. *)
Definition profile_node (label : string) (seconds : Z) (fault : string → option (error * option nat)) (i : nat) (t : string)
    (p : files) (w : S) : S * files * list error :=
  let cpu := profile_path label i "cpu" in
  let heap := profile_path label i "heap" in
  let '(w1, p1, e1) := fetchTo (t +:+ "/debug/pprof/profile?seconds=" +:+ pretty seconds) cpu (fault cpu) p w in
  let '(w2, p2, e2) := fetchTo (t +:+ "/debug/pprof/heap") heap (fault heap) p1 w1 in
  (w2, p2, option_list (Wrap ("cpu profile from " +:+ t +:+ ": ") <$> e1) ++
           option_list (Wrap ("heap profile from " +:+ t +:+ ": ") <$> e2)).

(** The nodes in the order in which their goroutines run. *)
Fixpoint profile_nodes (label : string) (seconds : Z) (fault : string → option (error * option nat))
    (todo : list (nat * string)) (p : files) (w : S) : S * files * list error :=
  match todo with
  | [] => (w, p, [])
  | (i, t) :: todo' =>
      let '(w1, p1, es) := profile_node label seconds fault i t p w in
      let '(w2, p2, es') := profile_nodes label seconds fault todo' p1 w1 in
      (w2, p2, es ++ es')
  end.

(** [collectProfiles], the files being those of the profile directory. *)
Definition collectProfiles (mkdir : option error) (dir label : string) (seconds : Z)
    (fault : string → option (error * option nat)) (todo : list (nat * string)) (p : files) (w : S)
    : S * files * option error :=
  if no_text dir then (w, p, None)
  else
    match mkdir with
    | Some e => (w, p, Some (Wrap "create profile dir: " e))
    | None => let '(w1, p1, es) := profile_nodes label seconds fault todo p w in (w1, p1, head es)
    end.
End profiles.

(** ** Lemmas *)

(** *** The structs are read back *)

Lemma fget_put {A} `{Codec A} fmt `{!Lawful fmt A} k a l :
  field k l = Some (json_of fmt (jput a)) → plain fmt (jput a) → fget k l = Some (jnorm a).
Proof. intros Hf Hp. unfold fget. rewrite Hf. by apply jget_jput. Qed.

Lemma fget_absent `{Codec A} k l : field k l = None → fget k l = Some (jzero : A).
Proof. intros Hf. unfold fget. by rewrite Hf. Qed.

(** Reading a struct field by field. *)
Ltac read_fields fmt :=
  repeat match goal with
  | |- @fget ?A _ ?k ?l ≫= _ = _ =>
      first [ erewrite (@fget_put A _ fmt _) by (first [reflexivity | eassumption])
            | rewrite (@fget_absent A) by reflexivity ];
      cbn [mbind option_bind]
  end.

Ltac read_struct fmt C :=
  cbn [jput jget jnorm C json_of fmap list_fmap prod_map fst snd structured app]; read_fields fmt.

Ltac parts_plain C Hp := cbn [jput C plain foldr fst snd app] in Hp; destruct_and? Hp.

Section laws.
Context (fmt : float64 → string).

#[export] Instance Time_lawful : Lawful fmt Time.
Proof.
  split; [done|]. intros [s Hs] _. cbn. unfold parse_time. destruct (decide (valid_time s = true)) as [H|]; [|done].
  do 2 f_equal. apply proof_irrel.
Qed.

#[export] Instance Summary_lawful : Lawful fmt Summary.
Proof.
  split; [done|]. intros s Hp. parts_plain Summary_codec Hp. read_struct fmt Summary_codec. by destruct s.
Qed.

#[export] Instance Spread_lawful : Lawful fmt Spread.
Proof. split; [done|]. intros s Hp. parts_plain Spread_codec Hp. read_struct fmt Spread_codec. by destruct s. Qed.

#[export] Instance NodeSample_lawful : Lawful fmt NodeSample.
Proof. split; [done|]. intros s Hp. parts_plain NodeSample_codec Hp. read_struct fmt NodeSample_codec. by destruct s. Qed.

#[export] Instance RunResult_lawful : Lawful fmt RunResult.
Proof.
  split; [done|]. intros r Hp. cbn [jput RunResult_codec] in *. unfold omitempty in *.
  case_bool_decide as Hm; parts_plain RunResult_codec Hp; read_struct fmt RunResult_codec; destruct r; cbn in *; subst;
    unfold id; rewrite ?map_fmap_id; done.
Qed.

#[export] Instance Point_lawful : Lawful fmt Point.
Proof.
  split; [done|]. intros p Hp. parts_plain Point_codec Hp. read_struct fmt Point_codec. destruct p. cbn.
  by rewrite list_fmap_id.
Qed.

#[export] Instance MemoryObservation_lawful : Lawful fmt MemoryObservation.
Proof.
  split; [done|]. intros m Hp. parts_plain MemoryObservation_codec Hp. read_struct fmt MemoryObservation_codec.
  destruct m. cbn. by rewrite !list_fmap_id.
Qed.

#[export] Instance MemoryObservation_non_null : NonNull MemoryObservation.
Proof. by intros m. Qed.

#[export] Instance ScenarioResult_lawful : Lawful fmt ScenarioResult.
Proof.
  split; [done|]. intros s Hp. cbn [jput ScenarioResult_codec] in *. unfold omitempty in *.
  case_bool_decide as Hm; parts_plain ScenarioResult_codec Hp; read_struct fmt ScenarioResult_codec; destruct s; cbn in *; subst;
    rewrite list_fmap_id; [done|]. by destruct sr_Memory.
Qed.

#[export] Instance Setup_lawful : Lawful fmt Setup.
Proof.
  split; [done|]. intros s Hp. cbn [jput Setup_codec] in *. unfold omitempty, no_text in *.
  destruct (String.eqb_spec (su_Netem s) EmptyString) as [Hm|Hm]; parts_plain Setup_codec Hp; read_struct fmt Setup_codec;
    destruct s; cbn in *; subst; by rewrite !list_fmap_id.
Qed.

#[export] Instance BenchReport_lawful : Lawful fmt BenchReport.
Proof.
  split; [done|]. intros r Hp. cbn [jput BenchReport_codec] in *. unfold omitempty, no_text in *.
  destruct (String.eqb_spec (rp_Label r) EmptyString) as [Hm|Hm]; parts_plain BenchReport_codec Hp;
    read_struct fmt BenchReport_codec; destruct r; cbn in *; by subst.
Qed.
End laws.

(** *** The session comes to an end *)

Lemma bench_waitReady_total {S} {T : Transport S} n fuel k before ts (w : S) :
  (∀ j, (n ≤ j)%nat → before j = false) → (n < fuel)%nat → is_Some (Bench.waitReady fuel k before ts w).
Proof.
  intros Hb Hn. revert k w. induction ts as [|t ts IH]; intros k w; cbn [Bench.waitReady]; [by eexists|].
  destruct (wait_node_total n fuel k before (λ _, None) t w Hb) as (w1 & k1 & r & -> & _); [lia|lia|].
  cbn [mbind option_bind]. destruct r as [[]|e]; [apply IH|by eexists..].
Qed.

(** Options that can be run. *)
Record runnable (opts : boptions) : Prop := {
  rn_targets : bp_targets opts ≠ [];
  rn_levels : Forall (λ c, 1 ≤ c) (bp_concurrency opts) }.

(** The number of objects of a scenario. *)
Definition object_count (opts : boptions) (sc : Scenario) : Z :=
  if bp_smoke opts then minInt (sc_ObjectCount sc) 64 else sc_ObjectCount sc.

(** The preload takes objects of the corpus, and a turn belongs to a worker. *)
Definition env_fits {S} (opts : boptions) (sc : Scenario) (env : @ScenarioEnv S) : Prop :=
  Forall (λ i, Z.of_nat i < object_count opts sc) (se_order env) ∧
  ∀ k j c, bp_concurrency opts !! k = Some c → Forall (λ t, Z.of_nat (tn_worker t.2) < c) (se_turns env k j).1.

(** What the result of a scenario shows. *)
Definition scenario_shown (opts : boptions) (quiet : Prop) (sc : Scenario) (res : ScenarioResult) : Prop :=
  sr_Name res = sc_Name sc ∧ sr_Description res = sc_Description sc ∧
  (∃ corpus ram, co_Seed corpus = bp_seed opts ∧ Z.of_nat (length (co_Objects corpus)) = object_count opts sc ∧
     co_Size corpus = sc_ObjectSize sc ∧ sr_Corpus res = Some (Describe corpus) ∧
     sr_PageCacheNote res = pageCacheNote (Bytes corpus) ram) ∧
  Forall (point_ok (bp_runs opts)) (sr_Points res) ∧
  (quiet → (1 ≤ bp_runs opts)%nat →
   pt_Concurrency <$> sr_Points res = bp_concurrency opts ∧
   Forall (λ pt, length (pt_Runs pt) = bp_runs opts) (sr_Points res)).

Lemma run_scenarios_total {S} opts (env : nat → @ScenarioEnv S) ctx scs i w :
  runnable opts → Forall (λ sc, 16 ≤ sc_ObjectSize sc ∧ 1 ≤ sc_ObjectCount sc) scs →
  (∀ k sc, scs !! k = Some sc → env_fits opts sc (env (i + k)%nat)) →
  ∃ w' r, run_scenarios opts env ctx scs i w = Some (w', r) ∧
    match r with
    | Err _ => True
    | Ok rs => ∃ n, Forall2 (scenario_shown opts (∀ k a b, se_ctx (env k) a b = false)) (take n scs) rs ∧
                 ((∀ k, ctx k = false) → take n scs = scs)
    end.
Proof.
  revert opts i w. induction scs as [|sc scs IH]; intros opts i w Hr Hs He; cbn [run_scenarios].
  { eexists _, _. split; [done|]. by exists O. }
  apply Forall_cons in Hs as [[Hz Hc] Hs]. destruct (He 0%nat sc eq_refl) as [Ho Ht]. rewrite Nat.add_0_r in Ho, Ht.
  destruct (runScenario_total opts sc (env i) w) as (w1 & peak & r & -> & Hres); [apply Hr|done|done|apply Hr|done|done|].
  cbn [mbind option_bind]. destruct r as [res|e]; [|by eexists _, _].
  assert (scenario_shown opts (∀ k a b, se_ctx (env k) a b = false) sc res) as Hsh.
  { destruct Hres as (Hn & Hd & [Hco Hno] & Hp & Hq).
    split_and!; [done..| |done|intros Hctx; apply Hq; intros a b; apply Hctx].
    eexists _, _. split_and!; [| | |exact Hco|exact Hno]; [done| |done]. cbn [co_Objects NewCorpus].
    rewrite length_fmap, length_seq. unfold object_count, minInt. repeat case_match; lia. }
  destruct (ctx i) eqn:Hi.
  { eexists _, _. split; [done|]. exists 1%nat. cbn [take]. rewrite take_0. split; [by constructor|]. intros Hk. by rewrite Hk in Hi. }
  destruct (IH (with_peak peak opts) (i + 1)%nat w1) as (w2 & r & -> & Hrest).
  - by destruct Hr.
  - done.
  - intros k sc' Hk. specialize (He (Datatypes.S k) sc' Hk). by replace (i + 1 + k)%nat with (i + Datatypes.S k)%nat by lia.
  - cbn [mbind option_bind]. eexists _, _. split; [done|]. destruct r as [rs|e]; [|done].
    destruct Hrest as (n & Hf & Hn). exists (Datatypes.S n). cbn [take]. split; [by constructor|].
    intros Hk. by rewrite (Hn Hk).
Qed.

(** *** What the session finds on a node's page *)

Lemma stats_body_cluster d :
  stats_body (pd_node d) (pd_version d) (pd_uptime d) (pd_now d) (Some (pd_stats d)) !! "cluster"
  = Some (cluster_json (pd_stats d)).
Proof.
  unfold stats_body. apply lookup_union_Some_l. unfold stats_map, put_field.
  destruct (_ <$> ns_repair _), (_ <$> ns_usage _), (_ <$> ns_index _);
    repeat rewrite lookup_insert_ne by done; apply lookup_singleton_eq.
Qed.

Lemma replica_field_page fmt d :
  plain fmt (page_value d) → replica_field (json_of fmt (page_value d)) = Some (ns_replicas (pd_stats d)).
Proof.
  intros Hp. pose proof (plain_of_map _ _ _ _ Hp (stats_body_cluster d)) as Hc.
  unfold replica_field, page_value, of_map. cbn [json_of structured]. unfold sget. rewrite field_of_map, stats_body_cluster.
  cbn [fmap option_fmap option_map]. unfold cluster_json, of_map in *. cbn [json_of structured]. unfold fget.
  rewrite field_of_map. repeat rewrite lookup_insert_ne by done. rewrite lookup_singleton_eq.
  cbn [fmap option_fmap option_map json_of jget int_codec]. rewrite parse_int_pretty; [done|].
  apply (plain_of_map fmt _ "replica_count" (GInt _) Hc). repeat rewrite lookup_insert_ne by done. apply lookup_singleton_eq.
Qed.

Lemma page_height d : (gheight (page_value d) ≤ Z.to_nat maxNestingDepth)%nat.
Proof.
  pose proof (stats_body_height (pd_node d) (pd_version d) (pd_uptime d) (pd_now d) (Some (pd_stats d))) as Hh.
  unfold page_value in *. etrans; [exact Hh|]. unfold maxNestingDepth. lia.
Qed.

(** The first target serves its stats page. *)
Definition serves_stats {S} (T : Transport S) fmt (targets : list string) (d : PageData) : Prop :=
  ∃ t ropts resp, targets !! 0%nat = Some t ∧ url_err (t +:+ "/stats") = None ∧
    stats_answer fmt ropts d = Some resp ∧
    ∀ w, ∃ w', Do (mkRequest MethodGet (t +:+ "/stats") ∅ None 0) w = (w', Ok resp).

Lemma replicaCountOf_page {S} (T : Transport S) fmt targets d w :
  serves_stats T fmt targets d → plain fmt (page_value d) →
  (String.length (Encode fmt (page_value d)) ≤ stats_limit)%nat →
  ∃ w', replicaCountOf targets w = Some (w', ns_replicas (pd_stats d)).
Proof.
  intros (t & ropts & resp & Ht & Hu & Ha & Hd) Hp Hl.
  destruct (Hd w) as [w' Hw]. exists w'.
  unfold replicaCountOf. rewrite Ht. cbn [mbind option_bind]. rewrite Hu, Hw.
  destruct (stats_answer_spec fmt ropts d) as (resp' & Ha' & _ & Hb & _).
  rewrite Ha in Ha'. injection Ha' as <-.
  unfold read_limited. rewrite Hb, take_ge by (rewrite length_list_byte_of_string; exact Hl).
  rewrite String.string_of_list_byte_of_string, first_value_Encode by (exact Hp || apply page_height).
  cbn [mbind option_bind]. rewrite (replica_field_page _ _ Hp). reflexivity.
Qed.

Lemma replicaCountOf_total {S} {T : Transport S} targets (w : S) :
  targets ≠ [] → is_Some (replicaCountOf targets w).
Proof.
  destruct targets as [|t ts]; [done|]. intros _. unfold replicaCountOf. cbn [lookup list_lookup mbind option_bind].
  destruct (url_err _); [by eexists|]. destruct (Do _ w). by eexists.
Qed.

(** *** The files of a session *)

(** The text of a report. *)
Definition report_text (fmt : float64 → string) (rep : BenchReport) : string := Encode fmt (jput rep).

Lemma report_text_read fmt rep :
  plain fmt (jput rep) → (gheight (jput rep) ≤ Z.to_nat maxNestingDepth)%nat →
  Unmarshal (report_text fmt rep) ≫= jget = Some (jnorm rep).
Proof. intros Hp Hh. unfold report_text. rewrite Unmarshal_Encode by done. apply (jget_jput (fmt := fmt) rep Hp). Qed.

Lemma WriteFile_other fault name text d k : k ≠ name → (WriteFile fault name text d).1 !! k = d !! k.
Proof.
  intros Hk. destruct fault as [[e [n|]]|]; cbn; [by rewrite lookup_insert_ne|done|by rewrite lookup_insert_ne].
Qed.

(** The files that [writeReport] leaves. *)
Lemma writeReport_spec fmt fault rep d :
  let '(d', _, err) := writeReport fmt fault rep d in
  (rp_Smoke rep = true → d' !! latest = d !! latest) ∧
  (err = None → d' = (if rp_Smoke rep then id else <[latest := report_text fmt rep]>) (<[report_name rep := report_text fmt rep]> d)).
Proof.
  unfold writeReport, MarshalIndent. destruct (unsupported _); [done|].
  change (encode fmt 0 (jput rep) +:+ newline) with (report_text fmt rep).
  pose proof (WriteFile_other (fault (report_name rep)) (report_name rep) (report_text fmt rep) d latest) as Hn.
  assert (rp_Smoke rep = true → latest ≠ report_name rep) as Hne by (unfold report_name; intros ->; done).
  destruct (WriteFile (fault (report_name rep)) _ _ _) as [d1 [e|]] eqn:E1.
  { split; [|done]. intros Hs. by apply Hn, Hne. }
  assert (d1 = <[report_name rep := report_text fmt rep]> d) as Hd1.
  { revert E1. unfold WriteFile. destruct (fault _) as [[? []]|]; [done|done|]. by intros [= <-]. }
  destruct (rp_Smoke rep) eqn:Hs; [split; [intros _; by apply Hn, Hne|by intros _]|].
  destruct (WriteFile (fault latest) _ _ _) as [d2 [e|]] eqn:E2; [done|]. split; [done|]. intros _.
  revert E2. unfold WriteFile. destruct (fault latest) as [[? []]|]; [done|done|]. intros [= <-]. by rewrite Hd1.
Qed.

Lemma selected_scenarios names scs :
  select_scenarios names = Ok scs →
  Forall (λ sc, 16 ≤ sc_ObjectSize sc ∧ 1 ≤ sc_ObjectCount sc) scs.
Proof.
  assert (Forall (λ sc, 16 ≤ sc_ObjectSize sc ∧ 1 ≤ sc_ObjectCount sc) scenarios) as Ha.
  { repeat (constructor; [split; vm_compute; discriminate|]). constructor. }
  unfold select_scenarios. case_bool_decide; [by intros [= <-]|]. case_bool_decide; [done|]. intros [= <-].
  apply Forall_forall. intros sc [_ Hi]%list_elem_of_filter. by eapply Forall_forall in Ha.
Qed.

Lemma host_options_same host o :
  bp_targets (host_options host o) = bp_targets o ∧ bp_concurrency (host_options host o) = bp_concurrency o ∧
  bp_runs (host_options host o) = bp_runs o ∧ bp_smoke (host_options host o) = bp_smoke o ∧
  bp_seed (host_options host o) = bp_seed o ∧
  bp_scenarios (host_options host o) = bp_scenarios o.
Proof. unfold host_options. repeat case_match; done. Qed.

Lemma runnable_host host o : runnable o → runnable (host_options host o).
Proof. destruct (host_options_same host o) as (Ht & Hc & _). intros [H1 H2]. split; congruence. Qed.

Lemma env_fits_host {S} host o sc (env : @ScenarioEnv S) : env_fits o sc env → env_fits (host_options host o) sc env.
Proof.
  destruct (host_options_same host o) as (_ & Hc & _ & Hs & _ & _). unfold env_fits, object_count. by rewrite Hc, Hs.
Qed.

Lemma scenario_shown_host host o quiet sc res :
  scenario_shown (host_options host o) quiet sc res → scenario_shown o quiet sc res.
Proof.
  destruct (host_options_same host o) as (_ & Hc & Hr & Hs & Hd & _).
  unfold scenario_shown, object_count. by rewrite Hc, Hr, Hs, Hd.
Qed.

(** A session comes to an end.  If it ends without an error its report is in the
    directory, as the latest result unless this is a smoke run: it has a result
    for each selected scenario and the replica count that the first target's stats
    page shows, and it is read back from its file.  A smoke run never replaces the
    latest result. *)
Lemma session_spec {S} fmt fuel n (env : @SessionEnv S) opts d w :
  runnable opts → (∀ j, (n ≤ j)%nat → xe_before env j = false) → (n < fuel)%nat →
  (∀ scs k sc, select_scenarios (bp_scenarios opts) = Ok scs → scs !! k = Some sc →
     env_fits opts sc (xe_scenario env k)) →
  ∃ w' d' out err, execute fmt fuel env opts d w = Some (w', (d', out, err)) ∧
    (bp_smoke opts = true → d' !! latest = d !! latest) ∧
    (err = None → ∃ scs m rep,
       measure fuel env opts w = Some (w', Ok rep) ∧ select_scenarios (bp_scenarios opts) = Ok scs ∧
       Forall2 (scenario_shown opts (∀ k a b, se_ctx (xe_scenario env k) a b = false)) (take m scs) (rp_Scenarios rep) ∧
       ((∀ k, xe_ctx env k = false) → take m scs = scs) ∧
       (∀ pd, serves_stats (xe_stats env) fmt (bp_targets opts) pd → plain fmt (page_value pd) →
          (String.length (Encode fmt (page_value pd)) ≤ stats_limit)%nat →
          su_ReplicaCount (rp_Setup rep) = ns_replicas (pd_stats pd)) ∧
       d' !! (if bp_smoke opts then "bench-smoke.json" else latest) = Some (report_text fmt rep) ∧
       (plain fmt (jput rep) → (gheight (jput rep) ≤ Z.to_nat maxNestingDepth)%nat →
          Unmarshal (report_text fmt rep) ≫= jget = Some (jnorm rep))).
Proof.
  intros Hr Hb Hn He. unfold execute, measure. destruct (xe_mkdir env); [by eexists _, _, _, _|].
  destruct (@bench_waitReady_total S (xe_ready env) n fuel 0 (xe_before env) (bp_targets opts) w Hb Hn) as [[w1 err] ->].
  cbn [mbind option_bind]. destruct err as [e|]; [by eexists _, _, _, _|].
  set (host := hostInfo _ _). destruct (host_options_same host opts) as (Ht & Hc & Hru & Hsm & _ & Hsc). rewrite Ht, Hsc.
  destruct (@replicaCountOf_total S (xe_stats env) (bp_targets opts) w1 (rn_targets _ Hr)) as [[w2 replicas] Hrep].
  rewrite Hrep. cbn [mbind option_bind].
  destruct (select_scenarios (bp_scenarios opts)) as [scs|e] eqn:Hsel; [|by eexists _, _, _, _].
  destruct (run_scenarios_total (host_options host opts) (xe_scenario env) (xe_ctx env) scs 0 w2)
    as (w3 & r & -> & Hres);
    [by apply runnable_host|by eapply selected_scenarios|intros k sc Hk; by eapply env_fits_host, He|].
  cbn [mbind option_bind]. destruct r as [results|e]; [|by eexists _, _, _, _].
  cbn [mbind option_bind]. destruct Hres as (m & Hsh & Hm). set (rep := session_report env (host_options host opts) replicas results).
  pose proof (writeReport_spec fmt (xe_fault env) rep d) as Hw.
  destruct (writeReport fmt (xe_fault env) rep d) as [[d' out] err]. destruct Hw as [Hsmoke Hok].
  change (rp_Smoke rep) with (bp_smoke (host_options host opts)) in *. rewrite Hsm in *.
  eexists _, _, _, _. split; [reflexivity|]. split; [done|]. intros ->. specialize (Hok eq_refl).
  exists scs, m, rep. split; [done|]. split; [done|]. split_and!.
  - eapply Forall2_impl; [exact Hsh|]. intros sc res. apply scenario_shown_host.
  - done.
  - intros pd Hs Hp Hl. destruct (replicaCountOf_page (xe_stats env) fmt (bp_targets opts) pd w1 Hs Hp Hl) as [w' Hq].
    rewrite Hq in Hrep. by injection Hrep as <- <-.
  - rewrite Hok. unfold report_name. change (rp_Smoke rep) with (bp_smoke (host_options host opts)). rewrite Hsm.
    destruct (bp_smoke opts); apply lookup_insert_eq.
  - apply report_text_read.
Qed.

(** *** Profiles *)

Lemma fetchTo_writes {S} {T : Transport S} url path fault p (w : S) k :
  let '(_, p', err) := fetchTo url path fault p w in
  (is_Some (p !! k) → is_Some (p' !! k)) ∧ (err = None → is_Some (p' !! path)).
Proof.
  unfold fetchTo. destruct (url_err url); [done|]. destruct (Do _ w) as [w1 [resp|e]]; [|done].
  destruct (negb _); [done|]. unfold copy_to, WriteFile. set (text := String.string_of_list_byte _).
  assert (∀ u, is_Some (p !! k) → is_Some (<[path := u]> p !! k)) as Hk.
  { intros u H. destruct (decide (k = path)) as [->|]; [by rewrite lookup_insert_eq|by rewrite lookup_insert_ne]. }
  destruct fault as [[e [n|]]|]; [split; [apply Hk|done]|done|]. split; [apply Hk|]. intros _. by rewrite lookup_insert_eq.
Qed.

(** Without an error both profiles of every node are there. *)
Lemma profile_nodes_complete {S} {T : Transport S} label seconds fault todo p (w : S) :
  let '(_, p', es) := profile_nodes label seconds fault todo p w in
  (∀ k, is_Some (p !! k) → is_Some (p' !! k)) ∧
  (es = [] → ∀ i t kind, (i, t) ∈ todo → kind = "cpu" ∨ kind = "heap" → is_Some (p' !! profile_path label i kind)).
Proof.
  revert p w. induction todo as [|[i t] todo IH]; intros p w; cbn [profile_nodes]; [split; [done|by intros _ i t kind ?%elem_of_nil]|].
  unfold profile_node.
  pose proof (fetchTo_writes (t +:+ "/debug/pprof/profile?seconds=" +:+ pretty seconds) (profile_path label i "cpu")
    (fault (profile_path label i "cpu")) p w) as H1.
  destruct (fetchTo _ _ _ p w) as [[w1 p1] e1].
  pose proof (fetchTo_writes (t +:+ "/debug/pprof/heap") (profile_path label i "heap")
    (fault (profile_path label i "heap")) p1 w1) as H2.
  destruct (fetchTo _ _ _ p1 w1) as [[w2 p2] e2]. specialize (IH p2 w2).
  destruct (profile_nodes label seconds fault todo p2 w2) as [[w3 p3] es]. destruct IH as [Hk Hall]. split.
  - intros k Hp. by apply Hk, H2, H1.
  - intros Hes. apply app_eq_nil in Hes as [Hes ->]. apply app_eq_nil in Hes as [E1 E2].
    assert (e1 = None) as -> by (by destruct e1). assert (e2 = None) as -> by (by destruct e2).
    intros j u kind [[= -> ->]|Hj]%elem_of_cons Hkind; [|by eapply Hall]. apply Hk.
    destruct Hkind as [->| ->]; [by apply H2, (H1 (profile_path label i "cpu"))|by apply (H2 (profile_path label i "heap"))].
Qed.

(** *** An example: one target that answers everything with its stats page *)

Definition page_network : Transport unit :=
  Build_Transport unit (λ _, None) (λ _ u, (u, from_option Ok (Err no_such_host) busy_response)).

Definition one_options : boptions :=
  mkBOptions ["http://a"] "out" 5 20000000000 5000000000 [4; 16] ["put-replicated"] false false 20260920
    EmptyString true EmptyString EmptyString 0 [].

Definition idle_env : @ScenarioEnv unit :=
  mkScenarioEnv (λ _ _, Byte.x00) (λ _ _, Byte.x00) [] (λ _, page_network) (λ _ _, ([], 20000000000)) (λ _ _, false)
    (λ _, []) page_network page_network.

Definition one_session : @SessionEnv unit :=
  mkSessionEnv None page_network (λ k, (k <? 3)%nat) (Err no_such_host) (λ _, Err no_such_host)
    (mkTime "2026-09-20T10:10:06.5Z" eq_refl) page_network (Err no_such_host) "dev" EmptyString None
    (λ _, idle_env) (λ _, false) (λ _, None).

Lemma busy_page_served : serves_stats page_network int_text ["http://a"] busy_page.
Proof.
  destruct (stats_answer_spec int_text (mkRouterOptions "a" false true) busy_page) as (resp & Hr & _).
  exists "http://a", (mkRouterOptions "a" false true), resp. split; [done|]. split; [done|]. split; [exact Hr|].
  intros w. exists w. change ((w, from_option Ok (Err no_such_host) busy_response) = (w, Ok resp)).
  unfold busy_response. by rewrite Hr.
Qed.

Lemma one_options_runnable : runnable one_options.
Proof. split; [done|]. repeat constructor; lia. Qed.

Lemma idle_env_fits sc : env_fits one_options sc idle_env.
Proof. split; [constructor|]. intros k j c _. constructor. Qed.
