(* ===== verification/Render.v ===== *)
(** * The benchmark document: cmd/bench/render.go

    [render] writes BENCHMARKS.md from the files of a results directory: the
    latest report, and beside it whichever of the Bazel, fio, chaos, placement and
    netem results there are.  A section is the text that its function appends to
    the builder.  The texts of a float64 and of a nested value under [%v] are
    arguments, [fv] and [other]. *)

From Stdlib Require Import Floats.SpecFloat.
From S2P Require Import Prelude GoStrings Sha256 Errors Key Config Ring Protocol Index FileSystem Store StoreSpec Heap GoFloat Strconv Fmt Json Codec Evict Client Coordinator HttpApi Cluster Repair Reads ClusterSpec Chaos Bench LoadConfig Node Lifecycle StatsPage ChaosRun Command Report.

#[local] Open Scope Z_scope.

(** ** Helpers *)

(** The text from the first place where [sub] occurs. *)
Fixpoint from_index (sub s : string) : option string :=
  if HasPrefix s sub then Some s
  else match s with EmptyString => None | String _ s' => from_index sub s' end.

Definition relResults (dir : string) : string := default dir (from_index "bench/results/" dir).

Definition shortCommit (c : string) : string :=
  if (12 <? String.length c)%nat then stake 12 c else if no_text c then "unknown" else c.

Definition deref (f : option float64) : float64 := default zero_float f.

Definition percent (x : float64) : float64 := fmul x (of_int 100).

(** [%v] *)
Definition show_any (fv : float64 → string) (other : any → string) (v : option any) : string :=
  match v with
  | None | Some ANull => "<nil>"
  | Some (ABool b) => show_bool b
  | Some (ANumber f) => fv f
  | Some (AInt z) => pretty z
  | Some (AString s) => s
  | Some v => other v
  end.

(** A row of a table from its cells. *)
Definition row (cells : list string) : string := line ("| " +:+ SJoin cells " | " +:+ " |").

(** A link to a file of the results. *)
Definition source (rel name : string) : string :=
  "Source: [`" +:+ rel +:+ "/" +:+ name +:+ "`](" +:+ rel +:+ "/" +:+ name +:+ ")".

(** A line and the empty line after it. *)
Definition para (s : string) : string := line s +:+ newline.

(** ** The report's own sections *)

Definition writeHeader (rep : BenchReport) (dir : string) : string :=
  para "# Benchmarks" +:+
  para ("**Generated from `" +:+ relResults dir +:+ "/bench-latest.json` by `bench -render`. Do not edit by hand.**") +:+
  para "Every number here comes from a committed raw result file. Regenerate with:" +:+
  line "```bash" +:+ line "make bench       # runs the matrix and writes the JSON" +:+
  line "make benchmarks  # regenerates this file from it" +:+ para "```" +:+
  (if rp_Smoke rep
   then para "> **This is a smoke run.** It exists to check the harness, not the system." else EmptyString) +:+
  para ("Measured " +:+ RFC3339 (rp_GeneratedAt rep) +:+ " from git commit `" +:+
        shortCommit (su_GitCommit (rp_Setup rep)) +:+ "`.") +:+
  para "## How to read these numbers" +:+
  line ("- Each cell is the **median of " +:+ pretty (su_RunsPerPoint (rp_Setup rep)) +:+
        " runs**, not the best. The spread column shows the") +:+
  line "  range across those runs, so you can see whether the machine was quiet." +:+
  line ("- Each run measures for " +:+ Fixed 0 (su_DurationS (rp_Setup rep)) +:+ " s after a " +:+
        Fixed 0 (su_WarmupS (rp_Setup rep)) +:+ " s unmeasured warmup.") +:+
  line "- The load generator is **closed-loop**: each of N workers issues its next request" +:+
  line ("  as soon as the previous one returns. The concurrency column is therefore " +:+ String quote_char "N") +:+
  line ("  requests in flight" +:+ String quote_char ", which is the question an operator has, and the latency") +:+
  line "  figures are not subject to coordinated omission." +:+
  line "- Percentiles are nearest-rank over **every** observation, not a sample. An" +:+
  line "  interpolated p99 is a value that was never observed." +:+
  (if su_ClientColocated (rp_Setup rep)
   then line "- **The client shared a host with the servers.** There is no physical network in" +:+
        line "  these numbers; they bound what the server can do, not what a remote client sees."
   else EmptyString) +:+
  (if no_text (su_Netem (rp_Setup rep)) then EmptyString
   else line ("- **Network conditions injected with `tc netem`:** " +:+ su_Netem (rp_Setup rep))) +:+
  newline.

(** The rows of the host's table: a nil and an empty text are left out. *)
Definition host_row (fv : float64 → string) (other : any → string) (k : string) (v : option any) : string :=
  match v with
  | None | Some ANull | Some (AString EmptyString) => EmptyString
  | _ => row [k; show_any fv other v]
  end.

Definition writeHostSection (fv : float64 → string) (other : any → string) (rep : BenchReport) (dir : string) : string :=
  let rel := relResults dir in
  let host k := at_key k (rp_Host rep) in
  let r := host_row fv other in
  para "## The machine" +:+ line "| | |" +:+ line "|---|---|" +:+
  r "CPU" (host "cpu_model") +:+ r "Cores" (host "cpu_cores") +:+
  (match host "mem_total_kb" with
   | Some (ANumber kb) => r "RAM" (Some (AString (humanBytes (i64 (to_int64 kb * 1024)))))
   | _ => EmptyString
   end) +:+
  r "Kernel" (host "kernel") +:+ r "Virtualisation" (host "virtualization") +:+ r "Filesystem" (host "filesystem") +:+
  r "Disk model" (host "disk_model") +:+ r "Go" (host "go_version") +:+ r "Docker" (host "docker_version") +:+
  r "Nodes" (Some (AString (pretty (su_Nodes (rp_Setup rep)) +:+ ", replica count " +:+
                            pretty (su_ReplicaCount (rp_Setup rep))))) +:+
  r "KilnCache" (Some (AString (su_Version (rp_Setup rep)))) +:+
  r "Commit" (Some (AString ("`" +:+ shortCommit (su_GitCommit (rp_Setup rep)) +:+ "`"))) +:+
  newline +:+ para ("Full host record: [`" +:+ rel +:+ "/hostinfo.json`](" +:+ rel +:+ "/hostinfo.json).") +:+
  line "This is a WSL2 virtual machine, not bare metal. Its virtual disk is backed by the" +:+
  line "Windows host's own page cache, so read figures here are better than the same code" +:+
  line "would see on a physical NVMe device, and write figures that go through `fsync` are" +:+
  line ("worse. The [device baseline](" +:+ rel +:+ "/device-baseline.json) is measured on the same") +:+
  para "filesystem and is the floor every figure below should be read against.".

(** The nine columns of a point. *)
Definition point_cells (p : Point) : list string :=
  let m := pt_Median p in
  [pretty (pt_Concurrency p); Fixed 0 (rr_OpsPerSec m);
   Fixed 0 (sd_OpsMin (pt_Spread p)) +:+ "–" +:+ Fixed 0 (sd_OpsMax (pt_Spread p)); Fixed 1 (rr_MiBPerSec m);
   Fixed 2 (su_P50Ms (rr_Latency m)); Fixed 2 (su_P95Ms (rr_Latency m)); Fixed 2 (su_P99Ms (rr_Latency m));
   Fixed 2 (su_P999Ms (rr_Latency m)); pretty (rr_Errors m)].

Definition results_header : list string :=
  ["Concurrency"; "ops/s (median)"; "ops/s range"; "MiB/s"; "p50 ms"; "p95 ms"; "p99 ms"; "p99.9 ms"; "errors"].

Definition scenario_section (fv : float64 → string) (other : any → string) (rel : string) (sc : ScenarioResult) : string :=
  let corpus k := at_key k (sr_Corpus sc) in
  para ("### `" +:+ sr_Name sc +:+ "`") +:+ para (sr_Description sc) +:+
  para ("Corpus: " +:+ pretty (toInt (corpus "objects")) +:+ " objects of " +:+
        humanBytes (toInt (corpus "object_size_bytes")) +:+ " (" +:+ humanBytes (toInt (corpus "total_bytes")) +:+
        " total), seed `" +:+ show_any fv other (corpus "seed") +:+ "`, pseudo-random content.") +:+
  (if no_text (sr_PageCacheNote sc) then EmptyString else para ("> " +:+ sr_PageCacheNote sc)) +:+
  para (source rel "bench-latest.json") +:+
  row results_header +:+ line "|---:|---:|---:|---:|---:|---:|---:|---:|---:|" +:+
  concat_all ((λ p, row (point_cells p)) <$> sr_Points sc) +:+ newline.

Definition writeScenarioTables (fv : float64 → string) (other : any → string) (rep : BenchReport) (dir : string) : string :=
  para "## Results" +:+ concat_all (scenario_section fv other (relResults dir) <$> rp_Scenarios rep).

(** The rows of the memory section: name, object size and peak. *)
Definition memory_rows (rep : BenchReport) : list (string * Z * float64) :=
  sort_Slice (λ a b, a.1.2 <? b.1.2)
    (omap (λ sc, m ← sr_Memory sc;
                 if feq (mo_PeakRSSMiB m) zero_float then None
                 else Some (sr_Name sc, mo_ObjectSize m, mo_PeakRSSMiB m)) (rp_Scenarios rep)).

(** How much the peak grows between the first and the last row. *)
Definition memory_growth (first last : string * Z * float64) : string :=
  if (0 <? first.1.2) && (first.1.2 <? last.1.2) then
    newline +:+
    line ("Object size grew " +:+ Fixed 0 (fdiv (of_int last.1.2) (of_int first.1.2)) +:+
          "x between the smallest and largest scenario; peak RSS changed") +:+
    line ("by " +:+ Fixed 0 (percent (fdiv (fsub last.2 first.2) first.2)) +:+
          "%. A server that buffered whole objects would show the first ratio in the") +:+
    line "second column."
  else EmptyString.

Definition writeMemorySection (rep : BenchReport) (dir : string) : string :=
  let rel := relResults dir in
  let rows := memory_rows rep in
  match head rows, last rows with
  | Some smallest, Some largest =>
      para "## Memory does not scale with object size" +:+
      line "Objects are streamed through a fixed 256 KiB buffer, so resident memory is a" +:+
      line "function of concurrency rather than of object size. Peak RSS across all nodes," +:+
      para "sampled twice a second while each scenario ran:" +:+
      para (source rel "bench-latest.json" +:+ ", the `memory` field of each scenario") +:+
      row ["Scenario"; "Object size"; "Peak RSS (max across nodes)"] +:+ line "|---|---:|---:|" +:+
      concat_all ((λ r, row ["`" +:+ r.1.1 +:+ "`"; humanBytes r.1.2; Fixed 1 r.2 +:+ " MiB"]) <$> rows) +:+
      memory_growth smallest largest +:+ newline
  | _, _ => EmptyString
  end.

(** ** The supporting sections *)

(** What [ReadFile] and [Unmarshal] give of a file. *)
Definition read_json {A} (read : string → result string) (name : string) (get : json → option A) : option A :=
  match read name with Ok text => Unmarshal text ≫= get | Err _ => None end.

Record BazelSummary := mkBazelSummary {
  bz_ColdMedian : float64; bz_ColdMin : float64; bz_ColdMax : float64; bz_Populate : float64; bz_CachedMedian : float64;
  bz_CachedMin : float64; bz_CachedMax : float64; bz_Reduction : float64; bz_Speedup : float64; bz_BytesUp : float64;
  bz_BytesDown : float64; bz_OutputsIdentical : bool }.

(** A cached build: remote hits, local executions and actions. *)
Record CachedBuild := mkCachedBuild { cb_RemoteCacheHits : Z; cb_LocallyExecuted : Z; cb_TotalActions : Z }.

Record bazelReport := mkBazelReport {
  bz_BazelVersion : string; bz_RunsPerPhase : Z; bz_Targets : Z; bz_Artifacts : Z; bz_PopulatingValid : bool;
  bz_Summary : BazelSummary; bz_CachedBuilds : list CachedBuild }.

Definition no_bazel_summary : BazelSummary :=
  mkBazelSummary zero_float zero_float zero_float zero_float zero_float zero_float zero_float zero_float zero_float
    zero_float zero_float false.

Definition get_bazel_summary (l : list (string * json)) : option BazelSummary :=
  a ← fget "cold_median_seconds" l; b ← fget "cold_min_seconds" l; c ← fget "cold_max_seconds" l;
  d ← fget "populate_seconds" l; e ← fget "cached_median_seconds" l; f ← fget "cached_min_seconds" l;
  g ← fget "cached_max_seconds" l; h ← fget "median_reduction_fraction" l; i ← fget "median_speedup" l;
  j ← fget "bytes_uploaded_populating" l; k ← fget "bytes_downloaded_cached_median" l; o ← fget "outputs_identical" l;
  Some (mkBazelSummary a b c d e f g h i j k o).

Definition no_build : CachedBuild := mkCachedBuild 0 0 0.

Definition get_build (l : list (string * json)) : option CachedBuild :=
  a ← fget "remote_cache_hits" l; b ← fget "locally_executed" l; c ← fget "total_actions" l; Some (mkCachedBuild a b c).

Definition get_bazel : json → option bazelReport :=
  structured (mkBazelReport EmptyString 0 0 0 false no_bazel_summary []) (λ l,
    version ← fget "bazel_version" l; runs ← fget "runs_per_measured_phase" l;
    ws ← sget (0, 0) (λ l, t ← fget "targets" l; a ← fget "build_artifacts_compared" l; Some (t, a)) "workspace" l;
    valid ← fget "populating_build_is_valid" l; summary ← sget no_bazel_summary get_bazel_summary "summary" l;
    builds ← sgets no_build (sget no_build get_build "bazel") "cached_builds" l;
    Some (mkBazelReport version runs ws.1 ws.2 valid summary builds)).

Definition mebibytes (x : float64) : string := Fixed 0 (fdiv x (of_int (2 ^ 20))) +:+ " MiB".

Definition bazel_section (br : bazelReport) (rel : string) : string :=
  let s := bz_Summary br in
  para "## The headline experiment: a real Bazel build" +:+
  line ("A generated C++ workspace of " +:+ pretty (bz_Targets br) +:+ " targets (" +:+ pretty (bz_Artifacts br) +:+
        " build artifacts), built with " +:+ bz_BazelVersion br +:+ ".") +:+
  para ("Each measured phase is preceded by `bazel clean --expunge` and repeated " +:+ pretty (bz_RunsPerPhase br) +:+
        " times.") +:+
  para (source rel "bazel-bench.json") +:+
  row ["Phase"; "Median"; "Range"; "What it represents"] +:+ line "|---|---:|---:|---|" +:+
  row ["Cold build, no remote cache"; "**" +:+ Fixed 1 (bz_ColdMedian s) +:+ " s**";
       Fixed 1 (bz_ColdMin s) +:+ "–" +:+ Fixed 1 (bz_ColdMax s) +:+ " s"; "A developer with nothing cached anywhere."] +:+
  row ["Populating build through KilnCache"; Fixed 1 (bz_Populate s) +:+ " s"; "—";
       if bz_PopulatingValid br
       then "The first person to build after a change: every action misses and uploads."
       else "**Not a valid population measurement — the cache was not empty.**"] +:+
  row ["Rebuild served from KilnCache"; "**" +:+ Fixed 1 (bz_CachedMedian s) +:+ " s**";
       Fixed 1 (bz_CachedMin s) +:+ "–" +:+ Fixed 1 (bz_CachedMax s) +:+ " s"; "Everyone afterwards."] +:+
  newline +:+ para (source rel "bazel-bench.json") +:+ line "| | |" +:+ line "|---|---|" +:+
  row ["**Median clean-rebuild time reduction**"; "**" +:+ Fixed 1 (percent (bz_Reduction s)) +:+ "%**"] +:+
  row ["Median speedup"; Fixed 2 (bz_Speedup s) +:+ "x"] +:+
  (match bz_CachedBuilds br with
   | [] => EmptyString
   | c :: _ =>
       row ["Actions served from the cache";
            pretty (cb_RemoteCacheHits c) +:+ " of " +:+ pretty (i64 (cb_RemoteCacheHits c + cb_LocallyExecuted c)) +:+
            " executable actions; " +:+ pretty (cb_LocallyExecuted c) +:+ " executed locally"]
   end) +:+
  row ["Uploaded while populating"; mebibytes (bz_BytesUp s)] +:+
  row ["Downloaded per cached rebuild"; mebibytes (bz_BytesDown s)] +:+
  row ["Outputs byte-for-byte identical to the cold build"; "**" +:+ show_bool (bz_OutputsIdentical s) +:+ "**"] +:+
  newline +:+
  line "The last row is the one that matters most. A cache that makes a build fast and" +:+
  line ("wrong is worse than no cache: every one of the " +:+ pretty (bz_Artifacts br) +:+
        " build artifacts produced by the") +:+
  para "cache-served build hashes identically to the one the compiler produced locally." +:+
  line "What remains in the cached build is Bazel's own work — loading, analysis, and" +:+
  line "the actions it marks internal — plus downloading the outputs. That is the floor" +:+
  para "a remote cache cannot go below, and it is why the reduction is not higher.".

Definition writeBazelSection (read : string → result string) (rel : string) : string :=
  match read_json read "bazel-bench.json" get_bazel with Some br => bazel_section br rel | None => EmptyString end.

(** A job of the device baseline. *)
Record FioJob := mkFioJob {
  fj_Name : string; fj_ReadBW : option float64; fj_ReadIOPS : option float64; fj_WriteBW : option float64;
  fj_WriteIOPS : option float64 }.

Definition get_job (l : list (string * json)) : option FioJob :=
  name ← fget "name" l; rb ← fget "read_bw_kib_s" l; ri ← fget "read_iops_mean" l; wb ← fget "write_bw_kib_s" l;
  wi ← fget "write_iops_mean" l; Some (mkFioJob name rb ri wb wi).

(** File system, target and jobs. *)
Definition get_baseline : json → option (string * string * list FioJob) :=
  structured (EmptyString, EmptyString, []) (λ l,
    fs ← fget "filesystem" l; target ← fget "target" l;
    jobs ← sgets (mkFioJob EmptyString None None None None) get_job "jobs" l; Some (fs, target, jobs)).

Definition throughput (bw iops : option float64) : string :=
  match bw with
  | Some b =>
      if flt zero_float b
      then Fixed 0 (fdiv b (of_int 1024)) +:+ " MiB/s @ " +:+ Fixed 0 (deref iops) +:+ " IOPS" else "—"
  | None => "—"
  end.

Definition device_section (read : string → result string) (rel : string) : string :=
  match read_json read "device-baseline.json" get_baseline with
  | Some (fs, target, ((_ :: _) as jobs)) =>
      para "## Device baseline" +:+
      line ("What the filesystem under the cache can do, measured with `fio` on `" +:+ target +:+ "` (" +:+ fs +:+ ").") +:+
      para "Every figure above should be read against these." +:+
      para (source rel "device-baseline.json" +:+ ", full fio output in `device-baseline.fio.json`") +:+
      row ["fio job"; "Read"; "Write"] +:+ line "|---|---:|---:|" +:+
      concat_all ((λ j, row ["`" +:+ fj_Name j +:+ "`"; throughput (fj_ReadBW j) (fj_ReadIOPS j);
                             throughput (fj_WriteBW j) (fj_WriteIOPS j)]) <$> jobs) +:+
      newline +:+ line "The first job is the one that matters for writes: 4 KiB random writes with" +:+
      para "`fdatasync` after each, which is what the publish path costs per object."
  | _ => EmptyString
  end.

(** What the document shows of a chaos run. *)
Record ChaosFigures := mkChaosFigures {
  ch_DurationS : float64; ch_Workers : Z; ch_OpsPerSecond : float64; ch_ErrorRate : float64; ch_ReadsVerified : Z;
  ch_CorruptedReads : Z; ch_ObjectsChecked : Z; ch_FullyReplicated : Z; ch_ConvergedSeconds : float64;
  ch_Converged : bool; ch_Faults : list any; ch_Verdict : string }.

Definition get_chaos : json → option ChaosFigures :=
  structured
    (mkChaosFigures zero_float 0 zero_float zero_float 0 0 0 0 zero_float false [] EmptyString) (λ l,
    config ← sget (zero_float, 0) (λ l, d ← fget "duration_seconds" l; w ← fget "workers" l; Some (d, w)) "config" l;
    traffic ← sget (zero_float, zero_float)
      (λ l, o ← fget "ops_per_second" l; e ← fget "error_rate" l; Some (o, e)) "traffic" l;
    correct ← sget (0, 0) (λ l, v ← fget "reads_verified" l; c ← fget "corrupted_reads" l; Some (v, c)) "correctness" l;
    conv ← sget (0, 0, zero_float, false)
      (λ l, o ← fget "objects_checked" l; f ← fget "fully_replicated" l; s ← fget "converged_after_seconds" l;
            c ← fget "converged" l; Some (o, f, s, c)) "convergence" l;
    faults ← fget "faults" l; verdict ← fget "verdict" l;
    let '(objects, replicated, seconds, converged) := conv in
    Some (mkChaosFigures config.1 config.2 traffic.1 traffic.2 correct.1 correct.2 objects replicated seconds converged
            faults verdict)).

Definition chaos_section (read : string → result string) (rel : string) : string :=
  match read_json read "chaos-latest.json" get_chaos with
  | None => EmptyString
  | Some ch =>
      para "## Behaviour under failure" +:+
      para ("A " +:+ Fixed 0 (fdiv (ch_DurationS ch) (of_int 60)) +:+ "-minute chaos run with " +:+
            pretty (ch_Workers ch) +:+ " concurrent clients and " +:+ pretty (Z.of_nat (length (ch_Faults ch))) +:+ " node stops.") +:+
      para (source rel "chaos-latest.json") +:+ line "| | |" +:+ line "|---|---|" +:+
      row ["Corrupted reads"; "**" +:+ pretty (ch_CorruptedReads ch) +:+ "** out of " +:+
           pretty (ch_ReadsVerified ch) +:+ " reads verified"] +:+
      row ["Convergence to 2 replicas"; show_bool (ch_Converged ch) +:+ ", after " +:+
           Fixed 0 (ch_ConvergedSeconds ch) +:+ " s, over " +:+ pretty (ch_ObjectsChecked ch) +:+ " sampled objects"] +:+
      row ["Throughput during the run"; Fixed 0 (ch_OpsPerSecond ch) +:+ " ops/s"] +:+
      row ["Client error rate while degraded"; Fixed 1 (percent (ch_ErrorRate ch)) +:+ "%"] +:+
      row ["Verdict"; ch_Verdict ch] +:+ newline +:+
      line "Every read was checked against a digest the chaos runner computed itself, never" +:+
      line "one the cluster reported. The error rate is non-zero because the faults landed:" +:+
      line "a chaos run with no client errors would mean nothing was actually broken, and" +:+
      para "the tool reports that as INCONCLUSIVE rather than as a pass."
  end.

(** Cluster size and imbalances; sizes and fractions of a membership change. *)
Record Balance := mkBalance { ba_ClusterSize : Z; ba_Primary : float64; ba_Holder : float64 }.
Record Movement := mkMovement { mv_Before : Z; mv_After : Z; mv_Fraction : float64; mv_Theoretical : float64 }.

Definition get_placement : json → option (Z * list Balance * list Movement) :=
  structured (0, [], []) (λ l,
    keys ← fget "keys" l;
    balance ← sgets (mkBalance 0 zero_float zero_float) (λ l,
      n ← fget "cluster_size" l; p ← fget "primary_imbalance_max_over_mean" l;
      h ← fget "holder_imbalance_max_over_mean" l; Some (mkBalance n p h)) "balance" l;
    movement ← sgets (mkMovement 0 0 zero_float zero_float) (λ l,
      b ← fget "cluster_size_before" l; a ← fget "cluster_size_after" l; f ← fget "primary_moved_fraction" l;
      t ← fget "theoretical_fraction" l; Some (mkMovement b a f t)) "movement" l;
    Some (keys, balance, movement)).

Definition placement_section (read : string → result string) (rel : string) : string :=
  match read_json read "placement.json" get_placement with
  | Some (keys, ((_ :: _) as balance), movement) =>
      para "## Placement" +:+ para ("Rendezvous hashing over " +:+ pretty keys +:+ " keys.") +:+
      para (source rel "placement.json") +:+
      row ["Cluster"; "Primary imbalance (max/mean)"; "Holder imbalance"] +:+ line "|---:|---:|---:|" +:+
      concat_all ((λ r, row [pretty (ba_ClusterSize r) +:+ " nodes"; Fixed 4 (ba_Primary r); Fixed 4 (ba_Holder r)])
                    <$> balance) +:+
      newline +:+ para (source rel "placement.json") +:+
      row ["Membership change"; "Primaries moved"; "Theory"] +:+ line "|---|---:|---:|" +:+
      concat_all ((λ r, row [pretty (mv_Before r) +:+ " → " +:+ pretty (mv_After r) +:+ " nodes";
                             Fixed 2 (percent (mv_Fraction r)) +:+ "%"; Fixed 2 (percent (mv_Theoretical r)) +:+ "%"])
                    <$> movement) +:+
      newline +:+ line "Modulo hashing would move about 75% of keys when the fourth node joins. That" +:+
      para "single comparison is why this project does not use it."
  | _ => EmptyString
  end.

(** The six columns of a point of the netem run. *)
Definition netem_cells (sc : ScenarioResult) (p : Point) : list string :=
  let m := pt_Median p in
  ["`" +:+ sr_Name sc +:+ "`"; pretty (pt_Concurrency p); Fixed 0 (rr_OpsPerSec m); Fixed 2 (su_P50Ms (rr_Latency m));
   Fixed 2 (su_P99Ms (rr_Latency m)); pretty (rr_Errors m)].

Definition netem_section (read : string → result string) (rel : string) : string :=
  match read_json read "netem/bench-latest.json" (jget : json → option BenchReport) with
  | None => EmptyString
  | Some nrep =>
      if bool_decide (rp_Scenarios nrep = []) then EmptyString
      else
        para "## The same code over a slow, lossy network" +:+
        line (source rel "netem/bench-latest.json") +:+
        para ("Conditions: " +:+ su_Netem (rp_Setup nrep)) +:+
        row ["Scenario"; "Concurrency"; "ops/s"; "p50 ms"; "p99 ms"; "errors"] +:+
        line "|---|---:|---:|---:|---:|---:|" +:+
        concat_all ((λ sc, concat_all ((λ p, row (netem_cells sc p)) <$> sr_Points sc)) <$> rp_Scenarios nrep) +:+
        newline +:+ line "Throughput collapses and latency is dominated by the round trip, which is what" +:+
        line "should happen: a cache on a slow network is a slow cache. What matters is that" +:+
        line "the error count stays at zero — nothing was lost, corrupted, or refused; it was" +:+
        para "only slow."
  end.

Definition not_measured : string :=
  para "## What is not measured here" +:+
  line "- **Cold-cache large-object reads.** Dropping the page cache needs root, which this" +:+
  line "  host does not grant, so every read figure above is warm. The device baseline is" +:+
  line "  the honest floor for the cold case." +:+
  line "- **A real network.** Client and servers share a host. `scripts/netem.sh` injects" +:+
  line "  latency and loss between the containers, and any run made under it says so in" +:+
  line "  its `netem` field." +:+
  line "- **Anything about other caches.** There is no comparison here, because a fair one" +:+
  line "  would need the same workload, hardware and tuning effort for both.".

Definition writeSupportingSections (read : string → result string) (dir : string) : string :=
  let rel := relResults dir in
  writeBazelSection read rel +:+ device_section read rel +:+ chaos_section read rel +:+ placement_section read rel +:+
  netem_section read rel +:+ not_measured.

(** ** The document: render *)

Definition document (fv : float64 → string) (other : any → string) (read : string → result string) (dir : string)
    (rep : BenchReport) : string :=
  writeHeader rep dir +:+ writeHostSection fv other rep dir +:+ writeScenarioTables fv other rep dir +:+
  writeMemorySection rep dir +:+ writeSupportingSections read dir.

(** [render]: the files it writes to, and the error; [dir] is the text of the
    results directory's path, [read] reads one of its files. *)
Definition render (fv : float64 → string) (other : any → string) (read : string → result string)
    (fault : option (error * option nat)) (dir out : string) (d : files) : files * option error :=
  match read latest with
  | Err e => (d, Some (Wrap ("read " +:+ dir +:+ "/" +:+ latest +:+ ": ") e))
  | Ok text =>
      match (Unmarshal text ≫= jget : option BenchReport) with
      | None => (d, Some (Errorf ("parse " +:+ dir +:+ "/" +:+ latest)))
      | Some rep =>
          match WriteFile fault out (document fv other read dir rep) d with
          | (d', Some e) => (d', Some (Wrap ("write " +:+ out +:+ ": ") e))
          | (d', None) => (d', None)
          end
      end
  end.

(** ** Reading the document *)

Definition nl : ascii := "010".

(** A line of a Markdown table as its cells: between the bars, without the spaces
    around them. *)
Definition table_row (ln : string) : option (list string) :=
  if HasPrefix ln "|" then Some (TrimSpace <$> tail (removelast (Split ln "|"%char))) else None.

(** The rows of the tables of a text, in order. *)
Definition tables (s : string) : list (list string) := omap table_row (Split s nl).

(** The cell of a row that is under the column [name] of the header. *)
Definition cell (header : list string) (name : string) (cells : list string) : option string :=
  '(i, _) ← list_find (λ h, h = name) header; cells !! i.

(** A row shows a point: under the header's names, the concurrency, the median's
    throughput, percentiles and errors, and the range of the throughput. *)
Definition shows_point (header : list string) (p : Point) (cells : list string) : Prop :=
  let col name := cell header name cells in
  let m := pt_Median p in
  let l := rr_Latency m in
  col "Concurrency" = Some (pretty (pt_Concurrency p)) ∧
  col "ops/s (median)" = Some (Fixed 0 (rr_OpsPerSec m)) ∧
  col "ops/s range" = Some (Fixed 0 (sd_OpsMin (pt_Spread p)) +:+ "–" +:+ Fixed 0 (sd_OpsMax (pt_Spread p))) ∧
  col "MiB/s" = Some (Fixed 1 (rr_MiBPerSec m)) ∧
  col "p50 ms" = Some (Fixed 2 (su_P50Ms l)) ∧ col "p95 ms" = Some (Fixed 2 (su_P95Ms l)) ∧
  col "p99 ms" = Some (Fixed 2 (su_P99Ms l)) ∧ col "p99.9 ms" = Some (Fixed 2 (su_P999Ms l)) ∧
  col "errors" = Some (pretty (rr_Errors m)).

(** A table shows a scenario: a header, a ruler, and a row for each point in order. *)
Definition shows_scenario (sc : ScenarioResult) (t : list (list string)) : Prop :=
  ∃ header ruler rows, t = header :: ruler :: rows ∧ Forall2 (shows_point header) (sr_Points sc) rows.

(** ** Lemmas *)

Lemma Split_nonempty s sep : Split s sep ≠ [].
Proof. destruct s as [|c s]; cbn [Split]; [done|]. destruct (Ascii.eqb c sep); [done|]. by destruct (Split s sep). Qed.

Lemma Split_at s t sep : Split (s +:+ String sep t) sep = Split s sep ++ Split t sep.
Proof.
  induction s as [|c s IH]; [rewrite append_empty_l; cbn [Split]; by rewrite Ascii.eqb_refl|].
  rewrite append_cons. cbn [Split]. destruct (Ascii.eqb c sep); [by rewrite IH|]. rewrite IH.
  destruct (Split s sep) as [|w ws] eqn:E; [by apply Split_nonempty in E|done].
Qed.

Lemma newline_app s t : (s +:+ newline) +:+ t = s +:+ String nl t.
Proof. by rewrite append_assoc. Qed.

Lemma tables_split s t : tables ((s +:+ newline) +:+ t) = tables s ++ tables t.
Proof. rewrite newline_app. unfold tables. by rewrite Split_at, omap_app. Qed.

Lemma tables_line a t : all_chars inline a = true → tables (line a +:+ t) = option_list (table_row a) ++ tables t.
Proof.
  intros Ha. unfold line. rewrite tables_split. f_equal. unfold tables. rewrite Split_free; [by cbn; destruct (table_row a)|].
  by eapply all_chars_free.
Qed.

Lemma tables_newline t : tables (newline +:+ t) = tables t.
Proof. apply (tables_split EmptyString t). Qed.

Lemma tables_para a t : all_chars inline a = true → tables (para a +:+ t) = option_list (table_row a) ++ tables t.
Proof. intros Ha. unfold para. rewrite append_assoc, tables_line by done. by rewrite tables_newline. Qed.

(** *** Rows *)

(** A text that is a cell: nothing that ends it, and no space around it. *)
Record tidy (c : string) : Prop := {
  td_bar : free_of "|" c;
  td_line : all_chars inline c = true;
  td_trim : trimmed c }.

Lemma tidy_solid s : all_chars solid s = true → tidy s.
Proof.
  intros Hs. split; [by eapply all_chars_free|by apply solid_inline|by apply solid_trimmed].
Qed.

Lemma space_free : free_of "|" " ".
Proof. by apply (all_chars_free (λ c, negb (Ascii.eqb c "|"))). Qed.

Lemma Split_cells cells :
  Forall (free_of "|") cells → cells ≠ [] →
  Split (" " +:+ SJoin cells " | " +:+ " |") "|" = ((λ c, " " +:+ c +:+ " ") <$> cells) ++ [EmptyString].
Proof.
  induction cells as [|c cells IH]; [done|]. intros [Hc Hcs]%Forall_cons _. destruct cells as [|c' cells].
  - change (SJoin [c] " | ") with c. change (" |") with (" " +:+ String "|" EmptyString).
    rewrite <-!append_assoc. rewrite Split_append; [done|]. apply free_of_append; [|apply space_free].
    by apply free_of_append; [apply space_free|].
  - change (SJoin (c :: c' :: cells) " | ") with (c +:+ " | " +:+ SJoin (c' :: cells) " | ").
    specialize (IH Hcs ltac:(done)). rewrite fmap_cons, <-app_comm_cons, <-IH.
    rewrite !append_assoc. change (" | " +:+ ?t) with (" " +:+ String "|" (" " +:+ t)).
    rewrite <-!(append_assoc _ _ (String _ _)). rewrite Split_append; [done|].
    apply free_of_append; [|apply space_free]. by apply free_of_append; [apply space_free|].
Qed.

Lemma TrimSpace_around c : trimmed c → TrimSpace (" " +:+ c +:+ " ") = c.
Proof.
  intros Hc. unfold TrimSpace. change (TrimLeftSpace (" " +:+ c +:+ " ")) with (TrimLeftSpace (c +:+ " ")).
  destruct c as [|a c]; [done|]. rewrite TrimLeftSpace_append by (done || by apply trimmed_left).
  apply trimmed_right in Hc. revert Hc. generalize (String a c). clear a c. intros s.
  induction s as [|a s IH]; [done|]. rewrite append_cons. cbn [TrimRightFunc]. intros H.
  destruct (TrimRightFunc GoStrings.is_space s) as [|b s'] eqn:E.
  - destruct (GoStrings.is_space a) eqn:Ha; [done|]. by injection H as <-.
  - injection H as H. rewrite <-H in *. rewrite (IH eq_refl). done.
Qed.

Lemma table_row_cells cells :
  Forall tidy cells → cells ≠ [] → table_row ("| " +:+ SJoin cells " | " +:+ " |") = Some cells.
Proof.
  intros Hc Hne. unfold table_row. change ("| " +:+ ?t) with (String "|" (" " +:+ t)).
  change (HasPrefix (String "|" ?t) "|") with true. cbv iota. f_equal. cbn [Split]. rewrite Ascii.eqb_refl.
  rewrite Split_cells by (done || (eapply Forall_impl; [exact Hc|]; by intros ? []); done).
  change (EmptyString :: ?l) with ([EmptyString : string] ++ l). rewrite app_assoc, removelast_last. cbn [app tail].
  rewrite <-list_fmap_compose. rewrite <-(list_fmap_id cells) at 2. apply list_fmap_ext. intros i c Hi.
  apply TrimSpace_around. apply (td_trim c). eapply Forall_lookup_1; eauto.
Qed.

Lemma inline_SJoin cells sep :
  all_chars inline sep = true → Forall tidy cells → all_chars inline (SJoin cells sep) = true.
Proof.
  intros Hs. induction 1 as [|c cells Hc Hcs IH]; [done|]. destruct cells as [|c' cells]; [apply Hc|].
  change (SJoin (c :: c' :: cells) sep) with (c +:+ sep +:+ SJoin (c' :: cells) sep).
  by rewrite !all_chars_app, (td_line _ Hc), Hs, IH.
Qed.

Lemma tables_row cells t : Forall tidy cells → cells ≠ [] → tables (row cells +:+ t) = cells :: tables t.
Proof.
  intros Hc Hne. unfold row. rewrite tables_line by (by rewrite !all_chars_app, inline_SJoin).
  by rewrite table_row_cells.
Qed.

Lemma tables_rows {A} (f : A → list string) l t :
  (∀ x, Forall tidy (f x) ∧ f x ≠ []) →
  tables (concat_all ((λ x, row (f x)) <$> l) +:+ t) = (f <$> l) ++ tables t.
Proof.
  intros Hf. induction l as [|x l IH]; [done|]. cbn [fmap list_fmap concat_all foldr] in *. rewrite append_assoc.
  destruct (Hf x) as [Ht Hne]. rewrite tables_row by done. unfold concat_all in IH. rewrite IH. done.
Qed.

Lemma point_cells_tidy p : Forall tidy (point_cells p) ∧ point_cells p ≠ [].
Proof.
  split; [|done]. unfold point_cells.
  repeat (constructor; [apply tidy_solid; rewrite ?all_chars_app, ?solid_Fixed, ?solid_pretty; reflexivity|]). constructor.
Qed.

Lemma results_header_tidy : Forall tidy results_header.
Proof.
  unfold results_header. repeat (constructor; [split;
    [by apply (all_chars_free (λ c, negb (Ascii.eqb c "|")))|reflexivity|reflexivity]|]). constructor.
Qed.

(** *** The results *)

(** Texts that stay on their line. *)
Record printable (fv : float64 → string) (other : any → string) (sc : ScenarioResult) : Prop := {
  pr_name : all_chars inline (sr_Name sc) = true;
  pr_description : all_chars inline (sr_Description sc) = true;
  pr_no_row : HasPrefix (sr_Description sc) "|" = false;
  pr_note : all_chars inline (sr_PageCacheNote sc) = true;
  pr_seed : all_chars inline (show_any fv other (at_key "seed" (sr_Corpus sc))) = true }.

Definition results_ruler : list string := replicate 9 "---:".

(** The table of a scenario. *)
Definition results_table (sc : ScenarioResult) : list (list string) :=
  results_header :: results_ruler :: (point_cells <$> sr_Points sc).

Lemma results_table_shows sc : shows_scenario sc (results_table sc).
Proof.
  exists results_header, results_ruler, (point_cells <$> sr_Points sc). split; [done|].
  apply Forall2_fmap_r, Forall2_same_length_lookup_2; [done|]. intros i p q Hp Hq. rewrite Hp in Hq. injection Hq as <-.
  repeat split.
Qed.

Ltac on_line :=
  rewrite ?all_chars_app, ?inline_pretty, ?inline_humanBytes, ?inline_Fixed;
  by repeat match goal with H : all_chars inline _ = true |- _ => rewrite H; clear H end.

Lemma tables_scenario fv other rel sc t :
  all_chars inline rel = true → printable fv other sc →
  tables (scenario_section fv other rel sc +:+ t) = results_table sc ++ tables t.
Proof.
  intros Hrel [Hn Hd Hr Hnote Hseed]. unfold scenario_section. rewrite !append_assoc.
  rewrite tables_para by on_line. change (table_row ("### `" +:+ ?s)) with (@None (list string)).
  rewrite tables_para by on_line. assert (table_row (sr_Description sc) = None) as -> by (unfold table_row; by rewrite Hr).
  rewrite tables_para by on_line. change (table_row ("Corpus: " +:+ ?s)) with (@None (list string)).
  cbn [option_list app].
  assert (∀ u, tables ((if no_text (sr_PageCacheNote sc) then EmptyString else para ("> " +:+ sr_PageCacheNote sc)) +:+ u)
    = tables u) as ->.
  { intros u. destruct (no_text _); [done|]. rewrite tables_para by on_line. done. }
  rewrite tables_para by (unfold source; on_line). change (table_row (source rel ?s)) with (@None (list string)).
  cbn [option_list app]. rewrite tables_row by (done || apply results_header_tidy).
  rewrite tables_line by reflexivity. rewrite tables_rows by apply point_cells_tidy. by rewrite tables_newline.
Qed.

Lemma tables_scenarios fv other rel scs t :
  all_chars inline rel = true → Forall (printable fv other) scs →
  tables (concat_all (scenario_section fv other rel <$> scs) +:+ t) = concat (results_table <$> scs) ++ tables t.
Proof.
  intros Hrel. induction 1 as [|sc scs Hs _ IH]; [done|]. cbn [fmap list_fmap concat_all foldr concat] in *.
  unfold concat_all in IH. rewrite append_assoc, tables_scenario by done. by rewrite IH, app_assoc.
Qed.

(** *** Any report on file *)

Lemma from_index_inline sub s u : from_index sub s = Some u → all_chars inline s = true → all_chars inline u = true.
Proof.
  revert u. induction s as [|c s IH]; intros u; cbn [from_index]; destruct (HasPrefix _ sub); [by intros [= <-]|done|by intros [= <-]|].
  cbn [all_chars]. intros Hi [_ Hs]%andb_true_iff. by apply IH.
Qed.

Lemma relResults_inline dir : all_chars inline dir = true → all_chars inline (relResults dir) = true.
Proof.
  intros Hd. unfold relResults. destruct (from_index _ dir) as [u|] eqn:E; [|done]. by apply (from_index_inline _ _ _ E).
Qed.

(** A text that ends with a line. *)
Definition ends_line (s : string) : Prop := ∃ u, s = u +:+ newline.

Lemma ends_app a b : ends_line b → ends_line (a +:+ b).
Proof. intros [u ->]. exists (a +:+ u). by rewrite append_assoc. Qed.

Lemma ends_para a : ends_line (para a).
Proof. by exists (line a). Qed.

Lemma host_section_ends fv other rep dir : ends_line (writeHostSection fv other rep dir).
Proof. unfold writeHostSection. repeat first [apply ends_para | apply ends_app]. Qed.

Lemma results_table_norm sc : results_table (jnorm sc) = results_table sc.
Proof. done. Qed.

(** The tables of the document have those of the results, whatever else there is. *)
Lemma document_tables fv other read dir rep :
  all_chars inline dir = true → Forall (printable fv other) (rp_Scenarios rep) →
  ∃ before after, tables (document fv other read dir rep) = before ++ concat (results_table <$> rp_Scenarios rep) ++ after.
Proof.
  intros Hd Hp. unfold document. rewrite <-append_assoc.
  destruct (ends_app (writeHeader rep dir) (writeHostSection fv other rep dir)) as [u ->]; [apply host_section_ends|].
  rewrite tables_split. unfold writeScenarioTables. rewrite append_assoc, tables_para by done.
  change (table_row "## Results") with (@None (list string)). cbn [option_list app].
  rewrite tables_scenarios by (done || by apply relResults_inline). by eexists _, _.
Qed.

(** [render] of a report on file. *)
Lemma render_report fmt fv other read dir out d rep :
  read latest = Ok (report_text fmt rep) → Unmarshal (report_text fmt rep) ≫= jget = Some (jnorm rep) →
  all_chars inline dir = true → Forall (printable fv other) (rp_Scenarios (jnorm rep)) →
  ∃ doc before after, render fv other read None dir out d = (<[out := doc]> d, None) ∧
    tables doc = before ++ concat (results_table <$> rp_Scenarios rep) ++ after.
Proof.
  intros Hr Hj Hd Hp. destruct (document_tables fv other read dir (jnorm rep) Hd Hp) as (before & after & Ht).
  exists (document fv other read dir (jnorm rep)), before, after. split; [unfold render; by rewrite Hr, Hj|].
  rewrite Ht. do 3 f_equal. change (rp_Scenarios (jnorm rep)) with (jnorm (rp_Scenarios rep)).
  cbn [jnorm list_codec]. rewrite <-list_fmap_compose. apply list_fmap_ext. by intros.
Qed.

(** *** The report of a session *)

Lemma inline_note corpusBytes ramBytes : all_chars inline (pageCacheNote corpusBytes ramBytes) = true.
Proof.
  unfold pageCacheNote. repeat case_match; rewrite ?all_chars_app, ?inline_humanBytes, ?inline_Fixed; reflexivity.
Qed.

Lemma scenarios_inline sc :
  sc ∈ scenarios → all_chars inline (sc_Name sc) = true ∧ all_chars inline (sc_Description sc) = true ∧
    HasPrefix (sc_Description sc) "|" = false.
Proof.
  assert (Forall (λ sc, all_chars inline (sc_Name sc) && all_chars inline (sc_Description sc) &&
    negb (HasPrefix (sc_Description sc) "|") = true) scenarios) as Ha by (by repeat constructor).
  intros Hi. eapply Forall_forall in Ha; [|exact Hi]. apply andb_true_iff in Ha as [[H1 H2]%andb_true_iff H3%negb_true_iff].
  done.
Qed.

Lemma shown_printable fv other opts quiet sc res :
  (∀ f, all_chars inline (fv f) = true) → sc ∈ scenarios → scenario_shown opts quiet sc res →
  printable fv other (jnorm res).
Proof.
  intros Hfv Hi (Hn & Hd & (corpus & ram & _ & _ & _ & Hco & Hno) & _). destruct (scenarios_inline sc Hi) as (H1 & H2 & H3).
  split; cbn [jnorm ScenarioResult_codec sr_Name sr_Description sr_PageCacheNote sr_Corpus]; [congruence..| |].
  - rewrite Hno. apply inline_note.
  - rewrite Hco. unfold at_key, Describe. cbn [jnorm option_codec fmap option_fmap option_map mbind option_bind].
    cbn [jnorm map_codec]. rewrite lookup_fmap. repeat rewrite lookup_insert_ne by done. rewrite lookup_insert_eq.
    cbn [fmap option_fmap option_map]. apply Hfv.
Qed.

(** Reading a file of the directory. *)
Definition read_from (d : files) (name : string) : result string :=
  match d !! name with Some text => Ok text | None => Err (Errorf ("open " +:+ name +:+ ": no such file or directory")) end.

Lemma selected_known names scs sc : select_scenarios names = Ok scs → sc ∈ scs → sc ∈ scenarios.
Proof.
  unfold select_scenarios. case_bool_decide; [by intros [= <-]|]. case_bool_decide; [done|]. intros [= <-].
  by intros [_ Hi]%list_elem_of_filter.
Qed.

Lemma session_printable fv other opts quiet m scs rep :
  (∀ f, all_chars inline (fv f) = true) → (∀ sc, sc ∈ scs → sc ∈ scenarios) →
  Forall2 (scenario_shown opts quiet) (take m scs) (rp_Scenarios rep) →
  Forall (printable fv other) (rp_Scenarios (jnorm rep)).
Proof.
  intros Hfv Hk Hf. change (rp_Scenarios (jnorm rep)) with (jnorm <$> rp_Scenarios rep). apply Forall_fmap, Forall_forall.
  intros res [i Hi]%list_elem_of_lookup. eapply Forall2_lookup_r in Hf as (sc & Hsc & Hs); [|exact Hi].
  eapply shown_printable; [done| |exact Hs]. apply Hk. apply lookup_take_Some in Hsc as [Hsc _].
  by eapply list_elem_of_lookup_2.
Qed.

(** ** Claims *)

(** C36: the benchmark document shows what the session measured.  A session with
    targets and positive levels comes to an end.  If it ends without an error it has
    made a report, with a result for each selected scenario, every repetition at
    every level unless it is interrupted, and the replica count that the first
    target's stats page shows.  Unless it is a smoke run, rendering the directory it
    wrote then gives a document whose tables have, in order, a table for each
    scenario with a row for every point: under the header's names stand the
    concurrency, the median throughput, its range, the percentiles and the errors of
    that point.  A smoke run does not change the result that is rendered.  The report
    goes through JSON, so its numbers must be those of Go and its texts ASCII. *)
Theorem document_shows_the_session {S} fmt fv other fuel n (env : @SessionEnv S) opts d w dir out d0 :
  runnable opts → (∀ j, (n ≤ j)%nat → xe_before env j = false) → (n < fuel)%nat →
  (∀ scs k sc, select_scenarios (bp_scenarios opts) = Ok scs → scs !! k = Some sc →
     env_fits opts sc (xe_scenario env k)) →
  all_chars inline dir = true → (∀ f, all_chars inline (fv f) = true) →
  ∃ w' d' txt err, execute fmt fuel env opts d w = Some (w', (d', txt, err)) ∧
    (bp_smoke opts = true → read_from d' latest = read_from d latest) ∧
    (err = None → ∃ scs m rep,
       measure fuel env opts w = Some (w', Ok rep) ∧ select_scenarios (bp_scenarios opts) = Ok scs ∧
       Forall2 (scenario_shown opts (∀ k a b, se_ctx (xe_scenario env k) a b = false)) (take m scs) (rp_Scenarios rep) ∧
       ((∀ k, xe_ctx env k = false) → take m scs = scs) ∧
       (∀ pd, serves_stats (xe_stats env) fmt (bp_targets opts) pd → plain fmt (page_value pd) →
          (String.length (Encode fmt (page_value pd)) ≤ stats_limit)%nat →
          su_ReplicaCount (rp_Setup rep) = ns_replicas (pd_stats pd)) ∧
       (bp_smoke opts = false → plain fmt (jput rep) → (gheight (jput rep) ≤ Z.to_nat maxNestingDepth)%nat →
        ∃ doc before ts after, render fv other (read_from d') None dir out d0 = (<[out := doc]> d0, None) ∧
          tables doc = before ++ concat ts ++ after ∧ Forall2 shows_scenario (rp_Scenarios rep) ts)).
Proof.
  intros Hr Hb Hn He Hd Hfv. destruct (session_spec fmt fuel n env opts d w Hr Hb Hn He) as (w' & d' & txt & err & HE & Hs & Hok).
  exists w', d', txt, err. split; [done|]. split; [intros H; unfold read_from; by rewrite (Hs H)|].
  intros H. destruct (Hok H) as (scs & m & rep & HM & Hsel & Hf & Hm & Hrep & Hfile & Hread). exists scs, m, rep.
  split; [done|]. split; [done|]. split; [done|]. split; [done|]. split; [done|]. intros Hsm Hp Hh. rewrite Hsm in Hfile.
  destruct (render_report fmt fv other (read_from d') dir out d0 rep) as (doc & before & after & HR & Ht);
    [unfold read_from; by rewrite Hfile|by apply Hread|done| |].
  - eapply session_printable; [done| |exact Hf]. intros sc. by apply (selected_known (bp_scenarios opts)).
  - exists doc, before, (results_table <$> rp_Scenarios rep), after. split; [done|]. split; [done|].
    apply Forall2_fmap_r, Forall2_same_length_lookup_2; [done|]. intros i p q Hi Hq. rewrite Hi in Hq. injection Hq as <-.
    apply results_table_shows.
Qed.

(** A benchmark whose outputs differ from the cold build's is still said to be
    identical in the text below the table. *)
Lemma differing_outputs_are_called_identical :
  ∃ br, bz_OutputsIdentical (bz_Summary br) = false ∧
    Contains (bazel_section br "r") "| **false** |" = true ∧
    Contains (bazel_section br "r")
      "cache-served build hashes identically to the one the compiler produced locally." = true.
Proof.
  exists (mkBazelReport "bazel 9.2.0" 3 10 20 true no_bazel_summary []). split; [done|].
  split; vm_compute; reflexivity.
Qed.

(** ** Witness *)

Lemma int_text_inline f : all_chars inline (int_text f) = true.
Proof. apply inline_pretty. Qed.

(** A session without requests: the corpus is only described. *)
Definition idle_corpus : Corpus :=
  mkCorpus "put-replicated" 20260920 (Z.shiftl 1 20) (replicate 2000 (mkBObject EmptyString [])).

Definition idle_run (conc : Z) : RunResult :=
  build_result (mkRunSpec "put-replicated" OpPut (Z.to_nat conc) idle_corpus [] (of_int 0) ["http://a"] false) 20000000000 no_tallies.

Definition idle_point (conc : Z) : option Point :=
  '(m, sp) ← summarise (replicate 5 (idle_run conc)); Some (mkPoint conc (replicate 5 (idle_run conc)) m sp).

Definition idle_samples : list NodeSample := (@sampleNodes unit page_network ["http://a"] tt).2.

Definition idle_memory : MemoryObservation :=
  mkMemoryObservation "put-replicated" (Z.shiftl 1 20) 16 idle_samples (watchMemory ["http://a"] []) idle_samples (of_int 0).

Definition idle_report : BenchReport :=
  session_report one_session one_options 2
    [mkScenarioResult "put-replicated"
       "1 MiB writes with replica count 2: every PUT places a second copy before it returns."
       (Some (Describe idle_corpus)) (omap idle_point [4; 16]) (Some idle_memory) (pageCacheNote (Bytes idle_corpus) 0)].

Lemma repeat_runs_idle {S} n j (spec : RunSpec) d (w : S) :
  spec_ok spec →
  repeat_runs n j (λ _, false) (λ _, ([], d)) spec w = Some (w, Ok (replicate n (build_result spec d no_tallies))).
Proof.
  intros Hs. revert j. induction n as [|n IH]; intros j; [done|]. cbn [repeat_runs fst snd].
  unfold bench_Run. rewrite bool_decide_eq_false_2 by apply Hs.
  destruct (worker_gens_ok spec Hs) as (gens & -> & _). cbn [mbind option_bind run_turns fold_left]. by rewrite IH.
Qed.

Lemma Describe_corpus c c' :
  co_Name c = co_Name c' → co_Seed c = co_Seed c' → co_Size c = co_Size c' → length (co_Objects c) = length (co_Objects c') →
  Describe c = Describe c' ∧ Bytes c = Bytes c'.
Proof. intros H1 H2 H3 H4. unfold Describe, Bytes. by rewrite H1, H2, H3, H4. Qed.

Lemma build_result_corpus name op conc c c' ks ks' ratio ts v d t :
  co_Size c = co_Size c' →
  build_result (mkRunSpec name op conc c ks ratio ts v) d t = build_result (mkRunSpec name op conc c' ks' ratio ts v) d t.
Proof. intros H. unfold build_result. cbn [sp_Scenario sp_Op sp_Concurrency sp_Corpus]. by rewrite H. Qed.

Lemma idle_points :
  ∃ p4 p16, idle_point 4 = Some p4 ∧ idle_point 16 = Some p16 ∧ omap idle_point [4; 16] = [p4; p16].
Proof.
  assert (match idle_point 4, idle_point 16 with Some _, Some _ => true | _, _ => false end = true) as H
    by (vm_compute; reflexivity).
  cbn [omap list_omap]. destruct (idle_point 4) as [p|], (idle_point 16) as [q|]; [|discriminate H..]. by exists p, q.
Qed.

(** The two levels, whatever the corpus. *)
Lemma idle_levels corpus keys peak :
  co_Objects corpus ≠ [] → keys ≠ [] → co_Size corpus = Z.shiftl 1 20 →
  run_levels one_options idle_env
    (λ conc, mkRunSpec "put-replicated" OpPut (Z.to_nat conc) corpus keys (of_int 0) ["http://a"] false) [4; 16] 0 peak tt
  = Some (tt, watchMemory ["http://a"] [], Ok (omap idle_point [4; 16])).
Proof.
  intros Ho Hk Hz. destruct idle_points as (p4 & p16 & H4 & H16 & ->). cbn [run_levels].
  change (bp_runs one_options) with 5%nat. cbn [idle_env se_ctx se_turns].
  do 2 (rewrite repeat_runs_idle by (split; [done..|]; cbn [sp_Corpus]; rewrite Hz; vm_compute; discriminate);
    cbn [mbind option_bind]). change (4 =? maxInt (bp_concurrency one_options)) with false.
  change (16 =? maxInt (bp_concurrency one_options)) with true. cbn [idle_env se_ticks].
  change (bp_targets one_options) with ["http://a" : string].
  rewrite !(build_result_corpus _ _ _ corpus idle_corpus keys []) by (by rewrite Hz). fold (idle_run 4) (idle_run 16).
  rewrite !bool_decide_eq_false_2 by (cbn [replicate]; discriminate). unfold idle_point in H4, H16.
  destruct (summarise (replicate 5 (idle_run 16))) as [[m16 s16]|]; cbn [mbind option_bind] in *; [|done].
  destruct (summarise (replicate 5 (idle_run 4))) as [[m4 s4]|]; cbn [mbind option_bind] in *; [|done].
  injection H4 as <-. injection H16 as <-. reflexivity.
Qed.

Lemma idle_measure : measure 4 one_session one_options tt = Some (tt, Ok idle_report).
Proof.
  unfold measure.
  assert (@waitReady unit (xe_ready one_session) 4 0 (xe_before one_session) (bp_targets one_options) tt = Some (tt, None)) as ->
    by (vm_compute; reflexivity). cbn [mbind option_bind].
  assert (host_options (hostInfo (xe_root one_session) (xe_bash one_session)) one_options = one_options) as ->
    by (vm_compute; reflexivity).
  assert (@replicaCountOf unit (xe_stats one_session) (bp_targets one_options) tt = Some (tt, 2)) as -> by (vm_compute; reflexivity).
  cbn [mbind option_bind].
  assert (select_scenarios (bp_scenarios one_options) = Ok [mkScenario "put-replicated"
    "1 MiB writes with replica count 2: every PUT places a second copy before it returns."
    OpPut (Z.shiftl 1 20) 2000 (of_int 0) false false]) as -> by (vm_compute; reflexivity).
  cbn [run_scenarios]. change (xe_scenario one_session 0%nat) with idle_env. change (xe_ctx one_session 0%nat) with false.
  unfold runScenario. cbn [sc_Preload sc_Name sc_Description sc_Op sc_ObjectSize sc_ObjectCount sc_HitRatio sc_Verify].
  change (bp_smoke one_options) with false. change (bp_verify one_options) with false. cbn [orb idle_env se_corpus se_miss].
  set (corpus := NewCorpus _ _ _ _ _). set (keys := MissKeys _ _). cbn [mbind option_bind].
  change (bp_targets one_options) with ["http://a" : string]. change (bp_concurrency one_options) with [4; 16].
  change (se_before idle_env) with page_network. change (se_after idle_env) with page_network.
  assert (@sampleNodes unit page_network ["http://a"] tt = (tt, idle_samples)) as -> by (vm_compute; reflexivity).
  assert (length (co_Objects corpus) = Z.to_nat 2000) as Hl.
  { unfold corpus, NewCorpus. cbn [co_Objects]. by rewrite length_fmap, length_seq. }
  assert (keys ≠ []) as Hk.
  { intros H%(f_equal length). unfold keys, MissKeys in H. rewrite length_fmap, length_seq in H. done. }
  rewrite idle_levels; [|by intros H; rewrite H in Hl; vm_compute in Hl|done|done]. cbn [mbind option_bind].
  destruct (Describe_corpus corpus idle_corpus) as [-> ->]; [done..|rewrite Hl; vm_compute; reflexivity|].
  assert (@sampleNodes unit page_network ["http://a"] tt = (tt, idle_samples)) as -> by (vm_compute; reflexivity).
  reflexivity.
Qed.

Lemma idle_plain : plain int_text (jput idle_report) ∧ (gheight (jput idle_report) ≤ Z.to_nat maxNestingDepth)%nat.
Proof.
  split; [|apply Nat.leb_le; vm_compute; reflexivity].
  vm_compute. repeat split; try discriminate; try reflexivity; intros; discriminate.
Qed.

Lemma idle_written : (writeReport int_text (λ _, None) idle_report ∅).2 = None.
Proof. vm_compute. reflexivity. Qed.

Lemma idle_execute : ∃ d' txt, execute int_text 4 one_session one_options ∅ tt = Some (tt, (d', txt, None)).
Proof.
  pose proof idle_written as Hw. unfold execute. rewrite idle_measure. cbn [mbind option_bind].
  change (xe_mkdir one_session) with (@None error). change (xe_fault one_session) with (λ _ : string, @None (error * option nat)).
  destruct (writeReport int_text (λ _, None) idle_report ∅) as [[d txt] e]. cbn [snd] in Hw. subst e. by exists d, txt.
Qed.

Lemma document_shows_the_session_witness :
  ∃ d' txt, execute int_text 4 one_session one_options ∅ tt = Some (tt, (d', txt, None)) ∧
    su_ReplicaCount (rp_Setup idle_report) = 2 ∧ length (rp_Scenarios idle_report) = 1%nat ∧
    ∃ doc before ts after,
      render int_text (λ _, EmptyString) (read_from d') None "bench/results/a" "BENCHMARKS.md" ∅
        = (<["BENCHMARKS.md" := doc]> ∅, None) ∧
      tables doc = before ++ concat ts ++ after ∧ Forall2 shows_scenario (rp_Scenarios idle_report) ts.
Proof.
  destruct (document_shows_the_session int_text int_text (λ _, EmptyString) 4 3 one_session one_options ∅ tt
    "bench/results/a" "BENCHMARKS.md" ∅ one_options_runnable) as (w' & d' & txt & err & HE & _ & Hok).
  - intros j Hj. apply Nat.ltb_ge. exact Hj.
  - apply Nat.ltb_lt. reflexivity.
  - intros scs k sc _ _. apply idle_env_fits.
  - reflexivity.
  - apply int_text_inline.
  - destruct idle_execute as (d1 & txt1 & HX). rewrite HX in HE. injection HE as <- <- <- <-.
    exists d1, txt1. split; [exact HX|].
    destruct (Hok eq_refl) as (scs & m & rep & HM & _ & _ & _ & Hp & Hd). rewrite idle_measure in HM. injection HM as <-.
    split; [exact (Hp busy_page busy_page_served (pk_plain _ _ busy_page_ok) (pk_limit _ _ busy_page_ok))|].
    split; [reflexivity|]. exact (Hd eq_refl (proj1 idle_plain) (proj2 idle_plain)).
Defined.
