(* ===== verification/ChaosReport.v ===== *)
(** * Chaos reports: cmd/chaos

    The command line of the chaos command, the report it writes as JSON beside what
    it prints, and the way its figures take into the benchmark document.  The
    measured parts are the [report] of [Chaos]; clock readings, the texts of
    durations and the text of a float64 are arguments. *)

From Stdlib Require Import Floats.SpecFloat.
From S2P Require Import Prelude GoStrings Sha256 Errors Key Config Ring Protocol Index FileSystem Store StoreSpec Heap GoFloat Strconv Fmt Json Codec Evict Client Coordinator HttpApi Cluster Repair Reads ClusterSpec Chaos Bench LoadConfig Node Lifecycle StatsPage ChaosRun Command Report Render.

#[local] Open Scope Z_scope.

(** ** The command line: main.go *)

(** All options; [ca_opts] are those that a run looks at. *)
Record chaos_options := mkChaosOptions {
  ca_nodes : list string; ca_duration : Z; ca_workers : Z; ca_faultEvery : Z; ca_out : string; ca_composeFile : string;
  ca_composeProject : string; ca_seed : Z; ca_opts : options }.

(** [run], from the values of its flags to the options and the nodes; [clock] is
    the time in nanoseconds. *)
Definition chaos_run_options (nodesRaw : string) (duration workers faultEvery : Z) (out composeFile composeProject : string)
    (seed clock : Z) (opts : options) : result (chaos_options * list target) :=
  if no_text out
  then Err (Errorf "-out is required: a chaos run whose report is not written is not evidence")
  else
    match parseNodes nodesRaw with
    | Err e => Err e
    | Ok (nodeOrder, names) =>
        if bool_decide (names = []) then Err (Errorf "no nodes given")
        else Ok (mkChaosOptions names duration workers faultEvery out composeFile composeProject
                   (if seed =? 0 then clock else seed) opts, nodeOrder)
    end.

(** ** The report: chaos.go *)

(** When things happened: the report, how long the traffic and the wait for
    convergence took, up to the last count and up to convergence, when each fault began and ended, and how long it lasted. *)
Record RunClock := mkRunClock {
  rc_GeneratedAt : Time; rc_elapsed : Z; rc_waited : Z; rc_converged : Z; rc_fault : nat → Time * Time * string }.

Record ChaosReport := mkChaosReport {
  cr_opts : chaos_options; cr_clock : RunClock; cr_rep : report; cr_stats : gmap string (list (string * any)) }.

Definition waited_seconds (cr : ChaosReport) : float64 :=
  if cv_Attempted (rp_Convergence (cr_rep cr)) then Seconds (rc_waited (cr_clock cr)) else zero_float.

Definition converged_seconds (cr : ChaosReport) : float64 :=
  if cv_Converged (rp_Convergence (cr_rep cr)) then Seconds (rc_converged (cr_clock cr)) else zero_float.

(** The texts of the verdicts. *)
Definition verdict_text (v : Verdict) (waited : float64) : string :=
  match v with
  | FailCorrupted => "FAIL: corrupted data was served"
  | FailGone n => "FAIL: " +:+ pretty n +:+ " acknowledged objects are gone and no eviction was observed"
  | FailUnderReplicated n =>
      "FAIL: " +:+ pretty n +:+ " objects were still under-replicated after " +:+ Fixed 0 waited +:+ "s"
  | Inconclusive =>
      "INCONCLUSIVE: faults were injected but no client error was observed; the faults may not have landed"
  | Pass => "PASS"
  end.

Definition cr_verdict (cr : ChaosReport) : string := verdict_text (verdict (cr_rep cr)) (waited_seconds cr).

Definition convergence_note : string :=
  "objects from refused (503) writes are the ones that were genuinely " +:+
  "under-replicated: the coordinator kept a copy and the down peer never got one. " +:+
  "Acknowledged writes are included as a control and are replicated by construction. " +:+
  "An object absent from every node is not a failure for a refused write -- nothing was promised.".

Definition eviction_note : string :=
  "Eviction was active during this run, so an object that is " +:+
  "missing at the end may have been evicted under quota pressure rather than lost. " +:+
  "See eviction.objects_evicted and node_stats.".

(** *** As JSON *)

Definition error_text (e : option error) : string := match e with Some e => Error e | None => EmptyString end.

Definition fault_json (i : nat) (clock : RunClock) (ev : faultEvent) : gval :=
  let '(stopped, started, downFor) := rc_fault clock i in
  let failed := bool_decide (is_Some (fe_StopErr ev)) in
  GObject ([("node", jput (fe_Node ev)); ("stopped_at", jput stopped);
    ("started_at", jput (if failed then zero_time else started)); ("down_for", jput (if failed then EmptyString else downFor))]
    ++ omitempty no_text "stop_error" (error_text (fe_StopErr ev))
    ++ omitempty no_text "start_error" (error_text (fe_StartErr ev))).

Definition faults_json (cr : ChaosReport) : list gval :=
  imap (λ i ev, fault_json i (cr_clock cr) ev) (rp_Faults (cr_rep cr)).

Definition config_json (cr : ChaosReport) : gval :=
  let o := cr_opts cr in
  GObject [("nodes", jput (ca_nodes o)); ("duration_seconds", jput (Seconds (rc_elapsed (cr_clock cr))));
    ("workers", jput (ca_workers o)); ("read_ratio", jput (op_readRatio (ca_opts o)));
    ("object_min_bytes", jput (op_objectMin (ca_opts o))); ("object_max_bytes", jput (op_objectMax (ca_opts o)));
    ("fault_every_seconds", jput (Seconds (ca_faultEvery o))); ("fault_down_seconds", jput (Seconds (op_faultDown (ca_opts o))));
    ("seed", jput (ca_seed o)); ("faults_enabled", jput (rp_FaultsEnabled (cr_rep cr)))].

Definition traffic_json (t : Traffic) : gval :=
  let n := tr_count t in
  GObject [("writes", jput (n Writes)); ("writes_ok", jput (n WriteOK)); ("writes_refused_503", jput (n WriteRefused));
    ("write_errors", jput (n WriteError)); ("reads", jput (n Reads)); ("read_hits", jput (n ReadHits));
    ("read_misses", jput (n ReadMisses)); ("read_errors", jput (n ReadErrors)); ("bytes_written", jput (n BytesWritten));
    ("bytes_read", jput (n BytesRead)); ("ops_per_second", jput (tr_OpsPerSecond t)); ("error_rate", jput (tr_ErrorRate t));
    ("connection_refused", jput (n ConnRefused)); ("timeouts", jput (n Timeouts)); ("server_5xx", jput (n ServerErrors))].

Definition convergence_json (cr : ChaosReport) : gval :=
  let c := rp_Convergence (cr_rep cr) in
  GObject [("attempted", jput (cv_Attempted c)); ("objects_checked", jput (cv_ObjectsChecked c));
    ("objects_from_refused_writes", jput (cv_FromRefusedWrites c));
    ("objects_from_acknowledged_writes", jput (cv_FromAckedWrites c));
    ("fully_replicated_at_first_check", jput (cv_AtStartReplicated c));
    ("fully_replicated", jput (full (cv_counts c))); ("under_replicated", jput (under (cv_counts c)));
    ("absent_everywhere", jput (absent (cv_counts c))); ("unreadable", jput (unreadable (cv_counts c)));
    ("converged_after_seconds", jput (converged_seconds cr)); ("converged", jput (cv_Converged c));
    ("waited_seconds", jput (waited_seconds cr));
    ("note", jput (if cv_Attempted c then convergence_note else EmptyString))].

Definition final_json (f : FinalVerification) (evicted : bool) : gval :=
  GObject ([("objects_checked", jput (fv_ObjectsChecked f)); ("correct", jput (fv_Correct f));
    ("corrupted", jput (fv_Corrupted f)); ("missing", jput (fv_Missing f)); ("unreadable", jput (fv_Unreadable f))]
    ++ omitempty no_text "note" (if evicted then eviction_note else EmptyString)).

Definition evicted_json (e : Eviction) : gval :=
  GObject [("observed", jput (ec_Observed e)); ("objects_evicted", jput (ec_ObjectsEvicted e));
    ("bytes_reclaimed", jput (ec_BytesReclaimed e)); ("any_node_over_high_water", jput (ec_AnyNodeOverHighWater e))].

Definition correctness_json (rep : report) : gval :=
  GObject [("reads_verified", jput (rp_ReadsVerified rep)); ("corrupted_reads", jput (rp_CorruptedReads rep))].

(** The whole report; the host is never set. *)
Definition chaos_json (cr : ChaosReport) : gval :=
  let rep := cr_rep cr in
  GObject ([("kind", jput "chaos"); ("generated_at", jput (rc_GeneratedAt (cr_clock cr))); ("config", config_json cr);
    ("traffic", traffic_json (rp_Traffic rep));
    ("correctness", correctness_json rep);
    ("faults", GSlice (faults_json cr)); ("convergence", convergence_json cr);
    ("final_verification", final_json (rp_Final rep) (ec_Observed (rp_Eviction rep)))]
    ++ omitempty (λ m, bool_decide (m = ∅)) "node_stats" (AObject <$> cr_stats cr)
    ++ [("eviction", evicted_json (rp_Eviction rep)); ("verdict", jput (cr_verdict cr))]).

(** ** Writing the report: faults.go *)

Definition chaos_latest : string := "chaos-latest.json".

Definition chaos_name (cr : ChaosReport) : string :=
  "chaos-" +:+ file_stamp (rc_GeneratedAt (cr_clock cr)) +:+ ".json".

Definition chaos_writeReport (fmt : float64 → string) (mkdir : option error)
    (fault : string → option (error * option nat)) (cr : ChaosReport) (d : files) : files * option error :=
  match mkdir with
  | Some e => (d, Some (Wrap "create report dir: " e))
  | None =>
      match MarshalIndent fmt (chaos_json cr) with
      | Err e => (d, Some (Wrap "marshal report: " e))
      | Ok b =>
          let text := b +:+ newline in
          match WriteFile (fault (chaos_name cr)) (chaos_name cr) text d with
          | (d1, Some e) => (d1, Some (Wrap "write report: " e))
          | (d1, None) =>
              match WriteFile (fault chaos_latest) chaos_latest text d1 with
              | (d2, Some e) => (d2, Some (Wrap "write latest report: " e))
              | (d2, None) => (d2, None)
              end
          end
      end
  end.

Definition chaos_printSummary (cr : ChaosReport) : string :=
  let rep := cr_rep cr in
  let n k := pretty (tr_count (rp_Traffic rep) k) in
  let c := rp_Convergence rep in
  let f := rp_Final rep in
  newline +:+ line "=== kilnchaos report ===" +:+
  line ("duration            " +:+ Fixed 0 (Seconds (rc_elapsed (cr_clock cr))) +:+ "s across " +:+
        pretty (Z.of_nat (length (ca_nodes (cr_opts cr)))) +:+ " nodes, " +:+ pretty (ca_workers (cr_opts cr)) +:+ " workers, seed " +:+
        pretty (ca_seed (cr_opts cr))) +:+
  line ("faults              " +:+ pretty (Z.of_nat (length (rp_Faults rep))) +:+ " node stops") +:+
  line ("writes              " +:+ n WriteOK +:+ " ok, " +:+ n WriteRefused +:+ " refused with 503, " +:+ n WriteError +:+ " errors") +:+
  line ("reads               " +:+ n ReadHits +:+ " hits, " +:+ n ReadMisses +:+ " misses, " +:+ n ReadErrors +:+ " errors") +:+
  line ("throughput          " +:+ Fixed 0 (tr_OpsPerSecond (rp_Traffic rep)) +:+ " ops/s, error rate " +:+
        Fixed 4 (tr_ErrorRate (rp_Traffic rep))) +:+
  line ("errors by class     " +:+ n ConnRefused +:+ " connection refused, " +:+ n Timeouts +:+ " timeouts, " +:+
        n ServerErrors +:+ " server 5xx") +:+
  line ("CORRUPTED READS     " +:+ pretty (rp_CorruptedReads rep) +:+ " out of " +:+ pretty (rp_ReadsVerified rep) +:+
        " reads verified") +:+
  (if cv_Attempted c
   then line ("convergence         " +:+ pretty (full (cv_counts c)) +:+ "/" +:+ pretty (cv_ObjectsChecked c) +:+
              " sampled objects at >= 2 replicas after " +:+ Fixed 1 (waited_seconds cr) +:+ "s (converged: " +:+
              show_bool (cv_Converged c) +:+ ")")
   else EmptyString) +:+
  line ("final verification  " +:+ pretty (fv_Correct f) +:+ " correct, " +:+ pretty (fv_Corrupted f) +:+ " corrupted, " +:+
        pretty (fv_Missing f) +:+ " missing, of " +:+ pretty (fv_ObjectsChecked f) +:+ " checked") +:+
  para ("verdict             " +:+ cr_verdict cr).

(** ** Lemmas *)

(** The figures of a report that the document shows. *)
Definition figures (cr : ChaosReport) : ChaosFigures :=
  let rep := cr_rep cr in
  let c := rp_Convergence rep in
  mkChaosFigures (Seconds (rc_elapsed (cr_clock cr))) (ca_workers (cr_opts cr)) (tr_OpsPerSecond (rp_Traffic rep))
    (tr_ErrorRate (rp_Traffic rep)) (rp_ReadsVerified rep) (rp_CorruptedReads rep) (cv_ObjectsChecked c)
    (full (cv_counts c)) (converged_seconds cr) (cv_Converged c) (any_of <$> faults_json cr) (cr_verdict cr).

Lemma sget_at {A} (z : A) f k l l' : field k l = Some (JObject l') → sget z f k l = f l'.
Proof. intros Hf. unfold sget. by rewrite Hf. Qed.

Lemma fget_slice fmt k l vs :
  field k l = Some (json_of fmt (GSlice vs)) → plain fmt (GSlice vs) → fget k l = Some (any_of <$> vs).
Proof.
  intros Hf Hp. unfold fget. rewrite Hf. pose proof (to_any_json_of fmt _ Hp) as Ht. cbn [json_of to_any any_of] in Ht.
  apply fmap_Some in Ht as (xs & Hx & [= ->]). exact Hx.
Qed.

(** The fields of a struct that were written. *)
Ltac read_part fmt Hp :=
  cbn [plain foldr fst snd] in Hp; destruct_and? Hp; read_fields fmt; reflexivity.

Section reading.
Context (fmt : float64 → string) (cr : ChaosReport).

Definition written (v : gval) : list (string * json) := match json_of fmt v with JObject l => l | _ => [] end.

Lemma config_read :
  plain fmt (config_json cr) →
  (d ← fget "duration_seconds" (written (config_json cr)); w ← fget "workers" (written (config_json cr)); Some (d, w))
  = Some (Seconds (rc_elapsed (cr_clock cr)), ca_workers (cr_opts cr)).
Proof. intros Hp. unfold config_json in *. read_part fmt Hp. Qed.

Lemma traffic_read t :
  plain fmt (traffic_json t) →
  (o ← fget "ops_per_second" (written (traffic_json t)); e ← fget "error_rate" (written (traffic_json t)); Some (o, e))
  = Some (tr_OpsPerSecond t, tr_ErrorRate t).
Proof. intros Hp. unfold traffic_json in *. read_part fmt Hp. Qed.

Lemma correctness_read rep :
  plain fmt (correctness_json rep) →
  (v ← fget "reads_verified" (written (correctness_json rep)); c ← fget "corrupted_reads" (written (correctness_json rep));
   Some (v, c)) = Some (rp_ReadsVerified rep, rp_CorruptedReads rep).
Proof. intros Hp. unfold correctness_json in *. read_part fmt Hp. Qed.

Lemma convergence_read :
  let c := rp_Convergence (cr_rep cr) in
  plain fmt (convergence_json cr) →
  (o ← fget "objects_checked" (written (convergence_json cr)); f ← fget "fully_replicated" (written (convergence_json cr));
   s ← fget "converged_after_seconds" (written (convergence_json cr)); b ← fget "converged" (written (convergence_json cr));
   Some (o, f, s, b)) = Some (cv_ObjectsChecked c, full (cv_counts c), converged_seconds cr, cv_Converged c).
Proof. intros c Hp. unfold convergence_json in *. fold c in Hp |- *. read_part fmt Hp. Qed.
End reading.

Lemma figures_read fmt cr : plain fmt (chaos_json cr) → get_chaos (json_of fmt (chaos_json cr)) = Some (figures cr).
Proof.
  intros Hp. unfold chaos_json in *.
  assert (∃ stats, omitempty (λ m, bool_decide (m = ∅)) "node_stats" (AObject <$> cr_stats cr) = stats ∧
    (stats = [] ∨ ∃ v, stats = [("node_stats", v)])) as (stats & Hs & Hst).
  { unfold omitempty. case_bool_decide; eexists; split; [done|by left|done|right; by eexists]. }
  rewrite Hs in *. clear Hs. unfold get_chaos.
  destruct Hst as [->|[v ->]]; cbn [plain foldr fst snd app] in Hp; destruct_and? Hp;
    cbn [json_of fmap list_fmap prod_map fst snd structured app];
    (erewrite (sget_at _ _ "config" _ (written fmt (config_json cr))) by reflexivity; rewrite config_read by assumption);
    cbn [mbind option_bind];
    (erewrite (sget_at _ _ "traffic" _ (written fmt (traffic_json (rp_Traffic (cr_rep cr))))) by reflexivity;
     rewrite traffic_read by assumption); cbn [mbind option_bind];
    (erewrite (sget_at _ _ "correctness" _ (written fmt (correctness_json (cr_rep cr)))) by reflexivity;
     rewrite correctness_read by assumption); cbn [mbind option_bind];
    (erewrite (sget_at _ _ "convergence" _ (written fmt (convergence_json cr))) by reflexivity;
     rewrite convergence_read by assumption); cbn [mbind option_bind];
    (rewrite (fget_slice fmt _ _ (faults_json cr)) by (reflexivity || assumption)); cbn [mbind option_bind];
    read_fields fmt; reflexivity.
Qed.

(** *** The rows of the document *)

Lemma pretty_nonempty (z : Z) : pretty z ≠ EmptyString.
Proof.
  destruct z as [|p|p]; [done| |done]. change (pretty (Z.pos p)) with (pretty (N.pos p)).
  by destruct (pretty_pos p) as (c & d & -> & _).
Qed.

Lemma append_nonempty s t : s ≠ EmptyString → s +:+ t ≠ EmptyString.
Proof. by destruct s. Qed.

Lemma append_nonempty_r s t : t ≠ EmptyString → s +:+ t ≠ EmptyString.
Proof. by destruct s. Qed.

Lemma Fixed_nonempty n x : Fixed n x ≠ EmptyString.
Proof.
  destruct x as [s|[]| |s m e]; try done; cbn [Fixed]; apply append_nonempty_r, append_nonempty, pretty_nonempty.
Qed.

(** A text whose first and last parts have no space at its ends. *)
Lemma trimmed_ends a b :
  a ≠ EmptyString → TrimLeftSpace a = a → b ≠ EmptyString → TrimRightFunc GoStrings.is_space b = b → trimmed (a +:+ b).
Proof.
  intros Ha Hl Hb Hr. unfold trimmed, TrimSpace. rewrite TrimLeftSpace_append by done. by apply TrimRightFunc_append.
Qed.

Definition bar_free (c : ascii) : bool := negb (Ascii.eqb c "|").

Lemma solid_bar_free s : all_chars solid s = true → all_chars bar_free s = true.
Proof. apply all_chars_impl. intros c. unfold solid, bar_free. by intros [_ ?]%andb_true_iff. Qed.

Lemma tidy_parts a b :
  all_chars bar_free (a +:+ b) = true → all_chars inline (a +:+ b) = true → a ≠ EmptyString → TrimLeftSpace a = a →
  b ≠ EmptyString → TrimRightFunc GoStrings.is_space b = b → tidy (a +:+ b).
Proof. intros Hb Hi ????. split; [by apply (all_chars_free bar_free)|done|by apply trimmed_ends]. Qed.

(** What the document shows of a chaos run. *)
Definition chaos_rows (ch : ChaosFigures) : list (list string) :=
  [[EmptyString; EmptyString]; ["---"; "---"];
   ["Corrupted reads"; "**" +:+ pretty (ch_CorruptedReads ch) +:+ "** out of " +:+ pretty (ch_ReadsVerified ch) +:+ " reads verified"];
   ["Convergence to 2 replicas"; show_bool (ch_Converged ch) +:+ ", after " +:+ Fixed 0 (ch_ConvergedSeconds ch) +:+
    " s, over " +:+ pretty (ch_ObjectsChecked ch) +:+ " sampled objects"];
   ["Throughput during the run"; Fixed 0 (ch_OpsPerSecond ch) +:+ " ops/s"];
   ["Client error rate while degraded"; Fixed 1 (percent (ch_ErrorRate ch)) +:+ "%"];
   ["Verdict"; ch_Verdict ch]].

Ltac in_chars := rewrite ?all_chars_app, ?inline_Fixed, ?inline_pretty, ?(solid_bar_free _ (solid_pretty _)), ?(solid_bar_free _ (solid_Fixed _ _)).

Ltac keep_right := repeat first [reflexivity | apply TrimRightFunc_append; [repeat apply append_nonempty_r; done|]].

Lemma tidy_literal s : all_chars bar_free s = true → all_chars inline s = true → TrimSpace s = s → tidy s.
Proof. intros Hb Hi Ht. split; [by apply (all_chars_free bar_free)|done|done]. Qed.

Lemma chaos_rows_tidy ch : tidy (ch_Verdict ch) → Forall (λ cells, Forall tidy cells ∧ cells ≠ []) (drop 2 (chaos_rows ch)).
Proof.
  intros Hv. unfold chaos_rows. cbn [drop].
  repeat (constructor; [split; [constructor; [by apply tidy_literal|constructor; [|constructor]]|done]|]); [..|constructor].
  - apply tidy_parts; [by in_chars..|done|done|repeat apply append_nonempty_r; done|keep_right].
  - apply tidy_parts; [by destruct (ch_Converged ch); in_chars..|by destruct (ch_Converged ch)|by destruct (ch_Converged ch)|
      repeat apply append_nonempty_r; done|keep_right].
  - apply tidy_parts; [by in_chars..|apply Fixed_nonempty|apply trimmed_left, solid_trimmed, solid_Fixed|done|done].
  - apply tidy_parts; [by in_chars..|apply Fixed_nonempty|apply trimmed_left, solid_trimmed, solid_Fixed|done|done].
  - done.
Qed.

Lemma verdict_tidy v waited : tidy (verdict_text v waited).
Proof.
  destruct v as [|n|n| |]; cbn [verdict_text]; [by apply tidy_literal| | |by apply tidy_literal|by apply tidy_literal].
  - apply tidy_parts; [by in_chars..|done|done|by apply append_nonempty_r|keep_right].
  - apply tidy_parts; [by in_chars..|done|done|by repeat apply append_nonempty_r|keep_right].
Qed.

Lemma tables_chaos read rel ch :
  read_json read "chaos-latest.json" get_chaos = Some ch → all_chars inline rel = true → tidy (ch_Verdict ch) →
  tables (chaos_section read rel) = chaos_rows ch.
Proof.
  intros Hr Hrel Hv. pose proof (chaos_rows_tidy ch Hv) as Ht. unfold chaos_section. rewrite Hr.
  cbn [chaos_rows drop] in Ht. decompose_Forall_hyps. destruct_and?.
  rewrite tables_para by reflexivity. change (table_row "## Behaviour under failure") with (@None (list string)).
  rewrite tables_para by on_line.
  change (table_row ("A " +:+ ?s)) with (@None (list string)).
  rewrite tables_para by (unfold source; on_line). change (table_row (source rel ?s)) with (@None (list string)).
  rewrite !tables_line by reflexivity. rewrite !tables_row by assumption. rewrite tables_newline.
  match goal with |- context [tables ?t] => assert (tables t = []) as -> by (vm_compute; reflexivity) end. reflexivity.
Qed.

(** The report that was written is the one that is read. *)
Lemma chaos_writeReport_spec fmt mkdir fault cr d d' :
  chaos_writeReport fmt mkdir fault cr d = (d', None) → d' !! chaos_latest = Some (Encode fmt (chaos_json cr)).
Proof.
  unfold chaos_writeReport, MarshalIndent. destruct mkdir; [done|]. destruct (unsupported _); [done|].
  change (encode fmt 0 (chaos_json cr) +:+ newline) with (Encode fmt (chaos_json cr)).
  destruct (WriteFile (fault (chaos_name cr)) _ _ _) as [d1 [e|]]; [done|].
  unfold WriteFile. destruct (fault chaos_latest) as [[? []]|]; [done|done|]. intros [= <-]. apply lookup_insert_eq.
Qed.

(** ** Claims *)

(** C37: the verdict of a chaos run is published as it was given.  When the command
    has written its report without an error, the section that the renderer makes of
    the file has exactly the figures of the run: the corrupted reads among those
    verified, whether and when the sampled objects converged and how many they
    were, the throughput, the error rate, and the verdict of [verdict] on the
    report with its text. *)
Theorem chaos_figures_are_published fmt mkdir fault cr d d' rel :
  chaos_writeReport fmt mkdir fault cr d = (d', None) → plain fmt (chaos_json cr) →
  (gheight (chaos_json cr) ≤ Z.to_nat maxNestingDepth)%nat → all_chars inline rel = true →
  tables (chaos_section (read_from d') rel) = chaos_rows (figures cr).
Proof.
  intros Hw Hp Hh Hrel. apply tables_chaos; [|done|apply verdict_tidy]. unfold read_json, read_from.
  change "chaos-latest.json" with chaos_latest. rewrite (chaos_writeReport_spec _ _ _ _ _ _ Hw), Unmarshal_Encode by done. by apply figures_read.
Qed.

(** ** Witness: a control run without faults *)

Definition control_report : ChaosReport :=
  mkChaosReport
    (mkChaosOptions ["a"; "b"] 60000000000 4 45000000000 "out" "compose.yml" "kilncache" 7
       (mkOptions (of_int 0) 16 64 20000000000 180000000000 true))
    (mkRunClock zero_time 60000000000 1000000000 1000000000 (λ _, (zero_time, zero_time, EmptyString)))
    (mkReport false (mkTraffic (λ _, 5) (of_int 2) (of_int 0)) 5 0 []
       (mkConvergence true 5 0 5 5 (mkReplicaCounts 5 0 0 0) true) (mkFinalVerification 5 5 0 0 0) (mkEviction false 0 0 false))
    ∅.

Lemma control_plain : plain int_text (chaos_json control_report).
Proof. vm_compute. repeat split; try discriminate; try reflexivity; intros; discriminate. Qed.

Lemma control_height : (gheight (chaos_json control_report) ≤ Z.to_nat maxNestingDepth)%nat.
Proof. apply Nat.leb_le. vm_compute. reflexivity. Qed.

Lemma control_written : (chaos_writeReport int_text None (λ _, None) control_report ∅).2 = None.
Proof. vm_compute. reflexivity. Qed.

Lemma chaos_figures_are_published_witness :
  ∃ d', chaos_writeReport int_text None (λ _, None) control_report ∅ = (d', None) ∧
    last (tables (chaos_section (read_from d') "bench/results/a")) = Some ["Verdict"; "PASS"].
Proof.
  destruct (chaos_writeReport int_text None (λ _, None) control_report ∅) as [d' err] eqn:HW.
  pose proof control_written as He. rewrite HW in He. cbn [snd] in He. rewrite He in HW |- *.
  exists d'. split; [reflexivity|].
  rewrite (chaos_figures_are_published int_text None (λ _, None) control_report ∅ d' "bench/results/a" HW
    control_plain control_height eq_refl). reflexivity.
Defined.
